(** * ClawGame tournament engine: a shallow embedding of [api/game_engine.py],
      the request handlers and the background manager of [api/main.py].

    Conventions of the embedding.
    - A Python [str] is a [string], one [ascii] per character (code points
      below 256); [bytes] is a [list Z] of values in [0, 255].
    - A Python [int] is a [Z].
    - A [datetime] is a [Z] counting microseconds; [timedelta(seconds=n)] is
      [n * 1000000].
    - A call that raises is a computation that yields no value: [option] for
      the pure helpers, the [Outcome] type for code that works on the
      database session. *)

From Stdlib Require Import ZArith List String Ascii Bool Lia Permutation Sorted.
Import ListNotations.
Local Open Scope string_scope.
Local Open Scope Z_scope.

Set Implicit Arguments.

(* ================================================================== *)
(** ** Strings and bytes: the Python builtins the engine relies on      *)
(* ================================================================== *)

Module Py.

Definition ord (c : ascii) : Z := Z.of_N (N_of_ascii c).
Definition chr (z : Z) : ascii := ascii_of_N (Z.to_N z).

(** [str.replace("0x", "")]: every non-overlapping occurrence, scanning
    from the left. *)
Fixpoint replace_0x (s : string) : string :=
  match s with
  | EmptyString => EmptyString
  | String c rest =>
      match rest with
      | String c' rest' =>
          if (Ascii.eqb c "0" && Ascii.eqb c' "x")%bool
          then replace_0x rest'
          else String c (replace_0x rest)
      | EmptyString => String c EmptyString
      end
  end.

(** Value of a hexadecimal digit, either case. *)
Definition hexval (c : ascii) : option Z :=
  let n := ord c in
  if (48 <=? n) && (n <=? 57) then Some (n - 48)
  else if (97 <=? n) && (n <=? 102) then Some (n - 87)
  else if (65 <=? n) && (n <=? 70) then Some (n - 55)
  else None.

(** ASCII whitespace as [bytes.fromhex] skips it: space, \t, \n, \v, \f, \r. *)
Definition isspace (c : ascii) : bool :=
  let n := ord c in (n =? 32) || ((9 <=? n) && (n <=? 13)).

(** [bytes.fromhex]: whitespace is skipped in front of a byte, then two
    hexadecimal digits are required; anything else raises [ValueError]. *)
Fixpoint fromhex (s : string) : option (list Z) :=
  match s with
  | EmptyString => Some []
  | String c rest =>
      if isspace c then fromhex rest
      else
        match rest with
        | String c' rest' =>
            match hexval c, hexval c', fromhex rest' with
            | Some hi, Some lo, Some tl => Some (hi * 16 + lo :: tl)
            | _, _, _ => None
            end
        | EmptyString => None
        end
  end.

Definition hexdigit (n : Z) : ascii :=
  if n <? 10 then chr (48 + n) else chr (87 + n).

(** [bytes.hex()] / [hexdigest()]: two lower-case digits per byte. *)
Fixpoint hex (bs : list Z) : string :=
  match bs with
  | [] => EmptyString
  | b :: tl => String (hexdigit (b / 16)) (String (hexdigit (b mod 16)) (hex tl))
  end.

(** [str.lower()] on code points below 256: A-Z and the Latin-1 capitals. *)
Definition lower_char (c : ascii) : ascii :=
  let n := ord c in
  if ((65 <=? n) && (n <=? 90))
     || ((192 <=? n) && (n <=? 222) && negb (n =? 215))
  then chr (n + 32) else c.

Fixpoint lower (s : string) : string :=
  match s with
  | EmptyString => EmptyString
  | String c tl => String (lower_char c) (lower tl)
  end.

(** [int.to_bytes(2, "big")]: [OverflowError] outside [0, 65535]. *)
Definition to_bytes2 (n : Z) : option (list Z) :=
  if (0 <=? n) && (n <? 65536) then Some [n / 256; n mod 256] else None.

(** [int.from_bytes(bs, "big")]. *)
Definition from_bytes_big (bs : list Z) : Z :=
  fold_left (fun acc b => acc * 256 + b) bs 0.

(** [re.fullmatch("0x[a-fA-F0-9]{n}", s)], the shape pydantic enforces on
    hashes, salts and wallet addresses. *)
Fixpoint all_hex (s : string) : bool :=
  match s with
  | EmptyString => true
  | String c tl => match hexval c with Some _ => all_hex tl | None => false end
  end.

Definition is_0x_hex (n : nat) (s : string) : bool :=
  match s with
  | String "0" (String "x" body) => all_hex body && Nat.eqb (String.length body) n
  | _ => false
  end.

End Py.

(* ================================================================== *)
(** ** [hashlib.sha3_256]: Keccak-f[1600], rate 136, suffix 0x06        *)
(* ================================================================== *)

Module Sha3.

Definition w64 : Z := 2 ^ 64.

Definition rotl64 (v : Z) (n : Z) : Z :=
  Z.lor (Z.shiftl v n mod w64) (Z.shiftr v (64 - n)).

Definition lane (st : list Z) (x y : nat) : Z :=
  nth (x mod 5 + 5 * (y mod 5)) st 0.

Definition xor_list (l : list Z) : Z := fold_left Z.lxor l 0.

Definition idx5 : list nat := [0; 1; 2; 3; 4]%nat.

Definition grid (f : nat -> nat -> Z) : list Z :=
  flat_map (fun y => map (fun x => f x y) idx5) idx5.

Definition theta (st : list Z) : list Z :=
  let C := fun x => xor_list (map (fun y => lane st x y) idx5) in
  let D := fun x => Z.lxor (C (x + 4)%nat) (rotl64 (C (x + 1)%nat) 1) in
  grid (fun x y => Z.lxor (lane st x y) (D x)).

(** Rotation offsets, indexed [x + 5 * y]. *)
Definition rho_offsets : list Z :=
  [ 0;  1; 62; 28; 27;
   36; 44;  6; 55; 20;
    3; 10; 43; 25; 39;
   41; 45; 15; 21;  8;
   18;  2; 61; 56; 14].

(** rho and pi together: [B[y, 2x+3y] = rot(A[x, y], r[x, y])], read from
    the target side: the lane at (X, Y) comes from x = X + 3Y, y = X. *)
Definition rho_pi (st : list Z) : list Z :=
  grid (fun X Y =>
          let x := ((X + 3 * Y) mod 5)%nat in
          let y := X in
          rotl64 (lane st x y) (nth (x + 5 * y) rho_offsets 0)).

Definition chi (st : list Z) : list Z :=
  grid (fun x y =>
          Z.lxor (lane st x y)
                 (Z.land (Z.lxor (lane st (x + 1) y) (w64 - 1))
                         (lane st (x + 2) y))).

Definition round_constants : list Z :=
  [0x0000000000000001; 0x0000000000008082; 0x800000000000808A;
   0x8000000080008000; 0x000000000000808B; 0x0000000080000001;
   0x8000000080008081; 0x8000000000008009; 0x000000000000008A;
   0x0000000000000088; 0x0000000080008009; 0x000000008000000A;
   0x000000008000808B; 0x800000000000008B; 0x8000000000008089;
   0x8000000000008003; 0x8000000000008002; 0x8000000000000080;
   0x000000000000800A; 0x800000008000000A; 0x8000000080008081;
   0x8000000000008080; 0x0000000080000001; 0x8000000080008008].

Definition iota (rc : Z) (st : list Z) : list Z :=
  match st with
  | a :: tl => Z.lxor a rc :: tl
  | [] => []
  end.

Definition keccak_round (st : list Z) (rc : Z) : list Z :=
  iota rc (chi (rho_pi (theta st))).

Definition keccak_f (st : list Z) : list Z :=
  fold_left keccak_round round_constants st.

(** Eight bytes, little-endian, as one lane. *)
Definition lane_of_bytes (bs : list Z) : Z :=
  fold_right (fun b acc => b + 256 * acc) 0 bs.

Fixpoint bytes_of_lane (n : nat) (v : Z) : list Z :=
  match n with
  | O => []
  | S k => v mod 256 :: bytes_of_lane k (v / 256)
  end.

Fixpoint chunks (fuel : nat) (size : nat) (l : list Z) : list (list Z) :=
  match fuel with
  | O => []
  | S f =>
      match l with
      | [] => []
      | _ => firstn size l :: chunks f size (skipn size l)
      end
  end.

Definition rate : nat := 136.

(** Multi-rate padding with the SHA-3 domain suffix: 0x06 ... 0x80. *)
Definition pad (msg : list Z) : list Z :=
  let q := (rate - (List.length msg mod rate))%nat in
  if Nat.eqb q 1 then msg ++ [0x86]
  else msg ++ [0x06] ++ repeat 0 (q - 2) ++ [0x80].

Fixpoint xor_into (st : list Z) (blk : list Z) : list Z :=
  match st, blk with
  | s :: st', b :: blk' => Z.lxor s b :: xor_into st' blk'
  | _, _ => st
  end.

Definition absorb (st : list Z) (block : list Z) : list Z :=
  keccak_f (xor_into st (map lane_of_bytes (chunks 17 8 block))).

Definition sha3_256 (msg : list Z) : list Z :=
  let p := pad msg in
  let st := fold_left absorb (chunks (List.length p) rate p) (repeat 0 25) in
  flat_map (bytes_of_lane 8) (firstn 4 st).

End Sha3.

(* ================================================================== *)
(** ** Python containers: insertion-ordered [dict], [sorted]            *)
(* ================================================================== *)

(** A [dict] keyed by strings keeps its keys in insertion order; assigning
    to a key that is present overwrites the value in place. *)
Module Dict.

Definition t (V : Type) : Type := list (string * V).

Fixpoint set {V} (d : t V) (k : string) (v : V) : t V :=
  match d with
  | [] => [(k, v)]
  | (k', v') :: tl =>
      if String.eqb k' k then (k', v) :: tl else (k', v') :: set tl k v
  end.

Fixpoint get {V} (d : t V) (k : string) : option V :=
  match d with
  | [] => None
  | (k', v') :: tl => if String.eqb k' k then Some v' else get tl k
  end.

Definition mem {V} (d : t V) (k : string) : bool :=
  match get d k with Some _ => true | None => false end.

Definition keys {V} (d : t V) : list string := map fst d.

Definition len {V} (d : t V) : Z := Z.of_nat (List.length d).

End Dict.

(** [sorted(xs, key=...)]: a stable sort; [leb a b] says that the key of [a]
    is at most the key of [b]. *)
Section Sorting.

Variable A : Type.
Variable leb : A -> A -> bool.

Fixpoint insert (x : A) (l : list A) : list A :=
  match l with
  | [] => [x]
  | y :: tl => if leb x y then x :: l else y :: insert x tl
  end.

Definition sorted (l : list A) : list A := fold_right insert [] l.

End Sorting.

(** [l[:n]] and [l[n:]] for a non-negative [n]. *)
Definition slice_to {A} (n : Z) (l : list A) : list A := firstn (Z.to_nat n) l.
Definition slice_from {A} (n : Z) (l : list A) : list A := skipn (Z.to_nat n) l.

(** [x in l] for a list of strings. *)
Definition str_in (x : string) (l : list string) : bool :=
  existsb (String.eqb x) l.

(* ================================================================== *)
(** ** models.py: enumerations                                         *)
(* ================================================================== *)

Inductive TournamentState : Type :=
| OPEN | ACTIVE | COMMIT | REVEAL | RESOLVING | FINISHED | CANCELLED.

Inductive GameVariant : Type := CLASSIC | INVERSE | RANGE.

Definition TournamentState_eqb (a b : TournamentState) : bool :=
  match a, b with
  | OPEN, OPEN | ACTIVE, ACTIVE | COMMIT, COMMIT | REVEAL, REVEAL
  | RESOLVING, RESOLVING | FINISHED, FINISHED | CANCELLED, CANCELLED => true
  | _, _ => false
  end.


(* ================================================================== *)
(** ** models.py: the mapped classes                                   *)
(* ================================================================== *)

(** One record per mapped class, with the columns the engine, the handlers
    and the manager read or write (the columns [prize_pool], [prize_amount],
    [total_earnings] and [Agent.created_at] are touched by none of them and
    are left out).  [with_x v r] is the assignment [r.x = v]. *)

Module Agent.

(** class Agent (table agents). *)
Record t : Type := mk {
  id : Z;
  wallet_address : string;
  creator_address : string;
  name : string;
  api_key : string;
  status : string;
  tournaments_played : Z;
  tournaments_won : Z
}.

Definition with_status (v : string) (r : t) : t :=
  mk (id r) (wallet_address r) (creator_address r) (name r) (api_key r) v (tournaments_played r) (tournaments_won r).

Definition with_tournaments_played (v : Z) (r : t) : t :=
  mk (id r) (wallet_address r) (creator_address r) (name r) (api_key r) (status r) v (tournaments_won r).

Definition with_tournaments_won (v : Z) (r : t) : t :=
  mk (id r) (wallet_address r) (creator_address r) (name r) (api_key r) (status r) (tournaments_played r) v.

End Agent.

Module Tournament.

(** class Tournament (table tournaments); [entry_fee_game] is the integer whose decimal text the column stores, [finalist_addresses] the list whose JSON text it stores. *)
Record t : Type := mk {
  id : Z;
  chain_id : option Z;
  arena : Z;
  state : TournamentState;
  variant : GameVariant;
  entry_fee_game : Z;
  player_count : Z;
  current_round : Z;
  winner_address : option string;
  finalist_addresses : option (list string);
  created_at : Z;
  started_at : option Z;
  finished_at : option Z;
  phase_deadline : option Z;
  resolve_tx : option string
}.

Definition with_state (v : TournamentState) (r : t) : t :=
  mk (id r) (chain_id r) (arena r) v (variant r) (entry_fee_game r) (player_count r) (current_round r) (winner_address r) (finalist_addresses r) (created_at r) (started_at r) (finished_at r) (phase_deadline r) (resolve_tx r).

Definition with_player_count (v : Z) (r : t) : t :=
  mk (id r) (chain_id r) (arena r) (state r) (variant r) (entry_fee_game r) v (current_round r) (winner_address r) (finalist_addresses r) (created_at r) (started_at r) (finished_at r) (phase_deadline r) (resolve_tx r).

Definition with_current_round (v : Z) (r : t) : t :=
  mk (id r) (chain_id r) (arena r) (state r) (variant r) (entry_fee_game r) (player_count r) v (winner_address r) (finalist_addresses r) (created_at r) (started_at r) (finished_at r) (phase_deadline r) (resolve_tx r).

Definition with_winner_address (v : option string) (r : t) : t :=
  mk (id r) (chain_id r) (arena r) (state r) (variant r) (entry_fee_game r) (player_count r) (current_round r) v (finalist_addresses r) (created_at r) (started_at r) (finished_at r) (phase_deadline r) (resolve_tx r).

Definition with_finalist_addresses (v : option (list string)) (r : t) : t :=
  mk (id r) (chain_id r) (arena r) (state r) (variant r) (entry_fee_game r) (player_count r) (current_round r) (winner_address r) v (created_at r) (started_at r) (finished_at r) (phase_deadline r) (resolve_tx r).

Definition with_started_at (v : option Z) (r : t) : t :=
  mk (id r) (chain_id r) (arena r) (state r) (variant r) (entry_fee_game r) (player_count r) (current_round r) (winner_address r) (finalist_addresses r) (created_at r) v (finished_at r) (phase_deadline r) (resolve_tx r).

Definition with_finished_at (v : option Z) (r : t) : t :=
  mk (id r) (chain_id r) (arena r) (state r) (variant r) (entry_fee_game r) (player_count r) (current_round r) (winner_address r) (finalist_addresses r) (created_at r) (started_at r) v (phase_deadline r) (resolve_tx r).

Definition with_phase_deadline (v : option Z) (r : t) : t :=
  mk (id r) (chain_id r) (arena r) (state r) (variant r) (entry_fee_game r) (player_count r) (current_round r) (winner_address r) (finalist_addresses r) (created_at r) (started_at r) (finished_at r) v (resolve_tx r).

Definition with_resolve_tx (v : option string) (r : t) : t :=
  mk (id r) (chain_id r) (arena r) (state r) (variant r) (entry_fee_game r) (player_count r) (current_round r) (winner_address r) (finalist_addresses r) (created_at r) (started_at r) (finished_at r) (phase_deadline r) v.

End Tournament.

Module TournamentEntry.

(** class TournamentEntry (table tournament_entries). *)
Record t : Type := mk {
  id : Z;
  tournament_id : Z;
  agent_id : Z;
  agent_address : string;
  creator_address : string;
  is_alive : bool;
  final_rank : option Z;
  joined_at : Z
}.

Definition with_is_alive (v : bool) (r : t) : t :=
  mk (id r) (tournament_id r) (agent_id r) (agent_address r) (creator_address r) v (final_rank r) (joined_at r).

Definition with_final_rank (v : option Z) (r : t) : t :=
  mk (id r) (tournament_id r) (agent_id r) (agent_address r) (creator_address r) (is_alive r) v (joined_at r).

End TournamentEntry.

Module Round.

(** class Round (table rounds). *)
Record t : Type := mk {
  id : Z;
  tournament_id : Z;
  round_number : Z;
  secret_number : option Z;
  players_start : Z;
  players_end : Z;
  commit_deadline : option Z;
  reveal_deadline : option Z;
  resolved_at : option Z
}.

Definition with_secret_number (v : option Z) (r : t) : t :=
  mk (id r) (tournament_id r) (round_number r) v (players_start r) (players_end r) (commit_deadline r) (reveal_deadline r) (resolved_at r).

Definition with_players_end (v : Z) (r : t) : t :=
  mk (id r) (tournament_id r) (round_number r) (secret_number r) (players_start r) v (commit_deadline r) (reveal_deadline r) (resolved_at r).

Definition with_reveal_deadline (v : option Z) (r : t) : t :=
  mk (id r) (tournament_id r) (round_number r) (secret_number r) (players_start r) (players_end r) (commit_deadline r) v (resolved_at r).

Definition with_resolved_at (v : option Z) (r : t) : t :=
  mk (id r) (tournament_id r) (round_number r) (secret_number r) (players_start r) (players_end r) (commit_deadline r) (reveal_deadline r) v.

End Round.

Module RoundCommit.

(** class RoundCommit (table round_commits). *)
Record t : Type := mk {
  id : Z;
  round_id : Z;
  agent_address : string;
  commit_hash : string;
  bid : option Z;
  salt : option string;
  revealed : bool;
  eliminated : bool;
  distance : option Z;
  committed_at : Z;
  revealed_at : option Z
}.

Definition with_round_id (v : Z) (r : t) : t :=
  mk (id r) v (agent_address r) (commit_hash r) (bid r) (salt r) (revealed r) (eliminated r) (distance r) (committed_at r) (revealed_at r).

Definition with_bid (v : option Z) (r : t) : t :=
  mk (id r) (round_id r) (agent_address r) (commit_hash r) v (salt r) (revealed r) (eliminated r) (distance r) (committed_at r) (revealed_at r).

Definition with_salt (v : option string) (r : t) : t :=
  mk (id r) (round_id r) (agent_address r) (commit_hash r) (bid r) v (revealed r) (eliminated r) (distance r) (committed_at r) (revealed_at r).

Definition with_revealed (v : bool) (r : t) : t :=
  mk (id r) (round_id r) (agent_address r) (commit_hash r) (bid r) (salt r) v (eliminated r) (distance r) (committed_at r) (revealed_at r).

Definition with_eliminated (v : bool) (r : t) : t :=
  mk (id r) (round_id r) (agent_address r) (commit_hash r) (bid r) (salt r) (revealed r) v (distance r) (committed_at r) (revealed_at r).

Definition with_distance (v : option Z) (r : t) : t :=
  mk (id r) (round_id r) (agent_address r) (commit_hash r) (bid r) (salt r) (revealed r) (eliminated r) v (committed_at r) (revealed_at r).

Definition with_revealed_at (v : option Z) (r : t) : t :=
  mk (id r) (round_id r) (agent_address r) (commit_hash r) (bid r) (salt r) (revealed r) (eliminated r) (distance r) (committed_at r) v.

End RoundCommit.

(* ================================================================== *)
(** ** The database session                                            *)
(* ================================================================== *)

(** config.py, the game settings. *)
Record Config : Type := mkConfig {
  MAX_PLAYERS : Z;
  BID_MIN : Z;
  BID_MAX : Z;
  COMMIT_DURATION : Z;
  REVEAL_DURATION : Z;
  RESOLUTION_PAUSE : Z;
  CANCEL_DEADLINE : Z
}.

(** The values of [class Config]. *)
Definition default_config : Config :=
  mkConfig 25 1 1000 300 300 30 (7 * 86400).

Definition timedelta (seconds : Z) : Z := seconds * 1000000.

(** The rows of the five tables, each in insertion order.  Mapped objects
    are shared and mutable: an assignment to an attribute of a loaded object
    is an update of the row with that primary key, and a later read of the
    object sees it. *)
Record DB : Type := mkDB {
  agents : list Agent.t;
  tournaments : list Tournament.t;
  tournament_entries : list TournamentEntry.t;
  rounds : list Round.t;
  round_commits : list RoundCommit.t
}.

Definition empty_db : DB := mkDB [] [] [] [] [].

Inductive Exn : Type :=
| HTTPException (status_code : Z)
| MultipleResultsFound
| AttributeError
| ValueError
| OverflowError
| IndexError
| ExternalError.

(** The lines main.py hands to [logger]. *)
Inductive LogLine : Type :=
| CreatedTournament (arena : Z) (chain_id : Z)
| CreateFailed (arena : Z)
| CommitToReveal (tournament_id : Z) (round : Z)
| RoundResolved (tournament_id : Z) (round : Z) (type : string)
| OnChainResolveFailed (tournament_id : Z)
| PhaseError (tournament_id : Z)
| CancelledExpired (tournament_id : Z)
| OnChainCancelFailed (tournament_id : Z)
| ManagerError.

Inductive Outcome (A : Type) : Type :=
| Returned (a : A)
| Raised (e : Exn).
Arguments Returned {A} a.
Arguments Raised {A} e.

(** What running a piece of code on a session gives: it returned or raised,
    the session as its assignments left it (also when it raised), and the
    lines it logged. *)
Record Run (A : Type) : Type := mkRun {
  outcome : Outcome A;
  final : DB;
  logged : list LogLine
}.
Arguments mkRun {A} outcome final logged.

Definition M (A : Type) : Type := DB -> Run A.

Definition ret {A} (a : A) : M A := fun db => mkRun (Returned a) db [].

Definition bind {A B} (m : M A) (k : A -> M B) : M B :=
  fun db =>
    let r := m db in
    match outcome r with
    | Returned a =>
        let r' := k a (final r) in
        mkRun (outcome r') (final r') (logged r ++ logged r')%list
    | Raised e => mkRun (Raised e) (final r) (logged r)
    end.

Definition raise {A} (e : Exn) : M A := fun db => mkRun (Raised e) db [].

Definition gets {A} (f : DB -> A) : M A := fun db => mkRun (Returned (f db)) db [].

Definition modify (f : DB -> DB) : M unit := fun db => mkRun (Returned tt) (f db) [].

Definition logger (line : LogLine) : M unit := fun db => mkRun (Returned tt) db [line].

(** [try: body / except Exception: handler]. *)
Definition try_except (body : M unit) (handler : Exn -> M unit) : M unit :=
  fun db =>
    let r := body db in
    match outcome r with
    | Returned _ => r
    | Raised e =>
        let r' := handler e (final r) in
        mkRun (outcome r') (final r') (logged r ++ logged r')%list
    end.

Declare Scope session_scope.
Delimit Scope session_scope with session.
Notation "x <- m ;; k" := (bind m (fun x => k))
  (at level 61, m at next level, right associativity) : session_scope.
Notation "' pat <- m ;; k" := (bind m (fun x => match x with pat => k end))
  (at level 61, pat pattern, m at next level, right associativity) : session_scope.
Notation "m ;; k" := (bind m (fun _ => k))
  (at level 61, right associativity) : session_scope.
Local Open Scope session_scope.

(** [for x in xs: body(x)]. *)
Fixpoint for_each {A} (xs : list A) (body : A -> M unit) : M unit :=
  match xs with
  | [] => ret tt
  | x :: tl => body x ;; for_each tl body
  end.

(** A loop that carries local variables [acc] from one iteration to the next. *)
Fixpoint for_fold {A S} (xs : list A) (acc : S) (body : S -> A -> M S) : M S :=
  match xs with
  | [] => ret acc
  | x :: tl => acc' <- body acc x ;; for_fold tl acc' body
  end.

(** [if c: m]. *)
Definition when (c : bool) (m : M unit) : M unit := if c then m else ret tt.

(** [Result.scalar_one_or_none()]. *)
Definition scalar_one_or_none {A} (rows : list A) : M (option A) :=
  match rows with
  | [] => ret None
  | [x] => ret (Some x)
  | _ => raise MultipleResultsFound
  end.

(** Attribute access on the result of [db.get] or [scalar_one_or_none]:
    [None.x] raises. *)
Definition deref {A} (o : option A) : M A :=
  match o with
  | Some x => ret x
  | None => raise AttributeError
  end.

(** Autoincrement primary key of the next inserted row. *)
Definition next_id {A} (key : A -> Z) (rows : list A) : Z :=
  1 + fold_right Z.max 0 (map key rows).

Definition update_where {A} (p : A -> bool) (f : A -> A) (rows : list A) : list A :=
  map (fun x => if p x then f x else x) rows.

(** *** Table access *)

Definition with_agents v db :=
  mkDB v (tournaments db) (tournament_entries db) (rounds db) (round_commits db).
Definition with_tournaments v db :=
  mkDB (agents db) v (tournament_entries db) (rounds db) (round_commits db).
Definition with_tournament_entries v db :=
  mkDB (agents db) (tournaments db) v (rounds db) (round_commits db).
Definition with_rounds v db :=
  mkDB (agents db) (tournaments db) (tournament_entries db) v (round_commits db).
Definition with_round_commits v db :=
  mkDB (agents db) (tournaments db) (tournament_entries db) (rounds db) v.

(** [db.get(Tournament, id)] and [db.get(Agent, id)]. *)
Definition find_tournament (tid : Z) (db : DB) : option Tournament.t :=
  find (fun t => Tournament.id t =? tid) (tournaments db).

Definition get_tournament (tid : Z) : M (option Tournament.t) :=
  gets (find_tournament tid).

Definition get_agent_by_id (aid : Z) : M (option Agent.t) :=
  gets (fun db => find (fun a => Agent.id a =? aid) (agents db)).

(** [select(T).where(p)] followed by [.scalars().all()]. *)
Definition select_tournaments (p : Tournament.t -> bool) : M (list Tournament.t) :=
  gets (fun db => filter p (tournaments db)).
Definition select_entries (p : TournamentEntry.t -> bool) : M (list TournamentEntry.t) :=
  gets (fun db => filter p (tournament_entries db)).
Definition select_rounds (p : Round.t -> bool) : M (list Round.t) :=
  gets (fun db => filter p (rounds db)).
Definition select_commits (p : RoundCommit.t -> bool) : M (list RoundCommit.t) :=
  gets (fun db => filter p (round_commits db)).

(** [obj.attr = v] on a loaded object: the row with the object's key.  An
    object that [db.get(T, id)] returned has the key [id]. *)
Definition assign_agent (aid : Z) (f : Agent.t -> Agent.t) : M unit :=
  modify (fun db => with_agents (update_where (fun a => Agent.id a =? aid) f (agents db)) db).

Definition assign_tournament (tid : Z) (f : Tournament.t -> Tournament.t) : M unit :=
  modify (fun db =>
            with_tournaments
              (update_where (fun t => Tournament.id t =? tid) f (tournaments db)) db).

Definition assign_entry (eid : Z) (f : TournamentEntry.t -> TournamentEntry.t) : M unit :=
  modify (fun db =>
            with_tournament_entries
              (update_where (fun e => TournamentEntry.id e =? eid) f (tournament_entries db)) db).

Definition assign_round (rid : Z) (f : Round.t -> Round.t) : M unit :=
  modify (fun db => with_rounds (update_where (fun r => Round.id r =? rid) f (rounds db)) db).

Definition assign_commit (cid : Z) (f : RoundCommit.t -> RoundCommit.t) : M unit :=
  modify (fun db =>
            with_round_commits
              (update_where (fun c => RoundCommit.id c =? cid) f (round_commits db)) db).

(** The current value of an attribute of a loaded tournament. *)
Definition tournament_attr {A} (tid : Z) (attr : Tournament.t -> A) : M A :=
  t <- get_tournament tid ;;
  t <- deref t ;;
  ret (attr t).

(** [db.add(obj)] followed by the flush that gives the row its key; the
    result is the inserted row. *)
Definition add_tournament (mk : Z -> Tournament.t) : M Tournament.t :=
  fun db =>
    let row := mk (next_id Tournament.id (tournaments db)) in
    mkRun (Returned row) (with_tournaments (tournaments db ++ [row])%list db) [].

Definition add_entry (mk : Z -> TournamentEntry.t) : M TournamentEntry.t :=
  fun db =>
    let row := mk (next_id TournamentEntry.id (tournament_entries db)) in
    mkRun (Returned row) (with_tournament_entries (tournament_entries db ++ [row])%list db) [].

Definition add_round (mk : Z -> Round.t) : M Round.t :=
  fun db =>
    let row := mk (next_id Round.id (rounds db)) in
    mkRun (Returned row) (with_rounds (rounds db ++ [row])%list db) [].

Definition add_commit (mk : Z -> RoundCommit.t) : M RoundCommit.t :=
  fun db =>
    let row := mk (next_id RoundCommit.id (round_commits db)) in
    mkRun (Returned row) (with_round_commits (round_commits db ++ [row])%list db) [].

Definition is_some {A} (o : option A) : bool :=
  match o with Some _ => true | None => false end.

(* ================================================================== *)
(** ** game_engine.py: commit-reveal, randomness, elimination           *)
(* ================================================================== *)

Module GameEngine.

(** [compute_commit_hash(bid, salt)]; [None] when [to_bytes] or [fromhex]
    raises. *)
Definition compute_commit_hash (bid : Z) (salt : string) : option string :=
  match Py.to_bytes2 bid with
  | None => None
  | Some bid_bytes =>
      match Py.fromhex (Py.replace_0x salt) with
      | None => None
      | Some salt_bytes =>
          let data := (bid_bytes ++ salt_bytes)%list in
          Some ("0x" ++ Py.hex (Sha3.sha3_256 data))%string
      end
  end.

Definition verify_reveal (commit_hash : string) (bid : Z) (salt : string)
  : option bool :=
  match compute_commit_hash bid salt with
  | None => None
  | Some computed => Some (String.eqb (Py.lower computed) (Py.lower commit_hash))
  end.

(** The loop of [compute_secret]: [combined += bytes.fromhex(...)]. *)
Fixpoint combine_salts (combined : list Z) (salts : list string)
  : option (list Z) :=
  match salts with
  | [] => Some combined
  | salt :: tl =>
      match Py.fromhex (Py.replace_0x salt) with
      | None => None
      | Some bs => combine_salts (combined ++ bs)%list tl
      end
  end.

Definition compute_secret (salts : list string) : option Z :=
  match combine_salts [] (sorted String.leb salts) with
  | None => None
  | Some combined =>
      let hash_bytes := Sha3.sha3_256 combined in
      let secret := Py.from_bytes_big (slice_to 4 hash_bytes) mod 1000 + 1 in
      Some secret
  end.

Definition compute_distances (bids : Dict.t Z) (secret : Z)
           (variant : GameVariant) : Dict.t Z :=
  fold_left (fun distances '(addr, bid) =>
               Dict.set distances addr (Z.abs (bid - secret)))
            bids [].

(** Tuple comparison of the sort keys [(x[1], x[0])] and [(-x[1], x[0])]. *)
Definition key_leb (k1 k2 : Z * string) : bool :=
  (fst k1 <? fst k2) || ((fst k1 =? fst k2) && String.leb (snd k1) (snd k2)).

Definition classic_key (x : string * Z) : Z * string := (snd x, fst x).
Definition inverse_key (x : string * Z) : Z * string := (- snd x, fst x).

Definition by_key (key : string * Z -> Z * string) (a b : string * Z) : bool :=
  key_leb (key a) (key b).

Definition eliminate (distances : Dict.t Z) (variant : GameVariant)
  : list string * list string :=
  if Dict.len distances <=? 5 then (Dict.keys distances, [])
  else
    let sorted_players :=
      match variant with
      | INVERSE => sorted (by_key inverse_key) distances
      | _ => sorted (by_key classic_key) distances
      end in
    let survive_count := (Z.of_nat (List.length sorted_players) + 1) / 2 in
    let survivors := map fst (slice_to survive_count sorted_players) in
    let eliminated := map fst (slice_from survive_count sorted_players) in
    (survivors, eliminated).

Definition determine_final_ranking (distances : Dict.t Z)
           (variant : GameVariant) : list string :=
  let ranked :=
    match variant with
    | INVERSE => sorted (by_key inverse_key) distances
    | _ => sorted (by_key classic_key) distances
    end in
  map fst ranked.


(** *** Tournament flow *)

(** The dictionary [resolve_round] returns, by its ["type"]. *)
Inductive RoundResult : Type :=
| NoReveals (survivors : list string) (eliminated : list string)
| Final (secret : Z) (ranking : list string) (non_revealers : list string)
| Elimination (secret : Z) (survivors : list string)
              (eliminated : list string) (non_revealers : list string).

Definition result_type (r : RoundResult) : string :=
  match r with
  | NoReveals _ _ => "no_reveals"
  | Final _ _ _ => "final"
  | Elimination _ _ _ _ => "elimination"
  end.

(** [enumerate(l)]. *)
Definition enumerate {A} (l : list A) : list (Z * A) :=
  combine (map Z.of_nat (seq 0 (List.length l))) l.

Section Flow.

Variable config : Config.

(** [started] and [now] are the two readings of [datetime.utcnow()]. *)
Definition start_tournament (started now : Z) (tournament_id : Z) : M Round.t :=
  tournament <- get_tournament tournament_id ;;
  deref tournament ;;
  let tid := tournament_id in
  assign_tournament tid (Tournament.with_state ACTIVE) ;;
  assign_tournament tid (Tournament.with_started_at (Some started)) ;;
  assign_tournament tid (Tournament.with_current_round 1) ;;
  player_count <- tournament_attr tid Tournament.player_count ;;
  round1 <- add_round (fun id =>
              Round.mk id tournament_id 1 None player_count 0 None
                       (Some (now + timedelta (REVEAL_DURATION config))) None) ;;
  assign_tournament tid (Tournament.with_state REVEAL) ;;
  assign_tournament tid (Tournament.with_phase_deadline (Round.reveal_deadline round1)) ;;
  ret round1.

Definition start_new_round (now : Z) (tournament_id : Z) (alive_count : Z)
  : M Round.t :=
  tournament <- get_tournament tournament_id ;;
  deref tournament ;;
  let tid := tournament_id in
  assign_tournament tid
    (fun t => Tournament.with_current_round (Tournament.current_round t + 1) t) ;;
  current_round <- tournament_attr tid Tournament.current_round ;;
  new_round <- add_round (fun id =>
                 Round.mk id tournament_id current_round None alive_count 0
                          (Some (now + timedelta (COMMIT_DURATION config))) None None) ;;
  assign_tournament tid (Tournament.with_state COMMIT) ;;
  assign_tournament tid (Tournament.with_phase_deadline (Round.commit_deadline new_round)) ;;
  ret new_round.

Definition open_reveal_phase (now : Z) (round_obj : Round.t) : M unit :=
  let reveal_deadline := Some (now + timedelta (REVEAL_DURATION config)) in
  assign_round (Round.id round_obj) (Round.with_reveal_deadline reveal_deadline) ;;
  let tid := Round.tournament_id round_obj in
  tournament <- get_tournament tid ;;
  deref tournament ;;
  assign_tournament tid (Tournament.with_state REVEAL) ;;
  assign_tournament tid (Tournament.with_phase_deadline reveal_deadline).

(** The entry of [addr] in the tournament, as both [resolve_round] and
    [finish_tournament] query it. *)
Definition entry_of (tournament_id : Z) (addr : string)
  : M (option TournamentEntry.t) :=
  rows <- select_entries (fun e =>
            (TournamentEntry.tournament_id e =? tournament_id)
            && String.eqb (TournamentEntry.agent_address e) addr) ;;
  scalar_one_or_none rows.

(** The first loop of [resolve_round], over the commits of the round; the
    state carried along is (revealed_bids, revealed_salts, non_revealers). *)
Definition collect_reveals (commits : list RoundCommit.t)
  : M (Dict.t Z * list string * list string) :=
  for_fold commits ([], [], [])
    (fun '(revealed_bids, revealed_salts, non_revealers) c =>
       match RoundCommit.revealed c, RoundCommit.bid c, RoundCommit.salt c with
       | true, Some bid, Some salt =>
           ret (Dict.set revealed_bids (RoundCommit.agent_address c) bid,
                (revealed_salts ++ [salt])%list,
                non_revealers)
       | _, _, _ =>
           assign_commit (RoundCommit.id c) (RoundCommit.with_eliminated true) ;;
           ret (revealed_bids, revealed_salts,
                (non_revealers ++ [RoundCommit.agent_address c])%list)
       end).

(** [now] is the reading of [datetime.utcnow()] that becomes [resolved_at]. *)
Definition resolve_round (now : Z) (round_obj : Round.t) : M RoundResult :=
  let rid := Round.id round_obj in
  let tid := Round.tournament_id round_obj in
  tournament <- get_tournament tid ;;
  commits <- select_commits (fun c => RoundCommit.round_id c =? rid) ;;
  '(revealed_bids, revealed_salts, non_revealers) <- collect_reveals commits ;;
  match revealed_salts with
  | [] =>
      assign_round rid (Round.with_secret_number (Some 0)) ;;
      assign_round rid (Round.with_players_end 0) ;;
      assign_round rid (Round.with_resolved_at (Some now)) ;;
      ret (NoReveals [] non_revealers)
  | _ :: _ =>
      secret <- match compute_secret revealed_salts with
                | Some s => ret s
                | None => raise ValueError
                end ;;
      assign_round rid (Round.with_secret_number (Some secret)) ;;
      deref tournament ;;
      variant <- tournament_attr tid Tournament.variant ;;
      let distances := compute_distances revealed_bids secret variant in
      for_each commits (fun c =>
        match Dict.get distances (RoundCommit.agent_address c) with
        | Some d => assign_commit (RoundCommit.id c) (RoundCommit.with_distance (Some d))
        | None => ret tt
        end) ;;
      if Dict.len revealed_bids <=? 5 then
        variant <- tournament_attr tid Tournament.variant ;;
        let ranking := determine_final_ranking distances variant in
        assign_round rid (Round.with_players_end (Z.of_nat (List.length ranking))) ;;
        assign_round rid (Round.with_resolved_at (Some now)) ;;
        ret (Final secret ranking non_revealers)
      else
        variant <- tournament_attr tid Tournament.variant ;;
        let '(survivors, eliminated) := eliminate distances variant in
        for_each commits (fun c =>
          when (str_in (RoundCommit.agent_address c) eliminated)
               (assign_commit (RoundCommit.id c) (RoundCommit.with_eliminated true))) ;;
        for_each (eliminated ++ non_revealers)%list (fun addr =>
          entry <- entry_of tid addr ;;
          match entry with
          | Some e => assign_entry (TournamentEntry.id e) (TournamentEntry.with_is_alive false)
          | None => ret tt
          end) ;;
        assign_round rid (Round.with_players_end (Z.of_nat (List.length survivors))) ;;
        assign_round rid (Round.with_resolved_at (Some now)) ;;
        assign_tournament tid (Tournament.with_state RESOLVING) ;;
        ret (Elimination secret survivors (eliminated ++ non_revealers)%list non_revealers)
  end.

(** [now] is the reading of [datetime.utcnow()] that becomes [finished_at]. *)
Definition finish_tournament (now : Z) (tournament_id : Z) (ranking : list string)
  : M unit :=
  tournament <- get_tournament tournament_id ;;
  deref tournament ;;
  let tid := tournament_id in
  assign_tournament tid (Tournament.with_state FINISHED) ;;
  assign_tournament tid (Tournament.with_finished_at (Some now)) ;;
  assign_tournament tid (Tournament.with_winner_address (hd_error ranking)) ;;
  assign_tournament tid
    (Tournament.with_finalist_addresses
       (Some (if 1 <? Z.of_nat (List.length ranking)
              then slice_to 4 (slice_from 1 ranking) else []))) ;;
  for_each (enumerate (slice_to 5 ranking)) (fun '(i, addr) =>
    entry <- entry_of tournament_id addr ;;
    match entry with
    | Some e => assign_entry (TournamentEntry.id e) (TournamentEntry.with_final_rank (Some (i + 1)))
    | None => ret tt
    end) ;;
  match ranking with
  | [] => ret tt
  | winner :: _ =>
      winner_entry <- entry_of tournament_id winner ;;
      match winner_entry with
      | None => ret tt
      | Some e =>
          agent <- get_agent_by_id (TournamentEntry.agent_id e) ;;
          match agent with
          | None => ret tt
          | Some a =>
              assign_agent (Agent.id a)
                (fun a => Agent.with_tournaments_won (Agent.tournaments_won a + 1) a)
          end
      end
  end.

End Flow.

End GameEngine.

(* ================================================================== *)
(** ** main.py: request handlers and the background manager            *)
(* ================================================================== *)

(** blockchain.py is an external collaborator: what its calls answer is an
    input of the model.  [None] (or [false]) stands for a call that raises,
    [get_blockchain()] included. *)
Record Chain : Type := mkChain {
  (** [bc.contract] is set and [verify_player_joined] answered; [None] when
      the check is skipped. *)
  verify_player_joined : Z -> string -> option bool;
  (** [calculate_entry_fee_game] then [create_tournament]: entry fee and
      on-chain id. *)
  create_tournament : Z -> option (Z * Z);
  (** [resolve_tournament(chain_id, winner, finalists)]: the transaction hash. *)
  resolve_tournament : option Z -> string -> list string -> option string;
  (** The try block around [cancel_tournament] ran to its end. *)
  cancel_tournament : option Z -> bool
}.

Module Main.

Import GameEngine.

Record CommitRequest : Type := mkCommitRequest { req_commit_hash : string }.
Record RevealRequest : Type := mkRevealRequest { req_bid : Z; req_salt : string }.

(** The [Field] constraints pydantic checks before the handler runs. *)
Definition CommitRequest_valid (req : CommitRequest) : bool :=
  Py.is_0x_hex 64 (req_commit_hash req).

Definition RevealRequest_valid (req : RevealRequest) : bool :=
  (1 <=? req_bid req) && (req_bid req <=? 1000) && Py.is_0x_hex 64 (req_salt req).

(** [get_db]: the session of a request is committed when the handler
    returns and rolled back when it raises. *)
Definition get_db {A} (handler : M A) : M A :=
  fun db =>
    let r := handler db in
    match outcome r with
    | Returned _ => r
    | Raised e => mkRun (Raised e) db (logged r)
    end.

Section Server.

Variable config : Config.
Variable chain : Chain.

(** The agent is the one [get_agent] authenticated; [clock k] is the
    k-th reading of [datetime.utcnow()] during the call.  The answer is
    (player_count, started). *)
Definition join_tournament (clock : nat -> Z) (tournament_id : Z)
           (req : CommitRequest) (agent : Agent.t) : M (Z * bool) :=
  when (negb (CommitRequest_valid req)) (raise (HTTPException 422)) ;;
  tournament <- get_tournament tournament_id ;;
  match tournament with
  | None => raise (HTTPException 404)
  | Some tournament =>
      let tid := tournament_id in
      when (negb (TournamentState_eqb (Tournament.state tournament) OPEN))
           (raise (HTTPException 400)) ;;
      when (MAX_PLAYERS config <=? Tournament.player_count tournament)
           (raise (HTTPException 400)) ;;
      rows <- select_entries (fun e =>
                (TournamentEntry.tournament_id e =? tournament_id)
                && (TournamentEntry.agent_id e =? Agent.id agent)) ;;
      existing <- scalar_one_or_none rows ;;
      when (is_some existing) (raise (HTTPException 409)) ;;
      match Tournament.chain_id tournament with
      | Some chain_id =>
          match verify_player_joined chain chain_id (Agent.wallet_address agent) with
          | Some false => raise (HTTPException 402)
          | _ => ret tt
          end
      | None => ret tt
      end ;;
      add_entry (fun id =>
        TournamentEntry.mk id tournament_id (Agent.id agent)
                           (Agent.wallet_address agent) (Agent.creator_address agent)
                           true None (clock 0%nat)) ;;
      assign_tournament tid
        (fun t => Tournament.with_player_count (Tournament.player_count t + 1) t) ;;
      add_commit (fun id =>
        RoundCommit.mk id 0 (Agent.wallet_address agent) (req_commit_hash req)
                       None None false false None (clock 1%nat) None) ;;
      player_count <- tournament_attr tid Tournament.player_count ;;
      started <-
        (if MAX_PLAYERS config <=? player_count then
           round1 <- start_tournament config (clock 2%nat) (clock 3%nat) tournament_id ;;
           pending <- select_commits (fun c => RoundCommit.round_id c =? 0) ;;
           for_each pending (fun c =>
             check <- entry_of tournament_id (RoundCommit.agent_address c) ;;
             when (is_some check)
                  (assign_commit (RoundCommit.id c)
                                 (RoundCommit.with_round_id (Round.id round1)))) ;;
           ret true
         else ret false) ;;
      assign_agent (Agent.id agent)
        (fun a => Agent.with_tournaments_played (Agent.tournaments_played a + 1) a) ;;
      player_count <- tournament_attr tid Tournament.player_count ;;
      ret (player_count, started)
  end.

(** The round of the tournament with its current number. *)
Definition current_round_of (tournament_id : Z) (round_number : Z)
  : M (option Round.t) :=
  rows <- select_rounds (fun r =>
            (Round.tournament_id r =? tournament_id)
            && (Round.round_number r =? round_number)) ;;
  scalar_one_or_none rows.

(** The commit of an address in a round. *)
Definition commit_of (round_id : Z) (addr : string) : M (option RoundCommit.t) :=
  rows <- select_commits (fun c =>
            (RoundCommit.round_id c =? round_id)
            && String.eqb (RoundCommit.agent_address c) addr) ;;
  scalar_one_or_none rows.

(** [now] is the reading compared with the deadline, [committed_at] the
    one stored with the row.  The answer is the round number. *)
Definition submit_commit (now committed_at : Z) (tournament_id : Z)
           (req : CommitRequest) (agent : Agent.t) : M Z :=
  when (negb (CommitRequest_valid req)) (raise (HTTPException 422)) ;;
  tournament <- get_tournament tournament_id ;;
  match tournament with
  | None => raise (HTTPException 404)
  | Some tournament =>
      when (negb (TournamentState_eqb (Tournament.state tournament) COMMIT))
           (raise (HTTPException 400)) ;;
      rows <- select_entries (fun e =>
                (TournamentEntry.tournament_id e =? tournament_id)
                && String.eqb (TournamentEntry.agent_address e) (Agent.wallet_address agent)
                && TournamentEntry.is_alive e) ;;
      entry <- scalar_one_or_none rows ;;
      when (negb (is_some entry)) (raise (HTTPException 403)) ;;
      when (match Tournament.phase_deadline tournament with
            | Some deadline => deadline <? now
            | None => false
            end)
           (raise (HTTPException 400)) ;;
      current_round <- current_round_of tournament_id (Tournament.current_round tournament) ;;
      match current_round with
      | None => raise (HTTPException 500)
      | Some current_round =>
          existing <- commit_of (Round.id current_round) (Agent.wallet_address agent) ;;
          when (is_some existing) (raise (HTTPException 409)) ;;
          add_commit (fun id =>
            RoundCommit.mk id (Round.id current_round) (Agent.wallet_address agent)
                           (req_commit_hash req) None None false false None
                           committed_at None) ;;
          ret (Tournament.current_round tournament)
      end
  end.

(** [now] is the reading compared with the deadline, [revealed_at] the one
    stored with the commit.  The answer is (round, bid). *)
Definition submit_reveal (now revealed_at : Z) (tournament_id : Z)
           (req : RevealRequest) (agent : Agent.t) : M (Z * Z) :=
  when (negb (RevealRequest_valid req)) (raise (HTTPException 422)) ;;
  tournament <- get_tournament tournament_id ;;
  match tournament with
  | None => raise (HTTPException 404)
  | Some tournament =>
      when (negb (TournamentState_eqb (Tournament.state tournament) REVEAL))
           (raise (HTTPException 400)) ;;
      when (match Tournament.phase_deadline tournament with
            | Some deadline => deadline <? now
            | None => false
            end)
           (raise (HTTPException 400)) ;;
      current_round <- current_round_of tournament_id (Tournament.current_round tournament) ;;
      match current_round with
      | None => raise (HTTPException 500)
      | Some current_round =>
          commit <- commit_of (Round.id current_round) (Agent.wallet_address agent) ;;
          match commit with
          | None => raise (HTTPException 404)
          | Some commit =>
              when (RoundCommit.revealed commit) (raise (HTTPException 409)) ;;
              ok <- match verify_reveal (RoundCommit.commit_hash commit)
                                        (req_bid req) (req_salt req) with
                    | Some b => ret b
                    | None => raise ValueError
                    end ;;
              when (negb ok) (raise (HTTPException 400)) ;;
              let cid := RoundCommit.id commit in
              assign_commit cid (RoundCommit.with_bid (Some (req_bid req))) ;;
              assign_commit cid (RoundCommit.with_salt (Some (req_salt req))) ;;
              assign_commit cid (RoundCommit.with_revealed true) ;;
              assign_commit cid (RoundCommit.with_revealed_at (Some revealed_at)) ;;
              ret (Tournament.current_round tournament, req_bid req)
          end
      end
  end.

(** *** Background: tournament manager *)

(** [created arena] is the reading of [datetime.utcnow] that the default
    of the column [created_at] makes when the tournament of [arena] is
    inserted: one reading for each inserted row. *)
Definition ensure_open_tournaments (created : Z -> Z) : M unit :=
  for_each [0; 1; 2] (fun arena =>
    rows <- select_tournaments (fun t =>
              (Tournament.arena t =? arena)
              && TournamentState_eqb (Tournament.state t) OPEN) ;;
    existing <- scalar_one_or_none rows ;;
    when (negb (is_some existing))
      match create_tournament chain arena with
      | Some (entry_fee, chain_id) =>
          add_tournament (fun id =>
            Tournament.mk id (Some chain_id) arena OPEN CLASSIC entry_fee 0 0
                          None None (created arena) None None None None) ;;
          logger (CreatedTournament arena chain_id)
      | None => logger (CreateFailed arena)
      end).

(** The query of [process_phase_transitions]: in the commit or the reveal
    phase, with a deadline before [now] (a NULL deadline never is). *)
Definition due (now : Z) (t : Tournament.t) : bool :=
  match Tournament.state t with
  | COMMIT | REVEAL =>
      match Tournament.phase_deadline t with
      | Some deadline => deadline <? now
      | None => false
      end
  | _ => false
  end.

(** The try block of [process_phase_transitions] for one selected
    tournament, from the test of its state on: [current_round] is the
    round the query found.  [clock k] is the k-th reading of
    [datetime.utcnow()] made while the block runs. *)
Definition advance_phase (clock : nat -> Z) (tid : Z) (current_round : Round.t)
  : M unit :=
  state <- tournament_attr tid Tournament.state ;;
  match state with
  | COMMIT =>
      open_reveal_phase config (clock 0%nat) current_round ;;
      round_number <- tournament_attr tid Tournament.current_round ;;
      logger (CommitToReveal tid round_number)
  | REVEAL =>
      result <- resolve_round (clock 0%nat) current_round ;;
      round_number <- tournament_attr tid Tournament.current_round ;;
      logger (RoundResolved tid round_number (result_type result)) ;;
      match result with
      | Final _ ranking _ =>
          finish_tournament (clock 1%nat) tid ranking ;;
          try_except
            (chain_id <- tournament_attr tid Tournament.chain_id ;;
             winner <- match ranking with
                       | w :: _ => ret w
                       | [] => raise IndexError
                       end ;;
             match resolve_tournament chain chain_id winner
                                      (slice_to 4 (slice_from 1 ranking)) with
             | Some tx_hash =>
                 assign_tournament tid (Tournament.with_resolve_tx (Some tx_hash))
             | None => raise ExternalError
             end)
            (fun _ => logger (OnChainResolveFailed tid))
      | NoReveals _ _ =>
          finish_tournament (clock 1%nat) tid []
      | Elimination _ survivors _ _ =>
          let alive_count := Z.of_nat (List.length survivors) in
          start_new_round config (clock 1%nat) tid alive_count ;;
          ret tt
      end
  | _ => ret tt
  end.

(** The body of the try block: the query for the current round, then
    [continue] when there is none. *)
Definition phase_transition (clock : nat -> Z) (tid : Z) : M unit :=
  round_number <- tournament_attr tid Tournament.current_round ;;
  current_round <- current_round_of tid round_number ;;
  match current_round with
  | None => ret tt
  | Some current_round => advance_phase clock tid current_round
  end.

(** [now] is the reading at the top; [clock tid] gives the readings made
    while tournament [tid] is handled. *)
Definition process_phase_transitions (now : Z) (clock : Z -> nat -> Z) : M unit :=
  selected <- select_tournaments (due now) ;;
  for_each selected (fun tournament =>
    let tid := Tournament.id tournament in
    try_except (phase_transition (clock tid) tid)
               (fun _ => logger (PhaseError tid))).

Definition cancel_expired_tournaments (now : Z) : M unit :=
  let cutoff := now - timedelta (CANCEL_DEADLINE config) in
  selected <- select_tournaments (fun t =>
                TournamentState_eqb (Tournament.state t) OPEN
                && (Tournament.created_at t <? cutoff)) ;;
  for_each selected (fun t =>
    let tid := Tournament.id t in
    assign_tournament tid (Tournament.with_state CANCELLED) ;;
    logger (CancelledExpired tid) ;;
    chain_id <- tournament_attr tid Tournament.chain_id ;;
    when (negb (cancel_tournament chain chain_id))
         (logger (OnChainCancelFailed tid))).

(** One pass of the loop of [tournament_manager]: the three steps on one
    session, committed at the end; an exception that escapes them is
    logged and the session is dropped with its changes. *)
Definition tournament_manager (t_open : Z -> Z) (now : Z) (clock : Z -> nat -> Z)
           (t_cancel : Z) : M unit :=
  fun db =>
    let r := (ensure_open_tournaments t_open ;;
              process_phase_transitions now clock ;;
              cancel_expired_tournaments t_cancel) db in
    match outcome r with
    | Returned _ => r
    | Raised _ => mkRun (Returned tt) db (logged r ++ [ManagerError])%list
    end.

End Server.

End Main.
(* ================================================================== *)
(** ** main.py: the rate limiter                                       *)
(* ================================================================== *)

From Stdlib Require Import PrimFloat.

(** [class RateLimiter].  The readings of [time.time()] are binary64
    floats; [requests] is the [defaultdict(list)] of the times counted
    against each address. *)
Module RateLimiter.

Record t : Type := mk {
  max_per_minute : Z;
  requests : Dict.t (list float)
}.

(** [__init__]. *)
Definition init (max_per_minute : Z) : t := mk max_per_minute [].

(** [self.requests[ip]]: a key that is missing reads as the empty list. *)
Definition recorded (self : t) (ip : string) : list float :=
  match Dict.get (requests self) ip with
  | Some times => times
  | None => []
  end.

(** [is_limited(ip)], with [now] the reading of [time.time()]: the answer
    and the limiter as the call leaves it. *)
Definition is_limited (now : float) (ip : string) (self : t) : bool * t :=
  let window := PrimFloat.sub now 60%float in
  let recent := filter (fun t => PrimFloat.ltb window t) (recorded self ip) in
  let pruned := Dict.set (requests self) ip recent in
  if max_per_minute self <=? Z.of_nat (List.length recent)
  then (true, mk (max_per_minute self) pruned)
  else (false, mk (max_per_minute self) (Dict.set pruned ip (recent ++ [now])%list)).

End RateLimiter.

(** What [rate_limit_middleware] does with a request: hand it to the
    application, or answer 429 itself. *)
Inductive Verdict : Type := CallNext | TooManyRequests.

(** [rate_limit_middleware]: [path] is [request.url.path], [client] the
    host of [request.client] when there is one. *)
Definition rate_limit_middleware (now : float) (path : string) (client : option string)
           (rate_limiter : RateLimiter.t) : Verdict * RateLimiter.t :=
  if str_in path ["/health"; "/"; "/api/v1/health"] then (CallNext, rate_limiter)
  else
    let ip := match client with Some host => host | None => "unknown" end in
    let '(limited, rate_limiter') := RateLimiter.is_limited now ip rate_limiter in
    if limited then (TooManyRequests, rate_limiter') else (CallNext, rate_limiter').
(* ================================================================== *)
(** ** main.py: authentication and the agent endpoints                 *)
(* ================================================================== *)

(** [select(Agent).where(p)]. *)
Definition select_agents (p : Agent.t -> bool) : M (list Agent.t) :=
  gets (fun db => filter p (agents db)).

(** [db.add(agent)] and the flush: the columns [wallet_address] and
    [api_key] are unique, and an insert that repeats one of them raises
    (sqlalchemy's IntegrityError, an error of the database). *)
Definition add_agent (mk : Z -> Agent.t) : M Agent.t :=
  fun db =>
    let row := mk (next_id Agent.id (agents db)) in
    if existsb (fun a => String.eqb (Agent.wallet_address a) (Agent.wallet_address row)
                         || String.eqb (Agent.api_key a) (Agent.api_key row))
               (agents db)
    then mkRun (Raised ExternalError) db []
    else mkRun (Returned row) (with_agents (agents db ++ [row])%list db) [].

(** [s[-n:]] for a positive [n]. *)
Definition slice_last (n : nat) (s : string) : string :=
  substring (String.length s - n) n s.

Module Auth.

Record RegisterRequest : Type := mkRegisterRequest {
  req_wallet_address : string;
  req_creator_address : string;
  req_name : string
}.

Definition RegisterRequest_valid (req : RegisterRequest) : bool :=
  Py.is_0x_hex 40 (req_wallet_address req)
  && Py.is_0x_hex 40 (req_creator_address req)
  && (Nat.leb (String.length (req_name req)) 100).

(** [get_agent]: [x_api_key] is the header X-API-Key, [None] when the
    request has none (the framework answers 422). *)
Definition get_agent (x_api_key : option string) : M Agent.t :=
  match x_api_key with
  | None => raise (HTTPException 422)
  | Some x_api_key =>
      rows <- select_agents (fun a => String.eqb (Agent.api_key a) x_api_key) ;;
      agent <- scalar_one_or_none rows ;;
      match agent with
      | None => raise (HTTPException 401)
      | Some agent =>
          when (negb (String.eqb (Agent.status agent) "active"))
               (raise (HTTPException 403)) ;;
          ret agent
      end
  end.

(** An endpoint that declares [agent: Agent = Depends(get_agent)] and
    [db = Depends(get_db)]: one session for the request, the agent
    resolved before the handler runs. *)
Definition authenticated {A} (x_api_key : option string) (handler : Agent.t -> M A)
  : M A :=
  Main.get_db (agent <- get_agent x_api_key ;; handler agent).

(** [register_agent]; [api_key] is the value [secrets.token_hex(32)]
    gives.  The answer is (agent_id, api_key, wallet_address,
    creator_address). *)
Definition register_agent (api_key : string) (req : RegisterRequest)
  : M (Z * string * string * string) :=
  when (negb (RegisterRequest_valid req)) (raise (HTTPException 422)) ;;
  rows <- select_agents (fun a =>
            String.eqb (Agent.wallet_address a) (Py.lower (req_wallet_address req))) ;;
  existing <- scalar_one_or_none rows ;;
  when (is_some existing) (raise (HTTPException 409)) ;;
  agent <- add_agent (fun id =>
             Agent.mk id
                      (Py.lower (req_wallet_address req))
                      (Py.lower (req_creator_address req))
                      (if String.eqb (req_name req) ""
                       then "Agent-" ++ slice_last 6 (req_wallet_address req)
                       else req_name req)
                      api_key "active" 0 0) ;;
  ret (Agent.id agent, api_key, Agent.wallet_address agent, Agent.creator_address agent).

(** [update_agent_status]; the answer is the status of the agent. *)
Definition update_agent_status (status : string) (agent : Agent.t) : M string :=
  when (negb (str_in status ["active"; "paused"; "withdrawn"]))
       (raise (HTTPException 400)) ;;
  assign_agent (Agent.id agent) (Agent.with_status status) ;;
  ret status.

End Auth.

(* ================================================================== *)
(** ** blockchain.py: the arguments of the on-chain resolution         *)
(* ================================================================== *)

Module Blockchain.

Definition ZERO_ADDR : string := "0x0000000000000000000000000000000000000000".

(** [while len(padded) < 4: padded.append(ZERO_ADDR)]; the loop body runs
    at most four times. *)
Fixpoint pad (fuel : nat) (padded : list string) : list string :=
  match fuel with
  | O => padded
  | S fuel' =>
      if Nat.ltb (List.length padded) 4 then pad fuel' (padded ++ [ZERO_ADDR])%list
      else padded
  end.

(** What [resolve_tournament] hands to the contract after the winner: the
    four finalist slots (before checksumming) and [finalist_count]. *)
Definition resolve_arguments (finalists : list string) : list string * Z :=
  let real_finalists :=
    filter (fun f => negb (String.eqb f "") && negb (String.eqb f ZERO_ADDR))
           (slice_to 4 finalists) in
  let finalist_count := Z.of_nat (List.length real_finalists) in
  (pad 4 real_finalists, finalist_count).

End Blockchain.

(* ================================================================== *)
(** ** Auxiliary definitions of the properties                         *)
(* ================================================================== *)

(** The list [eliminate] and [determine_final_ranking] sort. *)
Definition sorted_players (distances : Dict.t Z) (variant : GameVariant)
  : list (string * Z) :=
  match variant with
  | INVERSE => sorted (GameEngine.by_key GameEngine.inverse_key) distances
  | _ => sorted (GameEngine.by_key GameEngine.classic_key) distances
  end.

(** Sample data. *)
Definition six_distances : Dict.t Z :=
  [("0xa1", 30); ("0xa2", 10); ("0xa3", 30); ("0xa4", 0); ("0xa5", 999); ("0xa6", 10)].

(** The scenario of the specification. *)
Definition scenario_bids : Dict.t Z :=
  [("p1", 400); ("p2", 550); ("p3", 500); ("p4", 100);
   ("p5", 900); ("p6", 480); ("p7", 520); ("p8", 999)].

Definition scenario_distances : Dict.t Z :=
  [("p1", 100); ("p2", 50); ("p3", 0); ("p4", 400);
   ("p5", 400); ("p6", 20); ("p7", 20); ("p8", 499)].

Definition salt_1 : string :=
  "0x00000000000000000000000000000000000000000000000000000000000000ab".
Definition salt_2 : string :=
  "0x1111111111111111111111111111111111111111111111111111111111111111".
Definition salt_3 : string :=
  "0xDEADBEEFdeadbeef0123456789abcdefDEADBEEFdeadbeef0123456789abcdef".

(** A byte. *)
Definition is_byte (b : Z) : Prop := 0 <= b < 256.

(** The bytes [compute_commit_hash] hashes: [uint16(bid) || bytes32(salt)]. *)
Definition packed (bid : Z) (salt : string) : option (list Z) :=
  match Py.to_bytes2 bid, Py.fromhex (Py.replace_0x salt) with
  | Some bid_bytes, Some salt_bytes => Some (bid_bytes ++ salt_bytes)%list
  | _, _ => None
  end.

(** The values one bit away from a sixteen-bit bid, the byte strings one
    bit away from a byte string, and the text of a salt with given bytes. *)
Definition bid_flips (bid : Z) : list Z :=
  map (fun k => Z.lxor bid (2 ^ Z.of_nat k)) (seq 0 16).

Fixpoint byte_flips (bs : list Z) : list (list Z) :=
  match bs with
  | [] => []
  | b :: tl =>
      (map (fun k => Z.lxor b (2 ^ Z.of_nat k) :: tl) (seq 0 8)
       ++ map (cons b) (byte_flips tl))%list
  end.

Definition salt_of_bytes (bs : list Z) : string := ("0x" ++ Py.hex bs)%string.

(** The commitment to the bid 500 with [salt_1], the same text with one
    letter in upper case, and [salt_1] with its last letter in upper case. *)
Definition hash_1 : string :=
  "0x92caad6cc8e6f9fc7cb7100401c3472503eb5da6d34a68f58b828aa287bb2973".
Definition hash_1_flipped : string :=
  "0x92cAad6cc8e6f9fc7cb7100401c3472503eb5da6d34a68f58b828aa287bb2973".
Definition salt_1_flipped : string :=
  "0x00000000000000000000000000000000000000000000000000000000000000aB".

(** A commit counts as a reveal for [resolve_round] when the flag is set and
    both the bid and the salt are stored. *)
Definition has_reveal (c : RoundCommit.t) : bool :=
  RoundCommit.revealed c && is_some (RoundCommit.bid c) && is_some (RoundCommit.salt c).

(** The commits of a round, as [resolve_round] selects them. *)
Definition commits_of_round (rid : Z) (db : DB) : list RoundCommit.t :=
  filter (fun c => RoundCommit.round_id c =? rid) (round_commits db).

(** [assign_commit] for every commit of [cs] in turn, as a loop does it. *)
Definition mark_eliminated (cs : list RoundCommit.t) (rows : list RoundCommit.t)
  : list RoundCommit.t :=
  fold_left (fun rows c =>
               update_where (fun c' => RoundCommit.id c' =? RoundCommit.id c)
                            (RoundCommit.with_eliminated true) rows)
            cs rows.

(** What the no-reveal branch of [resolve_round] assigns to the round. *)
Definition void_round (now : Z) (r : Round.t) : Round.t :=
  Round.with_resolved_at (Some now)
    (Round.with_players_end 0 (Round.with_secret_number (Some 0) r)).

(** A session with one tournament in its reveal phase, whose round 1 has two
    commits and no reveal. *)
Definition sample_agent (id : Z) (wallet : string) : Agent.t :=
  Agent.mk id wallet "0xc0" "agent" "key" "active" 1 0.

Definition sample_entry (id tournament_id agent_id : Z) (wallet : string)
  : TournamentEntry.t :=
  TournamentEntry.mk id tournament_id agent_id wallet "0xc0" true None 0.

Definition sample_tournament (id : Z) (state : TournamentState) (round : Z)
           (deadline : option Z) : Tournament.t :=
  Tournament.mk id (Some (100 + id)) 0 state CLASSIC 1000 8 round None None 0 (Some 1)
                None deadline None.

Definition unrevealed_commit (id round_id : Z) (wallet hash : string) : RoundCommit.t :=
  RoundCommit.mk id round_id wallet hash None None false false None 5 None.

Definition revealed_commit (id round_id : Z) (wallet hash : string) (bid : Z)
           (salt : string) : RoundCommit.t :=
  RoundCommit.mk id round_id wallet hash (Some bid) (Some salt) true false None 5 (Some 6).

Definition round_1 : Round.t := Round.mk 1 1 1 None 8 0 None (Some 1000) None.

Definition silent_db : DB :=
  mkDB [sample_agent 1 "0xa1"; sample_agent 2 "0xa2"]
       [sample_tournament 1 REVEAL 1 (Some 1000)]
       [sample_entry 1 1 1 "0xa1"; sample_entry 2 1 2 "0xa2"]
       [round_1]
       [unrevealed_commit 1 1 "0xa1" hash_1; unrevealed_commit 2 1 "0xa2" hash_1].

(** Code [m] keeps the relation [R] between the session it starts from and
    the session it leaves, whether it returns or raises. *)
Definition preserves {A} (R : DB -> DB -> Prop) (m : M A) : Prop :=
  forall db, R db (final (m db)).

(** Code that leaves the session as it found it whenever it raises, and
    code that always returns. *)
Definition unchanged_on_raise {A} (m : M A) : Prop :=
  forall db e, outcome (m db) = Raised e -> final (m db) = db.

Definition never_raises {A} (m : M A) : Prop :=
  forall db, exists a, outcome (m db) = Returned a.

(** What a successful reveal assigns to the commit. *)
Definition reveal_fields (req : Main.RevealRequest) (revealed_at : Z)
           (c : RoundCommit.t) : RoundCommit.t :=
  RoundCommit.with_revealed_at (Some revealed_at)
    (RoundCommit.with_revealed true
       (RoundCommit.with_salt (Some (Main.req_salt req))
          (RoundCommit.with_bid (Some (Main.req_bid req)) c))).

(** The session [silent_db] seen by the agent with wallet 0xa1, who committed
    to the bid 500 with [salt_1]. *)
Definition agent_a1 : Agent.t := sample_agent 1 "0xa1".
Definition wrong_reveal : Main.RevealRequest := Main.mkRevealRequest 400 salt_1.
Definition right_reveal : Main.RevealRequest := Main.mkRevealRequest 500 salt_1.

(** The deadline test of the two submission handlers: [now] is after the
    deadline of the phase. *)
Definition past_deadline (t : Tournament.t) (now : Z) : bool :=
  match Tournament.phase_deadline t with
  | Some deadline => deadline <? now
  | None => false
  end.

(** The rounds of a tournament with a given number, and the commits of an
    address in a round, as the handlers and the manager select them. *)
Definition rounds_numbered (tournament_id round_number : Z) (db : DB) : list Round.t :=
  filter (fun r => (Round.tournament_id r =? tournament_id)
                   && (Round.round_number r =? round_number))
         (rounds db).

Definition commits_by (round_id : Z) (addr : string) (db : DB) : list RoundCommit.t :=
  filter (fun c => (RoundCommit.round_id c =? round_id)
                   && String.eqb (RoundCommit.agent_address c) addr)
         (round_commits db).

(** *** Vocabulary of the scheduler properties *)

(** What identifies a round for the queries of main.py. *)
Definition round_key (r : Round.t) : Z * Z * Z :=
  (Round.id r, Round.tournament_id r, Round.round_number r).

(** The tournaments other than [tid]. *)
Definition others (tid : Z) (db : DB) : list Tournament.t :=
  filter (fun t => negb (Tournament.id t =? tid)) (tournaments db).

(** [frame tid db db']: going from [db] to [db'] touched no tournament but
    [tid], kept every key, and added rounds to [tid] only. *)
Definition frame (tid : Z) (db db' : DB) : Prop :=
  map Tournament.id (tournaments db') = map Tournament.id (tournaments db)
  /\ others tid db' = others tid db
  /\ exists extra,
      map round_key (rounds db') = (map round_key (rounds db) ++ extra)%list
      /\ Forall (fun k => snd (fst k) = tid) extra.





(** The primary key of [tournaments]. *)
Definition unique_ids (db : DB) : Prop := NoDup (map Tournament.id (tournaments db)).



Definition to_commit (deadline : Z) (t : Tournament.t) : Tournament.t :=
  Tournament.with_phase_deadline (Some deadline)
    (Tournament.with_state COMMIT
       (Tournament.with_current_round (Tournament.current_round t + 1) t)).

Definition to_finished (now : Z) (ranking : list string) (t : Tournament.t)
  : Tournament.t :=
  Tournament.with_finalist_addresses
    (Some (if 1 <? Z.of_nat (List.length ranking)
           then slice_to 4 (slice_from 1 ranking) else []))
    (Tournament.with_winner_address (hd_error ranking)
       (Tournament.with_finished_at (Some now)
          (Tournament.with_state FINISHED t))).

(** The round [start_new_round] inserts. *)
Definition new_round_row (config : Config) (now tid alive_count : Z)
           (t : Tournament.t) (db : DB) : Round.t :=
  Round.mk (next_id Round.id (rounds db)) tid (Tournament.current_round t + 1)
           None alive_count 0 (Some (now + timedelta (COMMIT_DURATION config)))
           None None.

(** The test of [rounds_numbered], on the key of a round. *)
Definition key_numbered (tid n : Z) (k : Z * Z * Z) : bool :=
  (snd (fst k) =? tid) && (snd k =? n).


(** One iteration of the loop of [process_phase_transitions]. *)
Definition tick_iteration (config : Config) (chain : Chain) (clock : Z -> nat -> Z)
           (tournament : Tournament.t) : M unit :=
  let tid := Tournament.id tournament in
  try_except (Main.phase_transition config chain (clock tid) tid)
             (fun _ => logger (PhaseError tid)).





(** A session for the scheduler: tournament 1 is in its reveal phase with six
    reveals and two silent commits, tournament 2 in a commit phase,
    tournament 3 in a reveal phase without any reveal, tournament 4 open.
    The three deadlines are over at time 2000. *)
Definition wallets : list string :=
  ["0xa1"; "0xa2"; "0xa3"; "0xa4"; "0xa5"; "0xa6"; "0xa7"; "0xa8"].

Definition salt_of (wallet : string) : string :=
  ("0x00000000000000000000000000000000000000000000000000000000000000"
     ++ substring 2 2 wallet)%string.

Definition busy_db : DB :=
  mkDB
    (map (fun '(i, w) => sample_agent (1 + i) w) (GameEngine.enumerate wallets))
    [sample_tournament 1 REVEAL 1 (Some 1000);
     sample_tournament 2 COMMIT 2 (Some 900);
     sample_tournament 3 REVEAL 1 (Some 500);
     sample_tournament 4 OPEN 0 None]
    (map (fun '(i, w) => sample_entry (1 + i) 1 (1 + i) w) (GameEngine.enumerate wallets)
     ++ [sample_entry 9 3 1 "0xa1"])%list
    [round_1;
     Round.mk 2 2 2 None 4 0 (Some 900) None None;
     Round.mk 3 3 1 None 8 0 None (Some 500) None]
    ([revealed_commit 1 1 "0xa1" hash_1 400 (salt_of "0xa1");
      revealed_commit 2 1 "0xa2" hash_1 550 (salt_of "0xa2");
      revealed_commit 3 1 "0xa3" hash_1 500 (salt_of "0xa3");
      unrevealed_commit 4 1 "0xa4" hash_1;
      revealed_commit 5 1 "0xa5" hash_1 900 (salt_of "0xa5");
      revealed_commit 6 1 "0xa6" hash_1 480 (salt_of "0xa6");
      revealed_commit 7 1 "0xa7" hash_1 520 (salt_of "0xa7");
      unrevealed_commit 8 1 "0xa8" hash_1;
      unrevealed_commit 9 3 "0xa1" hash_1])%list.

Definition sample_chain : Chain :=
  mkChain (fun _ _ => Some true)
          (fun arena => Some (1000, 50 + arena))
          (fun _ _ _ => Some "0x7e57")
          (fun _ => true).

(** A clock that advances by one microsecond per reading, from [start]. *)
Definition ticking_clock (start : Z) : Z -> nat -> Z :=
  fun _ k => start + Z.of_nat k.

(** *** The deadline invariant *)

(** What the code keeps true of the phase deadline of a tournament: none
    while open or cancelled, one while in the commit or the reveal phase. *)
Definition deadline_inv (t : Tournament.t) : Prop :=
  match Tournament.state t with
  | OPEN | CANCELLED => Tournament.phase_deadline t = None
  | COMMIT | REVEAL => Tournament.phase_deadline t <> None
  | ACTIVE | RESOLVING | FINISHED => True
  end.

Definition deadlines_ok (db : DB) : Prop :=
  unique_ids db /\ Forall deadline_inv (tournaments db).






(** The operations that change a session: the three submission handlers,
    each behind [get_db], the three steps of the manager, and a whole pass
    of the manager. *)
Inductive step (config : Config) (chain : Chain) : DB -> DB -> Prop :=
| step_join clock tid req agent db :
    step config chain db
         (final (Main.get_db (Main.join_tournament config chain clock tid req agent) db))
| step_commit now committed_at tid req agent db :
    step config chain db
         (final (Main.get_db (Main.submit_commit now committed_at tid req agent) db))
| step_reveal now revealed_at tid req agent db :
    step config chain db
         (final (Main.get_db (Main.submit_reveal now revealed_at tid req agent) db))
| step_ensure_open created db :
    step config chain db (final (Main.ensure_open_tournaments chain created db))
| step_tick now clock db :
    step config chain db (final (Main.process_phase_transitions config chain now clock db))
| step_cancel now db :
    step config chain db (final (Main.cancel_expired_tournaments config chain now db))
| step_manager t_open now clock t_cancel db :
    step config chain db
         (final (Main.tournament_manager config chain t_open now clock t_cancel db)).

(** *** Vocabulary of the further properties *)

(** The sort key of [eliminate] and [determine_final_ranking] for a variant. *)
Definition variant_key (variant : GameVariant) : string * Z -> Z * string :=
  match variant with
  | INVERSE => GameEngine.inverse_key
  | _ => GameEngine.classic_key
  end.

(** [a] is ranked before [b]: strictly better distance for the variant, or
    the same distance and the address that is not greater. *)
Definition ranked_before (variant : GameVariant) (a : string) (da : Z)
           (b : string) (db : Z) : Prop :=
  match variant with
  | INVERSE => db < da \/ (db = da /\ String.leb a b = true)
  | _ => da < db \/ (da = db /\ String.leb a b = true)
  end.

(** A limiter that answers a sequence of calls of [is_limited], each with
    the reading of the clock and the address: the answers, and the limiter
    after the last call. *)
Fixpoint serve (calls : list (float * string)) (limiter : RateLimiter.t)
  : list bool * RateLimiter.t :=
  match calls with
  | [] => ([], limiter)
  | (now, ip) :: tl =>
      let '(limited, limiter') := RateLimiter.is_limited now ip limiter in
      let '(answers, last) := serve tl limiter' in
      (limited :: answers, last)
  end.

(** The address [rate_limit_middleware] counts a request against. *)
Definition client_ip (client : option string) : string :=
  match client with Some host => host | None => "unknown" end.

(** The test of [is_limited] on a recorded time: later than sixty seconds
    before [now]. *)
Definition in_window (now : float) (t : float) : bool :=
  PrimFloat.ltb (PrimFloat.sub now 60%float) t.

(** Sample data for the agent endpoints: a registration whose wallet has
    capital letters and no name, and a session with one active agent. *)
Definition alice_request : Auth.RegisterRequest :=
  Auth.mkRegisterRequest "0xAbCdEf0123456789aBcDeF0123456789ABCDEF01"
                         "0x00000000000000000000000000000000000000c0" "".

Definition alice_again : Auth.RegisterRequest :=
  Auth.mkRegisterRequest "0xabcdef0123456789abcdef0123456789abcdef01"
                         "0x00000000000000000000000000000000000000c1" "alice".

Definition bob : Agent.t :=
  Agent.mk 7 "0xb0b" "0xc0" "bob" "bob-key" "active" 0 0.

Definition bob_db : DB := mkDB [bob] [] [] [] [].

(** The test of [resolve_tournament] on a finalist: a non-empty address
    other than the zero address. *)
Definition real_finalist (f : string) : bool :=
  negb (String.eqb f "") && negb (String.eqb f Blockchain.ZERO_ADDR).

(** The entries [submit_commit] selects: of the tournament, of the address,
    and alive. *)
Definition alive_entries (tid : Z) (addr : string) (db : DB) : list TournamentEntry.t :=
  filter (fun e => (TournamentEntry.tournament_id e =? tid)
                   && String.eqb (TournamentEntry.agent_address e) addr
                   && TournamentEntry.is_alive e)
         (tournament_entries db).

(** The row [submit_commit] adds. *)
Definition new_commit (round_id : Z) (addr hash : string) (committed_at : Z) (db : DB)
  : RoundCommit.t :=
  RoundCommit.mk (next_id RoundCommit.id (round_commits db)) round_id addr hash
                 None None false false None committed_at None.

(** A session with tournament 5 in the commit phase of its round 2, the
    agent with wallet 0xa1 alive in it. *)
Definition commit_db : DB :=
  mkDB [sample_agent 1 "0xa1"]
       [sample_tournament 5 COMMIT 2 (Some 1000)]
       [sample_entry 1 5 1 "0xa1"]
       [Round.mk 3 5 2 None 4 0 (Some 1000) None None]
       [].

(** The query of [cancel_expired_tournaments] at [now]: open, and created
    before the cutoff. *)
Definition expired_open (config : Config) (now : Z) (t : Tournament.t) : bool :=
  TournamentState_eqb (Tournament.state t) OPEN
  && (Tournament.created_at t <? now - timedelta (CANCEL_DEADLINE config)).

(** One iteration of the loop of [cancel_expired_tournaments]. *)
Definition cancel_iteration (chain : Chain) (t : Tournament.t) : M unit :=
  (let tid := Tournament.id t in
   assign_tournament tid (Tournament.with_state CANCELLED) ;;
   logger (CancelledExpired tid) ;;
   chain_id <- tournament_attr tid Tournament.chain_id ;;
   when (negb (cancel_tournament chain chain_id))
        (logger (OnChainCancelFailed tid)))%session.

(** The open tournaments of an arena, as [ensure_open_tournaments] selects
    them, and the tournament it creates. *)
Definition open_in (arena : Z) (db : DB) : list Tournament.t :=
  filter (fun t => (Tournament.arena t =? arena)
                   && TournamentState_eqb (Tournament.state t) OPEN)
         (tournaments db).

Definition created_tournament (id chain_id arena entry_fee now : Z) : Tournament.t :=
  Tournament.mk id (Some chain_id) arena OPEN CLASSIC entry_fee 0 0
                None None now None None None None.

(** A tournament the calls of the API and the manager leave alone: it
    is neither open nor in a commit or reveal phase. *)
Definition at_rest (t : Tournament.t) : bool :=
  match Tournament.state t with
  | OPEN | COMMIT | REVEAL => false
  | ACTIVE | RESOLVING | FINISHED | CANCELLED => true
  end.

(** One iteration of the loop of [ensure_open_tournaments]. *)
Definition ensure_iteration (chain : Chain) (created : Z -> Z) (arena : Z) : M unit :=
  (rows <- select_tournaments (fun t =>
             (Tournament.arena t =? arena)
             && TournamentState_eqb (Tournament.state t) OPEN) ;;
   existing <- scalar_one_or_none rows ;;
   when (negb (is_some existing))
     match create_tournament chain arena with
     | Some (entry_fee, chain_id) =>
         add_tournament (fun id =>
           Tournament.mk id (Some chain_id) arena OPEN CLASSIC entry_fee 0 0
                         None None (created arena) None None None None) ;;
         logger (CreatedTournament arena chain_id)
     | None => logger (CreateFailed arena)
     end)%session.

(** What [ensure_open_tournaments] leaves in an arena: the open tournament
    that was there, or else the one it created when the chain answered,
    stamped with the reading made when it was inserted. *)
Definition ensured (chain : Chain) (created : Z -> Z) (arena : Z)
           (before after : list Tournament.t) : Prop :=
  match before with
  | [] =>
      match create_tournament chain arena with
      | Some (entry_fee, chain_id) =>
          exists id, after = [created_tournament id chain_id arena entry_fee (created arena)]
      | None => after = []
      end
  | _ => after = before
  end.

(** [rests db db']: going from [db] to [db'] keeps the tournament ids
    unique and leaves every tournament that is at rest exactly as it is. *)
Definition rests (db db' : DB) : Prop :=
  unique_ids db ->
  unique_ids db'
  /\ forall tid t, find_tournament tid db = Some t -> at_rest t = true ->
                   find_tournament tid db' = Some t.

(** The tournaments are the same rows. *)
Definition same_tournaments (db db' : DB) : Prop := tournaments db' = tournaments db.

(** Rows were appended to the tournaments, with ids that keep them unique. *)
Definition grows (db db' : DB) : Prop :=
  (exists extra, tournaments db' = (tournaments db ++ extra)%list)
  /\ (unique_ids db -> unique_ids db').

(** A session with one finished tournament. *)
Definition rest_db : DB :=
  mkDB [] [sample_tournament 9 FINISHED 1 (Some 1000)] [] [] [].

(** What the scheduler keeps of a commitment and of an entry: every column
    but [eliminated] and [distance] (of an entry: but [is_alive] and
    [final_rank]), and a flag that says "out" stays as it is. *)
Definition commit_kept (c c' : RoundCommit.t) : Prop :=
  RoundCommit.id c' = RoundCommit.id c
  /\ RoundCommit.round_id c' = RoundCommit.round_id c
  /\ RoundCommit.agent_address c' = RoundCommit.agent_address c
  /\ RoundCommit.commit_hash c' = RoundCommit.commit_hash c
  /\ RoundCommit.bid c' = RoundCommit.bid c
  /\ RoundCommit.salt c' = RoundCommit.salt c
  /\ RoundCommit.revealed c' = RoundCommit.revealed c
  /\ RoundCommit.committed_at c' = RoundCommit.committed_at c
  /\ RoundCommit.revealed_at c' = RoundCommit.revealed_at c
  /\ (RoundCommit.eliminated c = true -> RoundCommit.eliminated c' = true).

Definition entry_kept (e e' : TournamentEntry.t) : Prop :=
  TournamentEntry.id e' = TournamentEntry.id e
  /\ TournamentEntry.tournament_id e' = TournamentEntry.tournament_id e
  /\ TournamentEntry.agent_id e' = TournamentEntry.agent_id e
  /\ TournamentEntry.agent_address e' = TournamentEntry.agent_address e
  /\ TournamentEntry.creator_address e' = TournamentEntry.creator_address e
  /\ TournamentEntry.joined_at e' = TournamentEntry.joined_at e
  /\ (TournamentEntry.is_alive e = false -> TournamentEntry.is_alive e' = false).

Definition records_kept (db db' : DB) : Prop :=
  Forall2 commit_kept (round_commits db) (round_commits db')
  /\ Forall2 entry_kept (tournament_entries db) (tournament_entries db').

(** *** Vocabulary of the resolution *)

(** The commits of a round that count as reveals for [resolve_round], and
    what its first loop collects from them: the bids by address, the salts,
    and the addresses of the others. *)
Definition reveals (commits : list RoundCommit.t) : list RoundCommit.t :=
  filter has_reveal commits.

Definition revealed_bids (commits : list RoundCommit.t) : Dict.t Z :=
  fold_left (fun bids c =>
               match RoundCommit.bid c with
               | Some bid => Dict.set bids (RoundCommit.agent_address c) bid
               | None => bids
               end)
            (reveals commits) [].

Definition revealed_salts (commits : list RoundCommit.t) : list string :=
  flat_map (fun c => match RoundCommit.salt c with Some salt => [salt] | None => [] end)
           (reveals commits).

Definition non_revealers (commits : list RoundCommit.t) : list string :=
  map RoundCommit.agent_address (filter (fun c => negb (has_reveal c)) commits).

(** The tournament and the address of an entry; the entries of an address
    in a tournament, as [resolve_round] and [finish_tournament] select
    them. *)
Definition entrant (e : TournamentEntry.t) : Z * string :=
  (TournamentEntry.tournament_id e, TournamentEntry.agent_address e).

Definition entries_of (tid : Z) (addr : string) (db : DB) : list TournamentEntry.t :=
  filter (fun e => (TournamentEntry.tournament_id e =? tid)
                   && String.eqb (TournamentEntry.agent_address e) addr)
         (tournament_entries db).

(** [steady db db']: the tournaments are the same rows, and the entries
    are those of the same tournaments and addresses. *)
Definition steady (db db' : DB) : Prop :=
  tournaments db' = tournaments db
  /\ map entrant (tournament_entries db') = map entrant (tournament_entries db).



(** *** Vocabulary of joining *)

(** The tournament row as [start_tournament] leaves it, and the round it
    adds. *)
Definition started_row (config : Config) (started now : Z) (t : Tournament.t)
  : Tournament.t :=
  Tournament.with_phase_deadline (Some (now + timedelta (REVEAL_DURATION config)))
    (Tournament.with_state REVEAL
       (Tournament.with_current_round 1
          (Tournament.with_started_at (Some started)
             (Tournament.with_state ACTIVE t)))).

Definition first_round (config : Config) (now tid players : Z) (db : DB) : Round.t :=
  Round.mk (next_id Round.id (rounds db)) tid 1 None players 0 None
           (Some (now + timedelta (REVEAL_DURATION config))) None.

(** The rows [join_tournament] adds, and the entries it looks for. *)
Definition new_entry (clock : nat -> Z) (tid : Z) (agent : Agent.t) (db : DB)
  : TournamentEntry.t :=
  TournamentEntry.mk (next_id TournamentEntry.id (tournament_entries db)) tid
                     (Agent.id agent) (Agent.wallet_address agent)
                     (Agent.creator_address agent) true None (clock 0%nat).

Definition entry_commit (clock : nat -> Z) (req : Main.CommitRequest) (agent : Agent.t)
           (db : DB) : RoundCommit.t :=
  RoundCommit.mk (next_id RoundCommit.id (round_commits db)) 0
                 (Agent.wallet_address agent) (Main.req_commit_hash req)
                 None None false false None (clock 1%nat) None.

Definition joined_by (tid : Z) (agent : Agent.t) (db : DB) : list TournamentEntry.t :=
  filter (fun e => (TournamentEntry.tournament_id e =? tid)
                   && (TournamentEntry.agent_id e =? Agent.id agent))
         (tournament_entries db).

(** The on-chain check of [join_tournament] lets the agent in: it is
    skipped, or the contract says the fee is paid. *)
Definition paid (chain : Chain) (t : Tournament.t) (agent : Agent.t) : bool :=
  match Tournament.chain_id t with
  | Some chain_id =>
      match verify_player_joined chain chain_id (Agent.wallet_address agent) with
      | Some false => false
      | _ => true
      end
  | None => true
  end.

Definition played_once_more (agent : Agent.t) (rows : list Agent.t) : list Agent.t :=
  update_where (fun a => Agent.id a =? Agent.id agent)
               (fun a => Agent.with_tournaments_played (Agent.tournaments_played a + 1) a)
               rows.

(** The session after a join that does not fill the tournament. *)
Definition joined_db (clock : nat -> Z) (tid : Z) (req : Main.CommitRequest)
           (agent : Agent.t) (db : DB) : DB :=
  mkDB (played_once_more agent (agents db))
       (update_where (fun t => Tournament.id t =? tid)
                     (fun t => Tournament.with_player_count (Tournament.player_count t + 1) t)
                     (tournaments db))
       (tournament_entries db ++ [new_entry clock tid agent db])
       (rounds db)
       (round_commits db ++ [entry_commit clock req agent db]).

(** The address has an entry in the tournament. *)
Definition entered (tid : Z) (addr : string) (entries : list TournamentEntry.t) : bool :=
  existsb (fun e => (TournamentEntry.tournament_id e =? tid)
                    && String.eqb (TournamentEntry.agent_address e) addr) entries.

(** What the start does to a commitment: a pending one (round 0) of an
    address entered in the tournament goes to the first round. *)
Definition to_first_round (tid rid : Z) (entries : list TournamentEntry.t)
           (c : RoundCommit.t) : RoundCommit.t :=
  if (RoundCommit.round_id c =? 0) && entered tid (RoundCommit.agent_address c) entries
  then RoundCommit.with_round_id rid c
  else c.

(** The session after the join that fills the tournament. *)
Definition filled_db (config : Config) (clock : nat -> Z) (tid : Z)
           (req : Main.CommitRequest) (agent : Agent.t) (players : Z) (db : DB) : DB :=
  let entries := (tournament_entries db ++ [new_entry clock tid agent db])%list in
  mkDB (played_once_more agent (agents db))
       (update_where (fun t => Tournament.id t =? tid)
                     (fun t => started_row config (clock 2%nat) (clock 3%nat)
                                 (Tournament.with_player_count (Tournament.player_count t + 1) t))
                     (tournaments db))
       entries
       (rounds db ++ [first_round config (clock 3%nat) tid
                                  players db])
       (map (to_first_round tid (next_id Round.id (rounds db)) entries)
            (round_commits db ++ [entry_commit clock req agent db])).

(** A lobby: one open tournament with [players] players, among them "0xa1"
    whose commitment is pending; "0xee" has a pending commitment but no
    entry; bob has not joined. *)
Definition lobby_db (players : Z) : DB :=
  mkDB [sample_agent 1 "0xa1"; bob]
       [Tournament.mk 1 None 0 OPEN CLASSIC 1000 players 0 None None 0 None None None None]
       [sample_entry 1 1 1 "0xa1"]
       []
       [unrevealed_commit 1 0 "0xa1" hash_1; unrevealed_commit 2 0 "0xee" hash_1].

Definition join_clock (k : nat) : Z := 50 + Z.of_nat k.

Definition bob_request : Main.CommitRequest := Main.mkCommitRequest hash_1.

(** *** Vocabulary of the final ranking *)

(** The entry as [finish_tournament] leaves it: an entry of the tournament
    whose address is among the first five of the ranking gets its place
    there, counted from 1, as final rank. *)
Definition rank_by (tid : Z) (places : list (Z * string)) (e : TournamentEntry.t)
  : TournamentEntry.t :=
  if TournamentEntry.tournament_id e =? tid
  then match find (fun p => String.eqb (snd p) (TournamentEntry.agent_address e)) places with
       | Some p => TournamentEntry.with_final_rank (Some (fst p + 1)) e
       | None => e
       end
  else e.

Definition ranked (tid : Z) (ranking : list string) (e : TournamentEntry.t)
  : TournamentEntry.t :=
  rank_by tid (GameEngine.enumerate (slice_to 5 ranking)) e.

(** The agents after [finish_tournament]: the agent of the winner's entry
    has won one tournament more. *)
Definition winner_credited (tid : Z) (ranking : list string) (db : DB) : list Agent.t :=
  match ranking with
  | [] => agents db
  | winner :: _ =>
      match entries_of tid winner db with
      | [e] => update_where (fun a => Agent.id a =? TournamentEntry.agent_id e)
                            (fun a => Agent.with_tournaments_won (Agent.tournaments_won a + 1) a)
                            (agents db)
      | _ => agents db
      end
  end.

Definition finished_db (now tid : Z) (ranking : list string) (db : DB) : DB :=
  mkDB (winner_credited tid ranking db)
       (update_where (fun t => Tournament.id t =? tid) (to_finished now ranking)
                     (tournaments db))
       (map (ranked tid ranking) (tournament_entries db))
       (rounds db)
       (round_commits db).

(** *** Vocabulary of the player count *)

(** The entries of a tournament. *)
Definition entries_in (tid : Z) (db : DB) : list TournamentEntry.t :=
  filter (fun e => TournamentEntry.tournament_id e =? tid) (tournament_entries db).

(** What the code keeps true of the player count of a tournament: it is
    the number of entries of the tournament, it is at most [MAX_PLAYERS],
    and an open tournament has a place left. *)
Definition seat_inv (config : Config) (db : DB) (t : Tournament.t) : Prop :=
  Tournament.player_count t = Z.of_nat (List.length (entries_in (Tournament.id t) db))
  /\ Tournament.player_count t <= MAX_PLAYERS config
  /\ (Tournament.state t = OPEN -> Tournament.player_count t < MAX_PLAYERS config).

(** Tournament ids are unique, every entry is of a tournament of the
    session, and every tournament has the right player count. *)
Definition seats_ok (config : Config) (db : DB) : Prop :=
  unique_ids db
  /\ (forall e, In e (tournament_entries db) ->
                exists t, In t (tournaments db)
                          /\ Tournament.id t = TournamentEntry.tournament_id e)
  /\ Forall (seat_inv config db) (tournaments db).

Definition upholds (config : Config) (db db' : DB) : Prop :=
  seats_ok config db -> seats_ok config db'.

(** A tournament row keeps its id and player count, and does not open. *)
Definition seat_kept (t t' : Tournament.t) : Prop :=
  Tournament.id t' = Tournament.id t
  /\ Tournament.player_count t' = Tournament.player_count t
  /\ (Tournament.state t' = OPEN -> Tournament.state t = OPEN).

(** The tournament row after a join that makes it have [players] players. *)
Definition join_row (config : Config) (clock : nat -> Z) (players : Z) (t : Tournament.t)
  : Tournament.t :=
  if MAX_PLAYERS config <=? players
  then started_row config (clock 2%nat) (clock 3%nat)
                   (Tournament.with_player_count (Tournament.player_count t + 1) t)
  else Tournament.with_player_count (Tournament.player_count t + 1) t.

(** *** Vocabulary of the elimination *)

(** The entry as the elimination leaves it: an entry of the tournament
    whose address is out is no longer alive. *)
Definition knocked_out (tid : Z) (out : list string) (e : TournamentEntry.t)
  : TournamentEntry.t :=
  if (TournamentEntry.tournament_id e =? tid)
     && str_in (TournamentEntry.agent_address e) out
  then TournamentEntry.with_is_alive false e
  else e.

(** The tournaments and the entries are the same rows. *)
Definition same_people (db db' : DB) : Prop :=
  tournaments db' = tournaments db /\ tournament_entries db' = tournament_entries db.

(** *** Vocabulary of the last round *)

(** The tournament row after the tick has resolved its last round: finished
    with the ranking, and with the hash of the on-chain resolution when
    that went through. *)
Definition crowned (chain : Chain) (now : Z) (ranking : list string) (t : Tournament.t)
  : Tournament.t :=
  match ranking with
  | winner :: _ =>
      match resolve_tournament chain (Tournament.chain_id t) winner
                               (slice_to 4 (slice_from 1 ranking)) with
      | Some tx_hash => Tournament.with_resolve_tx (Some tx_hash) (to_finished now ranking t)
      | None => to_finished now ranking t
      end
  | [] => to_finished now ranking t
  end.

(** A session with one tournament at the end of the reveal phase of its
    round 1: three participants revealed, one did not. *)
Definition last_round_db : DB :=
  mkDB [sample_agent 1 "0xa1"; sample_agent 2 "0xa2"; sample_agent 3 "0xa3";
        sample_agent 4 "0xa4"]
       [sample_tournament 1 REVEAL 1 (Some 1000)]
       [sample_entry 1 1 1 "0xa1"; sample_entry 2 1 2 "0xa2"; sample_entry 3 1 3 "0xa3";
        sample_entry 4 1 4 "0xa4"]
       [round_1]
       [revealed_commit 1 1 "0xa1" hash_1 400 (salt_of "0xa1");
        revealed_commit 2 1 "0xa2" hash_1 550 (salt_of "0xa2");
        revealed_commit 3 1 "0xa3" hash_1 500 (salt_of "0xa3");
        unrevealed_commit 4 1 "0xa4" hash_1].

(** A session with one tournament at the end of the reveal phase of its
    round 1: six participants revealed, two did not. *)
Definition crowded_db : DB :=
  mkDB (agents busy_db)
       [sample_tournament 1 REVEAL 1 (Some 1000)]
       (tournament_entries busy_db)
       [round_1]
       (round_commits busy_db).
Example sha3_256_empty :
  Py.hex (Sha3.sha3_256 []) =
  "a7ffc6f8bf1ed76651c14756a061d662f580ff4de43b49fa82d80a4b80f8434a".
Proof. vm_compute. reflexivity. Qed.

Example sha3_256_abc :
  Py.hex (Sha3.sha3_256 [97; 98; 99]) =
  "3a985da74fe225b2045c172d6bd390bd855f086e3e9d525b46bfe24511431532".
Proof. vm_compute. reflexivity. Qed.


(** The last byte of a block that is one byte short of the rate takes both
    padding marks; a full block is followed by a block of padding alone; a
    longer message is absorbed block by block. *)
Example sha3_256_135_bytes :
  Py.hex (Sha3.sha3_256 (repeat 97 135)) =
  "8094bb53c44cfb1e67b7c30447f9a1c33696d2463ecc1d9c92538913392843c9".
Proof. vm_compute. reflexivity. Qed.

Example sha3_256_136_bytes :
  Py.hex (Sha3.sha3_256 (repeat 97 136)) =
  "3fc5559f14db8e453a0a3091edbd2bc25e11528d81c66fa570a4efdcc2695ee1".
Proof. vm_compute. reflexivity. Qed.

Example sha3_256_200_bytes :
  Py.hex (Sha3.sha3_256 (repeat 97 200)) =
  "cce34485baf2bf2aca99b94833892a4f52896d3d153f7b840cc4f9fe695f1387".
Proof. vm_compute. reflexivity. Qed.

(* ================================================================== *)
(** * Properties                                                       *)
(* ================================================================== *)

Unset Implicit Arguments.

(** ** [sorted] *)

Section SortingFacts.

Variable A : Type.
Variable leb : A -> A -> bool.

Lemma insert_perm (x : A) (l : list A) : Permutation (insert leb x l) (x :: l).
Proof.
  induction l as [|y tl IH]; simpl.
  - apply Permutation_refl.
  - destruct (leb x y).
    + apply Permutation_refl.
    + apply perm_trans with (y :: x :: tl).
      * now apply perm_skip.
      * apply perm_swap.
Qed.

Lemma sorted_perm (l : list A) : Permutation (sorted leb l) l.
Proof.
  induction l as [|x tl IH]; simpl.
  - constructor.
  - apply perm_trans with (x :: sorted leb tl).
    + apply insert_perm.
    + now apply perm_skip.
Qed.

Lemma sorted_length (l : list A) : List.length (sorted leb l) = List.length l.
Proof. apply Permutation_length, sorted_perm. Qed.

Hypothesis leb_total : forall a b, leb a b = true \/ leb b a = true.
Hypothesis leb_trans : forall a b c, leb a b = true -> leb b c = true -> leb a c = true.

Let le (a b : A) : Prop := leb a b = true.

Lemma insert_sorted (x : A) (l : list A) :
  StronglySorted le l -> StronglySorted le (insert leb x l).
Proof.
  induction 1 as [|y tl Hs IH Hall]; simpl.
  - repeat constructor.
  - destruct (leb x y) eqn:Hxy.
    + constructor.
      * now constructor.
      * constructor; [exact Hxy|].
        eapply Forall_impl; [|exact Hall].
        intros z Hz. eapply leb_trans; eassumption.
    + constructor; [exact IH|].
      assert (Hyx : le y x) by (destruct (leb_total x y); [congruence | assumption]).
      eapply Permutation_Forall.
      * apply Permutation_sym, insert_perm.
      * now constructor.
Qed.

Lemma sorted_sorted (l : list A) : StronglySorted le (sorted leb l).
Proof.
  induction l; simpl; [constructor | now apply insert_sorted].
Qed.

Hypothesis leb_antisym : forall a b, leb a b = true -> leb b a = true -> a = b.

Lemma strongly_sorted_unique (l1 : list A) :
  forall l2, StronglySorted le l1 -> StronglySorted le l2 ->
             Permutation l1 l2 -> l1 = l2.
Proof.
  induction l1 as [|x tl IH]; intros l2 H1 H2 Hp.
  - apply Permutation_nil in Hp. now subst.
  - destruct l2 as [|y tl2].
    + apply Permutation_sym, Permutation_nil in Hp. discriminate.
    + inversion H1 as [|? ? Hs1 Hall1]; subst.
      inversion H2 as [|? ? Hs2 Hall2]; subst.
      assert (x = y) as ->.
      { assert (Hx : In x (y :: tl2))
          by (eapply Permutation_in; [exact Hp | now left]).
        assert (Hy : In y (x :: tl))
          by (eapply Permutation_in; [apply Permutation_sym; exact Hp | now left]).
        destruct Hx as [Hx|Hx]; [now subst|].
        destruct Hy as [Hy|Hy]; [now subst|].
        rewrite Forall_forall in Hall1, Hall2.
        apply leb_antisym; [apply Hall1 | apply Hall2]; assumption. }
      f_equal. apply IH; try assumption.
      eapply Permutation_cons_inv; exact Hp.
Qed.

(** The result of [sorted] depends on the elements only, not on their order. *)
Lemma sorted_permutation_invariant (l1 l2 : list A) :
  Permutation l1 l2 -> sorted leb l1 = sorted leb l2.
Proof.
  intros Hp. apply strongly_sorted_unique; try apply sorted_sorted.
  apply perm_trans with l1; [apply sorted_perm|].
  apply perm_trans with l2; [exact Hp | apply Permutation_sym, sorted_perm].
Qed.

End SortingFacts.

(** ** String order *)

Lemma ascii_compare_refl (a : ascii) : Ascii.compare a a = Eq.
Proof. unfold Ascii.compare. apply N.compare_refl. Qed.

Lemma string_compare_refl (s : string) : String.compare s s = Eq.
Proof.
  induction s as [|c s IH]; simpl; [reflexivity|].
  now rewrite ascii_compare_refl.
Qed.

Lemma string_compare_trans_lt (s1 : string) :
  forall s2 s3, String.compare s1 s2 = Lt -> String.compare s2 s3 = Lt ->
                String.compare s1 s3 = Lt.
Proof.
  induction s1 as [|c1 s1 IH]; intros [|c2 s2] [|c3 s3]; simpl; try discriminate; auto.
  unfold Ascii.compare.
  destruct (N.compare_spec (N_of_ascii c1) (N_of_ascii c2)) as [E12|L12|G12];
    destruct (N.compare_spec (N_of_ascii c2) (N_of_ascii c3)) as [E23|L23|G23];
    try discriminate; intros H12 H23.
  - rewrite E12, E23, N.compare_refl. eauto.
  - rewrite E12. now apply N.compare_lt_iff in L23 as ->.
  - rewrite <- E23. now apply N.compare_lt_iff in L12 as ->.
  - assert (L13 : (N_of_ascii c1 < N_of_ascii c3)%N) by lia.
    now apply N.compare_lt_iff in L13 as ->.
Qed.

Lemma string_leb_trans (a b c : string) :
  String.leb a b = true -> String.leb b c = true -> String.leb a c = true.
Proof.
  unfold String.leb.
  destruct (String.compare a b) eqn:Hab; try discriminate;
    destruct (String.compare b c) eqn:Hbc; try discriminate; intros _ _.
  - apply String.compare_eq_iff in Hab, Hbc. subst. now rewrite string_compare_refl.
  - apply String.compare_eq_iff in Hab. subst. now rewrite Hbc.
  - apply String.compare_eq_iff in Hbc. subst. now rewrite Hab.
  - now rewrite (string_compare_trans_lt _ _ _ Hab Hbc).
Qed.

(** ** The order of the elimination keys *)

Lemma key_leb_total (k1 k2 : Z * string) :
  GameEngine.key_leb k1 k2 = true \/ GameEngine.key_leb k2 k1 = true.
Proof.
  unfold GameEngine.key_leb.
  destruct (Z.ltb_spec (fst k1) (fst k2)); [now left|].
  destruct (Z.ltb_spec (fst k2) (fst k1)); [now right|].
  assert (E : fst k1 = fst k2) by lia.
  rewrite E, Z.eqb_refl. simpl.
  apply String.leb_total.
Qed.

Lemma key_leb_trans (k1 k2 k3 : Z * string) :
  GameEngine.key_leb k1 k2 = true -> GameEngine.key_leb k2 k3 = true ->
  GameEngine.key_leb k1 k3 = true.
Proof.
  unfold GameEngine.key_leb.
  rewrite !orb_true_iff, !andb_true_iff, !Z.ltb_lt, !Z.eqb_eq.
  intros [H12|[E12 L12]] [H23|[E23 L23]].
  - left; lia.
  - left; lia.
  - left; lia.
  - right; split; [lia|]. eapply string_leb_trans; eassumption.
Qed.

Lemma key_leb_antisym (k1 k2 : Z * string) :
  GameEngine.key_leb k1 k2 = true -> GameEngine.key_leb k2 k1 = true -> k1 = k2.
Proof.
  unfold GameEngine.key_leb.
  rewrite !orb_true_iff, !andb_true_iff, !Z.ltb_lt, !Z.eqb_eq.
  destruct k1 as [d1 a1], k2 as [d2 a2]; simpl.
  intros [H12|[E12 L12]] [H21|[E21 L21]]; try lia.
  f_equal; [exact E12 | now apply String.leb_antisym].
Qed.

Section ByKey.

Variable key : string * Z -> Z * string.
Hypothesis key_inj : forall a b, key a = key b -> a = b.

Lemma by_key_total a b :
  GameEngine.by_key key a b = true \/ GameEngine.by_key key b a = true.
Proof. apply key_leb_total. Qed.

Lemma by_key_trans a b c :
  GameEngine.by_key key a b = true -> GameEngine.by_key key b c = true ->
  GameEngine.by_key key a c = true.
Proof. apply key_leb_trans. Qed.

Lemma by_key_antisym a b :
  GameEngine.by_key key a b = true -> GameEngine.by_key key b a = true -> a = b.
Proof. intros H1 H2. apply key_inj. now apply key_leb_antisym. Qed.

End ByKey.

Lemma classic_key_inj a b : GameEngine.classic_key a = GameEngine.classic_key b -> a = b.
Proof.
  destruct a, b; unfold GameEngine.classic_key; simpl. now intros [= -> ->].
Qed.

Lemma inverse_key_inj a b : GameEngine.inverse_key a = GameEngine.inverse_key b -> a = b.
Proof.
  destruct a as [a1 d1], b as [a2 d2]; unfold GameEngine.inverse_key; simpl.
  intros [= Hd ->]. f_equal. lia.
Qed.

(** ** Elimination *)

Section EliminationFacts.

Import GameEngine.


Lemma sorted_players_perm distances variant :
  Permutation (sorted_players distances variant) distances.
Proof. destruct variant; apply sorted_perm. Qed.

Lemma sorted_players_length distances variant :
  List.length (sorted_players distances variant) = List.length distances.
Proof. apply Permutation_length, sorted_players_perm. Qed.

Lemma sorted_players_invariant d1 d2 variant :
  Permutation d1 d2 -> sorted_players d1 variant = sorted_players d2 variant.
Proof.
  intros Hp.
  destruct variant; simpl;
    apply sorted_permutation_invariant;
    first [ exact Hp
          | apply by_key_total
          | apply by_key_trans
          | apply by_key_antisym; first [apply classic_key_inj | apply inverse_key_inj] ].
Qed.

Lemma eliminate_unfold distances variant :
  eliminate distances variant =
  if Dict.len distances <=? 5 then (Dict.keys distances, [])
  else
    let players := sorted_players distances variant in
    let survive_count := (Z.of_nat (List.length players) + 1) / 2 in
    (map fst (slice_to survive_count players),
     map fst (slice_from survive_count players)).
Proof. reflexivity. Qed.

Lemma determine_final_ranking_unfold distances variant :
  determine_final_ranking distances variant = map fst (sorted_players distances variant).
Proof. reflexivity. Qed.

Lemma eliminate_concat distances variant :
  5 < Dict.len distances ->
  (fst (eliminate distances variant) ++ snd (eliminate distances variant))%list
  = map fst (sorted_players distances variant).
Proof.
  intros Hn. rewrite eliminate_unfold.
  destruct (Z.leb_spec (Dict.len distances) 5); [lia|].
  cbn [fst snd]. unfold slice_to, slice_from.
  now rewrite <- map_app, firstn_skipn.
Qed.

Lemma eliminate_permutation_invariant d1 d2 variant :
  Permutation d1 d2 -> 5 < Dict.len d1 ->
  eliminate d1 variant = eliminate d2 variant.
Proof.
  intros Hp Hn. rewrite !eliminate_unfold.
  unfold Dict.len in *. rewrite <- (Permutation_length Hp).
  destruct (Z.leb_spec (Z.of_nat (List.length d1)) 5); [lia|].
  now rewrite (sorted_players_invariant d1 d2 variant Hp).
Qed.

(** Assigning to a key that is absent appends it. *)
Lemma dict_set_fresh {V} (d : Dict.t V) k v :
  ~ In k (Dict.keys d) -> Dict.set d k v = (d ++ [(k, v)])%list.
Proof.
  induction d as [|[k' v'] tl IH]; simpl; intros Hn; [reflexivity|].
  destruct (String.eqb_spec k' k) as [->|Hne].
  - exfalso. apply Hn. now left.
  - f_equal. apply IH. intros Hin. apply Hn. now right.
Qed.

Lemma compute_distances_from (bids : Dict.t Z) secret :
  forall acc : Dict.t Z,
    NoDup (Dict.keys acc ++ Dict.keys bids) ->
    fold_left (fun distances '(addr, bid) =>
                 Dict.set distances addr (Z.abs (bid - secret))) bids acc
    = (acc ++ map (fun x => (fst x, Z.abs (snd x - secret))) bids)%list.
Proof.
  induction bids as [|[addr bid] tl IH]; intros acc Hnd; simpl.
  - now rewrite app_nil_r.
  - rewrite dict_set_fresh.
    + rewrite IH.
      * now rewrite <- app_assoc.
      * unfold Dict.keys in *. rewrite map_app, <- app_assoc. exact Hnd.
    + intros Hin. apply NoDup_remove_2 in Hnd. apply Hnd.
      apply in_or_app. now left.
Qed.

(** On a dictionary (no key twice) the distances are those of the bids,
    key by key and in the same order. *)
Lemma compute_distances_map bids secret variant :
  NoDup (Dict.keys bids) ->
  compute_distances bids secret variant
  = map (fun x => (fst x, Z.abs (snd x - secret))) bids.
Proof.
  intros Hnd. unfold compute_distances.
  now rewrite compute_distances_from.
Qed.

End EliminationFacts.

(** C2. For a distances map of [n] participants, [eliminate] keeps
    [ceil(n/2)] survivors (the [c] with [n <= 2c <= n+1]) and eliminates the
    other [n - c] when [n > 5]; when [n <= 5] it returns every participant,
    in the order of the map, as a survivor and eliminates nobody. *)
Theorem eliminate_survivor_count :
  forall (distances : Dict.t Z) (variant : GameVariant),
    let n := Dict.len distances in
    let survivors := fst (GameEngine.eliminate distances variant) in
    let eliminated := snd (GameEngine.eliminate distances variant) in
    if 5 <? n
    then n <= 2 * Z.of_nat (List.length survivors) <= n + 1
         /\ Z.of_nat (List.length eliminated) = n - Z.of_nat (List.length survivors)
    else survivors = Dict.keys distances /\ eliminated = [].
Proof.
  intros distances variant n survivors eliminated.
  subst survivors eliminated. rewrite eliminate_unfold. fold n.
  destruct (Z.ltb_spec 5 n) as [Hn|Hn];
    destruct (Z.leb_spec n 5); try lia; cbn [fst snd]; [|now split].
  unfold slice_to, slice_from.
  rewrite !length_map, length_firstn, length_skipn, sorted_players_length.
  unfold n, Dict.len in *.
  set (len := List.length distances) in *.
  assert (Hk : 0 <= (Z.of_nat len + 1) / 2) by (apply Z.div_pos; lia).
  assert (Hdiv : Z.of_nat len <= 2 * ((Z.of_nat len + 1) / 2) <= Z.of_nat len + 1).
  { pose proof (Z.div_mod (Z.of_nat len + 1) 2 ltac:(lia)).
    pose proof (Z.mod_pos_bound (Z.of_nat len + 1) 2 ltac:(lia)). lia. }
  lia.
Qed.

(** C10. On a dictionary (no participant is a key twice) the two lists
    [eliminate] returns partition the participants: together they are a
    rearrangement of the keys, nobody is listed twice, and every listed
    address is a key of the input. *)
Theorem eliminate_partition :
  forall (distances : Dict.t Z) (variant : GameVariant),
    NoDup (Dict.keys distances) ->
    let survivors := fst (GameEngine.eliminate distances variant) in
    let eliminated := snd (GameEngine.eliminate distances variant) in
    Permutation (survivors ++ eliminated)%list (Dict.keys distances)
    /\ NoDup (survivors ++ eliminated)%list
    /\ (forall addr, In addr (Dict.keys distances) <->
                     (In addr survivors \/ In addr eliminated))
    /\ (forall addr, In addr survivors -> In addr eliminated -> False).
Proof.
  intros distances variant Hnd survivors eliminated.
  assert (Hperm : Permutation (survivors ++ eliminated)%list (Dict.keys distances)).
  { subst survivors eliminated.
    destruct (Z.leb_spec (Dict.len distances) 5) as [Hn|Hn].
    - rewrite eliminate_unfold.
      destruct (Z.leb_spec (Dict.len distances) 5); [|lia].
      cbn [fst snd]. rewrite app_nil_r. apply Permutation_refl.
    - rewrite eliminate_concat by lia.
      apply Permutation_map, sorted_players_perm. }
  assert (Hnd' : NoDup (survivors ++ eliminated)%list).
  { eapply Permutation_NoDup; [apply Permutation_sym; exact Hperm | exact Hnd]. }
  repeat split.
  - exact Hperm.
  - exact Hnd'.
  - intros Hin. apply in_app_or.
    eapply Permutation_in; [apply Permutation_sym; exact Hperm | exact Hin].
  - intros Hin. eapply Permutation_in; [exact Hperm|].
    apply in_or_app. exact Hin.
  - intros addr Hs He.
    apply in_split in Hs. destruct Hs as [l1 [l2 ->]].
    rewrite <- app_assoc in Hnd'. simpl in Hnd'.
    apply NoDup_remove_2 in Hnd'. apply Hnd'.
    rewrite app_assoc. apply in_or_app. now right.
Qed.


Lemma eliminate_partition_witness :
  Permutation (["0xa4"; "0xa2"; "0xa6"] ++ ["0xa1"; "0xa3"; "0xa5"])%list
              (Dict.keys six_distances)
  /\ NoDup (["0xa4"; "0xa2"; "0xa6"] ++ ["0xa1"; "0xa3"; "0xa5"])%list
  /\ (forall addr, In addr (Dict.keys six_distances) <->
                   (In addr ["0xa4"; "0xa2"; "0xa6"] \/ In addr ["0xa1"; "0xa3"; "0xa5"]))
  /\ (forall addr, In addr ["0xa4"; "0xa2"; "0xa6"] ->
                   In addr ["0xa1"; "0xa3"; "0xa5"] -> False).
Proof.
  apply (eliminate_partition six_distances CLASSIC).
  repeat constructor; simpl; intuition discriminate.
Defined.


(** C5. With secret 500 the eight bids of the scenario have the distances
    100, 50, 0, 400, 400, 20, 20, 499, and closest-wins elimination keeps
    p3, p6, p7, p2 in this order (p6 before p7: equal distances are ordered by
    ascending participant id) and eliminates p1, p4, p5, p8 (p4 before p5).
    The outcome does not depend on the order in which the bids were entered:
    every dictionary with the same eight bids gives the same two lists. *)
Theorem scenario_closest_wins :
  forall bids : Dict.t Z,
    Permutation bids scenario_bids ->
    GameEngine.compute_distances scenario_bids 500 CLASSIC = scenario_distances
    /\ GameEngine.eliminate scenario_distances CLASSIC
       = (["p3"; "p6"; "p7"; "p2"], ["p1"; "p4"; "p5"; "p8"])
    /\ Permutation (GameEngine.compute_distances bids 500 CLASSIC) scenario_distances
    /\ GameEngine.eliminate (GameEngine.compute_distances bids 500 CLASSIC) CLASSIC
       = (["p3"; "p6"; "p7"; "p2"], ["p1"; "p4"; "p5"; "p8"]).
Proof.
  intros bids Hp.
  assert (Hd : GameEngine.compute_distances scenario_bids 500 CLASSIC = scenario_distances)
    by reflexivity.
  assert (He : GameEngine.eliminate scenario_distances CLASSIC
               = (["p3"; "p6"; "p7"; "p2"], ["p1"; "p4"; "p5"; "p8"]))
    by (vm_compute; reflexivity).
  assert (Hnd : NoDup (Dict.keys bids)).
  { eapply Permutation_NoDup.
    - apply Permutation_map, Permutation_sym. exact Hp.
    - repeat constructor; simpl; intuition discriminate. }
  assert (Hpd : Permutation (GameEngine.compute_distances bids 500 CLASSIC)
                            scenario_distances).
  { rewrite (compute_distances_map bids 500 CLASSIC Hnd).
    change scenario_distances
      with (map (fun x : string * Z => (fst x, Z.abs (snd x - 500))) scenario_bids).
    now apply Permutation_map. }
  repeat split; try assumption.
  rewrite <- He. apply eliminate_permutation_invariant; [exact Hpd|].
  unfold Dict.len. rewrite (Permutation_length Hpd). reflexivity.
Qed.

Lemma scenario_closest_wins_witness :
  GameEngine.compute_distances scenario_bids 500 CLASSIC = scenario_distances
  /\ GameEngine.eliminate scenario_distances CLASSIC
     = (["p3"; "p6"; "p7"; "p2"], ["p1"; "p4"; "p5"; "p8"])
  /\ Permutation
       (GameEngine.compute_distances
          [("p8", 999); ("p7", 520); ("p6", 480); ("p5", 900);
           ("p4", 100); ("p3", 500); ("p2", 550); ("p1", 400)] 500 CLASSIC)
       scenario_distances
  /\ GameEngine.eliminate
       (GameEngine.compute_distances
          [("p8", 999); ("p7", 520); ("p6", 480); ("p5", 900);
           ("p4", 100); ("p3", 500); ("p2", 550); ("p1", 400)] 500 CLASSIC) CLASSIC
     = (["p3"; "p6"; "p7"; "p2"], ["p1"; "p4"; "p5"; "p8"]).
Proof.
  apply (scenario_closest_wins
           [("p8", 999); ("p7", 520); ("p6", 480); ("p5", 900);
            ("p4", 100); ("p3", 500); ("p2", 550); ("p1", 400)]).
  change scenario_bids with (rev [("p8", 999); ("p7", 520); ("p6", 480); ("p5", 900);
            ("p4", 100); ("p3", 500); ("p2", 550); ("p1", 400)]).
  apply Permutation_rev.
Defined.

(** ** Hexadecimal text *)

Lemma hexval_range c v : Py.hexval c = Some v -> 0 <= v < 16.
Proof.
  unfold Py.hexval.
  destruct (_ && _) eqn:E1; [intros [= <-]; lia|].
  destruct (_ && _) eqn:E2 in |- *; [intros [= <-]; lia|].
  destruct (_ && _) eqn:E3 in |- *; [intros [= <-]; lia|discriminate].
Qed.

Lemma hexval_not_space c v : Py.hexval c = Some v -> Py.isspace c = false.
Proof.
  unfold Py.hexval, Py.isspace.
  destruct (_ && _) eqn:E1; [intros _; lia|].
  destruct (_ && _) eqn:E2 in |- *; [intros _; lia|].
  destruct (_ && _) eqn:E3 in |- *; [intros _; lia|discriminate].
Qed.

Lemma hexval_not_x c v : Py.hexval c = Some v -> Ascii.eqb c "x" = false.
Proof.
  intros H. destruct (Ascii.eqb_spec c "x") as [->|]; [discriminate H | reflexivity].
Qed.

(** Hexadecimal digits contain no "0x" to strip. *)
Lemma replace_0x_all_hex body : Py.all_hex body = true -> Py.replace_0x body = body.
Proof.
  induction body as [|c rest IH]; [reflexivity|].
  intros H. cbn [Py.all_hex] in H.
  destruct (Py.hexval c) eqn:Hc; [|discriminate].
  specialize (IH H).
  destruct rest as [|c' rest']; [reflexivity|].
  cbn [Py.all_hex] in H.
  destruct (Py.hexval c') eqn:Hc'; [|discriminate].
  cbn [Py.replace_0x]. cbn [Py.replace_0x] in IH.
  rewrite (hexval_not_x _ _ Hc'), andb_false_r.
  now rewrite IH.
Qed.

Lemma fromhex_all_hex (n : nat) :
  forall body, Py.all_hex body = true -> String.length body = (2 * n)%nat ->
               exists bs, Py.fromhex body = Some bs
                          /\ List.length bs = n /\ Forall is_byte bs.
Proof.
  induction n as [|n IH]; intros body Hh Hl.
  - destruct body; [|discriminate]. exists []. repeat split. constructor.
  - destruct body as [|c [|c' rest]]; try (simpl in Hl; lia).
    cbn [Py.all_hex] in Hh.
    destruct (Py.hexval c) as [hi|] eqn:Hc; [|discriminate].
    destruct (Py.hexval c') as [lo|] eqn:Hc'; [|discriminate].
    destruct (IH rest Hh) as [bs [Hbs [Hlen Hall]]].
    { simpl in Hl. lia. }
    exists (hi * 16 + lo :: bs).
    cbn [Py.fromhex]. rewrite (hexval_not_space _ _ Hc), Hc, Hc', Hbs.
    repeat split.
    + simpl. now rewrite Hlen.
    + constructor; [|exact Hall].
      pose proof (hexval_range _ _ Hc). pose proof (hexval_range _ _ Hc').
      unfold is_byte. lia.
Qed.

Lemma is_0x_hex_inv (n : nat) (s : string) :
  Py.is_0x_hex n s = true ->
  exists body, s = String "0" (String "x" body)
               /\ Py.all_hex body = true /\ String.length body = n.
Proof.
  destruct s as [|c0 s]; [discriminate|].
  destruct c0 as [[] [] [] [] [] [] [] []]; try discriminate.
  destruct s as [|c1 body]; [discriminate|].
  destruct c1 as [[] [] [] [] [] [] [] []]; try discriminate.
  unfold Py.is_0x_hex. rewrite andb_true_iff, Nat.eqb_eq.
  intros [Hh Hl]. now exists body.
Qed.

(** A salt of the shape "0x" + 64 hexadecimal digits parses to 32 bytes. *)
Lemma salt_bytes (salt : string) :
  Py.is_0x_hex 64 salt = true ->
  exists bs, Py.fromhex (Py.replace_0x salt) = Some bs
             /\ List.length bs = 32%nat /\ Forall is_byte bs.
Proof.
  intros H. destruct (is_0x_hex_inv _ _ H) as [body [-> [Hh Hl]]].
  change (Py.replace_0x (String "0" (String "x" body))) with (Py.replace_0x body).
  rewrite (replace_0x_all_hex _ Hh).
  apply fromhex_all_hex; [exact Hh | exact Hl].
Qed.

(** ** The secret *)

Lemma combine_salts_valid (salts : list string) :
  Forall (fun s => Py.is_0x_hex 64 s = true) salts ->
  forall combined, exists bs, GameEngine.combine_salts combined salts = Some bs.
Proof.
  induction 1 as [|salt tl Hs _ IH]; intros combined; simpl.
  - now exists combined.
  - destruct (salt_bytes salt Hs) as [bs [-> _]]. apply IH.
Qed.

(** C3. For salts of the accepted shape, [compute_secret] returns a number
    between 1 and 1000, and returns the same number for every ordering of
    the same salts. *)
Theorem compute_secret_permutation_range :
  forall salts : list string,
    Forall (fun s => Py.is_0x_hex 64 s = true) salts ->
    exists secret,
      GameEngine.compute_secret salts = Some secret
      /\ 1 <= secret <= 1000
      /\ forall salts', Permutation salts salts' ->
                        GameEngine.compute_secret salts' = Some secret.
Proof.
  intros salts Hv.
  assert (Hv' : Forall (fun s => Py.is_0x_hex 64 s = true) (sorted String.leb salts)).
  { eapply Permutation_Forall; [apply Permutation_sym, sorted_perm | exact Hv]. }
  destruct (combine_salts_valid _ Hv' []) as [bs Hbs].
  unfold GameEngine.compute_secret. rewrite Hbs.
  eexists. split; [reflexivity|]. split.
  - pose proof (Z.mod_pos_bound
                  (Py.from_bytes_big (slice_to 4 (Sha3.sha3_256 bs))) 1000 ltac:(lia)).
    lia.
  - intros salts' Hp.
    rewrite <- (sorted_permutation_invariant string String.leb
                  String.leb_total string_leb_trans String.leb_antisym
                  salts salts' Hp).
    now rewrite Hbs.
Qed.

Lemma compute_secret_permutation_range_witness :
  exists secret,
    GameEngine.compute_secret [salt_1; salt_2; salt_3] = Some secret
    /\ 1 <= secret <= 1000
    /\ forall salts', Permutation [salt_1; salt_2; salt_3] salts' ->
                      GameEngine.compute_secret salts' = Some secret.
Proof.
  apply (compute_secret_permutation_range [salt_1; salt_2; salt_3]).
  repeat constructor.
Defined.

(** ** Commit and reveal *)

Lemma ord_chr (z : Z) : 0 <= z < 256 -> Py.ord (Py.chr z) = z.
Proof.
  intros Hz. unfold Py.ord, Py.chr.
  rewrite N_ascii_embedding; lia.
Qed.

Lemma nibble_cases (n : Z) :
  0 <= n < 16 ->
  In n [0; 1; 2; 3; 4; 5; 6; 7; 8; 9; 10; 11; 12; 13; 14; 15].
Proof. intros H. simpl. lia. Qed.

Lemma ord_hexdigit (n : Z) :
  0 <= n < 16 -> Py.ord (Py.hexdigit n) = if n <? 10 then 48 + n else 87 + n.
Proof.
  intros H. unfold Py.hexdigit.
  destruct (Z.ltb_spec n 10); apply ord_chr; lia.
Qed.

Lemma hexdigit_inj (n m : Z) :
  0 <= n < 16 -> 0 <= m < 16 -> Py.hexdigit n = Py.hexdigit m -> n = m.
Proof.
  intros Hn Hm E. apply (f_equal Py.ord) in E.
  rewrite !ord_hexdigit in E by assumption.
  destruct (Z.ltb_spec n 10), (Z.ltb_spec m 10); lia.
Qed.

Lemma lower_hexdigit (n : Z) : 0 <= n < 16 -> Py.lower_char (Py.hexdigit n) = Py.hexdigit n.
Proof.
  intros H. unfold Py.lower_char. rewrite ord_hexdigit by assumption.
  destruct (Z.ltb_spec n 10);
    match goal with |- (if ?c then _ else _) = _ => replace c with false by lia end;
    reflexivity.
Qed.

Lemma byte_nibbles (b : Z) : is_byte b -> 0 <= b / 16 < 16 /\ 0 <= b mod 16 < 16.
Proof.
  unfold is_byte. intros H. split.
  - split; [apply Z.div_pos; lia | apply Z.div_lt_upper_bound; lia].
  - apply Z.mod_pos_bound. lia.
Qed.

Lemma lower_hex (bs : list Z) : Forall is_byte bs -> Py.lower (Py.hex bs) = Py.hex bs.
Proof.
  induction 1 as [|b tl Hb _ IH]; simpl; [reflexivity|].
  destruct (byte_nibbles b Hb) as [Hhi Hlo].
  now rewrite !lower_hexdigit, IH.
Qed.

Lemma hex_inj (bs : list Z) :
  forall bs', Forall is_byte bs -> Forall is_byte bs' -> Py.hex bs = Py.hex bs' -> bs = bs'.
Proof.
  induction bs as [|b tl IH]; intros [|b' tl'] H H' E; try discriminate; [reflexivity|].
  inversion H as [|? ? Hb Htl]; subst. inversion H' as [|? ? Hb' Htl']; subst.
  simpl in E. injection E as Ehi Elo Etl.
  destruct (byte_nibbles b Hb) as [Hhi Hlo].
  destruct (byte_nibbles b' Hb') as [Hhi' Hlo'].
  apply hexdigit_inj in Ehi, Elo; try assumption.
  f_equal; [|now apply IH].
  rewrite (Z.div_mod b 16), (Z.div_mod b' 16) by lia. now rewrite Ehi, Elo.
Qed.

Lemma bytes_of_lane_bytes (n : nat) : forall v, Forall is_byte (Sha3.bytes_of_lane n v).
Proof.
  induction n as [|n IH]; intros v; simpl; constructor; [|apply IH].
  apply Z.mod_pos_bound. lia.
Qed.

(** A digest is a list of bytes. *)
Lemma sha3_256_bytes (msg : list Z) : Forall is_byte (Sha3.sha3_256 msg).
Proof.
  unfold Sha3.sha3_256. apply Forall_flat_map, Forall_forall.
  intros v _. apply bytes_of_lane_bytes.
Qed.

Lemma compute_commit_hash_packed (bid : Z) (salt : string) :
  GameEngine.compute_commit_hash bid salt
  = match packed bid salt with
    | Some data => Some ("0x" ++ Py.hex (Sha3.sha3_256 data))%string
    | None => None
    end.
Proof.
  unfold GameEngine.compute_commit_hash, packed.
  destruct (Py.to_bytes2 bid); [|reflexivity].
  destruct (Py.fromhex (Py.replace_0x salt)); reflexivity.
Qed.

Lemma lower_commit_text (data : list Z) :
  Py.lower ("0x" ++ Py.hex (Sha3.sha3_256 data))
  = ("0x" ++ Py.hex (Sha3.sha3_256 data))%string.
Proof.
  change (Py.lower ("0x" ++ Py.hex (Sha3.sha3_256 data)))
    with ("0x" ++ Py.lower (Py.hex (Sha3.sha3_256 data)))%string.
  now rewrite lower_hex by apply sha3_256_bytes.
Qed.

Lemma packed_valid (bid : Z) (salt : string) :
  0 <= bid < 65536 -> Py.is_0x_hex 64 salt = true ->
  exists salt_bytes,
    Py.fromhex (Py.replace_0x salt) = Some salt_bytes
    /\ packed bid salt = Some ([bid / 256; bid mod 256] ++ salt_bytes)%list.
Proof.
  intros Hb Hs. destruct (salt_bytes salt Hs) as [bs [Hbs _]].
  exists bs. split; [exact Hbs|].
  unfold packed, Py.to_bytes2. rewrite Hbs.
  replace ((0 <=? bid) && (bid <? 65536)) with true by lia.
  reflexivity.
Qed.

(** Commitment and reveal.  For a bid that fits sixteen bits and a salt of
    the accepted shape, the commitment [h] verifies against its own bid and
    salt.  The comparison ignores letter case: a stored hash is accepted
    exactly when its lower-case form is [h].  Another bid and salt are
    accepted against [h] exactly when the SHA3-256 digest of their packed
    bytes is the digest committed to, and the packed bytes of two pairs are
    equal only if the bids are equal and the salts denote the same bytes. *)
Theorem commit_reveal_binding :
  forall (bid : Z) (salt : string),
    0 <= bid < 65536 -> Py.is_0x_hex 64 salt = true ->
    exists h data,
      GameEngine.compute_commit_hash bid salt = Some h
      /\ packed bid salt = Some data
      /\ GameEngine.verify_reveal h bid salt = Some true
      /\ (forall stored,
             GameEngine.verify_reveal stored bid salt
             = Some (String.eqb h (Py.lower stored)))
      /\ (forall bid' salt',
             0 <= bid' < 65536 -> Py.is_0x_hex 64 salt' = true ->
             exists data',
               packed bid' salt' = Some data'
               /\ (GameEngine.verify_reveal h bid' salt' = Some true
                   <-> Sha3.sha3_256 data' = Sha3.sha3_256 data)
               /\ (GameEngine.verify_reveal h bid' salt' = Some false
                   <-> Sha3.sha3_256 data' <> Sha3.sha3_256 data)
               /\ (data' = data ->
                   bid' = bid
                   /\ Py.fromhex (Py.replace_0x salt') = Py.fromhex (Py.replace_0x salt))).
Proof.
  intros bid salt Hb Hs.
  destruct (packed_valid bid salt Hb Hs) as [sb [Hsb Hp]].
  exists ("0x" ++ Py.hex (Sha3.sha3_256 ([bid / 256; bid mod 256] ++ sb)%list))%string.
  exists ([bid / 256; bid mod 256] ++ sb)%list.
  assert (Hv : forall stored,
             GameEngine.verify_reveal stored bid salt
             = Some (String.eqb
                       ("0x" ++ Py.hex (Sha3.sha3_256 ([bid / 256; bid mod 256] ++ sb)%list))
                       (Py.lower stored))).
  { intros stored. unfold GameEngine.verify_reveal.
    rewrite compute_commit_hash_packed, Hp. now rewrite lower_commit_text. }
  split; [now rewrite compute_commit_hash_packed, Hp|].
  split; [exact Hp|].
  split; [rewrite Hv, lower_commit_text; now rewrite String.eqb_refl|].
  split; [exact Hv|].
  intros bid' salt' Hb' Hs'.
  destruct (packed_valid bid' salt' Hb' Hs') as [sb' [Hsb' Hp']].
  exists ([bid' / 256; bid' mod 256] ++ sb')%list.
  split; [exact Hp'|].
  assert (Hv' : GameEngine.verify_reveal
                  ("0x" ++ Py.hex (Sha3.sha3_256 ([bid / 256; bid mod 256] ++ sb)%list))
                  bid' salt'
                = Some (String.eqb
                          (Py.hex (Sha3.sha3_256 ([bid' / 256; bid' mod 256] ++ sb')%list))
                          (Py.hex (Sha3.sha3_256 ([bid / 256; bid mod 256] ++ sb)%list)))).
  { unfold GameEngine.verify_reveal.
    rewrite compute_commit_hash_packed, Hp', !lower_commit_text. reflexivity. }
  rewrite Hv'.
  split; [|split].
  - split.
    + intros [= E]. apply String.eqb_eq in E.
      apply hex_inj; auto using sha3_256_bytes.
    + intros E. rewrite E. now rewrite String.eqb_refl.
  - split.
    + intros [= E]. apply String.eqb_neq in E. intros E'. apply E. f_equal. exact E'.
    + intros E. f_equal. apply String.eqb_neq. intros E'. apply E.
      apply hex_inj; auto using sha3_256_bytes.
  - intros E. injection E as Ehi Elo Esb. split.
    + rewrite (Z.div_mod bid 256), (Z.div_mod bid' 256) by lia. now rewrite Ehi, Elo.
    + now rewrite Hsb, Hsb', Esb.
Qed.

Lemma commit_reveal_binding_witness :
  exists h data,
    GameEngine.compute_commit_hash 500 salt_1 = Some h
    /\ packed 500 salt_1 = Some data
    /\ GameEngine.verify_reveal h 500 salt_1 = Some true
    /\ (forall stored,
           GameEngine.verify_reveal stored 500 salt_1
           = Some (String.eqb h (Py.lower stored)))
    /\ (forall bid' salt',
           0 <= bid' < 65536 -> Py.is_0x_hex 64 salt' = true ->
           exists data',
             packed bid' salt' = Some data'
             /\ (GameEngine.verify_reveal h bid' salt' = Some true
                 <-> Sha3.sha3_256 data' = Sha3.sha3_256 data)
             /\ (GameEngine.verify_reveal h bid' salt' = Some false
                 <-> Sha3.sha3_256 data' <> Sha3.sha3_256 data)
             /\ (data' = data ->
                 bid' = 500
                 /\ Py.fromhex (Py.replace_0x salt') = Py.fromhex (Py.replace_0x salt_1))).
Proof.
  apply (commit_reveal_binding 500 salt_1); [lia | reflexivity].
Defined.

(** A stored hash that is the text of other digest bytes is rejected. *)
Lemma other_digest_rejected (bid : Z) (salt : string) (data digest : list Z) :
  packed bid salt = Some data ->
  Forall is_byte digest ->
  digest <> Sha3.sha3_256 data ->
  GameEngine.verify_reveal ("0x" ++ Py.hex digest) bid salt = Some false.
Proof.
  intros Hp Hbytes Hne. unfold GameEngine.verify_reveal.
  rewrite compute_commit_hash_packed, Hp, lower_commit_text.
  change (Py.lower ("0x" ++ Py.hex digest)) with ("0x" ++ Py.lower (Py.hex digest))%string.
  rewrite lower_hex by exact Hbytes.
  f_equal. apply String.eqb_neq. intros E. apply Hne. symmetry.
  apply hex_inj; [apply sha3_256_bytes | exact Hbytes |].
  now injection E.
Qed.

(** The comparison of the hashes and the parser of the salt ignore letter
    case: the same commitment and the same salt written with one letter in
    upper case are accepted. *)
Example verify_reveal_ignores_case :
  GameEngine.compute_commit_hash 500 salt_1 = Some hash_1
  /\ GameEngine.verify_reveal hash_1_flipped 500 salt_1 = Some true
  /\ GameEngine.verify_reveal hash_1 500 salt_1_flipped = Some true.
Proof. vm_compute. repeat split. Qed.

(** On the commitment to the bid 500 with [salt_1]: each of the 16 bids one
    bit away, and each of the 8 salts that differ from [salt_1] in one bit
    of the last byte, is rejected. *)
Example sample_mutations_rejected :
  forallb (fun bid' => match GameEngine.verify_reveal hash_1 bid' salt_1 with
                       | Some false => true
                       | _ => false
                       end)
          (bid_flips 500) = true
  /\ match Py.fromhex (Py.replace_0x salt_1) with
     | Some nonce =>
         forallb (fun nonce' =>
                    match GameEngine.verify_reveal hash_1 500 (salt_of_bytes nonce') with
                    | Some false => true
                    | _ => false
                    end)
                 (skipn 248 (byte_flips nonce))
     | None => false
     end = true.
Proof. vm_compute. split; reflexivity. Qed.

(** ** Running code on a session *)

Lemma bind_returned {A B} (m : M A) (k : A -> M B) (db : DB) a db' lg :
  m db = mkRun (Returned a) db' lg ->
  bind m k db = mkRun (outcome (k a db')) (final (k a db')) (lg ++ logged (k a db'))%list.
Proof. intros H. unfold bind. now rewrite H. Qed.

Lemma bind_raised {A B} (m : M A) (k : A -> M B) (db : DB) e db' lg :
  m db = mkRun (Raised e) db' lg ->
  bind m k db = mkRun (Raised e) db' lg.
Proof. intros H. unfold bind. now rewrite H. Qed.

Lemma run_eta {A} (r : Run A) : mkRun (outcome r) (final r) (logged r) = r.
Proof. now destruct r. Qed.

(** Code that logs nothing and whose first step returns: the rest runs on
    the session that step left. *)
Lemma bind_quiet {A B} (m : M A) (k : A -> M B) (db : DB) a db' :
  m db = mkRun (Returned a) db' [] -> bind m k db = k a db'.
Proof. intros H. rewrite (bind_returned m k db a db' [] H). apply run_eta. Qed.

(** ** A round without reveals *)

Lemma has_reveal_false (c : RoundCommit.t) :
  has_reveal c = false ->
  match RoundCommit.revealed c, RoundCommit.bid c, RoundCommit.salt c with
  | true, Some _, Some _ => False
  | _, _, _ => True
  end.
Proof.
  unfold has_reveal.
  destruct (RoundCommit.revealed c), (RoundCommit.bid c), (RoundCommit.salt c);
    simpl; intros; try discriminate; exact I.
Qed.

(** The first loop of [resolve_round] when no commit it visits is a reveal:
    nothing is collected, every visited commit becomes a non-revealer and is
    marked eliminated. *)
Lemma collect_no_reveals (commits : list RoundCommit.t) :
  forallb (fun c => negb (has_reveal c)) commits = true ->
  forall revealed_bids revealed_salts non_revealers db,
    for_fold commits (revealed_bids, revealed_salts, non_revealers)
      (fun '(revealed_bids, revealed_salts, non_revealers) c =>
         match RoundCommit.revealed c, RoundCommit.bid c, RoundCommit.salt c with
         | true, Some bid, Some salt =>
             ret (Dict.set revealed_bids (RoundCommit.agent_address c) bid,
                  (revealed_salts ++ [salt])%list,
                  non_revealers)
         | _, _, _ =>
             bind (assign_commit (RoundCommit.id c) (RoundCommit.with_eliminated true))
                  (fun _ => ret (revealed_bids, revealed_salts,
                                 (non_revealers ++ [RoundCommit.agent_address c])%list))
         end) db
    = mkRun (Returned (revealed_bids, revealed_salts,
                       (non_revealers ++ map RoundCommit.agent_address commits)%list))
            (with_round_commits (mark_eliminated commits (round_commits db)) db)
            [].
Proof.
  induction commits as [|c tl IH]; intros Hall rb rs nr db.
  - simpl. rewrite app_nil_r. now destruct db.
  - simpl in Hall. apply andb_true_iff in Hall. destruct Hall as [Hc Htl].
    apply negb_true_iff, has_reveal_false in Hc.
    cbn [for_fold].
    erewrite bind_quiet.
    2:{ destruct (RoundCommit.revealed c), (RoundCommit.bid c), (RoundCommit.salt c);
        try contradiction; reflexivity. }
    rewrite (IH Htl). cbn [map]. rewrite <- app_assoc. reflexivity.
Qed.

Lemma update_where_fuse {A} (p : A -> bool) (f g : A -> A) (rows : list A) :
  (forall x, p (g x) = p x) ->
  update_where p f (update_where p g rows) = update_where p (fun x => f (g x)) rows.
Proof.
  intros Hp. unfold update_where. rewrite map_map. apply map_ext.
  intros x. destruct (p x) eqn:E; [now rewrite Hp, E | now rewrite E].
Qed.

(** C7, as the code has it.  When no commit of the round is a reveal,
    [resolve_round] returns without raising and without logging; its result
    is the "no_reveals" dictionary with no survivor and with every address
    that committed in the round as eliminated; the commits of the round
    are marked eliminated; the round gets the number 0 in place of a secret
    (no secret is computed from salts), 0 players at the end and its time of
    resolution; tournaments, entries and agents are left as they were. *)
Theorem resolve_round_no_reveals :
  forall (now : Z) (round_obj : Round.t) (db : DB),
    forallb (fun c => negb (has_reveal c))
            (commits_of_round (Round.id round_obj) db) = true ->
    GameEngine.resolve_round now round_obj db
    = mkRun
        (Returned (GameEngine.NoReveals
                     []
                     (map RoundCommit.agent_address
                          (commits_of_round (Round.id round_obj) db))))
        (mkDB (agents db) (tournaments db) (tournament_entries db)
              (update_where (fun r => Round.id r =? Round.id round_obj)
                            (void_round now) (rounds db))
              (mark_eliminated (commits_of_round (Round.id round_obj) db)
                               (round_commits db)))
        [].
Proof.
  intros now round_obj db Hnone.
  unfold GameEngine.resolve_round.
  erewrite bind_quiet by reflexivity.
  erewrite bind_quiet by reflexivity.
  erewrite bind_quiet by (apply collect_no_reveals; exact Hnone).
  cbn [app].
  unfold assign_round, modify, bind, ret. cbn [outcome final logged app].
  unfold with_rounds, with_round_commits. cbn [agents tournaments tournament_entries rounds round_commits].
  rewrite !update_where_fuse by reflexivity.
  reflexivity.
Qed.

Lemma resolve_round_no_reveals_witness :
  GameEngine.resolve_round 2000 round_1 silent_db
  = mkRun
      (Returned (GameEngine.NoReveals
                   []
                   (map RoundCommit.agent_address
                        (commits_of_round (Round.id round_1) silent_db))))
      (mkDB (agents silent_db) (tournaments silent_db) (tournament_entries silent_db)
            (update_where (fun r => Round.id r =? Round.id round_1)
                          (void_round 2000) (rounds silent_db))
            (mark_eliminated (commits_of_round (Round.id round_1) silent_db)
                             (round_commits silent_db)))
      [].
Proof.
  apply (resolve_round_no_reveals 2000 round_1 silent_db). reflexivity.
Defined.

(** C7 as stated fails: with two commits and no reveal the eliminated list
    of the result is not empty, and the round stores 0 as its secret number. *)
Lemma no_reveals_eliminated_not_empty :
  outcome (GameEngine.resolve_round 2000 round_1 silent_db)
  = Returned (GameEngine.NoReveals [] ["0xa1"; "0xa2"])
  /\ map Round.secret_number (rounds (final (GameEngine.resolve_round 2000 round_1 silent_db)))
     = [Some 0].
Proof. split; reflexivity. Qed.

(** ** Reasoning about code on a session *)

(** *** Relations kept by every step *)

Section PreservesRules.

Variable R : DB -> DB -> Prop.
Hypothesis R_refl : forall db, R db db.
Hypothesis R_trans : forall a b c, R a b -> R b c -> R a c.

Lemma preserves_ret {A} (a : A) : preserves R (ret a).
Proof. intros db. apply R_refl. Qed.

Lemma preserves_raise {A} (e : Exn) : preserves R (@raise A e).
Proof. intros db. apply R_refl. Qed.

Lemma preserves_gets {A} (f : DB -> A) : preserves R (gets f).
Proof. intros db. apply R_refl. Qed.

Lemma preserves_logger (line : LogLine) : preserves R (logger line).
Proof. intros db. apply R_refl. Qed.

Lemma preserves_modify (f : DB -> DB) : (forall db, R db (f db)) -> preserves R (modify f).
Proof. intros H db. apply H. Qed.

Lemma preserves_bind {A B} (m : M A) (k : A -> M B) :
  preserves R m -> (forall a, preserves R (k a)) -> preserves R (bind m k).
Proof.
  intros Hm Hk db. unfold bind. specialize (Hm db).
  destruct (outcome (m db)) as [a|e]; cbn [final]; [|exact Hm].
  eapply R_trans; [exact Hm | apply Hk].
Qed.

Lemma preserves_for_each {A} (xs : list A) (body : A -> M unit) :
  (forall x, preserves R (body x)) -> preserves R (for_each xs body).
Proof.
  intros Hb. induction xs as [|x tl IH]; cbn [for_each].
  - apply preserves_ret.
  - apply preserves_bind; [apply Hb | intros _; exact IH].
Qed.

Lemma preserves_for_fold {A S} (xs : list A) (body : S -> A -> M S) :
  (forall acc x, preserves R (body acc x)) ->
  forall acc, preserves R (for_fold xs acc body).
Proof.
  intros Hb. induction xs as [|x tl IH]; intros acc; cbn [for_fold].
  - apply preserves_ret.
  - apply preserves_bind; [apply Hb | intros acc'; apply IH].
Qed.

Lemma preserves_try_except (body : M unit) (handler : Exn -> M unit) :
  preserves R body -> (forall e, preserves R (handler e)) ->
  preserves R (try_except body handler).
Proof.
  intros Hb Hh db. unfold try_except. specialize (Hb db).
  destruct (body db) as [[u|e] db' lg]; cbn [outcome final] in *; [exact Hb|].
  eapply R_trans; [exact Hb | apply Hh].
Qed.

Lemma preserves_when (c : bool) (m : M unit) : preserves R m -> preserves R (when c m).
Proof. intros Hm. destruct c; [exact Hm | apply preserves_ret]. Qed.

Lemma preserves_scalar_one_or_none {A} (rows : list A) :
  preserves R (scalar_one_or_none rows).
Proof. destruct rows as [|x [|y tl]]; intros db; apply R_refl. Qed.

Lemma preserves_deref {A} (o : option A) : preserves R (deref o).
Proof. destruct o; intros db; apply R_refl. Qed.

End PreservesRules.

(** ** Reveals *)

Lemma readonly_unchanged_on_raise {A} (m : M A) :
  preserves eq m -> unchanged_on_raise m.
Proof. intros H db e _. symmetry. apply H. Qed.

Lemma never_raises_unchanged_on_raise {A} (m : M A) :
  never_raises m -> unchanged_on_raise m.
Proof. intros H db e He. destruct (H db) as [a Ha]. congruence. Qed.

Lemma unchanged_on_raise_bind {A B} (m : M A) (k : A -> M B) :
  preserves eq m -> (forall a, unchanged_on_raise (k a)) ->
  unchanged_on_raise (bind m k).
Proof.
  intros Hm Hk db e. unfold bind. specialize (Hm db).
  destruct (m db) as [[a|e'] db' lg]; cbn [outcome final] in *; subst db'.
  - apply Hk.
  - reflexivity.
Qed.

Lemma never_raises_bind {A B} (m : M A) (k : A -> M B) :
  never_raises m -> (forall a, never_raises (k a)) -> never_raises (bind m k).
Proof.
  intros Hm Hk db. unfold bind. destruct (Hm db) as [a Ha].
  rewrite Ha. cbn [outcome]. apply Hk.
Qed.

Lemma never_raises_modify (f : DB -> DB) : never_raises (modify f).
Proof. intros db. now exists tt. Qed.

Lemma never_raises_ret {A} (a : A) : never_raises (ret a).
Proof. intros db. now exists a. Qed.

Lemma eq_trans_db (a b c : DB) : a = b -> b = c -> a = c.
Proof. congruence. Qed.

Ltac readonly :=
  repeat lazymatch goal with
    | |- preserves eq (ret _) => apply preserves_ret; reflexivity
    | |- preserves eq (raise _) => apply preserves_raise; reflexivity
    | |- preserves eq (gets _) => apply preserves_gets; reflexivity
    | |- preserves eq (when _ _) => apply preserves_when; [reflexivity|]
    | |- preserves eq (scalar_one_or_none _) =>
        apply preserves_scalar_one_or_none; reflexivity
    | |- preserves eq (deref _) => apply preserves_deref; reflexivity
    | |- preserves eq (bind _ _) =>
        apply preserves_bind; [exact eq_trans_db | | intros ?]
    | |- preserves eq (match ?x with _ => _ end) => destruct x
    end.

(** A reveal that raises has assigned nothing: every check comes before
    the first assignment. *)
Lemma submit_reveal_raises_unchanged :
  forall now revealed_at tournament_id req agent,
    unchanged_on_raise (Main.submit_reveal now revealed_at tournament_id req agent).
Proof.
  intros now revealed_at tournament_id req agent.
  unfold Main.submit_reveal.
  apply unchanged_on_raise_bind; [readonly | intros _].
  apply unchanged_on_raise_bind; [unfold get_tournament; readonly | intros [tournament|]].
  2:{ apply readonly_unchanged_on_raise. readonly. }
  apply unchanged_on_raise_bind; [readonly | intros _].
  apply unchanged_on_raise_bind; [readonly | intros _].
  apply unchanged_on_raise_bind;
    [unfold Main.current_round_of, select_rounds; readonly | intros [current_round|]].
  2:{ apply readonly_unchanged_on_raise. readonly. }
  apply unchanged_on_raise_bind;
    [unfold Main.commit_of, select_commits; readonly | intros [commit|]].
  2:{ apply readonly_unchanged_on_raise. readonly. }
  apply unchanged_on_raise_bind; [readonly | intros _].
  apply unchanged_on_raise_bind; [readonly | intros ok].
  apply unchanged_on_raise_bind; [readonly | intros _].
  apply never_raises_unchanged_on_raise.
  unfold assign_commit.
  repeat (apply never_raises_bind; [apply never_raises_modify | intros _]).
  apply never_raises_ret.
Qed.

Lemma current_round_of_run (tid n : Z) (db : DB) :
  Main.current_round_of tid n db = scalar_one_or_none (rounds_numbered tid n db) db.
Proof.
  unfold Main.current_round_of, select_rounds.
  erewrite bind_quiet by reflexivity. reflexivity.
Qed.

Lemma commit_of_run (rid : Z) (addr : string) (db : DB) :
  Main.commit_of rid addr db = scalar_one_or_none (commits_by rid addr db) db.
Proof.
  unfold Main.commit_of, select_commits.
  erewrite bind_quiet by reflexivity. reflexivity.
Qed.

(** The checks of [submit_reveal] up to the verification of the hash, for a
    well-formed request in the reveal phase before the deadline, with one
    round and one commit that is not revealed yet. *)
Lemma submit_reveal_checked :
  forall now revealed_at tid req agent db t r c,
    Main.RevealRequest_valid req = true ->
    find_tournament tid db = Some t ->
    Tournament.state t = REVEAL ->
    past_deadline t now = false ->
    rounds_numbered tid (Tournament.current_round t) db = [r] ->
    commits_by (Round.id r) (Agent.wallet_address agent) db = [c] ->
    RoundCommit.revealed c = false ->
    forall ok,
      GameEngine.verify_reveal (RoundCommit.commit_hash c)
                               (Main.req_bid req) (Main.req_salt req) = Some ok ->
      Main.submit_reveal now revealed_at tid req agent db
      = if ok
        then mkRun (Returned (Tournament.current_round t, Main.req_bid req))
                   (with_round_commits
                      (update_where (fun c' => RoundCommit.id c' =? RoundCommit.id c)
                                    (reveal_fields req revealed_at) (round_commits db))
                      db)
                   []
        else mkRun (Raised (HTTPException 400)) db [].
Proof.
  intros now revealed_at tid req agent db t r c Hreq Ht Hstate Hdl Hr Hc Hrev ok Hok.
  unfold Main.submit_reveal.
  rewrite Hreq. cbn [negb when].
  erewrite bind_quiet by reflexivity.
  erewrite bind_quiet by reflexivity.
  rewrite Ht, Hstate. cbn [TournamentState_eqb negb when].
  erewrite bind_quiet by reflexivity.
  unfold past_deadline in Hdl. rewrite Hdl. cbn [when].
  erewrite bind_quiet by reflexivity.
  erewrite bind_quiet by (rewrite current_round_of_run, Hr; reflexivity).
  cbv beta iota.
  erewrite bind_quiet by (rewrite commit_of_run, Hc; reflexivity).
  cbv beta iota.
  rewrite Hrev. cbn [when].
  erewrite bind_quiet by reflexivity.
  rewrite Hok.
  erewrite bind_quiet by reflexivity.
  destruct ok; cbn [negb when].
  - erewrite bind_quiet by reflexivity.
    unfold assign_commit, modify, bind, ret. cbn [outcome final logged app].
    unfold with_round_commits. cbn [agents tournaments tournament_entries rounds round_commits].
    rewrite !update_where_fuse by reflexivity.
    reflexivity.
  - reflexivity.
Qed.

(** C6, as the code has it.  A reveal that does not reproduce the stored
    hash is answered with HTTP 400 and changes nothing, and it is not final:
    when the same participant then reveals the pair that does reproduce the
    hash, still in the reveal phase and before the deadline, the reveal is
    accepted and stored. *)
Theorem mismatch_is_not_terminal :
  forall (db : DB) (tid : Z) (agent : Agent.t) (t : Tournament.t) (r : Round.t)
         (c : RoundCommit.t) (wrong right : Main.RevealRequest)
         (now1 at1 now2 at2 : Z),
    find_tournament tid db = Some t ->
    Tournament.state t = REVEAL ->
    past_deadline t now1 = false ->
    past_deadline t now2 = false ->
    rounds_numbered tid (Tournament.current_round t) db = [r] ->
    commits_by (Round.id r) (Agent.wallet_address agent) db = [c] ->
    RoundCommit.revealed c = false ->
    Main.RevealRequest_valid wrong = true ->
    Main.RevealRequest_valid right = true ->
    GameEngine.verify_reveal (RoundCommit.commit_hash c)
                             (Main.req_bid wrong) (Main.req_salt wrong) = Some false ->
    GameEngine.verify_reveal (RoundCommit.commit_hash c)
                             (Main.req_bid right) (Main.req_salt right) = Some true ->
    let first := Main.get_db (Main.submit_reveal now1 at1 tid wrong agent) db in
    let second := Main.get_db (Main.submit_reveal now2 at2 tid right agent) (final first) in
    outcome first = Raised (HTTPException 400)
    /\ final first = db
    /\ outcome second = Returned (Tournament.current_round t, Main.req_bid right)
    /\ final second
       = with_round_commits
           (update_where (fun c' => RoundCommit.id c' =? RoundCommit.id c)
                         (reveal_fields right at2) (round_commits db))
           db.
Proof.
  intros db tid agent t r c wrong right now1 at1 now2 at2
         Ht Hstate Hd1 Hd2 Hr Hc Hrev Hw Hg Hvw Hvg first second.
  assert (H1 : first = mkRun (Raised (HTTPException 400)) db []).
  { subst first. unfold Main.get_db.
    rewrite (submit_reveal_checked now1 at1 tid wrong agent db t r c
               Hw Ht Hstate Hd1 Hr Hc Hrev false Hvw).
    reflexivity. }
  subst second. rewrite H1. cbn [outcome final].
  unfold Main.get_db.
  rewrite (submit_reveal_checked now2 at2 tid right agent db t r c
             Hg Ht Hstate Hd2 Hr Hc Hrev true Hvg).
  cbn [outcome final]. repeat split.
Qed.

Lemma mismatch_is_not_terminal_witness :
  let first := Main.get_db (Main.submit_reveal 10 11 1 wrong_reveal agent_a1) silent_db in
  let second := Main.get_db (Main.submit_reveal 20 21 1 right_reveal agent_a1) (final first) in
  outcome first = Raised (HTTPException 400)
  /\ final first = silent_db
  /\ outcome second = Returned (1, 500)
  /\ final second
     = with_round_commits
         (update_where (fun c' => RoundCommit.id c' =? 1)
                       (reveal_fields right_reveal 21) (round_commits silent_db))
         silent_db.
Proof.
  apply (mismatch_is_not_terminal
           silent_db 1 agent_a1 (sample_tournament 1 REVEAL 1 (Some 1000)) round_1
           (unrevealed_commit 1 1 "0xa1" hash_1) wrong_reveal right_reveal 10 11 20 21);
    vm_compute; reflexivity.
Defined.

(** C6 as stated fails: after a reveal with the wrong bid was rejected, the
    same participant reveals the right bid in the same round and succeeds. *)
Lemma reveal_after_mismatch_succeeds :
  let first := Main.get_db (Main.submit_reveal 10 11 1 wrong_reveal agent_a1) silent_db in
  let second := Main.get_db (Main.submit_reveal 20 21 1 right_reveal agent_a1) (final first) in
  outcome first = Raised (HTTPException 400)
  /\ outcome second = Returned (1, 500)
  /\ map (fun c => (RoundCommit.agent_address c, RoundCommit.revealed c, RoundCommit.bid c))
         (round_commits (final second))
     = [("0xa1", true, Some 500); ("0xa2", false, None)].
Proof. vm_compute. repeat split. Qed.

(** ** Tables *)

Lemma update_where_ids {A K} (key : A -> K) (p : A -> bool) (f : A -> A) (rows : list A) :
  (forall x, key (f x) = key x) ->
  map key (update_where p f rows) = map key rows.
Proof.
  intros Hk. unfold update_where. rewrite map_map. apply map_ext.
  intros x. destruct (p x); [apply Hk | reflexivity].
Qed.

Lemma update_where_elsewhere {A} (p q : A -> bool) (f : A -> A) (rows : list A) :
  (forall x, q (f x) = q x) ->
  (forall x, p x = true -> q x = false) ->
  filter q (update_where p f rows) = filter q rows.
Proof.
  intros Hq Hpq. induction rows as [|x tl IH]; [reflexivity|].
  cbn [update_where map filter]. fold (update_where p f tl). rewrite IH.
  destruct (p x) eqn:Hp; [|reflexivity].
  rewrite Hq, (Hpq x Hp). reflexivity.
Qed.

Lemma find_update_where (tid : Z) (f : Tournament.t -> Tournament.t)
      (rows : list Tournament.t) :
  (forall t, Tournament.id (f t) = Tournament.id t) ->
  find (fun t => Tournament.id t =? tid)
       (update_where (fun t => Tournament.id t =? tid) f rows)
  = option_map f (find (fun t => Tournament.id t =? tid) rows).
Proof.
  intros Hid. induction rows as [|x tl IH]; [reflexivity|].
  cbn [update_where map find]. fold (update_where (fun t => Tournament.id t =? tid) f tl).
  destruct (Tournament.id x =? tid) eqn:E.
  - rewrite Hid, E. reflexivity.
  - rewrite E. exact IH.
Qed.


Lemma find_unique (db : DB) (t : Tournament.t) :
  unique_ids db -> In t (tournaments db) ->
  find_tournament (Tournament.id t) db = Some t.
Proof.
  unfold unique_ids, find_tournament.
  induction (tournaments db) as [|x tl IH]; intros Hnd Hin; [contradiction|].
  cbn [map] in Hnd. inversion Hnd as [|? ? Hx Htl]; subst.
  cbn [find]. destruct Hin as [->|Hin].
  - now rewrite Z.eqb_refl.
  - destruct (Z.eqb_spec (Tournament.id x) (Tournament.id t)) as [E|_].
    + exfalso. apply Hx. rewrite E. now apply in_map.
    + now apply IH.
Qed.

Lemma find_in_others (tid tid' : Z) (db : DB) :
  tid <> tid' ->
  find_tournament tid db = find (fun t => Tournament.id t =? tid) (others tid' db).
Proof.
  intros Hne. unfold find_tournament, others.
  induction (tournaments db) as [|x tl IH]; [reflexivity|].
  cbn [find filter].
  destruct (Z.eqb_spec (Tournament.id x) tid) as [E|NE].
  - replace (Tournament.id x =? tid') with false by lia.
    cbn [negb find]. replace (Tournament.id x =? tid) with true by lia. reflexivity.
  - destruct (negb (Tournament.id x =? tid')); [|exact IH].
    cbn [find]. replace (Tournament.id x =? tid) with false by lia. exact IH.
Qed.

Lemma find_exists_of_ids (tid : Z) (db db' : DB) :
  map Tournament.id (tournaments db') = map Tournament.id (tournaments db) ->
  find_tournament tid db <> None -> find_tournament tid db' <> None.
Proof.
  unfold find_tournament. intros Hids.
  assert (Hgen : forall l, find (fun t => Tournament.id t =? tid) l <> None
                           <-> In tid (map Tournament.id l)).
  { induction l as [|x tl IH]; cbn [find map In]; [tauto|].
    destruct (Z.eqb_spec (Tournament.id x) tid); [|rewrite IH; tauto].
    split; [intros _; now left | discriminate]. }
  rewrite !Hgen, Hids. tauto.
Qed.

(** ** The frame of a tournament *)

Lemma frame_refl (tid : Z) (db : DB) : frame tid db db.
Proof.
  repeat split. exists []. now rewrite app_nil_r.
Qed.

Lemma frame_trans (tid : Z) (a b c : DB) : frame tid a b -> frame tid b c -> frame tid a c.
Proof.
  intros [Hi1 [Ho1 [e1 [Hr1 He1]]]] [Hi2 [Ho2 [e2 [Hr2 He2]]]].
  split; [congruence|]. split; [congruence|].
  exists (e1 ++ e2)%list. split.
  - now rewrite Hr2, Hr1, app_assoc.
  - apply Forall_app. now split.
Qed.

Lemma frame_same_tables (tid : Z) (db db' : DB) :
  tournaments db' = tournaments db -> rounds db' = rounds db -> frame tid db db'.
Proof.
  intros Ht Hr. unfold frame, others. rewrite Ht, Hr.
  repeat split. exists []. now rewrite app_nil_r.
Qed.

Lemma frame_assign_tournament (tid : Z) (f : Tournament.t -> Tournament.t) :
  (forall t, Tournament.id (f t) = Tournament.id t) ->
  preserves (frame tid) (assign_tournament tid f).
Proof.
  intros Hid db. unfold assign_tournament, modify, frame, others. cbn.
  split; [now apply update_where_ids|]. split.
  - apply update_where_elsewhere.
    + intros t. now rewrite Hid.
    + intros t Ht. now rewrite Ht.
  - exists []. now rewrite app_nil_r.
Qed.

Lemma frame_assign_round (tid rid : Z) (f : Round.t -> Round.t) :
  (forall r, round_key (f r) = round_key r) ->
  preserves (frame tid) (assign_round rid f).
Proof.
  intros Hk db. unfold assign_round, modify, frame, others. cbn.
  repeat split. exists []. rewrite app_nil_r.
  split; [now apply update_where_ids | constructor].
Qed.

Lemma frame_add_round (tid : Z) (mk : Z -> Round.t) :
  (forall id, Round.tournament_id (mk id) = tid) ->
  preserves (frame tid) (add_round mk).
Proof.
  intros Hk db. unfold add_round, frame, others. cbn.
  repeat split. eexists. split.
  - rewrite map_app. reflexivity.
  - repeat constructor. cbn. apply Hk.
Qed.

Lemma frame_assign_commit (tid cid : Z) (f : RoundCommit.t -> RoundCommit.t) :
  preserves (frame tid) (assign_commit cid f).
Proof. intros db. now apply frame_same_tables. Qed.

Lemma frame_assign_entry (tid eid : Z) (f : TournamentEntry.t -> TournamentEntry.t) :
  preserves (frame tid) (assign_entry eid f).
Proof. intros db. now apply frame_same_tables. Qed.

Lemma frame_assign_agent (tid aid : Z) (f : Agent.t -> Agent.t) :
  preserves (frame tid) (assign_agent aid f).
Proof. intros db. now apply frame_same_tables. Qed.

(** Steps through code; [refl] and [trans] prove the relation a preorder. *)
Ltac preserves_step refl trans :=
  lazymatch goal with
  | |- preserves _ (ret _) => apply preserves_ret; exact refl
  | |- preserves _ (raise _) => apply preserves_raise; exact refl
  | |- preserves _ (gets _) => apply preserves_gets; exact refl
  | |- preserves _ (logger _) => apply preserves_logger; exact refl
  | |- preserves _ (deref _) => apply preserves_deref; exact refl
  | |- preserves _ (scalar_one_or_none _) =>
      apply preserves_scalar_one_or_none; exact refl
  | |- preserves _ (when _ _) => apply preserves_when; [exact refl|]
  | |- preserves _ (bind _ _) => apply preserves_bind; [exact trans | | intros ?]
  | |- preserves _ (for_each _ _) =>
      apply preserves_for_each; [exact refl | exact trans | intros ?]
  | |- preserves _ (for_fold _ _ _) =>
      apply preserves_for_fold; [exact refl | exact trans | intros ? ?]
  | |- preserves _ (try_except _ _) =>
      apply preserves_try_except; [exact trans | | intros ?]
  | |- preserves _ (let _ := _ in _) => cbv zeta
  | |- preserves _ (match ?x with _ => _ end) => destruct x
  | |- preserves _ ((match ?x with _ => _ end) _) => destruct x
  end.

Ltac unfold_queries :=
  unfold tournament_attr, GameEngine.entry_of, Main.current_round_of, Main.commit_of;
  unfold get_tournament, get_agent_by_id,
    select_tournaments, select_entries, select_rounds, select_commits.

Ltac frame_leaf :=
  lazymatch goal with
  | |- preserves _ (assign_tournament _ _) =>
      apply frame_assign_tournament; intros; reflexivity
  | |- preserves _ (assign_round _ _) =>
      apply frame_assign_round; intros; reflexivity
  | |- preserves _ (add_round _) => apply frame_add_round; intros; reflexivity
  | |- preserves _ (assign_commit _ _) => apply frame_assign_commit
  | |- preserves _ (assign_entry _ _) => apply frame_assign_entry
  | |- preserves _ (assign_agent _ _) => apply frame_assign_agent
  end.

Ltac frame_auto tid :=
  unfold_queries;
  repeat first [preserves_step (frame_refl tid) (frame_trans tid) | frame_leaf].

Section EngineFrames.

Variable config : Config.

Lemma open_reveal_phase_frame (now : Z) (round_obj : Round.t) :
  preserves (frame (Round.tournament_id round_obj))
            (GameEngine.open_reveal_phase config now round_obj).
Proof.
  unfold GameEngine.open_reveal_phase.
  frame_auto (Round.tournament_id round_obj).
Qed.

Lemma start_new_round_frame (now tid alive_count : Z) :
  preserves (frame tid) (GameEngine.start_new_round config now tid alive_count).
Proof. unfold GameEngine.start_new_round. frame_auto tid. Qed.

Lemma start_tournament_frame (started now tid : Z) :
  preserves (frame tid) (GameEngine.start_tournament config started now tid).
Proof. unfold GameEngine.start_tournament. frame_auto tid. Qed.

Lemma finish_tournament_frame (now tid : Z) (ranking : list string) :
  preserves (frame tid) (GameEngine.finish_tournament now tid ranking).
Proof. unfold GameEngine.finish_tournament. frame_auto tid. Qed.

Lemma resolve_round_frame (now : Z) (round_obj : Round.t) :
  preserves (frame (Round.tournament_id round_obj))
            (GameEngine.resolve_round now round_obj).
Proof.
  unfold GameEngine.resolve_round, GameEngine.collect_reveals.
  frame_auto (Round.tournament_id round_obj).
Qed.

End EngineFrames.

(** ** One tournament of the tick *)

Lemma preserves_bind_returned {A B} (R : DB -> DB -> Prop) (m : M A) (k : A -> M B) :
  (forall a b c, R a b -> R b c -> R a c) ->
  preserves R m ->
  (forall db a, outcome (m db) = Returned a ->
                R (final (m db)) (final (k a (final (m db))))) ->
  preserves R (bind m k).
Proof.
  intros Rt Hm Hk db. unfold bind. specialize (Hm db). specialize (Hk db).
  destruct (m db) as [[a|e] db' lg]; cbn [outcome final] in *; [|exact Hm].
  eapply Rt; [exact Hm | now apply Hk].
Qed.

Lemma tournament_attr_run {A} (tid : Z) (attr : Tournament.t -> A) (db : DB) :
  tournament_attr tid attr db
  = match find_tournament tid db with
    | Some t => mkRun (Returned (attr t)) db []
    | None => mkRun (Raised AttributeError) db []
    end.
Proof.
  unfold tournament_attr, get_tournament.
  erewrite bind_quiet by reflexivity.
  destruct (find_tournament tid db); reflexivity.
Qed.

Lemma rounds_numbered_key (tid n : Z) (db : DB) (r : Round.t) :
  In r (rounds_numbered tid n db) ->
  Round.tournament_id r = tid /\ Round.round_number r = n.
Proof.
  unfold rounds_numbered. intros H. apply filter_In in H.
  destruct H as [_ H]. apply andb_true_iff in H. lia.
Qed.

Lemma current_round_of_some (tid n : Z) (db : DB) (r : Round.t) :
  outcome (Main.current_round_of tid n db) = Returned (Some r) ->
  rounds_numbered tid n db = [r].
Proof.
  rewrite current_round_of_run.
  destruct (rounds_numbered tid n db) as [|x [|y tl]]; cbn; congruence.
Qed.

Section TickFrames.

Variable config : Config.
Variable chain : Chain.

Lemma advance_phase_frame (clock : nat -> Z) (r : Round.t) :
  preserves (frame (Round.tournament_id r))
            (Main.advance_phase config chain clock (Round.tournament_id r) r).
Proof.
  unfold Main.advance_phase.
  apply preserves_bind;
    [exact (frame_trans _) | frame_auto (Round.tournament_id r) | intros state].
  destruct state; try (apply preserves_ret; exact (frame_refl _)).
  - apply preserves_bind;
      [exact (frame_trans _) | apply open_reveal_phase_frame | intros _].
    frame_auto (Round.tournament_id r).
  - apply preserves_bind;
      [exact (frame_trans _) | apply resolve_round_frame | intros result].
    apply preserves_bind;
      [exact (frame_trans _) | frame_auto (Round.tournament_id r) | intros n'].
    apply preserves_bind;
      [exact (frame_trans _) | frame_auto (Round.tournament_id r) | intros _].
    destruct result.
    + apply finish_tournament_frame.
    + apply preserves_bind;
        [exact (frame_trans _) | apply finish_tournament_frame | intros _].
      frame_auto (Round.tournament_id r).
    + apply preserves_bind;
        [exact (frame_trans _) | apply start_new_round_frame | intros _].
      frame_auto (Round.tournament_id r).
Qed.

Lemma phase_transition_frame (clock : nat -> Z) (tid : Z) :
  preserves (frame tid) (Main.phase_transition config chain clock tid).
Proof.
  unfold Main.phase_transition.
  apply preserves_bind; [exact (frame_trans tid) | frame_auto tid | intros n].
  apply preserves_bind_returned;
    [exact (frame_trans tid) | frame_auto tid | intros db [r|] Hr].
  2:{ apply frame_refl. }
  apply current_round_of_some in Hr.
  assert (Hin : In r (rounds_numbered tid n db)) by (rewrite Hr; now left).
  apply rounds_numbered_key in Hin. destruct Hin as [Htid _]. subst tid.
  apply advance_phase_frame.
Qed.

(** One iteration of the loop of the tick. *)
Lemma tick_iteration_frame (clock : nat -> Z) (tid : Z) :
  preserves (frame tid)
            (try_except (Main.phase_transition config chain clock tid)
                        (fun _ => logger (PhaseError tid))).
Proof.
  apply preserves_try_except; [exact (frame_trans tid) | | intros e].
  - apply phase_transition_frame.
  - apply preserves_logger. exact (frame_refl tid).
Qed.

End TickFrames.

(** ** What the frame of a tournament gives the others *)

Lemma frame_find (tid tid' : Z) (db db' : DB) :
  frame tid' db db' -> tid <> tid' ->
  find_tournament tid db' = find_tournament tid db.
Proof.
  intros [_ [Ho _]] Hne.
  now rewrite (find_in_others tid tid' db' Hne), (find_in_others tid tid' db Hne), Ho.
Qed.

Lemma frame_unique_ids (tid : Z) (db db' : DB) :
  frame tid db db' -> unique_ids db -> unique_ids db'.
Proof. intros [Hi _]. unfold unique_ids. now rewrite Hi. Qed.


Lemma frame_in_others (tid' : Z) (db db' : DB) (t : Tournament.t) :
  frame tid' db db' -> In t (tournaments db') -> Tournament.id t <> tid' ->
  In t (tournaments db).
Proof.
  intros [_ [Ho _]] Hin Hne.
  assert (H : In t (others tid' db')).
  { unfold others. apply filter_In. split; [exact Hin|].
    apply negb_true_iff. lia. }
  rewrite Ho in H. unfold others in H. now apply filter_In in H.
Qed.

Lemma rounds_numbered_keys (tid n : Z) (db : DB) :
  map round_key (rounds_numbered tid n db)
  = filter (key_numbered tid n) (map round_key (rounds db)).
Proof.
  unfold rounds_numbered.
  induction (rounds db) as [|r tl IH]; [reflexivity|].
  cbn [filter map]. unfold key_numbered at 1. cbn [round_key fst snd].
  destruct ((Round.tournament_id r =? tid) && (Round.round_number r =? n));
    cbn [map]; now rewrite IH.
Qed.

Lemma frame_rounds_numbered (tid tid' n : Z) (db db' : DB) :
  frame tid' db db' -> tid <> tid' ->
  map round_key (rounds_numbered tid n db') = map round_key (rounds_numbered tid n db).
Proof.
  intros [_ [_ [extra [Hr He]]]] Hne.
  rewrite !rounds_numbered_keys, Hr, filter_app.
  replace (filter (key_numbered tid n) extra) with (@nil (Z * Z * Z)).
  - now rewrite app_nil_r.
  - symmetry. clear Hr. induction He as [|k tl Hk _ IH]; [reflexivity|].
    cbn [filter]. unfold key_numbered at 1.
    replace (snd (fst k) =? tid) with false by lia. exact IH.
Qed.


Lemma frame_one_round (tid tid' n : Z) (db db' : DB) (r : Round.t) :
  frame tid' db db' -> tid <> tid' ->
  rounds_numbered tid n db = [r] ->
  exists r', rounds_numbered tid n db' = [r'] /\ round_key r' = round_key r.
Proof.
  intros Hf Hne H1. pose proof (frame_rounds_numbered tid tid' n db db' Hf Hne) as H.
  rewrite H1 in H. cbn [map] in H.
  destruct (rounds_numbered tid n db') as [|r' [|r'' tl]]; try discriminate.
  exists r'. split; [reflexivity|]. cbn [map] in H. congruence.
Qed.

(** ** Tournaments in the same phase *)












(** ** What the engine assigns to the tournament *)


Section EngineEffects.

Variable config : Config.


Lemma start_new_round_run (now tid alive_count : Z) (db : DB) (t : Tournament.t) :
  find_tournament tid db = Some t ->
  GameEngine.start_new_round config now tid alive_count db
  = mkRun (Returned (new_round_row config now tid alive_count t db))
          (mkDB (agents db)
                (update_where (fun t => Tournament.id t =? tid)
                              (to_commit (now + timedelta (COMMIT_DURATION config)))
                              (tournaments db))
                (tournament_entries db)
                (rounds db ++ [new_round_row config now tid alive_count t db])%list
                (round_commits db))
          [].
Proof.
  intros Ht. unfold GameEngine.start_new_round. cbv zeta.
  erewrite bind_quiet by reflexivity.
  rewrite Ht.
  erewrite bind_quiet by reflexivity.
  erewrite bind_quiet by reflexivity.
  erewrite bind_quiet.
  2:{ rewrite tournament_attr_run. unfold find_tournament, with_tournaments.
      cbn [tournaments]. rewrite find_update_where by reflexivity.
      fold (find_tournament tid db). rewrite Ht. reflexivity. }
  erewrite bind_quiet by reflexivity.
  unfold assign_tournament, modify, bind, ret. cbn [outcome final logged app].
  unfold with_tournaments, with_rounds, new_round_row.
  cbn [agents tournaments tournament_entries rounds round_commits
       Tournament.current_round Tournament.with_current_round Round.commit_deadline].
  rewrite !update_where_fuse by reflexivity.
  reflexivity.
Qed.


End EngineEffects.

(** ** The effect of the tick on one tournament *)

Lemma outcome_bind {A B} (m : M A) (k : A -> M B) (db : DB) :
  outcome (bind m k db)
  = match outcome (m db) with
    | Returned a => outcome (k a (final (m db)))
    | Raised e => Raised e
    end.
Proof. unfold bind. destruct (outcome (m db)); reflexivity. Qed.

Lemma final_bind {A B} (m : M A) (k : A -> M B) (db : DB) :
  final (bind m k db)
  = match outcome (m db) with
    | Returned a => final (k a (final (m db)))
    | Raised e => final (m db)
    end.
Proof. unfold bind. destruct (outcome (m db)); reflexivity. Qed.





Section Settle.

Variable config : Config.
Variable chain : Chain.

Hypothesis commit_duration_nonneg : 0 <= COMMIT_DURATION config.
Hypothesis reveal_duration_nonneg : 0 <= REVEAL_DURATION config.

Variable now : Z.
Variable clock : nat -> Z.
Hypothesis clock_after : forall k, now <= clock k.



Lemma phase_transition_run (tid : Z) (db : DB) (t : Tournament.t) :
  find_tournament tid db = Some t ->
  Main.phase_transition config chain clock tid db
  = match rounds_numbered tid (Tournament.current_round t) db with
    | [] => mkRun (Returned tt) db []
    | [r] => Main.advance_phase config chain clock tid r db
    | _ => mkRun (Raised MultipleResultsFound) db []
    end.
Proof.
  intros Ht. unfold Main.phase_transition.
  erewrite bind_quiet by (rewrite tournament_attr_run, Ht; reflexivity).
  unfold bind. rewrite current_round_of_run.
  destruct (rounds_numbered tid (Tournament.current_round t) db) as [|r [|r' tl]];
    cbn; try reflexivity.
  apply run_eta.
Qed.




End Settle.

(** ** The loop of the tick *)

Lemma for_each_noop {A} (xs : list A) (body : A -> M unit) (db : DB) :
  (forall x, In x xs -> body x db = mkRun (Returned tt) db []) ->
  for_each xs body db = mkRun (Returned tt) db [].
Proof.
  induction xs as [|x tl IH]; intros H; [reflexivity|].
  cbn [for_each]. rewrite (bind_quiet _ _ _ tt db (H x (or_introl eq_refl))).
  apply IH. intros y Hy. apply H. now right.
Qed.


Section Iterations.

Variable config : Config.
Variable chain : Chain.

Lemma tick_run (now : Z) (clock : Z -> nat -> Z) (db : DB) :
  Main.process_phase_transitions config chain now clock db
  = for_each (filter (Main.due now) (tournaments db))
             (tick_iteration config chain clock) db.
Proof.
  unfold Main.process_phase_transitions, select_tournaments.
  erewrite bind_quiet by reflexivity. reflexivity.
Qed.

Lemma tick_iteration_returns (clock : Z -> nat -> Z) (t : Tournament.t) (db : DB) :
  outcome (tick_iteration config chain clock t db) = Returned tt.
Proof.
  unfold tick_iteration, try_except. cbv zeta.
  destruct (Main.phase_transition config chain (clock (Tournament.id t))
                                  (Tournament.id t) db) as [[[]|e] db' lg];
    reflexivity.
Qed.


Lemma tick_iteration_frame_of (clock : Z -> nat -> Z) (t : Tournament.t) (db : DB) :
  frame (Tournament.id t) db (final (tick_iteration config chain clock t db)).
Proof. apply tick_iteration_frame. Qed.

Lemma iterations_return (clock : Z -> nat -> Z) (xs : list Tournament.t) (db : DB) :
  outcome (for_each xs (tick_iteration config chain clock) db) = Returned tt.
Proof.
  revert db. induction xs as [|x tl IH]; intros db; [reflexivity|].
  cbn [for_each]. rewrite outcome_bind, tick_iteration_returns. apply IH.
Qed.

(** The iterations for other tournaments leave a tournament and the keys
    of its rounds as they are. *)
Lemma iterations_keep (clock : Z -> nat -> Z) (tid : Z) (xs : list Tournament.t) :
  forall db,
    (forall x, In x xs -> Tournament.id x <> tid) ->
    find_tournament tid (final (for_each xs (tick_iteration config chain clock) db))
    = find_tournament tid db
    /\ (forall n,
           map round_key
               (rounds_numbered tid n
                  (final (for_each xs (tick_iteration config chain clock) db)))
           = map round_key (rounds_numbered tid n db))
    /\ map Tournament.id
           (tournaments (final (for_each xs (tick_iteration config chain clock) db)))
       = map Tournament.id (tournaments db).
Proof.
  induction xs as [|x tl IH]; intros db Hne; [now repeat split|].
  cbn [for_each]. rewrite final_bind, tick_iteration_returns.
  pose proof (tick_iteration_frame_of clock x db) as Hf.
  assert (Hx : tid <> Tournament.id x).
  { intros E. apply (Hne x); [now left | now symmetry]. }
  destruct (IH (final (tick_iteration config chain clock x db))) as [H1 [H2 H3]].
  { intros y Hy. apply Hne. now right. }
  split; [|split].
  - rewrite H1. eapply frame_find; eassumption.
  - intros n. rewrite H2. eapply frame_rounds_numbered; eassumption.
  - rewrite H3. apply Hf.
Qed.

Lemma tick_keeps_ids (now : Z) (clock : Z -> nat -> Z) (db : DB) :
  map Tournament.id
      (tournaments (final (Main.process_phase_transitions config chain now clock db)))
  = map Tournament.id (tournaments db).
Proof.
  rewrite tick_run.
  generalize (filter (Main.due now) (tournaments db)). intros xs. revert db.
  induction xs as [|x tl IH]; intros db; [reflexivity|].
  cbn [for_each]. rewrite final_bind, tick_iteration_returns, IH.
  apply (tick_iteration_frame_of clock x db).
Qed.

(** A tournament that the tick does not select is left as it is. *)
Lemma tick_keeps_not_due (now : Z) (clock : Z -> nat -> Z) (tid : Z) (db : DB)
      (t : Tournament.t) :
  unique_ids db -> find_tournament tid db = Some t -> Main.due now t = false ->
  find_tournament tid (final (Main.process_phase_transitions config chain now clock db))
  = Some t.
Proof.
  intros Hnd Ht Hdue. rewrite tick_run, <- Ht.
  apply iterations_keep. intros x Hx E.
  apply filter_In in Hx. destruct Hx as [Hin Hx].
  pose proof (find_unique db x Hnd Hin) as Hfx. rewrite E, Ht in Hfx.
  injection Hfx as ->. congruence.
Qed.



End Iterations.

(** ** Ticking twice *)

Section Idempotence.

Variable config : Config.
Variable chain : Chain.

Section FirstTick.

Hypothesis commit_duration_nonneg : 0 <= COMMIT_DURATION config.
Hypothesis reveal_duration_nonneg : 0 <= REVEAL_DURATION config.

Variable now : Z.
Variable clock : Z -> nat -> Z.
Hypothesis clock_after : forall tid k, now <= clock tid k.






End FirstTick.




End Idempotence.



(** What the first tick of the witness does: it resolves round 1 of
    tournament 1 by elimination, opens the reveal phase of tournament 2 and
    finishes tournament 3, whose round had no reveal. *)
Example first_tick_of_busy_db :
  logged (Main.process_phase_transitions
            default_config sample_chain 2000 (ticking_clock 2000) busy_db)
  = [RoundResolved 1 1 "elimination"; CommitToReveal 2 2; RoundResolved 3 1 "no_reveals"]
  /\ map (fun t => (Tournament.id t, Tournament.state t))
         (tournaments
            (final (Main.process_phase_transitions
                      default_config sample_chain 2000 (ticking_clock 2000) busy_db)))
     = [(1, COMMIT); (2, REVEAL); (3, FINISHED); (4, OPEN)].
Proof. vm_compute. split; reflexivity. Qed.

(** ** Deadlines *)

Lemma to_commit_id (d : Z) (t : Tournament.t) : Tournament.id (to_commit d t) = Tournament.id t.
Proof. reflexivity. Qed.





(** ** The deadline invariant *)










Lemma next_id_above {A} (key : A -> Z) (rows : list A) (x : A) :
  In x rows -> key x < next_id key rows.
Proof.
  unfold next_id. induction rows as [|y tl IH]; [contradiction|].
  cbn [map fold_right]. intros [->|Hin]; [lia|]. specialize (IH Hin). lia.
Qed.

Lemma find_app_found (tid : Z) (rows extra : list Tournament.t) (t : Tournament.t) :
  find (fun t => Tournament.id t =? tid) rows = Some t ->
  find (fun t => Tournament.id t =? tid) (rows ++ extra) = Some t.
Proof.
  induction rows as [|x tl IH]; [discriminate|].
  cbn [app find]. destruct (Tournament.id x =? tid); auto.
Qed.










Section EngineKeeps.

Variable config : Config.






End EngineKeeps.



Lemma get_db_final {A} (R : DB -> DB -> Prop) (handler : M A) :
  (forall db, R db db) -> preserves R handler -> preserves R (Main.get_db handler).
Proof.
  intros Rr H db. unfold Main.get_db. specialize (H db).
  destruct (handler db) as [[a|e] db' lg]; cbn [outcome final] in *; auto.
Qed.

Lemma same_id_same_row (db : DB) (x t : Tournament.t) :
  unique_ids db -> In x (tournaments db) -> In t (tournaments db) ->
  Tournament.id x = Tournament.id t -> x = t.
Proof.
  intros Hnd Hx Ht E.
  pose proof (find_unique db x Hnd Hx) as Fx.
  pose proof (find_unique db t Hnd Ht) as Ft.
  rewrite E in Fx. congruence.
Qed.




Section MainKeeps.

Variable config : Config.
Variable chain : Chain.










End MainKeeps.

(** The empty session satisfies the invariant. *)
Lemma empty_db_deadlines_ok : deadlines_ok empty_db.
Proof. split; constructor. Qed.




(** ** Further properties of the engine *)

Section RankingFacts.

Import GameEngine.

Lemma strongly_sorted_app {A} (le : A -> A -> Prop) (l1 l2 : list A) :
  StronglySorted le (l1 ++ l2) -> forall a b, In a l1 -> In b l2 -> le a b.
Proof.
  induction l1 as [|x tl IH]; simpl; intros Hs a b Ha Hb; [contradiction|].
  inversion Hs as [|? ? Hs' Hall]; subst.
  destruct Ha as [->|Ha].
  - rewrite Forall_forall in Hall. apply Hall, in_or_app. now right.
  - now apply IH.
Qed.

Lemma strongly_sorted_nth {A} (le : A -> A -> Prop) (l : list A) (i j : nat) a b :
  StronglySorted le l -> (i < j)%nat ->
  nth_error l i = Some a -> nth_error l j = Some b -> le a b.
Proof.
  intros Hs Hij Ha Hb.
  rewrite <- (firstn_skipn j l) in Hs.
  apply (strongly_sorted_app le _ _ Hs).
  - apply nth_error_In with i. rewrite nth_error_firstn.
    destruct (Nat.ltb_spec i j); [exact Ha | lia].
  - apply nth_error_In with 0%nat. rewrite nth_error_skipn.
    now rewrite Nat.add_0_r.
Qed.

Lemma in_firstn {A} (n : nat) (l : list A) a : In a (firstn n l) -> In a l.
Proof.
  intros Hin. rewrite <- (firstn_skipn n l). apply in_or_app. now left.
Qed.

Lemma in_skipn {A} (n : nat) (l : list A) a : In a (skipn n l) -> In a l.
Proof.
  intros Hin. rewrite <- (firstn_skipn n l). apply in_or_app. now right.
Qed.

Lemma sorted_players_sorted distances variant :
  StronglySorted (fun a b => by_key (variant_key variant) a b = true)
                 (sorted_players distances variant).
Proof.
  destruct variant; apply sorted_sorted;
    first [apply by_key_total | apply by_key_trans].
Qed.

Lemma dict_get_in {V} (d : Dict.t V) k v :
  NoDup (Dict.keys d) -> (In (k, v) d <-> Dict.get d k = Some v).
Proof.
  induction d as [|[k' v'] tl IH]; simpl; intros Hnd.
  - split; [contradiction | discriminate].
  - inversion Hnd as [|? ? Hnotin Hnd']; subst.
    destruct (String.eqb_spec k' k) as [->|Hne].
    + split.
      * intros [[= ->]|Hin]; [reflexivity|].
        exfalso. apply Hnotin. now apply (in_map fst) in Hin.
      * intros [= ->]. now left.
    + rewrite <- (IH Hnd'). split.
      * intros [[= -> _]|Hin]; [congruence | exact Hin].
      * intros Hin. now right.
Qed.

Lemma by_key_ranked variant a da b db :
  by_key (variant_key variant) (a, da) (b, db) = true ->
  ranked_before variant a da b db.
Proof.
  unfold by_key, key_leb, ranked_before.
  destruct variant; cbn;
    rewrite orb_true_iff, andb_true_iff, Z.ltb_lt, Z.eqb_eq;
    (intros [H|[H1 H2]]; [left; lia | right; split; [lia | exact H2]]).
Qed.

Lemma in_map_fst {V} (l : list (string * V)) a :
  In a (map fst l) -> exists v, In (a, v) l.
Proof.
  intros Hin. apply in_map_iff in Hin. destruct Hin as [[a' v] [<- Hin]].
  now exists v.
Qed.

Lemma sorted_players_get distances variant a v :
  NoDup (Dict.keys distances) ->
  In (a, v) (sorted_players distances variant) -> Dict.get distances a = Some v.
Proof.
  intros Hnd Hin. apply dict_get_in; [exact Hnd|].
  eapply Permutation_in; [apply sorted_players_perm | exact Hin].
Qed.

End RankingFacts.

(** ** The shape of a digest *)

Section DigestFacts.

Import Sha3.

Lemma grid_length (f : nat -> nat -> Z) : List.length (grid f) = 25%nat.
Proof. reflexivity. Qed.

Lemma keccak_round_length (st : list Z) (rc : Z) :
  List.length (keccak_round st rc) = 25%nat.
Proof. reflexivity. Qed.

Lemma keccak_rounds_length (rcs : list Z) :
  forall st, List.length st = 25%nat ->
             List.length (fold_left keccak_round rcs st) = 25%nat.
Proof.
  induction rcs as [|rc tl IH]; intros st Hst; [exact Hst|].
  cbn [fold_left]. apply IH, keccak_round_length.
Qed.

Lemma keccak_f_length (st : list Z) : List.length (keccak_f st) = 25%nat.
Proof.
  unfold keccak_f.
  change round_constants with (hd 0 round_constants :: tl round_constants).
  cbn [fold_left]. apply keccak_rounds_length, keccak_round_length.
Qed.

Lemma absorbed_length (blocks : list (list Z)) :
  forall st, List.length st = 25%nat ->
             List.length (fold_left absorb blocks st) = 25%nat.
Proof.
  induction blocks as [|b tl IH]; intros st Hst; [exact Hst|].
  cbn [fold_left]. apply IH. unfold absorb. apply keccak_f_length.
Qed.

Lemma bytes_of_lane_length (n : nat) : forall v, List.length (bytes_of_lane n v) = n.
Proof. induction n as [|n IH]; intros v; cbn; [reflexivity | now rewrite IH]. Qed.

(** A digest has 32 bytes. *)
Lemma sha3_256_length (msg : list Z) : List.length (sha3_256 msg) = 32%nat.
Proof.
  unfold sha3_256.
  set (st := fold_left absorb _ _).
  assert (Hst : List.length st = 25%nat)
    by (apply absorbed_length; reflexivity).
  destruct st as [|a [|b [|c [|d st']]]]; try discriminate.
  cbn [firstn flat_map]. rewrite !length_app, !bytes_of_lane_length. reflexivity.
Qed.

End DigestFacts.

Lemma hexval_hexdigit (n : Z) : 0 <= n < 16 -> Py.hexval (Py.hexdigit n) = Some n.
Proof.
  intros Hn. apply nibble_cases in Hn. cbn [In] in Hn.
  repeat (destruct Hn as [<-|Hn]; [reflexivity|]). contradiction.
Qed.

Lemma hex_all_hex (bs : list Z) :
  Forall is_byte bs ->
  Py.all_hex (Py.hex bs) = true /\ String.length (Py.hex bs) = (2 * List.length bs)%nat.
Proof.
  induction 1 as [|b tl Hb _ [IH1 IH2]]; [split; reflexivity|].
  destruct (byte_nibbles b Hb) as [Hhi Hlo].
  cbn [Py.hex Py.all_hex String.length List.length].
  rewrite (hexval_hexdigit _ Hhi), (hexval_hexdigit _ Hlo). split; [exact IH1 | lia].
Qed.

(** The text of a digest behind "0x" has the shape the request models ask
    of a hash. *)
Lemma digest_text_valid (data : list Z) :
  Py.is_0x_hex 64 ("0x" ++ Py.hex (Sha3.sha3_256 data)) = true.
Proof.
  destruct (hex_all_hex (Sha3.sha3_256 data) (sha3_256_bytes data)) as [H1 H2].
  rewrite sha3_256_length in H2.
  change ("0x" ++ Py.hex (Sha3.sha3_256 data))%string
    with (String "0" (String "x" (Py.hex (Sha3.sha3_256 data)))).
  cbn [Py.is_0x_hex]. rewrite H1, H2. reflexivity.
Qed.

(** ** Salts that are not hexadecimal *)

Lemma combine_salts_none (salts : list string) :
  forall combined,
    GameEngine.combine_salts combined salts = None
    <-> exists salt, In salt salts /\ Py.fromhex (Py.replace_0x salt) = None.
Proof.
  induction salts as [|s tl IH]; intros combined; cbn [GameEngine.combine_salts In].
  - split; [discriminate | intros [salt [[] _]]].
  - destruct (Py.fromhex (Py.replace_0x s)) as [bs|] eqn:Hs.
    + rewrite IH. split.
      * intros [salt [Hin Hbad]]. exists salt. split; [now right | exact Hbad].
      * intros [salt [[<-|Hin] Hbad]]; [congruence|]. now exists salt.
    + split; [|reflexivity]. intros _. exists s. split; [now left | exact Hs].
Qed.

(** X1. Elimination keeps the best half.  On a dictionary of more than
    five distances, every survivor is ranked before every eliminated
    participant: in the classic game its distance is smaller, or the same
    with the address that compares lower; in the inverse game its distance
    is greater, or the same with the lower address.  (With five or fewer
    there is nobody eliminated.) *)
Theorem eliminate_keeps_best :
  forall (distances : Dict.t Z) (variant : GameVariant) (s e : string) (ds de : Z),
    NoDup (Dict.keys distances) ->
    Dict.get distances s = Some ds ->
    Dict.get distances e = Some de ->
    In s (fst (GameEngine.eliminate distances variant)) ->
    In e (snd (GameEngine.eliminate distances variant)) ->
    ranked_before variant s ds e de.
Proof.
  intros distances variant s e ds de Hnd Hs He.
  rewrite eliminate_unfold.
  destruct (Dict.len distances <=? 5); cbn [fst snd]; [contradiction|].
  set (players := sorted_players distances variant).
  set (k := (Z.of_nat (List.length players) + 1) / 2).
  unfold slice_to, slice_from. intros Hins Hine.
  apply in_map_fst in Hins. destruct Hins as [ds' Hins].
  apply in_map_fst in Hine. destruct Hine as [de' Hine].
  assert (Hds : Dict.get distances s = Some ds').
  { apply (sorted_players_get distances variant); [exact Hnd|].
    eapply in_firstn; exact Hins. }
  assert (Hde : Dict.get distances e = Some de').
  { apply (sorted_players_get distances variant); [exact Hnd|].
    eapply in_skipn; exact Hine. }
  assert (ds' = ds) as -> by congruence.
  assert (de' = de) as -> by congruence.
  apply by_key_ranked.
  pose proof (sorted_players_sorted distances variant) as Hsorted.
  fold players in Hsorted. rewrite <- (firstn_skipn (Z.to_nat k) players) in Hsorted.
  exact (strongly_sorted_app _ _ _ Hsorted _ _ Hins Hine).
Qed.

Lemma eliminate_keeps_best_witness :
  ranked_before CLASSIC "0xa6" 10 "0xa1" 30.
Proof.
  apply (eliminate_keeps_best six_distances CLASSIC "0xa6" "0xa1" 10 30).
  - unfold six_distances. cbn. repeat constructor; cbn; intuition discriminate.
  - reflexivity.
  - reflexivity.
  - vm_compute. tauto.
  - vm_compute. tauto.
Defined.

(** X2. The final ranking lists every participant of the dictionary
    exactly once, and in ranking order: whoever stands earlier in the list
    is ranked before whoever stands later, so the winner at the head has
    the best distance, with ties going to the lower address. *)
Theorem final_ranking_order :
  forall (distances : Dict.t Z) (variant : GameVariant),
    NoDup (Dict.keys distances) ->
    let ranking := GameEngine.determine_final_ranking distances variant in
    Permutation ranking (Dict.keys distances)
    /\ forall (i j : nat) (a b : string) (da db : Z),
        (i < j)%nat ->
        nth_error ranking i = Some a -> nth_error ranking j = Some b ->
        Dict.get distances a = Some da -> Dict.get distances b = Some db ->
        ranked_before variant a da b db.
Proof.
  intros distances variant Hnd ranking. subst ranking.
  rewrite determine_final_ranking_unfold. split.
  - apply Permutation_map, sorted_players_perm.
  - intros i j a b da db Hij Ha Hb Hda Hdb.
    rewrite nth_error_map in Ha, Hb.
    destruct (nth_error (sorted_players distances variant) i) as [[a' da']|] eqn:Hi;
      [|discriminate].
    destruct (nth_error (sorted_players distances variant) j) as [[b' db']|] eqn:Hj;
      [|discriminate].
    cbn in Ha, Hb. injection Ha as ->. injection Hb as ->.
    assert (da' = da) as ->.
    { apply nth_error_In in Hi.
      apply (sorted_players_get distances variant _ _ Hnd) in Hi. congruence. }
    assert (db' = db) as ->.
    { apply nth_error_In in Hj.
      apply (sorted_players_get distances variant _ _ Hnd) in Hj. congruence. }
    apply by_key_ranked.
    exact (strongly_sorted_nth _ _ i j _ _
             (sorted_players_sorted distances variant) Hij Hi Hj).
Qed.

Lemma final_ranking_order_witness :
  let ranking := GameEngine.determine_final_ranking six_distances INVERSE in
  Permutation ranking (Dict.keys six_distances)
  /\ forall (i j : nat) (a b : string) (da db : Z),
      (i < j)%nat ->
      nth_error ranking i = Some a -> nth_error ranking j = Some b ->
      Dict.get six_distances a = Some da -> Dict.get six_distances b = Some db ->
      ranked_before INVERSE a da b db.
Proof.
  apply (final_ranking_order six_distances INVERSE).
  unfold six_distances. cbn. repeat constructor; cbn; intuition discriminate.
Defined.

(** X3. On a dictionary of bids, [compute_distances] keeps the keys in
    their order and gives every participant the absolute difference between
    its bid and the secret, whatever the variant; a key that has no bid has
    no distance.  With bids and secret in 1..1000 a distance lies in 0..999. *)
Theorem compute_distances_lookup :
  forall (bids : Dict.t Z) (secret : Z) (variant : GameVariant),
    NoDup (Dict.keys bids) ->
    let distances := GameEngine.compute_distances bids secret variant in
    Dict.keys distances = Dict.keys bids
    /\ (forall addr,
           Dict.get distances addr
           = option_map (fun bid => Z.abs (bid - secret)) (Dict.get bids addr))
    /\ (1 <= secret <= 1000 ->
        Forall (fun x => 1 <= snd x <= 1000) bids ->
        Forall (fun x => 0 <= snd x <= 999) distances).
Proof.
  intros bids secret variant Hnd distances. subst distances.
  rewrite (compute_distances_map bids secret variant Hnd).
  split; [|split].
  - unfold Dict.keys. rewrite map_map. reflexivity.
  - intros addr. clear Hnd.
    induction bids as [|[k v] tl IH]; cbn; [reflexivity|].
    destruct (String.eqb k addr); [reflexivity | exact IH].
  - intros Hs Hb. rewrite Forall_map.
    eapply Forall_impl; [|exact Hb]. cbn. intros [k v]; cbn. lia.
Qed.

Lemma compute_distances_lookup_witness :
  let distances := GameEngine.compute_distances scenario_bids 500 INVERSE in
  Dict.keys distances = Dict.keys scenario_bids
  /\ (forall addr,
         Dict.get distances addr
         = option_map (fun bid => Z.abs (bid - 500)) (Dict.get scenario_bids addr))
  /\ (1 <= 500 <= 1000 ->
      Forall (fun x => 1 <= snd x <= 1000) scenario_bids ->
      Forall (fun x => 0 <= snd x <= 999) distances).
Proof.
  apply (compute_distances_lookup scenario_bids 500 INVERSE).
  unfold scenario_bids. cbn. repeat constructor; cbn; intuition discriminate.
Defined.

(** X4. Whenever [compute_commit_hash] returns, for any bid and any salt
    text, its result is "0x" followed by 64 hexadecimal digits in lower
    case: the commit endpoint's request model accepts it, lower-casing
    leaves it as it is, and [verify_reveal] accepts it for the same bid and
    salt. *)
Theorem commit_hash_well_formed :
  forall (bid : Z) (salt h : string),
    GameEngine.compute_commit_hash bid salt = Some h ->
    Main.CommitRequest_valid (Main.mkCommitRequest h) = true
    /\ Py.lower h = h
    /\ GameEngine.verify_reveal h bid salt = Some true.
Proof.
  intros bid salt h Hh.
  pose proof Hh as Hp. rewrite compute_commit_hash_packed in Hp.
  destruct (packed bid salt) as [data|]; [|discriminate].
  injection Hp as <-.
  split; [|split].
  - apply digest_text_valid.
  - apply lower_commit_text.
  - unfold GameEngine.verify_reveal. rewrite Hh.
    now rewrite String.eqb_refl.
Qed.

Lemma commit_hash_well_formed_witness :
  Main.CommitRequest_valid (Main.mkCommitRequest hash_1) = true
  /\ Py.lower hash_1 = hash_1
  /\ GameEngine.verify_reveal hash_1 500 salt_1 = Some true.
Proof.
  apply (commit_hash_well_formed 500 salt_1 hash_1).
  vm_compute. reflexivity.
Defined.

(** X5. [compute_secret] raises exactly when one of the salts is not a
    text [bytes.fromhex] accepts once its "0x" is removed; whenever it
    returns, for salts of any length and number, the secret lies in
    1..1000. *)
Theorem compute_secret_raises_iff :
  forall salts : list string,
    (GameEngine.compute_secret salts = None
     <-> exists salt, In salt salts /\ Py.fromhex (Py.replace_0x salt) = None)
    /\ (forall secret, GameEngine.compute_secret salts = Some secret ->
                       1 <= secret <= 1000).
Proof.
  intros salts. unfold GameEngine.compute_secret. split.
  - destruct (GameEngine.combine_salts [] (sorted String.leb salts)) as [bs|] eqn:Hc.
    + split; [discriminate|].
      intros [salt [Hin Hbad]]. exfalso.
      assert (Hnone : GameEngine.combine_salts [] (sorted String.leb salts) = None).
      { apply combine_salts_none. exists salt. split; [|exact Hbad].
        eapply Permutation_in; [apply Permutation_sym, sorted_perm | exact Hin]. }
      congruence.
    + split; [|reflexivity]. intros _.
      apply combine_salts_none in Hc. destruct Hc as [salt [Hin Hbad]].
      exists salt. split; [|exact Hbad].
      eapply Permutation_in; [apply sorted_perm | exact Hin].
  - intros secret.
    destruct (GameEngine.combine_salts [] (sorted String.leb salts)); [|discriminate].
    intros [= <-].
    pose proof (Z.mod_pos_bound
                  (Py.from_bytes_big (slice_to 4 (Sha3.sha3_256 l))) 1000 ltac:(lia)).
    lia.
Qed.

(** ** The rate limiter *)

Lemma dict_get_set {V} (d : Dict.t V) (k k' : string) (v : V) :
  Dict.get (Dict.set d k v) k' = if String.eqb k k' then Some v else Dict.get d k'.
Proof.
  induction d as [|[k0 v0] tl IH]; cbn.
  - reflexivity.
  - destruct (String.eqb_spec k0 k) as [->|Hne]; cbn.
    + destruct (String.eqb k k'); reflexivity.
    + rewrite IH. destruct (String.eqb_spec k0 k') as [->|Hne'].
      * destruct (String.eqb_spec k k'); [congruence | reflexivity].
      * reflexivity.
Qed.

Lemma is_limited_run (now : float) (ip : string) (self : RateLimiter.t) :
  let recent := filter (in_window now) (RateLimiter.recorded self ip) in
  let limited := RateLimiter.max_per_minute self <=? Z.of_nat (List.length recent) in
  let self' := snd (RateLimiter.is_limited now ip self) in
  fst (RateLimiter.is_limited now ip self) = limited
  /\ RateLimiter.max_per_minute self' = RateLimiter.max_per_minute self
  /\ RateLimiter.recorded self' ip = (if limited then recent else recent ++ [now])%list
  /\ forall ip', ip' <> ip -> RateLimiter.recorded self' ip' = RateLimiter.recorded self ip'.
Proof.
  cbv zeta. unfold RateLimiter.is_limited. fold (in_window now).
  set (recent := filter (in_window now) (RateLimiter.recorded self ip)).
  destruct (RateLimiter.max_per_minute self <=? Z.of_nat (List.length recent));
    cbn [fst snd RateLimiter.max_per_minute];
    (split; [reflexivity|]); (split; [reflexivity|]);
    unfold RateLimiter.recorded; cbn [RateLimiter.requests];
    rewrite ?dict_get_set, ?String.eqb_refl;
    (split; [reflexivity|]); intros ip' Hne;
    rewrite ?dict_get_set;
    destruct (String.eqb_spec ip ip'); congruence.
Qed.

Lemma serve_cons now ip tl limiter :
  serve ((now, ip) :: tl) limiter
  = (fst (RateLimiter.is_limited now ip limiter)
       :: fst (serve tl (snd (RateLimiter.is_limited now ip limiter))),
     snd (serve tl (snd (RateLimiter.is_limited now ip limiter)))).
Proof.
  cbn [serve]. destruct (RateLimiter.is_limited now ip limiter) as [limited limiter'].
  cbn [fst snd]. now destruct (serve tl limiter').
Qed.

Lemma serve_quota (calls : list (float * string)) :
  forall limiter,
    (forall ip, Z.of_nat (List.length (RateLimiter.recorded limiter ip))
                <= RateLimiter.max_per_minute limiter) ->
    RateLimiter.max_per_minute (snd (serve calls limiter))
    = RateLimiter.max_per_minute limiter
    /\ forall ip, Z.of_nat (List.length (RateLimiter.recorded (snd (serve calls limiter)) ip))
                  <= RateLimiter.max_per_minute limiter.
Proof.
  induction calls as [|[now ip0] tl IH]; intros limiter Hq; [now split|].
  rewrite serve_cons. cbn [snd].
  destruct (is_limited_run now ip0 limiter) as [_ [Hmax [Hip Hother]]].
  cbv zeta in Hip.
  set (limiter' := snd (RateLimiter.is_limited now ip0 limiter)) in *.
  assert (Hq' : forall ip, Z.of_nat (List.length (RateLimiter.recorded limiter' ip))
                           <= RateLimiter.max_per_minute limiter').
  { intros ip. rewrite Hmax.
    destruct (String.eqb_spec ip ip0) as [->|Hne]; [|rewrite Hother by exact Hne; apply Hq].
    rewrite Hip.
    pose proof (filter_length_le (in_window now) (RateLimiter.recorded limiter ip0)) as Hle.
    specialize (Hq ip0).
    destruct (Z.leb_spec (RateLimiter.max_per_minute limiter)
                (Z.of_nat (List.length (filter (in_window now)
                                               (RateLimiter.recorded limiter ip0))))).
    - lia.
    - rewrite length_app. cbn [List.length]. lia. }
  destruct (IH limiter' Hq') as [H1 H2]. rewrite Hmax in *. now split.
Qed.

(** X6. The quota of the rate limiter.  A limiter created with a limit
    that is not negative never holds more than [max_per_minute] recorded
    times for an address, whatever calls of [is_limited] it has answered,
    at whatever times and for whatever addresses. *)
Theorem rate_limiter_quota :
  forall (max_per_minute : Z) (calls : list (float * string)) (ip : string),
    0 <= max_per_minute ->
    Z.of_nat (List.length (RateLimiter.recorded
                             (snd (serve calls (RateLimiter.init max_per_minute))) ip))
    <= max_per_minute.
Proof.
  intros max_per_minute calls ip Hmax.
  apply (serve_quota calls (RateLimiter.init max_per_minute)).
  intros ip'. cbn. exact Hmax.
Qed.

Lemma rate_limiter_quota_witness :
  Z.of_nat (List.length (RateLimiter.recorded
                           (snd (serve [(100.5%float, "10.0.0.1"); (101%float, "10.0.0.1");
                                        (102%float, "10.0.0.2"); (103%float, "10.0.0.1")]
                                       (RateLimiter.init 2)))
                           "10.0.0.1"))
  <= 2.
Proof.
  apply (rate_limiter_quota 2). lia.
Defined.

Lemma filter_repeat_true {A} (p : A -> bool) (x : A) (k : nat) :
  p x = true -> filter p (repeat x k) = repeat x k.
Proof.
  intros Hp. induction k as [|k IH]; cbn; [reflexivity|]. now rewrite Hp, IH.
Qed.

Lemma serve_burst (now : float) (ip : string) (n : nat) :
  in_window now now = true ->
  forall (k : nat) limiter,
    RateLimiter.recorded limiter ip = repeat now k ->
    (Z.of_nat k <= RateLimiter.max_per_minute limiter) ->
    fst (serve (repeat (now, ip) n) limiter)
    = (repeat false (Nat.min n (Z.to_nat (RateLimiter.max_per_minute limiter) - k))
       ++ repeat true (n - (Z.to_nat (RateLimiter.max_per_minute limiter) - k)))%list.
Proof.
  intros Hnow. induction n as [|n IH]; intros k limiter Hrec Hk; [reflexivity|].
  cbn [repeat]. rewrite serve_cons. cbn [fst].
  destruct (is_limited_run now ip limiter) as [Hans [Hmax [Hip _]]].
  cbv zeta in Hans, Hip.
  rewrite Hrec, (filter_repeat_true _ _ _ Hnow), repeat_length in Hans, Hip.
  set (limiter' := snd (RateLimiter.is_limited now ip limiter)) in *.
  rewrite Hans.
  destruct (Z.leb_spec (RateLimiter.max_per_minute limiter) (Z.of_nat k)) as [Hfull|Hroom].
  - rewrite (IH k limiter' Hip) by (rewrite Hmax; exact Hk). rewrite Hmax.
    replace (Z.to_nat (RateLimiter.max_per_minute limiter) - k)%nat with 0%nat by lia.
    rewrite !Nat.min_0_r, !Nat.sub_0_r. reflexivity.
  - assert (Hip' : RateLimiter.recorded limiter' ip = repeat now (S k)).
    { rewrite Hip. clear. induction k as [|k IH]; cbn; [reflexivity | now rewrite IH]. }
    rewrite (IH (S k) limiter' Hip') by (rewrite Hmax; lia). rewrite Hmax.
    set (m := Z.to_nat (RateLimiter.max_per_minute limiter)).
    assert (Hm : (k < m)%nat) by (unfold m; lia).
    replace (m - k)%nat with (S (m - S k)) by lia.
    cbn [Nat.min Nat.sub repeat app]. reflexivity.
Qed.

(** X7. A burst is cut off at the limit.  When an address sends [n]
    requests at one instant [now] (a time that is later than sixty seconds
    before itself, as every finite reading of the clock is) to a fresh
    limiter, the first [max_per_minute] are let through and every further
    one is limited. *)
Theorem burst_is_cut_off :
  forall (max_per_minute : Z) (now : float) (ip : string) (n : nat),
    0 <= max_per_minute ->
    in_window now now = true ->
    fst (serve (repeat (now, ip) n) (RateLimiter.init max_per_minute))
    = (repeat false (Nat.min n (Z.to_nat max_per_minute))
       ++ repeat true (n - Z.to_nat max_per_minute))%list.
Proof.
  intros max_per_minute now ip n Hmax Hnow.
  rewrite (serve_burst now ip n Hnow 0%nat (RateLimiter.init max_per_minute)).
  - cbn [RateLimiter.init RateLimiter.max_per_minute]. now rewrite !Nat.sub_0_r.
  - reflexivity.
  - cbn. exact Hmax.
Qed.

Lemma burst_is_cut_off_witness :
  fst (serve (repeat (1700000000.25%float, "10.0.0.1") 5) (RateLimiter.init 3))
  = [false; false; false; true; true].
Proof.
  apply (burst_is_cut_off 3 1700000000.25%float "10.0.0.1" 5).
  - lia.
  - vm_compute. reflexivity.
Defined.

(** X8. The middleware.  A request for one of the three health paths is
    handed on without touching the limiter, whatever the state of its
    address.  Any other request leaves the times recorded for every other
    address as they were, and the limit too; when it is answered 429, its
    own time is not recorded: the times kept for its address are the old
    ones still in the window. *)
Theorem middleware_exempt_and_isolated :
  forall (now : float) (path : string) (client : option string)
         (rate_limiter : RateLimiter.t),
    let answer := rate_limit_middleware now path client rate_limiter in
    (str_in path ["/health"; "/"; "/api/v1/health"] = true ->
     answer = (CallNext, rate_limiter))
    /\ RateLimiter.max_per_minute (snd answer) = RateLimiter.max_per_minute rate_limiter
    /\ (forall ip, ip <> client_ip client ->
                   RateLimiter.recorded (snd answer) ip
                   = RateLimiter.recorded rate_limiter ip)
    /\ (fst answer = TooManyRequests ->
        RateLimiter.recorded (snd answer) (client_ip client)
        = filter (in_window now) (RateLimiter.recorded rate_limiter (client_ip client))).
Proof.
  intros now path client rate_limiter answer. subst answer.
  unfold rate_limit_middleware. fold (client_ip client).
  destruct (str_in path ["/health"; "/"; "/api/v1/health"]).
  - cbn [fst snd]. repeat split; try reflexivity. discriminate.
  - destruct (is_limited_run now (client_ip client) rate_limiter)
      as [Hans [Hmax [Hip Hother]]].
    cbv zeta in Hans, Hip.
    destruct (RateLimiter.is_limited now (client_ip client) rate_limiter)
      as [limited limiter'] eqn:Hrun.
    cbn [fst snd] in *.
    split; [discriminate|].
    destruct limited; cbn [fst snd]; (split; [exact Hmax|]); (split; [exact Hother|]).
    + intros _. now rewrite Hip, <- Hans.
    + discriminate.
Qed.

(** ** Authentication and registration *)

Lemma filter_nil_all {A} (p : A -> bool) (l : list A) :
  (forall x, In x l -> p x = false) -> filter p l = [].
Proof.
  induction l as [|y tl IH]; intros H; [reflexivity|].
  cbn [filter]. rewrite (H y (or_introl eq_refl)). apply IH.
  intros x Hx. apply H. now right.
Qed.

Lemma filter_nil_none {A} (p : A -> bool) (l : list A) :
  filter p l = [] -> forall x, In x l -> p x = false.
Proof.
  induction l as [|y tl IH]; cbn; intros Hf x Hin; [contradiction|].
  destruct (p y) eqn:Hy; [discriminate|].
  destruct Hin as [<-|Hin]; [exact Hy | now apply IH].
Qed.

Lemma filter_one {A} (p : A -> bool) (l : list A) (x : A) :
  filter p l = [x] -> In x l /\ p x = true.
Proof.
  intros Hf. apply filter_In. rewrite Hf. now left.
Qed.

Lemma filter_update_where {A} (p q : A -> bool) (f : A -> A) (rows : list A) :
  (forall x, p (f x) = p x) ->
  filter p (update_where q f rows) = update_where q f (filter p rows).
Proof.
  intros Hp. unfold update_where.
  induction rows as [|x tl IH]; cbn; [reflexivity|].
  destruct (q x) eqn:Hq.
  - rewrite Hp. destruct (p x); cbn; rewrite ?Hq, IH; reflexivity.
  - destruct (p x); cbn; rewrite ?Hq, IH; reflexivity.
Qed.

Lemma existsb_or_false_filter {A} (p q : A -> bool) (l : list A) :
  existsb (fun a => p a || q a) l = false -> filter q l = [].
Proof.
  induction l as [|a tl IH]; cbn; [reflexivity|].
  intros H. apply orb_false_iff in H. destruct H as [Ha Htl].
  apply orb_false_iff in Ha. destruct Ha as [_ Ha]. rewrite Ha. now apply IH.
Qed.

(** What [get_agent] does, by the agents that carry the key. *)
Lemma get_agent_run (key : string) (db : DB) :
  Auth.get_agent (Some key) db
  = match filter (fun a => String.eqb (Agent.api_key a) key) (agents db) with
    | [] => mkRun (Raised (HTTPException 401)) db []
    | [agent] =>
        if String.eqb (Agent.status agent) "active"
        then mkRun (Returned agent) db []
        else mkRun (Raised (HTTPException 403)) db []
    | _ => mkRun (Raised MultipleResultsFound) db []
    end.
Proof.
  unfold Auth.get_agent, select_agents, gets, bind, scalar_one_or_none.
  cbn [outcome final logged].
  destruct (filter _ (agents db)) as [|agent [|agent' rows]]; cbn; try reflexivity.
  destruct (String.eqb (Agent.status agent) "active"); reflexivity.
Qed.

Lemma filter_unique_key {A} (key : A -> string) (l : list A) (x : A) :
  NoDup (map key l) -> In x l ->
  filter (fun a => String.eqb (key a) (key x)) l = [x].
Proof.
  induction l as [|y tl IH]; intros Hnd Hin; [contradiction|].
  cbn [map] in Hnd. inversion Hnd as [|? ? Hnotin Hnd']; subst.
  cbn [filter]. destruct Hin as [->|Hin].
  - rewrite String.eqb_refl. f_equal.
    apply filter_nil_all. intros a Ha. apply String.eqb_neq. intros E.
    apply Hnotin. rewrite <- E. now apply in_map.
  - destruct (String.eqb_spec (key y) (key x)) as [E|_].
    + exfalso. apply Hnotin. rewrite E. now apply in_map.
    + now apply IH.
Qed.

(** X9. Authentication.  [get_agent] reads the session without changing
    it and logs nothing.  Without a key it answers 422.  With a key that no
    agent carries it answers 401.  With API keys unique, as the column
    is, and a key that an agent carries, it returns that agent when the
    agent's status is "active" and answers 403 otherwise. *)
Theorem get_agent_authenticates :
  forall (x_api_key : option string) (db : DB),
    let r := Auth.get_agent x_api_key db in
    final r = db /\ logged r = []
    /\ (x_api_key = None -> outcome r = Raised (HTTPException 422))
    /\ (forall key,
          x_api_key = Some key ->
          (forall a, In a (agents db) -> Agent.api_key a <> key) ->
          outcome r = Raised (HTTPException 401))
    /\ (forall agent,
          x_api_key = Some (Agent.api_key agent) ->
          NoDup (map Agent.api_key (agents db)) ->
          In agent (agents db) ->
          outcome r = if String.eqb (Agent.status agent) "active"
                      then Returned agent
                      else Raised (HTTPException 403)).
Proof.
  intros x_api_key db r. subst r.
  split; [|split; [|split; [|split]]].
  - destruct x_api_key as [key|]; [|reflexivity].
    rewrite get_agent_run.
    destruct (filter _ (agents db)) as [|agent [|agent' rows]]; try reflexivity.
    now destruct (String.eqb (Agent.status agent) "active").
  - destruct x_api_key as [key|]; [|reflexivity].
    rewrite get_agent_run.
    destruct (filter _ (agents db)) as [|agent [|agent' rows]]; try reflexivity.
    now destruct (String.eqb (Agent.status agent) "active").
  - intros ->. reflexivity.
  - intros key -> Hnone. rewrite get_agent_run.
    rewrite (filter_nil_all (fun a => String.eqb (Agent.api_key a) key) (agents db));
      [reflexivity|].
    intros a Ha. apply String.eqb_neq. now apply Hnone.
  - intros agent -> Hkeys Hin. rewrite get_agent_run.
    rewrite (filter_unique_key Agent.api_key (agents db) agent Hkeys Hin).
    now destruct (String.eqb (Agent.status agent) "active").
Qed.

(** The three answers on a session with bob alone, active and then
    paused. *)
Example get_agent_answers :
  outcome (Auth.get_agent None bob_db) = Raised (HTTPException 422)
  /\ outcome (Auth.get_agent (Some "no-such-key") bob_db) = Raised (HTTPException 401)
  /\ outcome (Auth.get_agent (Some "bob-key") bob_db) = Returned bob
  /\ outcome (Auth.get_agent (Some "bob-key")
                             (mkDB [Agent.with_status "paused" bob] [] [] [] []))
     = Raised (HTTPException 403).
Proof. vm_compute. repeat split. Qed.

(** X10. Pausing cannot be undone through the API.  When an agent that
    authenticates sets its status to "paused" or "withdrawn", the call
    succeeds, and from then on every endpoint that authenticates with the
    same key, [update_agent_status] included, is answered 403 and changes
    nothing. *)
Theorem paused_agent_is_locked_out :
  forall (key : string) (db : DB) (agent : Agent.t) (status : string),
    outcome (Auth.get_agent (Some key) db) = Returned agent ->
    status = "paused" \/ status = "withdrawn" ->
    let paused := Auth.authenticated (Some key) (Auth.update_agent_status status) db in
    outcome paused = Returned status
    /\ forall (A : Type) (handler : Agent.t -> M A),
        let later := Auth.authenticated (Some key) handler (final paused) in
        outcome later = Raised (HTTPException 403) /\ final later = final paused.
Proof.
  intros key db agent status Hauth Hstatus paused.
  rewrite get_agent_run in Hauth.
  destruct (filter (fun a => String.eqb (Agent.api_key a) key) (agents db))
    as [|agent0 [|agent' rows]] eqn:Hrows; try discriminate.
  destruct (String.eqb (Agent.status agent0) "active") eqn:Hactive; [|discriminate].
  cbn in Hauth. injection Hauth as ->.
  assert (Hvalid : str_in status ["active"; "paused"; "withdrawn"] = true)
    by (destruct Hstatus as [-> | ->]; reflexivity).
  assert (Hrun : paused
                 = mkRun (Returned status)
                         (with_agents
                            (update_where (fun a => Agent.id a =? Agent.id agent)
                                          (Agent.with_status status) (agents db)) db)
                         []).
  { subst paused. unfold Auth.authenticated, Main.get_db, bind.
    rewrite get_agent_run, Hrows, Hactive. cbn [outcome final logged].
    unfold Auth.update_agent_status, bind, when. rewrite Hvalid.
    cbn. reflexivity. }
  rewrite Hrun. cbn [outcome final]. split; [reflexivity|].
  intros A handler. cbv zeta.
  unfold Auth.authenticated, Main.get_db, bind.
  rewrite get_agent_run. cbn [agents with_agents].
  rewrite filter_update_where by reflexivity.
  rewrite Hrows. cbn [update_where map]. rewrite Z.eqb_refl.
  replace (String.eqb (Agent.status (Agent.with_status status agent)) "active")
    with false by (destruct Hstatus as [-> | ->]; reflexivity).
  cbn. split; reflexivity.
Qed.

Lemma paused_agent_is_locked_out_witness :
  let paused := Auth.authenticated (Some "bob-key")
                                   (Auth.update_agent_status "paused") bob_db in
  outcome paused = Returned "paused"
  /\ forall (A : Type) (handler : Agent.t -> M A),
      let later := Auth.authenticated (Some "bob-key") handler (final paused) in
      outcome later = Raised (HTTPException 403) /\ final later = final paused.
Proof.
  apply (paused_agent_is_locked_out "bob-key" bob_db bob "paused").
  - reflexivity.
  - now left.
Defined.

(** What [register_agent] does with a well-formed request. *)
Lemma register_agent_run (api_key : string) (req : Auth.RegisterRequest) (db : DB) :
  Auth.RegisterRequest_valid req = true ->
  Auth.register_agent api_key req db
  = match filter (fun a => String.eqb (Agent.wallet_address a)
                                      (Py.lower (Auth.req_wallet_address req)))
                 (agents db) with
    | [] =>
        let row :=
          Agent.mk (next_id Agent.id (agents db))
                   (Py.lower (Auth.req_wallet_address req))
                   (Py.lower (Auth.req_creator_address req))
                   (if String.eqb (Auth.req_name req) ""
                    then "Agent-" ++ slice_last 6 (Auth.req_wallet_address req)
                    else Auth.req_name req)
                   api_key "active" 0 0 in
        if existsb (fun a => String.eqb (Agent.wallet_address a) (Agent.wallet_address row)
                             || String.eqb (Agent.api_key a) (Agent.api_key row))
                   (agents db)
        then mkRun (Raised ExternalError) db []
        else mkRun (Returned (Agent.id row, api_key, Agent.wallet_address row,
                              Agent.creator_address row))
                   (with_agents (agents db ++ [row])%list db) []
    | [_] => mkRun (Raised (HTTPException 409)) db []
    | _ => mkRun (Raised MultipleResultsFound) db []
    end.
Proof.
  intros Hvalid.
  unfold Auth.register_agent, select_agents, gets, bind, when, scalar_one_or_none.
  rewrite Hvalid. cbn [negb ret outcome final logged app].
  destruct (filter _ (agents db)) as [|a [|a' rows]]; cbn; try reflexivity.
  unfold add_agent. cbn [Agent.wallet_address Agent.api_key].
  destruct (existsb _ (agents db)); reflexivity.
Qed.

Lemma register_agent_valid (api_key : string) (req : Auth.RegisterRequest) (db : DB) res :
  outcome (Auth.register_agent api_key req db) = Returned res ->
  Auth.RegisterRequest_valid req = true.
Proof.
  unfold Auth.register_agent, bind, when.
  destruct (Auth.RegisterRequest_valid req); [reflexivity|]. cbn. discriminate.
Qed.

(** X11. Registration and authentication fit together.  When
    [register_agent] returns, it has added one agent, with the next id, the
    wallet and creator addresses in lower case, the status "active" and no
    tournament played or won; the key it answers is the one that was drawn,
    and [get_agent] with that key returns exactly this agent. *)
Theorem registered_agent_authenticates :
  forall (api_key : string) (req : Auth.RegisterRequest) (db : DB)
         (agent_id : Z) (key wallet creator : string),
    outcome (Auth.register_agent api_key req db)
    = Returned (agent_id, key, wallet, creator) ->
    let db' := final (Auth.register_agent api_key req db) in
    key = api_key
    /\ wallet = Py.lower (Auth.req_wallet_address req)
    /\ creator = Py.lower (Auth.req_creator_address req)
    /\ exists agent,
        agents db' = (agents db ++ [agent])%list
        /\ outcome (Auth.get_agent (Some key) db') = Returned agent
        /\ Agent.id agent = agent_id
        /\ Agent.id agent = next_id Agent.id (agents db)
        /\ Agent.wallet_address agent = wallet
        /\ Agent.creator_address agent = creator
        /\ Agent.status agent = "active"
        /\ Agent.tournaments_played agent = 0
        /\ Agent.tournaments_won agent = 0.
Proof.
  intros api_key req db agent_id key wallet creator Hret db'. subst db'.
  pose proof (register_agent_valid _ _ _ _ Hret) as Hvalid.
  rewrite (register_agent_run api_key req db Hvalid) in *.
  destruct (filter _ (agents db)) as [|a [|a' rows]]; try discriminate.
  cbv zeta in *.
  set (row := Agent.mk _ _ _ _ api_key "active" 0 0) in *.
  destruct (existsb _ (agents db)) eqn:Hfresh; [discriminate|].
  cbn [outcome final] in *. injection Hret as <- <- <- <-.
  repeat split. exists row. repeat split.
  rewrite get_agent_run. cbn [agents with_agents].
  rewrite filter_app.
  assert (Hold : filter (fun a => String.eqb (Agent.api_key a) api_key) (agents db) = []).
  { exact (existsb_or_false_filter _ _ _ Hfresh). }
  rewrite Hold. cbn. now rewrite String.eqb_refl.
Qed.

Lemma registered_agent_authenticates_witness :
  let db' := final (Auth.register_agent "alice-key" alice_request bob_db) in
  "alice-key" = "alice-key"
  /\ "0xabcdef0123456789abcdef0123456789abcdef01"
     = Py.lower (Auth.req_wallet_address alice_request)
  /\ "0x00000000000000000000000000000000000000c0"
     = Py.lower (Auth.req_creator_address alice_request)
  /\ exists agent,
      agents db' = (agents bob_db ++ [agent])%list
      /\ outcome (Auth.get_agent (Some "alice-key") db') = Returned agent
      /\ Agent.id agent = 8
      /\ Agent.id agent = next_id Agent.id (agents bob_db)
      /\ Agent.wallet_address agent = "0xabcdef0123456789abcdef0123456789abcdef01"
      /\ Agent.creator_address agent = "0x00000000000000000000000000000000000000c0"
      /\ Agent.status agent = "active"
      /\ Agent.tournaments_played agent = 0
      /\ Agent.tournaments_won agent = 0.
Proof.
  apply (registered_agent_authenticates
           "alice-key" alice_request bob_db 8 "alice-key"
           "0xabcdef0123456789abcdef0123456789abcdef01"
           "0x00000000000000000000000000000000000000c0").
  vm_compute. reflexivity.
Defined.

(** X12. A wallet registers once, whatever the case of its letters.
    After a registration that returned, a further well-formed request whose
    wallet address has the same lower-case form is answered 409 and changes
    nothing, whatever its other fields and whatever key is drawn. *)
Theorem wallet_registers_once :
  forall (api_key api_key' : string) (req req' : Auth.RegisterRequest) (db : DB)
         (answer : Z * string * string * string),
    outcome (Auth.register_agent api_key req db) = Returned answer ->
    Auth.RegisterRequest_valid req' = true ->
    Py.lower (Auth.req_wallet_address req') = Py.lower (Auth.req_wallet_address req) ->
    let db' := final (Auth.register_agent api_key req db) in
    Auth.register_agent api_key' req' db' = mkRun (Raised (HTTPException 409)) db' [].
Proof.
  intros api_key api_key' req req' db answer Hret Hvalid' Hsame db'. subst db'.
  pose proof (register_agent_valid _ _ _ _ Hret) as Hvalid.
  rewrite (register_agent_run api_key' req' _ Hvalid'). rewrite Hsame.
  rewrite (register_agent_run api_key req db Hvalid) in *.
  destruct (filter _ (agents db)) as [|a [|a' rows]] eqn:Hrows; try discriminate.
  cbv zeta in *.
  destruct (existsb _ (agents db)); [discriminate|].
  cbn [final agents with_agents].
  rewrite filter_app, Hrows. cbn. now rewrite String.eqb_refl.
Qed.

Lemma wallet_registers_once_witness :
  let db' := final (Auth.register_agent "alice-key" alice_request bob_db) in
  Auth.register_agent "other-key" alice_again db'
  = mkRun (Raised (HTTPException 409)) db' [].
Proof.
  apply (wallet_registers_once "alice-key" "other-key" alice_request alice_again bob_db
           (8, "alice-key", "0xabcdef0123456789abcdef0123456789abcdef01",
            "0x00000000000000000000000000000000000000c0")).
  - vm_compute. reflexivity.
  - vm_compute. reflexivity.
  - vm_compute. reflexivity.
Defined.

(** ** The arguments of the on-chain resolution *)

Lemma pad_short (real : list string) :
  (List.length real <= 4)%nat ->
  Blockchain.pad 4 real
  = (real ++ repeat Blockchain.ZERO_ADDR (4 - List.length real))%list.
Proof.
  intros Hlen.
  destruct real as [|a [|b [|c [|d [|e tl]]]]]; cbn in Hlen; try lia; reflexivity.
Qed.

(** X13. What [resolve_tournament] sends.  Whatever list of finalists it
    is given, the contract receives exactly four slots: the real finalists
    among the first four entries (those that are neither empty nor the
    zero address), in their order, then zero addresses; [finalist_count]
    is the number of real ones and is at most four. *)
Theorem resolve_arguments_padded :
  forall finalists : list string,
    let padded := fst (Blockchain.resolve_arguments finalists) in
    let finalist_count := snd (Blockchain.resolve_arguments finalists) in
    let real := filter real_finalist (slice_to 4 finalists) in
    List.length padded = 4%nat
    /\ 0 <= finalist_count <= 4
    /\ finalist_count = Z.of_nat (List.length real)
    /\ padded = (real ++ repeat Blockchain.ZERO_ADDR (4 - List.length real))%list
    /\ Forall (fun f => f <> "" /\ f <> Blockchain.ZERO_ADDR) real.
Proof.
  intros finalists padded finalist_count real.
  subst padded finalist_count. unfold Blockchain.resolve_arguments.
  fold real_finalist. fold real. cbn [fst snd].
  assert (Hlen : (List.length real <= 4)%nat).
  { unfold real, slice_to.
    etransitivity; [apply filter_length_le|].
    rewrite length_firstn. change (Z.to_nat 4) with 4%nat. lia. }
  rewrite (pad_short real Hlen).
  repeat split.
  - rewrite length_app, repeat_length. lia.
  - lia.
  - lia.
  - unfold real. apply Forall_forall. intros f Hf.
    apply filter_In in Hf. destruct Hf as [_ Hf].
    unfold real_finalist in Hf. apply andb_true_iff in Hf. destruct Hf as [H1 H2].
    split.
    + intros ->. discriminate.
    + intros ->. now rewrite String.eqb_refl in H2.
Qed.

(** ** The submission handlers *)

Lemma bind_scalar {A B} (m : M (option A)) (rows : list A) (k : option A -> M B) (db : DB) :
  m db = scalar_one_or_none rows db ->
  bind m k db
  = match rows with
    | [] => k None db
    | [x] => k (Some x) db
    | _ => mkRun (Raised MultipleResultsFound) db []
    end.
Proof.
  intros H. unfold bind. rewrite H.
  destruct rows as [|x [|y tl]]; cbn; try reflexivity; now destruct (k _ db).
Qed.

(** What [submit_commit] does, check by check. *)
Lemma submit_commit_run (now committed_at tid : Z) (req : Main.CommitRequest)
      (agent : Agent.t) (db : DB) :
  Main.submit_commit now committed_at tid req agent db
  = if negb (Main.CommitRequest_valid req) then mkRun (Raised (HTTPException 422)) db []
    else
      match find_tournament tid db with
      | None => mkRun (Raised (HTTPException 404)) db []
      | Some t =>
          if negb (TournamentState_eqb (Tournament.state t) COMMIT)
          then mkRun (Raised (HTTPException 400)) db []
          else
            match alive_entries tid (Agent.wallet_address agent) db with
            | [] => mkRun (Raised (HTTPException 403)) db []
            | [_] =>
                if past_deadline t now then mkRun (Raised (HTTPException 400)) db []
                else
                  match rounds_numbered tid (Tournament.current_round t) db with
                  | [] => mkRun (Raised (HTTPException 500)) db []
                  | [r] =>
                      match commits_by (Round.id r) (Agent.wallet_address agent) db with
                      | [] =>
                          mkRun (Returned (Tournament.current_round t))
                                (with_round_commits
                                   (round_commits db
                                    ++ [new_commit (Round.id r) (Agent.wallet_address agent)
                                                   (Main.req_commit_hash req)
                                                   committed_at db])%list db)
                                []
                      | [_] => mkRun (Raised (HTTPException 409)) db []
                      | _ => mkRun (Raised MultipleResultsFound) db []
                      end
                  | _ => mkRun (Raised MultipleResultsFound) db []
                  end
            | _ => mkRun (Raised MultipleResultsFound) db []
            end
      end.
Proof.
  unfold Main.submit_commit.
  destruct (Main.CommitRequest_valid req); cbn [negb when]; [|reflexivity].
  erewrite bind_quiet by reflexivity.
  erewrite bind_quiet by reflexivity.
  destruct (find_tournament tid db) as [t|]; [|reflexivity].
  destruct (TournamentState_eqb (Tournament.state t) COMMIT); cbn [negb when];
    [|reflexivity].
  erewrite bind_quiet by reflexivity.
  unfold select_entries. erewrite bind_quiet by reflexivity.
  fold (alive_entries tid (Agent.wallet_address agent) db).
  destruct (alive_entries tid (Agent.wallet_address agent) db) as [|e [|e' es]];
    [reflexivity| |reflexivity].
  erewrite bind_quiet by reflexivity. cbn [is_some negb when].
  erewrite bind_quiet by reflexivity.
  fold (past_deadline t now).
  destruct (past_deadline t now); cbn [when]; [reflexivity|].
  erewrite bind_quiet by reflexivity.
  rewrite (bind_scalar _ _ _ _ (current_round_of_run _ _ _)).
  destruct (rounds_numbered tid (Tournament.current_round t) db) as [|r [|r' rs]];
    [reflexivity| |reflexivity].
  rewrite (bind_scalar _ _ _ _ (commit_of_run _ _ _)).
  destruct (commits_by (Round.id r) (Agent.wallet_address agent) db) as [|c [|c' cs]];
    reflexivity.
Qed.

(** X14. One commitment per participant and round.  When [submit_commit]
    accepts a commitment, it adds exactly one row, for the current round and
    the wallet of the agent, with the hash of the request and nothing
    revealed; any further well-formed commit request of the same agent for
    the tournament, made before the deadline, is answered 409 and changes
    nothing. *)
Theorem commit_is_accepted_once :
  forall (now committed_at now' committed_at' tid : Z)
         (req req' : Main.CommitRequest) (agent : Agent.t) (db : DB)
         (t : Tournament.t) (round_number : Z),
    outcome (Main.submit_commit now committed_at tid req agent db)
    = Returned round_number ->
    find_tournament tid db = Some t ->
    past_deadline t now' = false ->
    Main.CommitRequest_valid req' = true ->
    let db' := final (Main.submit_commit now committed_at tid req agent db) in
    (exists r,
        rounds_numbered tid (Tournament.current_round t) db = [r]
        /\ round_number = Tournament.current_round t
        /\ db' = with_round_commits
                   (round_commits db
                    ++ [new_commit (Round.id r) (Agent.wallet_address agent)
                                   (Main.req_commit_hash req) committed_at db])%list db)
    /\ Main.submit_commit now' committed_at' tid req' agent db'
       = mkRun (Raised (HTTPException 409)) db' [].
Proof.
  intros now committed_at now' committed_at' tid req req' agent db t round_number
         Hret Ht Hdl' Hvalid' db'.
  subst db'. rewrite (submit_commit_run now committed_at) in *.
  rewrite Ht in *.
  destruct (Main.CommitRequest_valid req); cbn [negb] in *; [|discriminate].
  destruct (TournamentState_eqb (Tournament.state t) COMMIT) eqn:Hstate;
    cbn [negb] in *; [|discriminate].
  destruct (alive_entries tid (Agent.wallet_address agent) db) as [|e [|e' es]] eqn:He;
    try discriminate.
  destruct (past_deadline t now); [discriminate|].
  destruct (rounds_numbered tid (Tournament.current_round t) db) as [|r [|r' rs]] eqn:Hr;
    try discriminate.
  destruct (commits_by (Round.id r) (Agent.wallet_address agent) db) as [|c [|c' cs]] eqn:Hc;
    try discriminate.
  cbn [outcome final] in *. injection Hret as <-.
  split; [exists r; repeat split|].
  rewrite submit_commit_run. rewrite Hvalid'. cbn [negb].
  change (find_tournament tid (with_round_commits ?x db)) with (find_tournament tid db).
  rewrite Ht, Hstate. cbn [negb].
  change (alive_entries tid ?a (with_round_commits ?x db)) with (alive_entries tid a db).
  rewrite He, Hdl'.
  change (rounds_numbered tid ?n (with_round_commits ?x db)) with (rounds_numbered tid n db).
  rewrite Hr.
  unfold commits_by in *. cbn [round_commits with_round_commits].
  rewrite filter_app, Hc. cbn [filter new_commit RoundCommit.round_id
                                 RoundCommit.agent_address app].
  now rewrite Z.eqb_refl, String.eqb_refl.
Qed.

Lemma commit_is_accepted_once_witness :
  let db' := final (Main.submit_commit 10 11 5 (Main.mkCommitRequest hash_1)
                                       agent_a1 commit_db) in
  (exists r,
      rounds_numbered 5 2 commit_db = [r]
      /\ 2 = 2
      /\ db' = with_round_commits
                 (round_commits commit_db
                  ++ [new_commit (Round.id r) "0xa1" hash_1 11 commit_db])%list commit_db)
  /\ Main.submit_commit 20 21 5 (Main.mkCommitRequest salt_2) agent_a1 db'
     = mkRun (Raised (HTTPException 409)) db' [].
Proof.
  apply (commit_is_accepted_once 10 11 20 21 5 (Main.mkCommitRequest hash_1)
           (Main.mkCommitRequest salt_2) agent_a1 commit_db
           (sample_tournament 5 COMMIT 2 (Some 1000)) 2).
  - vm_compute. reflexivity.
  - reflexivity.
  - reflexivity.
  - vm_compute. reflexivity.
Defined.

(** X15. A commitment is revealed once.  In the reveal phase and before
    the deadline, the reveal of the bid and salt whose hash is the stored
    commitment is accepted and answers the round and the bid; any further
    well-formed reveal of the same agent, whatever it holds, is answered
    409 and changes nothing, so a revealed bid cannot be replaced. *)
Theorem reveal_is_accepted_once :
  forall (db : DB) (tid : Z) (agent : Agent.t) (t : Tournament.t) (r : Round.t)
         (c : RoundCommit.t) (req req' : Main.RevealRequest)
         (now revealed_at now' revealed_at' : Z),
    find_tournament tid db = Some t ->
    Tournament.state t = REVEAL ->
    past_deadline t now = false ->
    past_deadline t now' = false ->
    rounds_numbered tid (Tournament.current_round t) db = [r] ->
    commits_by (Round.id r) (Agent.wallet_address agent) db = [c] ->
    RoundCommit.revealed c = false ->
    Main.RevealRequest_valid req = true ->
    Main.RevealRequest_valid req' = true ->
    GameEngine.compute_commit_hash (Main.req_bid req) (Main.req_salt req)
    = Some (RoundCommit.commit_hash c) ->
    let first := Main.submit_reveal now revealed_at tid req agent db in
    outcome first = Returned (Tournament.current_round t, Main.req_bid req)
    /\ Main.submit_reveal now' revealed_at' tid req' agent (final first)
       = mkRun (Raised (HTTPException 409)) (final first) [].
Proof.
  intros db tid agent t r c req req' now revealed_at now' revealed_at'
         Ht Hstate Hdl Hdl' Hr Hc Hrev Hvalid Hvalid' Hhash first.
  assert (Hok : GameEngine.verify_reveal (RoundCommit.commit_hash c)
                                         (Main.req_bid req) (Main.req_salt req)
                = Some true).
  { unfold GameEngine.verify_reveal. rewrite Hhash. now rewrite String.eqb_refl. }
  subst first.
  rewrite (submit_reveal_checked now revealed_at tid req agent db t r c
             Hvalid Ht Hstate Hdl Hr Hc Hrev true Hok).
  cbn [outcome final]. split; [reflexivity|].
  unfold Main.submit_reveal.
  rewrite Hvalid'. cbn [negb when].
  erewrite bind_quiet by reflexivity.
  erewrite bind_quiet by reflexivity.
  change (find_tournament tid (with_round_commits ?x db)) with (find_tournament tid db).
  rewrite Ht, Hstate. cbn [TournamentState_eqb negb when].
  erewrite bind_quiet by reflexivity.
  unfold past_deadline in Hdl'. rewrite Hdl'. cbn [when].
  erewrite bind_quiet by reflexivity.
  rewrite (bind_scalar _ _ _ _ (current_round_of_run _ _ _)).
  change (rounds_numbered tid ?n (with_round_commits ?x db)) with (rounds_numbered tid n db).
  rewrite Hr.
  rewrite (bind_scalar _ _ _ _ (commit_of_run _ _ _)).
  unfold commits_by in *. cbn [round_commits with_round_commits].
  rewrite filter_update_where by reflexivity.
  rewrite Hc. cbn [update_where map]. rewrite Z.eqb_refl.
  reflexivity.
Qed.

Lemma reveal_is_accepted_once_witness :
  let first := Main.submit_reveal 10 11 1 right_reveal agent_a1 silent_db in
  outcome first = Returned (1, 500)
  /\ Main.submit_reveal 20 21 1 wrong_reveal agent_a1 (final first)
     = mkRun (Raised (HTTPException 409)) (final first) [].
Proof.
  apply (reveal_is_accepted_once silent_db 1 agent_a1
           (sample_tournament 1 REVEAL 1 (Some 1000)) round_1
           (unrevealed_commit 1 1 "0xa1" hash_1) right_reveal wrong_reveal 10 11 20 21);
    vm_compute; reflexivity.
Defined.

(** ** The manager *)

Section CancelFacts.

Variable config : Config.
Variable chain : Chain.

Lemma cancel_run (now : Z) (db : DB) :
  Main.cancel_expired_tournaments config chain now db
  = for_each (filter (expired_open config now) (tournaments db))
             (cancel_iteration chain) db.
Proof.
  unfold Main.cancel_expired_tournaments, select_tournaments. cbv zeta.
  erewrite bind_quiet by reflexivity. reflexivity.
Qed.

Lemma cancel_iteration_run (t : Tournament.t) (db : DB) :
  find_tournament (Tournament.id t) db <> None ->
  outcome (cancel_iteration chain t db) = Returned tt
  /\ final (cancel_iteration chain t db)
     = with_tournaments
         (update_where (fun x => Tournament.id x =? Tournament.id t)
                       (Tournament.with_state CANCELLED) (tournaments db)) db.
Proof.
  intros Hex. unfold cancel_iteration. cbv zeta.
  erewrite bind_quiet by reflexivity.
  rewrite outcome_bind, final_bind. cbn [logger outcome final].
  rewrite outcome_bind, final_bind, tournament_attr_run.
  unfold find_tournament in *. cbn [tournaments with_tournaments].
  rewrite find_update_where by reflexivity.
  destruct (find _ (tournaments db)) as [t0|]; [|congruence].
  cbn [option_map outcome final].
  destruct (cancel_tournament chain _); cbn; split; reflexivity.
Qed.

Lemma cancel_loop_run (xs : list Tournament.t) :
  forall db,
    (forall x, In x xs -> find_tournament (Tournament.id x) db <> None) ->
    outcome (for_each xs (cancel_iteration chain) db) = Returned tt
    /\ final (for_each xs (cancel_iteration chain) db)
       = with_tournaments
           (fold_left (fun rows x =>
                         update_where (fun t => Tournament.id t =? Tournament.id x)
                                      (Tournament.with_state CANCELLED) rows)
                      xs (tournaments db)) db.
Proof.
  induction xs as [|x tl IH]; intros db Hex.
  - split; [reflexivity | now destruct db].
  - cbn [for_each fold_left]. rewrite outcome_bind, final_bind.
    destruct (cancel_iteration_run x db (Hex x (or_introl eq_refl))) as [Ho Hf].
    rewrite Ho, Hf.
    destruct (IH (with_tournaments
                    (update_where (fun t => Tournament.id t =? Tournament.id x)
                                  (Tournament.with_state CANCELLED) (tournaments db)) db))
      as [Ho' Hf'].
    { intros y Hy. eapply find_exists_of_ids; [|apply Hex; now right].
      cbn [tournaments with_tournaments]. now apply update_where_ids. }
    split; [exact Ho' | exact Hf'].
Qed.

End CancelFacts.

Lemma fold_update_rows (f : Tournament.t -> Tournament.t) (xs : list Tournament.t) :
  (forall t, Tournament.id (f t) = Tournament.id t) ->
  (forall t, f (f t) = f t) ->
  forall rows,
    fold_left (fun rows x => update_where (fun t => Tournament.id t =? Tournament.id x) f rows)
              xs rows
    = update_where (fun t => existsb (fun x => Tournament.id t =? Tournament.id x) xs) f rows.
Proof.
  intros Hid Hff. induction xs as [|x tl IH]; intros rows; cbn [fold_left existsb].
  - unfold update_where. now rewrite map_id.
  - rewrite IH. unfold update_where. rewrite map_map. apply map_ext. intros t.
    destruct (Tournament.id t =? Tournament.id x) eqn:E; cbn [orb].
    + rewrite Hid. destruct (existsb _ tl); [apply Hff | reflexivity].
    + reflexivity.
Qed.

Lemma filter_updated_gone {A} (p : A -> bool) (f : A -> A) (rows : list A) :
  (forall x, p x = true -> p (f x) = false) ->
  filter p (update_where p f rows) = [].
Proof.
  intros Hp. induction rows as [|x tl IH]; [reflexivity|].
  cbn [update_where map filter]. fold (update_where p f tl).
  destruct (p x) eqn:Hx; [rewrite (Hp x Hx) | rewrite Hx]; exact IH.
Qed.

Lemma selected_ids (p : Tournament.t -> bool) (db : DB) (t : Tournament.t) :
  unique_ids db -> In t (tournaments db) ->
  existsb (fun x => Tournament.id t =? Tournament.id x) (filter p (tournaments db)) = p t.
Proof.
  intros Hnd Hin. destruct (p t) eqn:Hp.
  - apply existsb_exists. exists t. split; [now apply filter_In | apply Z.eqb_refl].
  - destruct (existsb _ _) eqn:He; [|reflexivity].
    apply existsb_exists in He. destruct He as [x [Hx E]].
    apply filter_In in Hx. destruct Hx as [Hx Hpx]. apply Z.eqb_eq in E.
    assert (x = t) by (eapply same_id_same_row; eauto). congruence.
Qed.

Lemma cancel_expired_final (config : Config) (chain : Chain) (now : Z) (db : DB) :
  unique_ids db ->
  outcome (Main.cancel_expired_tournaments config chain now db) = Returned tt
  /\ final (Main.cancel_expired_tournaments config chain now db)
     = with_tournaments
         (update_where (expired_open config now) (Tournament.with_state CANCELLED)
                       (tournaments db)) db.
Proof.
  intros Hnd. rewrite cancel_run.
  destruct (cancel_loop_run chain (filter (expired_open config now) (tournaments db)) db)
    as [Ho Hf].
  { intros x Hx. apply filter_In in Hx. destruct Hx as [Hin _].
    rewrite (find_unique db x Hnd Hin). discriminate. }
  split; [exact Ho|].
  rewrite Hf. f_equal.
  rewrite fold_update_rows by reflexivity.
  unfold update_where. apply map_ext_in. intros t Hin.
  now rewrite (selected_ids (expired_open config now) db t Hnd Hin).
Qed.

(** X16. What the cancellation pass does.  On a session whose tournament
    ids are unique, [cancel_expired_tournaments] returns, whatever the chain
    answers; it sets to CANCELLED exactly the tournaments that are open and
    were created before the cutoff, and leaves every other row and every
    other table as it was.  A second pass at the same time finds nothing to
    cancel: it changes nothing and logs nothing. *)
Theorem cancel_expired_exact :
  forall (config : Config) (chain chain' : Chain) (now : Z) (db : DB),
    unique_ids db ->
    let r := Main.cancel_expired_tournaments config chain now db in
    outcome r = Returned tt
    /\ final r
       = with_tournaments
           (update_where (expired_open config now) (Tournament.with_state CANCELLED)
                         (tournaments db)) db
    /\ Main.cancel_expired_tournaments config chain' now (final r)
       = mkRun (Returned tt) (final r) [].
Proof.
  intros config chain chain' now db Hnd r. subst r.
  destruct (cancel_expired_final config chain now db Hnd) as [Ho Hrows].
  split; [exact Ho|]. split; [exact Hrows|].
  rewrite Hrows, cancel_run. cbn [tournaments with_tournaments].
  replace (filter (expired_open config now)
                  (update_where (expired_open config now)
                                (Tournament.with_state CANCELLED) (tournaments db)))
    with (@nil Tournament.t); [reflexivity|].
  symmetry. apply filter_updated_gone. intros t Ht.
  unfold expired_open. cbn [Tournament.state Tournament.with_state TournamentState_eqb andb].
  reflexivity.
Qed.

Lemma cancel_expired_exact_witness :
  let r := Main.cancel_expired_tournaments default_config sample_chain 700000000000
                                           busy_db in
  outcome r = Returned tt
  /\ final r
     = with_tournaments
         (update_where (expired_open default_config 700000000000)
                       (Tournament.with_state CANCELLED) (tournaments busy_db)) busy_db
  /\ Main.cancel_expired_tournaments default_config sample_chain 700000000000 (final r)
     = mkRun (Returned tt) (final r) [].
Proof.
  apply (cancel_expired_exact default_config sample_chain sample_chain 700000000000 busy_db).
  unfold unique_ids. cbn. repeat constructor; cbn; intuition discriminate.
Defined.

Section EnsureFacts.

Variable chain : Chain.
Variable created : Z -> Z.

Lemma ensure_run (db : DB) :
  Main.ensure_open_tournaments chain created db
  = for_each [0; 1; 2] (ensure_iteration chain created) db.
Proof. reflexivity. Qed.

Lemma ensure_iteration_run (arena : Z) (db : DB) :
  ensure_iteration chain created arena db
  = match open_in arena db with
    | [] =>
        match create_tournament chain arena with
        | Some (entry_fee, chain_id) =>
            mkRun (Returned tt)
                  (with_tournaments
                     (tournaments db
                      ++ [created_tournament (next_id Tournament.id (tournaments db))
                                             chain_id arena entry_fee (created arena)])%list db)
                  [CreatedTournament arena chain_id]
        | None => mkRun (Returned tt) db [CreateFailed arena]
        end
    | [_] => mkRun (Returned tt) db []
    | _ => mkRun (Raised MultipleResultsFound) db []
    end.
Proof.
  unfold ensure_iteration, select_tournaments.
  erewrite bind_quiet by reflexivity. fold (open_in arena db).
  destruct (open_in arena db) as [|t [|t' rows]]; try reflexivity.
  cbn [scalar_one_or_none]. erewrite bind_quiet by reflexivity.
  cbn [is_some negb when].
  destruct (create_tournament chain arena) as [[entry_fee chain_id]|]; reflexivity.
Qed.

Lemma open_in_added (arena : Z) (db : DB) (extra : list Tournament.t) :
  Forall (fun row => Tournament.arena row <> arena) extra ->
  open_in arena (with_tournaments (tournaments db ++ extra)%list db) = open_in arena db.
Proof.
  intros Hextra. unfold open_in. cbn [tournaments with_tournaments].
  rewrite filter_app.
  replace (filter _ extra) with (@nil Tournament.t); [now rewrite app_nil_r|].
  symmetry. induction Hextra as [|row tl Hrow _ IH]; [reflexivity|].
  cbn [filter]. destruct (Z.eqb_spec (Tournament.arena row) arena); [contradiction|].
  exact IH.
Qed.

Lemma ensure_loop (arenas : list Z) :
  NoDup arenas ->
  forall db,
    (forall arena, In arena arenas -> (List.length (open_in arena db) <= 1)%nat) ->
    let r := for_each arenas (ensure_iteration chain created) db in
    outcome r = Returned tt
    /\ (exists extra,
           final r = with_tournaments (tournaments db ++ extra)%list db
           /\ Forall (fun row => In (Tournament.arena row) arenas) extra)
    /\ forall arena, In arena arenas ->
                     ensured chain created arena (open_in arena db) (open_in arena (final r)).
Proof.
  induction 1 as [|a tl Ha Hnd IH]; intros db Hone; cbv zeta.
  - split; [reflexivity|]. split; [|intros arena []].
    exists []. split; [|constructor]. rewrite app_nil_r. now destruct db.
  - cbn [for_each]. rewrite outcome_bind, final_bind.
    pose proof (ensure_iteration_run a db) as Hrun.
    pose proof (Hone a (or_introl eq_refl)) as Hlen.
    set (db1 := final (ensure_iteration chain created a db)).
    assert (Hstep : outcome (ensure_iteration chain created a db) = Returned tt
                    /\ exists new,
                        db1 = with_tournaments (tournaments db ++ new)%list db
                        /\ Forall (fun row => Tournament.arena row = a) new
                        /\ ensured chain created a (open_in a db) (open_in a db ++ new)%list
                        /\ open_in a db1 = (open_in a db ++ new)%list).
    { subst db1. rewrite Hrun.
      destruct (open_in a db) as [|t [|t' rows]] eqn:Hopen; [| |cbn in Hlen; lia].
      - destruct (create_tournament chain a) as [[entry_fee chain_id]|] eqn:Hc;
          cbn [outcome final]; (split; [reflexivity|]).
        + eexists. split; [reflexivity|]. split; [repeat constructor|].
          split.
          * unfold ensured. rewrite Hc. eexists. reflexivity.
          * unfold open_in in *. cbn [tournaments with_tournaments].
            rewrite filter_app, Hopen. cbn. now rewrite Z.eqb_refl.
        + exists []. rewrite app_nil_r. split; [now destruct db|].
          split; [constructor|]. split; [|exact Hopen].
          unfold ensured. now rewrite Hc.
      - cbn [outcome final]. split; [reflexivity|].
        exists []. rewrite app_nil_r. split; [now destruct db|].
        split; [constructor|]. split; [reflexivity | exact Hopen]. }
    destruct Hstep as [Ho [new [Hdb1 [Hnew [Hens Hopen1]]]]].
    rewrite Ho.
    assert (Hothers : forall arena, In arena tl -> open_in arena db1 = open_in arena db).
    { intros arena Hin. rewrite Hdb1. apply open_in_added.
      eapply Forall_impl; [|exact Hnew]. cbn. intros row E1 E2.
      apply Ha. now rewrite <- E1, E2. }
    destruct (IH db1) as [Ho' [[extra [Hfin Hextra]] Hspec]].
    { intros arena Hin. rewrite (Hothers arena Hin). apply Hone. now right. }
    cbv zeta in *. split; [exact Ho'|]. split.
    + exists (new ++ extra)%list. split.
      * rewrite Hfin, Hdb1. cbn [tournaments with_tournaments].
        now rewrite app_assoc.
      * apply Forall_app. split.
        -- eapply Forall_impl; [|exact Hnew]. cbn. intros row ->. now left.
        -- eapply Forall_impl; [|exact Hextra]. cbn. intros row Hrow. now right.
    + intros arena [<-|Hin].
      * rewrite Hfin. rewrite open_in_added.
        -- now rewrite Hopen1.
        -- eapply Forall_impl; [|exact Hextra]. cbn. intros row Hrow E.
           apply Ha. now rewrite <- E.
      * rewrite <- (Hothers arena Hin). now apply Hspec.
Qed.

End EnsureFacts.

(** X17. One open tournament per arena.  On a session where none of the
    arenas 0, 1 and 2 has more than one open tournament,
    [ensure_open_tournaments] returns; it only appends rows to the
    tournaments; an arena that had an open tournament keeps exactly that
    one, and an arena that had none gets one new open tournament with the
    entry fee and the chain id the chain answered, no player, no round and
    the reading of the clock made at its insertion as creation time, or
    stays without one when the call to the chain fails.  When no
    creation failed, running it again, at any time and whatever the chain
    then answers, changes nothing and logs nothing. *)
Theorem ensure_open_one_per_arena :
  forall (chain chain' : Chain) (created created' : Z -> Z) (db : DB),
    (forall arena, In arena [0; 1; 2] -> (List.length (open_in arena db) <= 1)%nat) ->
    let r := Main.ensure_open_tournaments chain created db in
    outcome r = Returned tt
    /\ (exists extra, final r = with_tournaments (tournaments db ++ extra)%list db)
    /\ (forall arena, In arena [0; 1; 2] ->
                      ensured chain created arena (open_in arena db) (open_in arena (final r)))
    /\ ((forall arena, In arena [0; 1; 2] -> open_in arena db = [] ->
                       create_tournament chain arena <> None) ->
        Main.ensure_open_tournaments chain' created' (final r)
        = mkRun (Returned tt) (final r) []).
Proof.
  intros chain chain' created created' db Hone r. subst r.
  rewrite ensure_run.
  destruct (ensure_loop chain created [0; 1; 2]
              ltac:(repeat constructor; cbn; intuition discriminate) db Hone)
    as [Ho [[extra [Hfin _]] Hspec]].
  cbv zeta in *. split; [exact Ho|]. split; [now exists extra|]. split; [exact Hspec|].
  intros Hcreated. rewrite ensure_run. apply for_each_noop.
  intros arena Hin. rewrite ensure_iteration_run.
  specialize (Hspec arena Hin). specialize (Hone arena Hin).
  specialize (Hcreated arena Hin).
  unfold ensured in Hspec.
  destruct (open_in arena db) as [|t [|t' rows]] eqn:Hopen.
  - destruct (create_tournament chain arena) as [[entry_fee chain_id]|];
      [|now contradiction Hcreated].
    destruct Hspec as [id ->]. reflexivity.
  - now rewrite Hspec.
  - cbn in Hone. lia.
Qed.

Lemma ensure_open_one_per_arena_witness :
  let r := Main.ensure_open_tournaments sample_chain (fun arena => 50 + arena) busy_db in
  outcome r = Returned tt
  /\ (exists extra, final r = with_tournaments (tournaments busy_db ++ extra)%list busy_db)
  /\ (forall arena, In arena [0; 1; 2] ->
                    ensured sample_chain (fun arena => 50 + arena) arena
                            (open_in arena busy_db)
                            (open_in arena (final r)))
  /\ ((forall arena, In arena [0; 1; 2] -> open_in arena busy_db = [] ->
                     create_tournament sample_chain arena <> None) ->
      Main.ensure_open_tournaments sample_chain (fun arena => 60 + arena) (final r)
      = mkRun (Returned tt) (final r) []).
Proof.
  apply (ensure_open_one_per_arena sample_chain sample_chain
           (fun arena => 50 + arena) (fun arena => 60 + arena) busy_db).
  intros arena [<-|[<-|[<-|[]]]]; vm_compute; lia.
Defined.

(** ** Tournaments at rest *)

Lemma rests_refl (db : DB) : rests db db.
Proof. intros Hnd. split; [exact Hnd | auto]. Qed.

Lemma rests_trans (a b c : DB) : rests a b -> rests b c -> rests a c.
Proof.
  intros H1 H2 Hnd. destruct (H1 Hnd) as [Hb K1]. destruct (H2 Hb) as [Hc K2].
  split; [exact Hc|]. intros tid t Ht Hr. apply K2; [now apply K1 | exact Hr].
Qed.

Lemma rests_same_tournaments (db db' : DB) : same_tournaments db db' -> rests db db'.
Proof.
  unfold same_tournaments, rests, unique_ids, find_tournament. intros ->. auto.
Qed.

Lemma rests_frame (tid : Z) (db db' : DB) :
  frame tid db db' ->
  (forall t, find_tournament tid db = Some t -> at_rest t = false) ->
  rests db db'.
Proof.
  intros Hf Hbusy Hnd. split; [eapply frame_unique_ids; eassumption|].
  intros tid0 t Ht Hr.
  destruct (Z.eq_dec tid0 tid) as [->|Hne].
  - rewrite (Hbusy t Ht) in Hr. discriminate.
  - now rewrite (frame_find tid0 tid db db' Hf Hne).
Qed.

Lemma same_tournaments_refl (db : DB) : same_tournaments db db.
Proof. reflexivity. Qed.

Lemma same_tournaments_trans (a b c : DB) :
  same_tournaments a b -> same_tournaments b c -> same_tournaments a c.
Proof. unfold same_tournaments. congruence. Qed.

Ltac same_tournaments_leaf :=
  lazymatch goal with
  | |- preserves _ (assign_commit _ _) => intros ?; reflexivity
  | |- preserves _ (add_commit _) => intros ?; reflexivity
  | |- preserves _ (assign_entry _ _) => intros ?; reflexivity
  | |- preserves _ (assign_agent _ _) => intros ?; reflexivity
  end.

Ltac same_tournaments_auto :=
  unfold_queries;
  repeat first [preserves_step same_tournaments_refl same_tournaments_trans
               | same_tournaments_leaf].

Lemma grows_refl (db : DB) : grows db db.
Proof. split; [exists []; now rewrite app_nil_r | auto]. Qed.

Lemma grows_trans (a b c : DB) : grows a b -> grows b c -> grows a c.
Proof.
  intros [[e1 H1] U1] [[e2 H2] U2]. split; [|auto].
  exists (e1 ++ e2)%list. now rewrite H2, H1, app_assoc.
Qed.

Lemma grows_add_tournament (mk : Z -> Tournament.t) :
  (forall id, Tournament.id (mk id) = id) -> preserves grows (add_tournament mk).
Proof.
  intros Hid db. unfold add_tournament. cbn [final]. split.
  - eexists. reflexivity.
  - unfold unique_ids. cbn [tournaments with_tournaments]. intros Hnd.
    rewrite map_app. cbn [map]. rewrite Hid.
    apply NoDup_app; [exact Hnd | repeat constructor; intros [] |].
    intros id Hin1 [<-|[]]. apply in_map_iff in Hin1.
    destruct Hin1 as [x [Hx Hin]].
    pose proof (next_id_above Tournament.id (tournaments db) x Hin). lia.
Qed.

Lemma rests_grows (db db' : DB) : grows db db' -> rests db db'.
Proof.
  intros [[extra Hrows] Hu] Hnd. split; [auto|].
  intros tid t Ht _. unfold find_tournament in *. rewrite Hrows.
  now apply find_app_found.
Qed.

Lemma find_update_where_pred (p : Tournament.t -> bool) (f : Tournament.t -> Tournament.t)
      (tid : Z) (rows : list Tournament.t) :
  (forall t, Tournament.id (f t) = Tournament.id t) ->
  find (fun t => Tournament.id t =? tid) (update_where p f rows)
  = option_map (fun t => if p t then f t else t)
               (find (fun t => Tournament.id t =? tid) rows).
Proof.
  intros Hid. induction rows as [|x tl IH]; [reflexivity|].
  cbn [update_where map find]. fold (update_where p f tl).
  destruct (p x) eqn:Hp.
  - rewrite Hid. destruct (Tournament.id x =? tid); [|exact IH].
    cbn [option_map]. now rewrite Hp.
  - destruct (Tournament.id x =? tid); [|exact IH].
    cbn [option_map]. now rewrite Hp.
Qed.

Ltac frame_more_leaf :=
  lazymatch goal with
  | |- preserves _ (add_entry _) => intros ?; now apply frame_same_tables
  | |- preserves _ (add_commit _) => intros ?; now apply frame_same_tables
  | |- preserves _ (GameEngine.start_tournament _ _ _ _) => apply start_tournament_frame
  end.

Section RestFacts.

Variable config : Config.
Variable chain : Chain.

Lemma join_tournament_frame clock tid req agent :
  preserves (frame tid) (Main.join_tournament config chain clock tid req agent).
Proof.
  unfold Main.join_tournament. unfold_queries.
  repeat first [preserves_step (frame_refl tid) (frame_trans tid)
               | frame_leaf | frame_more_leaf].
Qed.

Lemma join_returns_open clock tid req agent db answer :
  outcome (Main.join_tournament config chain clock tid req agent db) = Returned answer ->
  exists t, find_tournament tid db = Some t
            /\ Tournament.state t = OPEN
            /\ Tournament.player_count t < MAX_PLAYERS config.
Proof.
  unfold Main.join_tournament.
  destruct (Main.CommitRequest_valid req); cbn [negb when];
    [|rewrite outcome_bind; cbn; discriminate].
  erewrite bind_quiet by reflexivity. erewrite bind_quiet by reflexivity.
  destruct (find_tournament tid db) as [t|]; [|cbn; discriminate].
  cbv zeta.
  destruct (TournamentState_eqb (Tournament.state t) OPEN) eqn:E; cbn [negb when];
    [|rewrite outcome_bind; cbn; discriminate].
  erewrite bind_quiet by reflexivity.
  destruct (Z.leb_spec (MAX_PLAYERS config) (Tournament.player_count t)); cbn [when];
    [rewrite outcome_bind; cbn; discriminate|].
  intros _. exists t. split; [reflexivity|]. split; [|assumption].
  destruct (Tournament.state t); first [reflexivity | discriminate].
Qed.

Lemma join_tournament_rests clock tid req agent :
  preserves rests (Main.get_db (Main.join_tournament config chain clock tid req agent)).
Proof.
  intros db. unfold Main.get_db.
  pose proof (join_tournament_frame clock tid req agent db) as Hf.
  pose proof (join_returns_open clock tid req agent db) as Hopen.
  destruct (Main.join_tournament config chain clock tid req agent db)
    as [[answer|e] db' lg]; cbn [outcome final] in *; [|apply rests_refl].
  destruct (Hopen answer eq_refl) as [t [Ht [Hs _]]].
  apply (rests_frame tid); [exact Hf|].
  intros t' Ht'. rewrite Ht in Ht'. injection Ht' as <-.
  unfold at_rest. now rewrite Hs.
Qed.

Lemma submit_commit_rests now committed_at tid req agent :
  preserves rests (Main.get_db (Main.submit_commit now committed_at tid req agent)).
Proof.
  apply get_db_final; [exact rests_refl|].
  intros db. apply rests_same_tournaments. revert db.
  change (preserves same_tournaments (Main.submit_commit now committed_at tid req agent)).
  unfold Main.submit_commit. same_tournaments_auto.
Qed.

Lemma submit_reveal_rests now revealed_at tid req agent :
  preserves rests (Main.get_db (Main.submit_reveal now revealed_at tid req agent)).
Proof.
  apply get_db_final; [exact rests_refl|].
  intros db. apply rests_same_tournaments. revert db.
  change (preserves same_tournaments (Main.submit_reveal now revealed_at tid req agent)).
  unfold Main.submit_reveal. same_tournaments_auto.
Qed.

Lemma ensure_open_tournaments_rests now :
  preserves rests (Main.ensure_open_tournaments chain now).
Proof.
  intros db. apply rests_grows. revert db.
  change (preserves grows (Main.ensure_open_tournaments chain now)).
  unfold Main.ensure_open_tournaments. unfold_queries.
  repeat first [preserves_step grows_refl grows_trans
               | apply grows_add_tournament; intros; reflexivity].
Qed.

Lemma at_rest_not_due now t : at_rest t = true -> Main.due now t = false.
Proof. unfold at_rest, Main.due. destruct (Tournament.state t); congruence. Qed.

Lemma process_phase_transitions_rests now clock :
  preserves rests (Main.process_phase_transitions config chain now clock).
Proof.
  intros db Hnd. split.
  - unfold unique_ids. now rewrite tick_keeps_ids.
  - intros tid t Ht Hr. apply tick_keeps_not_due; [exact Hnd | exact Ht|].
    now apply at_rest_not_due.
Qed.

Lemma cancel_expired_tournaments_rests now :
  preserves rests (Main.cancel_expired_tournaments config chain now).
Proof.
  intros db Hnd.
  destruct (cancel_expired_final config chain now db Hnd) as [_ ->].
  unfold unique_ids, find_tournament. cbn [tournaments with_tournaments]. split.
  - rewrite update_where_ids by reflexivity. exact Hnd.
  - intros tid t Ht Hr. rewrite find_update_where_pred by reflexivity.
    rewrite Ht. cbn [option_map].
    replace (expired_open config now t) with false; [reflexivity|].
    unfold expired_open, at_rest in *. destruct (Tournament.state t); cbn; congruence.
Qed.

Lemma tournament_manager_rests t_open now clock t_cancel :
  preserves rests (Main.tournament_manager config chain t_open now clock t_cancel).
Proof.
  intros db. unfold Main.tournament_manager.
  assert (H : preserves rests
                (Main.ensure_open_tournaments chain t_open ;;
                 Main.process_phase_transitions config chain now clock ;;
                 Main.cancel_expired_tournaments config chain t_cancel)%session).
  { apply preserves_bind; [exact rests_trans | apply ensure_open_tournaments_rests|].
    intros _. apply preserves_bind;
      [exact rests_trans | apply process_phase_transitions_rests|].
    intros _. apply cancel_expired_tournaments_rests. }
  specialize (H db).
  match type of H with
  | rests db (final ?r) => destruct r as [[u|e] db' lg]
  end; cbn [outcome final] in *; [exact H | apply rests_refl].
Qed.

End RestFacts.

(** X18. A tournament at rest stays as it is.  On a session whose
    tournament ids are unique, no call that changes the session (the three
    submission endpoints, the three passes of the manager, a whole round of
    the manager) changes anything of a tournament that is ACTIVE,
    RESOLVING, FINISHED or CANCELLED: a finished or cancelled tournament is
    never reopened, cancelled or resolved again, and a tournament that an
    error left in ACTIVE or RESOLVING is never picked up again. *)
Theorem tournament_at_rest_stays :
  forall (config : Config) (chain : Chain) (db db' : DB) (tid : Z) (t : Tournament.t),
    step config chain db db' ->
    unique_ids db ->
    find_tournament tid db = Some t ->
    at_rest t = true ->
    find_tournament tid db' = Some t.
Proof.
  intros config chain db db' tid t Hstep Hnd Ht Hr.
  assert (H : rests db db').
  { destruct Hstep.
    - apply join_tournament_rests.
    - apply submit_commit_rests.
    - apply submit_reveal_rests.
    - apply ensure_open_tournaments_rests.
    - apply process_phase_transitions_rests.
    - apply cancel_expired_tournaments_rests.
    - apply tournament_manager_rests. }
  destruct (H Hnd) as [_ K]. now apply K.
Qed.

Lemma tournament_at_rest_stays_witness :
  find_tournament 9 (final (Main.tournament_manager default_config sample_chain
                              (fun arena => 50 + arena) 2000 (ticking_clock 2000)
                              700000000000 rest_db))
  = Some (sample_tournament 9 FINISHED 1 (Some 1000)).
Proof.
  apply (tournament_at_rest_stays default_config sample_chain rest_db _ 9
           (sample_tournament 9 FINISHED 1 (Some 1000))
           (step_manager default_config sample_chain (fun arena => 50 + arena) 2000
                         (ticking_clock 2000) 700000000000 rest_db)).
  - unfold unique_ids. cbn. repeat constructor; cbn; intuition discriminate.
  - reflexivity.
  - reflexivity.
Defined.

(** ** What the scheduler keeps of the records *)

Lemma commit_kept_refl (c : RoundCommit.t) : commit_kept c c.
Proof. unfold commit_kept. tauto. Qed.

Lemma commit_kept_trans (a b c : RoundCommit.t) :
  commit_kept a b -> commit_kept b c -> commit_kept a c.
Proof. unfold commit_kept. intuition congruence. Qed.

Lemma entry_kept_refl (e : TournamentEntry.t) : entry_kept e e.
Proof. unfold entry_kept. tauto. Qed.

Lemma entry_kept_trans (a b c : TournamentEntry.t) :
  entry_kept a b -> entry_kept b c -> entry_kept a c.
Proof. unfold entry_kept. intuition congruence. Qed.

Lemma forall2_refl {A} (R : A -> A -> Prop) (l : list A) :
  (forall x, R x x) -> Forall2 R l l.
Proof. intros Hr. induction l; constructor; auto. Qed.

Lemma forall2_trans {A} (R : A -> A -> Prop) (l1 : list A) :
  (forall a b c, R a b -> R b c -> R a c) ->
  forall l2 l3, Forall2 R l1 l2 -> Forall2 R l2 l3 -> Forall2 R l1 l3.
Proof.
  intros Ht. induction l1 as [|x tl IH]; intros l2 l3 H12 H23.
  - inversion H12; subst. inversion H23; subst. constructor.
  - inversion H12; subst. inversion H23; subst. constructor; eauto.
Qed.

Lemma forall2_update_where {A} (R : A -> A -> Prop) (p : A -> bool) (f : A -> A)
      (rows : list A) :
  (forall x, R x x) -> (forall x, R x (f x)) -> Forall2 R rows (update_where p f rows).
Proof.
  intros Hr Hf. unfold update_where.
  induction rows as [|x tl IH]; cbn [map]; constructor; [|exact IH].
  destruct (p x); auto.
Qed.

Lemma forall2_in_right {A} (R : A -> A -> Prop) (l l' : list A) (y : A) :
  Forall2 R l l' -> In y l' -> exists x, In x l /\ R x y.
Proof.
  induction 1 as [|a b tl tl' Hab _ IH]; intros Hin; [contradiction|].
  destruct Hin as [<-|Hin].
  - exists a. split; [now left | exact Hab].
  - destruct (IH Hin) as [x [Hx Hr]]. exists x. split; [now right | exact Hr].
Qed.

Lemma records_kept_refl (db : DB) : records_kept db db.
Proof.
  split; apply forall2_refl; [apply commit_kept_refl | apply entry_kept_refl].
Qed.

Lemma records_kept_trans (a b c : DB) :
  records_kept a b -> records_kept b c -> records_kept a c.
Proof.
  intros [H1 H2] [H3 H4]. split.
  - eapply forall2_trans; [apply commit_kept_trans | eassumption | eassumption].
  - eapply forall2_trans; [apply entry_kept_trans | eassumption | eassumption].
Qed.

Lemma records_kept_same (db db' : DB) :
  round_commits db' = round_commits db ->
  tournament_entries db' = tournament_entries db ->
  records_kept db db'.
Proof. intros H1 H2. unfold records_kept. rewrite H1, H2. apply records_kept_refl. Qed.

Lemma records_kept_assign_commit (cid : Z) (f : RoundCommit.t -> RoundCommit.t) :
  (forall c, commit_kept c (f c)) -> preserves records_kept (assign_commit cid f).
Proof.
  intros Hf db. split; cbn.
  - apply forall2_update_where; [apply commit_kept_refl | exact Hf].
  - apply forall2_refl, entry_kept_refl.
Qed.

Lemma records_kept_assign_entry (eid : Z) (f : TournamentEntry.t -> TournamentEntry.t) :
  (forall e, entry_kept e (f e)) -> preserves records_kept (assign_entry eid f).
Proof.
  intros Hf db. split; cbn.
  - apply forall2_refl, commit_kept_refl.
  - apply forall2_update_where; [apply entry_kept_refl | exact Hf].
Qed.

Ltac records_leaf :=
  lazymatch goal with
  | |- preserves _ (assign_commit _ _) =>
      apply records_kept_assign_commit; intros ?; unfold commit_kept; cbn; tauto
  | |- preserves _ (assign_entry _ _) =>
      apply records_kept_assign_entry; intros ?; unfold entry_kept; cbn;
      intuition congruence
  | |- preserves _ (assign_tournament _ _) => intros ?; now apply records_kept_same
  | |- preserves _ (add_tournament _) => intros ?; now apply records_kept_same
  | |- preserves _ (assign_round _ _) => intros ?; now apply records_kept_same
  | |- preserves _ (add_round _) => intros ?; now apply records_kept_same
  | |- preserves _ (assign_agent _ _) => intros ?; now apply records_kept_same
  end.

Ltac records_auto :=
  unfold_queries;
  repeat first [preserves_step records_kept_refl records_kept_trans | records_leaf].

Section RecordsFacts.

Variable config : Config.
Variable chain : Chain.

Lemma resolve_round_records (now : Z) (round_obj : Round.t) :
  preserves records_kept (GameEngine.resolve_round now round_obj).
Proof.
  unfold GameEngine.resolve_round, GameEngine.collect_reveals. records_auto.
Qed.

Lemma process_phase_transitions_records (now : Z) (clock : Z -> nat -> Z) :
  preserves records_kept (Main.process_phase_transitions config chain now clock).
Proof.
  unfold Main.process_phase_transitions, Main.phase_transition, Main.advance_phase,
    GameEngine.open_reveal_phase, GameEngine.resolve_round, GameEngine.collect_reveals,
    GameEngine.finish_tournament, GameEngine.start_new_round.
  records_auto.
Qed.

Lemma tournament_manager_records t_open now clock t_cancel :
  preserves records_kept (Main.tournament_manager config chain t_open now clock t_cancel).
Proof.
  intros db. unfold Main.tournament_manager.
  assert (H : preserves records_kept
                (Main.ensure_open_tournaments chain t_open ;;
                 Main.process_phase_transitions config chain now clock ;;
                 Main.cancel_expired_tournaments config chain t_cancel)%session).
  { apply preserves_bind; [exact records_kept_trans | |intros _].
    - unfold Main.ensure_open_tournaments. records_auto.
    - apply preserves_bind;
        [exact records_kept_trans | apply process_phase_transitions_records | intros _].
      unfold Main.cancel_expired_tournaments. records_auto. }
  specialize (H db).
  match type of H with
  | records_kept db (final ?r) => destruct r as [[u|e] db' lg]
  end; cbn [outcome final] in *; [exact H | apply records_kept_refl].
Qed.

End RecordsFacts.

(** X19. The scheduler always comes back and touches only what is due.
    [process_phase_transitions] returns whatever happens inside its loop:
    an exception while one tournament is handled is logged and the loop
    goes on.  It neither adds nor removes a tournament, and on a session
    whose tournament ids are unique it leaves every tournament that is not
    in a commit or reveal phase with a deadline before [now] exactly as it
    was. *)
Theorem tick_returns_and_touches_only_due :
  forall (config : Config) (chain : Chain) (now : Z) (clock : Z -> nat -> Z) (db : DB),
    let r := Main.process_phase_transitions config chain now clock db in
    outcome r = Returned tt
    /\ map Tournament.id (tournaments (final r)) = map Tournament.id (tournaments db)
    /\ (unique_ids db ->
        forall tid t, find_tournament tid db = Some t -> Main.due now t = false ->
                      find_tournament tid (final r) = Some t).
Proof.
  intros config chain now clock db r. subst r. split; [|split].
  - rewrite tick_run. apply iterations_return.
  - apply tick_keeps_ids.
  - intros Hnd tid t Ht Hdue. now apply tick_keeps_not_due.
Qed.

(** X20. The scheduler keeps the records.  Neither the tick nor a whole
    round of the manager adds or removes a commitment or an entry, or
    changes a commitment's round, address, hash, revealed bid, salt or
    revealed flag, or an entry's tournament, agent or addresses; a
    commitment that is eliminated stays eliminated and an entry that is not
    alive stays so. *)
Theorem scheduler_keeps_records :
  forall (config : Config) (chain : Chain) (t_open : Z -> Z) (now : Z)
         (clock : Z -> nat -> Z)
         (t_cancel : Z) (db : DB),
    records_kept db (final (Main.process_phase_transitions config chain now clock db))
    /\ records_kept db (final (Main.tournament_manager config chain t_open now clock
                                                       t_cancel db)).
Proof.
  intros. split.
  - apply process_phase_transitions_records.
  - apply tournament_manager_records.
Qed.

(** ** Resolving a round *)

Lemma bind_final_after {A B} (R : DB -> DB -> Prop) (m : M A) (k : A -> M B) (db : DB) :
  (forall db, R db db) ->
  (forall a, preserves R (k a)) ->
  R (final (m db)) (final (bind m k db)).
Proof.
  intros Rr Hk. rewrite final_bind.
  destruct (outcome (m db)); [apply Hk | apply Rr].
Qed.

(** Every unrevealed commit the first loop of [resolve_round] visits is
    flagged in the session the loop leaves. *)
Lemma collect_marks (commits : list RoundCommit.t) :
  forall acc db,
    let db' := final (for_fold commits acc
      (fun '(revealed_bids, revealed_salts, non_revealers) c =>
         match RoundCommit.revealed c, RoundCommit.bid c, RoundCommit.salt c with
         | true, Some bid, Some salt =>
             ret (Dict.set revealed_bids (RoundCommit.agent_address c) bid,
                  (revealed_salts ++ [salt])%list,
                  non_revealers)
         | _, _, _ =>
             bind (assign_commit (RoundCommit.id c) (RoundCommit.with_eliminated true))
                  (fun _ => ret (revealed_bids, revealed_salts,
                                 (non_revealers ++ [RoundCommit.agent_address c])%list))
         end) db) in
    records_kept db db'
    /\ forall c row, In c commits -> has_reveal c = false ->
                     In row (round_commits db') ->
                     RoundCommit.id row = RoundCommit.id c ->
                     RoundCommit.eliminated row = true.
Proof.
  induction commits as [|c tl IH]; intros [[rb rs] nr] db; cbv zeta.
  - split; [apply records_kept_refl | intros c row []].
  - cbn [for_fold]. rewrite final_bind.
    set (step := match RoundCommit.revealed c, RoundCommit.bid c, RoundCommit.salt c with
                 | true, Some bid, Some salt => _
                 | _, _, _ => _
                 end).
    assert (Hstep : exists acc',
               step db = mkRun (Returned acc')
                               (if has_reveal c then db
                                else with_round_commits
                                       (update_where (fun c' => RoundCommit.id c' =? RoundCommit.id c)
                                                     (RoundCommit.with_eliminated true)
                                                     (round_commits db)) db) []).
    { subst step. unfold has_reveal.
      destruct (RoundCommit.revealed c), (RoundCommit.bid c), (RoundCommit.salt c);
        cbn; eexists; try reflexivity; now destruct db. }
    destruct Hstep as [acc' Hstep]. rewrite Hstep. cbn [outcome final].
    set (db1 := if has_reveal c then db else _).
    destruct (IH acc' db1) as [Hkept Hmarks]. cbv zeta in Hkept, Hmarks.
    assert (Hk1 : records_kept db db1).
    { subst db1. destruct (has_reveal c); [apply records_kept_refl|].
      split; cbn.
      - apply forall2_update_where; [apply commit_kept_refl|].
        intros x. unfold commit_kept. cbn. tauto.
      - apply forall2_refl, entry_kept_refl. }
    split; [eapply records_kept_trans; eassumption|].
    intros c0 row [<-|Hin] Hrev Hrow Hid; [|eapply Hmarks; eassumption].
    destruct Hkept as [Hc _].
    destruct (forall2_in_right _ _ _ _ Hc Hrow) as [row1 [Hrow1 Hk]].
    unfold commit_kept in Hk. destruct Hk as [Hid1 Hk].
    apply Hk. clear Hk. subst db1. rewrite Hrev in Hrow1. cbn in Hrow1.
    unfold update_where in Hrow1. apply in_map_iff in Hrow1.
    destruct Hrow1 as [row0 [Hrow0 _]].
    assert (E : (RoundCommit.id row0 =? RoundCommit.id c) = true).
    { apply Z.eqb_eq.
      assert (RoundCommit.id row1 = RoundCommit.id row0)
        by (rewrite <- Hrow0; destruct (RoundCommit.id row0 =? RoundCommit.id c); reflexivity).
      congruence. }
    rewrite E in Hrow0. now rewrite <- Hrow0.
Qed.

Lemma commit_kept_has_reveal (c c' : RoundCommit.t) :
  commit_kept c c' -> has_reveal c' = has_reveal c.
Proof.
  unfold commit_kept, has_reveal. intros [_ [_ [_ [_ [Hb [Hs [Hr _]]]]]]].
  now rewrite Hb, Hs, Hr.
Qed.

(** X21. Whoever did not reveal is eliminated.  In the session
    [resolve_round] leaves, whether it returned or raised and whatever the
    outcome of the round, every commitment of the round that is not a
    reveal (not revealed, or without bid or salt) is flagged eliminated. *)
Theorem resolve_round_flags_non_revealers :
  forall (now : Z) (round_obj : Round.t) (db : DB) (row : RoundCommit.t),
    In row (round_commits (final (GameEngine.resolve_round now round_obj db))) ->
    RoundCommit.round_id row = Round.id round_obj ->
    has_reveal row = false ->
    RoundCommit.eliminated row = true.
Proof.
  intros now round_obj db row.
  unfold GameEngine.resolve_round. cbv zeta.
  erewrite bind_quiet by reflexivity.
  unfold select_commits. erewrite bind_quiet by reflexivity.
  fold (commits_of_round (Round.id round_obj) db).
  unfold GameEngine.collect_reveals.
  match goal with
  | |- In row (round_commits (final (bind ?m ?k db))) -> _ =>
      pose proof (bind_final_after records_kept m k db records_kept_refl) as Hafter;
      destruct (collect_marks (commits_of_round (Round.id round_obj) db) ([], [], []) db)
        as [Hkept Hmarks];
      cbv zeta in Hkept, Hmarks;
      set (db1 := final (m db)) in *;
      set (db2 := final (bind m k db)) in *
  end.
  assert (Hk2 : records_kept db1 db2).
  { apply Hafter. intros [[revealed_bids revealed_salts] non_revealers].
    records_auto. }
  clear Hafter. intros Hrow Hround Hrev.
  destruct Hk2 as [Hc2 _]. destruct Hkept as [Hc1 _].
  destruct (forall2_in_right _ _ _ _ Hc2 Hrow) as [row1 [Hrow1 Hk1]].
  destruct (forall2_in_right _ _ _ _ Hc1 Hrow1) as [row0 [Hrow0 Hk0]].
  pose proof (commit_kept_has_reveal _ _ Hk1) as Hr1.
  pose proof (commit_kept_has_reveal _ _ Hk0) as Hr0.
  assert (Helim : RoundCommit.eliminated row1 = true).
  { apply (Hmarks row0 row1).
    - apply filter_In. split; [exact Hrow0|]. apply Z.eqb_eq.
      unfold commit_kept in Hk0, Hk1. intuition congruence.
    - congruence.
    - exact Hrow1.
    - unfold commit_kept in Hk0. tauto. }
  unfold commit_kept in Hk1. tauto.
Qed.

Lemma resolve_round_flags_non_revealers_witness :
  RoundCommit.eliminated
    (RoundCommit.with_eliminated true (unrevealed_commit 4 1 "0xa4" hash_1)) = true.
Proof.
  apply (resolve_round_flags_non_revealers
           2000 round_1 busy_db
           (RoundCommit.with_eliminated true (unrevealed_commit 4 1 "0xa4" hash_1))).
  - vm_compute. tauto.
  - reflexivity.
  - reflexivity.
Defined.

Lemma collect_reveals_run (commits : list RoundCommit.t) :
  forall revealed_bids0 revealed_salts0 non_revealers0 db,
    for_fold commits (revealed_bids0, revealed_salts0, non_revealers0)
      (fun '(revealed_bids, revealed_salts, non_revealers) c =>
         match RoundCommit.revealed c, RoundCommit.bid c, RoundCommit.salt c with
         | true, Some bid, Some salt =>
             ret (Dict.set revealed_bids (RoundCommit.agent_address c) bid,
                  (revealed_salts ++ [salt])%list,
                  non_revealers)
         | _, _, _ =>
             bind (assign_commit (RoundCommit.id c) (RoundCommit.with_eliminated true))
                  (fun _ => ret (revealed_bids, revealed_salts,
                                 (non_revealers ++ [RoundCommit.agent_address c])%list))
         end) db
    = mkRun (Returned
               (fold_left (fun bids c =>
                             match RoundCommit.bid c with
                             | Some bid => Dict.set bids (RoundCommit.agent_address c) bid
                             | None => bids
                             end)
                          (reveals commits) revealed_bids0,
                (revealed_salts0 ++ revealed_salts commits)%list,
                (non_revealers0 ++ non_revealers commits)%list))
            (with_round_commits
               (mark_eliminated (filter (fun c => negb (has_reveal c)) commits)
                                (round_commits db)) db)
            [].
Proof.
  induction commits as [|c tl IH]; intros rb rs nr db.
  - cbn. rewrite !app_nil_r. now destruct db.
  - cbn [for_fold].
    destruct (has_reveal c) eqn:Hc.
    + assert (Hshape : exists bid salt,
                 RoundCommit.revealed c = true /\ RoundCommit.bid c = Some bid
                 /\ RoundCommit.salt c = Some salt).
      { unfold has_reveal in Hc.
        destruct (RoundCommit.revealed c), (RoundCommit.bid c) as [bid|],
          (RoundCommit.salt c) as [salt|]; try discriminate Hc.
        now exists bid, salt. }
      destruct Hshape as [bid [salt [Hr [Hb Hs]]]]. rewrite Hr, Hb, Hs.
      erewrite bind_quiet by reflexivity. rewrite IH.
      unfold reveals, revealed_salts, non_revealers, reveals. cbn [filter].
      rewrite Hc. cbn [negb fold_left flat_map]. rewrite Hb, Hs.
      rewrite <- app_assoc. reflexivity.
    + erewrite bind_quiet.
      2:{ unfold has_reveal in Hc.
          destruct (RoundCommit.revealed c), (RoundCommit.bid c), (RoundCommit.salt c);
            try discriminate Hc; reflexivity. }
      rewrite IH.
      unfold reveals, revealed_salts, non_revealers, reveals, mark_eliminated.
      cbn [filter]. rewrite Hc. cbn [negb map fold_left round_commits with_round_commits].
      rewrite <- app_assoc. reflexivity.
Qed.

Lemma steady_refl (db : DB) : steady db db.
Proof. now repeat split. Qed.

Lemma steady_trans (a b c : DB) : steady a b -> steady b c -> steady a c.
Proof. unfold steady. intuition congruence. Qed.

Lemma steady_find (tid : Z) (db db' : DB) :
  steady db db' -> find_tournament tid db' = find_tournament tid db.
Proof. intros [H _]. unfold find_tournament. now rewrite H. Qed.

Lemma filter_by_key {A K} (key : A -> K) (q : K -> bool) (l l' : list A) :
  map key l' = map key l ->
  List.length (filter (fun x => q (key x)) l') = List.length (filter (fun x => q (key x)) l).
Proof.
  revert l'. induction l as [|x tl IH]; intros [|y tl'] H; try discriminate; [reflexivity|].
  cbn [map] in H. injection H as Hk Ht. cbn [filter]. rewrite Hk.
  destruct (q (key x)); cbn [List.length]; now rewrite (IH tl' Ht).
Qed.

Lemma steady_entries_of (tid : Z) (addr : string) (db db' : DB) :
  steady db db' ->
  List.length (entries_of tid addr db') = List.length (entries_of tid addr db).
Proof.
  intros [_ H]. unfold entries_of.
  exact (filter_by_key entrant (fun k => (fst k =? tid) && String.eqb (snd k) addr)
                       _ _ H).
Qed.

Lemma steady_assign_commit (cid : Z) (f : RoundCommit.t -> RoundCommit.t) :
  preserves steady (assign_commit cid f).
Proof. intros db. now repeat split. Qed.

Lemma steady_assign_entry (eid : Z) (f : TournamentEntry.t -> TournamentEntry.t) :
  (forall e, entrant (f e) = entrant e) -> preserves steady (assign_entry eid f).
Proof.
  intros Hf db. repeat split. cbn. now apply update_where_ids.
Qed.

Lemma for_each_inv {A} (I : DB -> Prop) (R : DB -> DB -> Prop) (xs : list A)
      (body : A -> M unit) :
  (forall db, R db db) ->
  (forall a b c, R a b -> R b c -> R a c) ->
  (forall x db, I db ->
                outcome (body x db) = Returned tt
                /\ R db (final (body x db)) /\ I (final (body x db))) ->
  forall db, I db ->
             outcome (for_each xs body db) = Returned tt
             /\ R db (final (for_each xs body db))
             /\ I (final (for_each xs body db)).
Proof.
  intros Rr Rt Hb. induction xs as [|x tl IH]; intros db HI.
  - cbn. auto.
  - cbn [for_each]. rewrite outcome_bind, final_bind.
    destruct (Hb x db HI) as [Ho [Hr Hi]]. rewrite Ho.
    destruct (IH _ Hi) as [Ho' [Hr' Hi']].
    split; [exact Ho'|]. split; [eapply Rt; eassumption | exact Hi'].
Qed.

Lemma entry_of_run (tid : Z) (addr : string) (db : DB) :
  GameEngine.entry_of tid addr db = scalar_one_or_none (entries_of tid addr db) db.
Proof.
  unfold GameEngine.entry_of, select_entries.
  erewrite bind_quiet by reflexivity. reflexivity.
Qed.

(** The loop of [resolve_round] over the eliminated addresses, when no
    address has two entries in the tournament. *)
Lemma entries_loop_run (tid : Z) (addrs : list string) (db : DB) :
  (forall addr, (List.length (entries_of tid addr db) <= 1)%nat) ->
  outcome (for_each addrs (fun addr =>
             entry <- GameEngine.entry_of tid addr ;;
             match entry with
             | Some e => assign_entry (TournamentEntry.id e)
                                      (TournamentEntry.with_is_alive false)
             | None => ret tt
             end) db) = Returned tt
  /\ steady db (final (for_each addrs (fun addr =>
             entry <- GameEngine.entry_of tid addr ;;
             match entry with
             | Some e => assign_entry (TournamentEntry.id e)
                                      (TournamentEntry.with_is_alive false)
             | None => ret tt
             end) db)).
Proof.
  intros Hone.
  set (body := fun addr : string => _).
  assert (Hbody : forall addr d,
             (forall addr', (List.length (entries_of tid addr' d) <= 1)%nat) ->
             outcome (body addr d) = Returned tt
             /\ steady d (final (body addr d))
             /\ (forall addr', (List.length (entries_of tid addr' (final (body addr d))) <= 1)%nat)).
  { intros addr d Hd.
    assert (H : outcome (body addr d) = Returned tt /\ steady d (final (body addr d))).
    { subst body. cbv beta.
      rewrite (bind_scalar _ _ _ _ (entry_of_run tid addr d)).
      specialize (Hd addr).
      destruct (entries_of tid addr d) as [|e [|e' es]]; [| |cbn in Hd; lia].
      - split; [reflexivity | apply steady_refl].
      - split; [reflexivity|].
        exact (steady_assign_entry (TournamentEntry.id e) (TournamentEntry.with_is_alive false)
                                   (fun _ => eq_refl) d). }
    destruct H as [Ho Hs]. split; [exact Ho|]. split; [exact Hs|].
    intros addr'. rewrite (steady_entries_of tid addr' _ _ Hs). apply Hd. }
  destruct (for_each_inv
              (fun d => forall addr, (List.length (entries_of tid addr d) <= 1)%nat)
              steady addrs body steady_refl steady_trans Hbody db Hone) as [Ho [Hs _]].
  now split.
Qed.

Lemma commits_loop_run (commits : list RoundCommit.t)
      (body : RoundCommit.t -> M unit) (db : DB) :
  (forall c d, outcome (body c d) = Returned tt /\ steady d (final (body c d))) ->
  outcome (for_each commits body db) = Returned tt
  /\ steady db (final (for_each commits body db)).
Proof.
  intros Hbody.
  destruct (for_each_inv (fun _ => True) steady commits body steady_refl steady_trans
                         (fun c d _ => conj (proj1 (Hbody c d))
                                            (conj (proj2 (Hbody c d)) I)) db I)
    as [Ho [Hs _]].
  now split.
Qed.

Lemma steady_assign_round (rid : Z) (f : Round.t -> Round.t) :
  preserves steady (assign_round rid f).
Proof. intros db. now repeat split. Qed.

Lemma nodup_entrant_one (tid : Z) (addr : string) (db : DB) :
  NoDup (map entrant (tournament_entries db)) ->
  (List.length (entries_of tid addr db) <= 1)%nat.
Proof.
  unfold entries_of. induction (tournament_entries db) as [|e tl IH]; intros Hnd.
  - cbn. lia.
  - cbn [map] in Hnd. inversion Hnd as [|? ? Hnotin Hnd']; subst.
    cbn [filter].
    destruct ((TournamentEntry.tournament_id e =? tid)
              && String.eqb (TournamentEntry.agent_address e) addr) eqn:He;
      [|now apply IH].
    replace (filter _ tl) with (@nil TournamentEntry.t); [cbn; lia|].
    symmetry. apply andb_true_iff in He. destruct He as [H1 H2].
    apply Z.eqb_eq in H1. apply String.eqb_eq in H2.
    clear IH Hnd' Hnd. induction tl as [|x tl IH]; [reflexivity|].
    cbn [filter].
    destruct ((TournamentEntry.tournament_id x =? tid)
              && String.eqb (TournamentEntry.agent_address x) addr) eqn:Hx.
    + exfalso. apply Hnotin. left. unfold entrant.
      apply andb_true_iff in Hx. destruct Hx as [H3 H4].
      apply Z.eqb_eq in H3. apply String.eqb_eq in H4. congruence.
    + apply IH. intros Hin. apply Hnotin. now right.
Qed.

(** X22. The answer of [resolve_round].  When the tournament of the round
    exists, somebody revealed, the revealed salts are hexadecimal and no
    address has two entries in the tournament, [resolve_round] returns.
    The secret of its answer is [compute_secret] of the revealed salts.
    With five or fewer revealed addresses the answer is "final", with the
    ranking of the revealed bids by distance to the secret; with more it
    is "elimination", with the survivors and the eliminated that
    [eliminate] gives for these distances, the eliminated followed by those
    who did not reveal: a round with more than five reveals never ends the
    tournament, however few survive. *)
Theorem resolve_round_result :
  forall (now : Z) (round_obj : Round.t) (db : DB) (t : Tournament.t) (secret : Z),
    let tid := Round.tournament_id round_obj in
    let commits := commits_of_round (Round.id round_obj) db in
    let bids := revealed_bids commits in
    let absent := non_revealers commits in
    let distances := GameEngine.compute_distances bids secret (Tournament.variant t) in
    find_tournament tid db = Some t ->
    revealed_salts commits <> [] ->
    GameEngine.compute_secret (revealed_salts commits) = Some secret ->
    (forall addr, (List.length (entries_of tid addr db) <= 1)%nat) ->
    outcome (GameEngine.resolve_round now round_obj db)
    = Returned
        (if Dict.len bids <=? 5
         then GameEngine.Final secret
                (GameEngine.determine_final_ranking distances (Tournament.variant t)) absent
         else GameEngine.Elimination secret
                (fst (GameEngine.eliminate distances (Tournament.variant t)))
                (snd (GameEngine.eliminate distances (Tournament.variant t)) ++ absent)%list
                absent).
Proof.
  intros now round_obj db t secret tid commits bids absent distances
         Ht Hsome Hsecret Hone.
  unfold GameEngine.resolve_round. cbv zeta. fold tid.
  erewrite bind_quiet by reflexivity.
  unfold select_commits. erewrite bind_quiet by reflexivity.
  fold (commits_of_round (Round.id round_obj) db). fold commits.
  unfold GameEngine.collect_reveals.
  erewrite bind_quiet by apply collect_reveals_run.
  cbn [app]. fold (revealed_bids commits). fold bids. fold absent.
  revert Hsome Hsecret.
  destruct (revealed_salts commits) as [|salt salts] eqn:Hsalts; [contradiction|].
  intros _ Hsecret. rewrite Hsecret.
  erewrite bind_quiet by reflexivity.
  erewrite bind_quiet by reflexivity.
  rewrite Ht. erewrite bind_quiet by reflexivity.
  set (d1 := with_rounds _ _).
  assert (H1 : steady db d1) by (subst d1; now split).
  erewrite bind_quiet
    by (rewrite tournament_attr_run, (steady_find tid db d1 H1), Ht; reflexivity).
  fold distances.
  rewrite outcome_bind.
  match goal with
  | |- context [for_each commits ?body d1] =>
      destruct (commits_loop_run commits body d1) as [Ho2 H2];
        [intros c d; destruct (Dict.get distances (RoundCommit.agent_address c));
         (split; [reflexivity | first [exact (steady_assign_commit _ _ d) | exact (steady_refl d)]])
        |];
        rewrite Ho2; set (d2 := final (for_each commits body d1)) in *
  end.
  assert (H02 : steady db d2) by exact (steady_trans _ _ _ H1 H2).
  destruct (Dict.len bids <=? 5).
  - erewrite bind_quiet
      by (rewrite tournament_attr_run, (steady_find tid db d2 H02), Ht; reflexivity).
    erewrite bind_quiet by reflexivity.
    erewrite bind_quiet by reflexivity.
    reflexivity.
  - erewrite bind_quiet
      by (rewrite tournament_attr_run, (steady_find tid db d2 H02), Ht; reflexivity).
    destruct (GameEngine.eliminate distances (Tournament.variant t))
      as [survivors eliminated].
    cbn [fst snd]. rewrite outcome_bind.
    match goal with
    | |- context [for_each commits ?body d2] =>
        destruct (commits_loop_run commits body d2) as [Ho3 H3];
          [intros c d; destruct (str_in (RoundCommit.agent_address c) eliminated);
           (split; [reflexivity | first [exact (steady_assign_commit _ _ d) | exact (steady_refl d)]])
          |];
          rewrite Ho3; set (d3 := final (for_each commits body d2)) in *
    end.
    assert (H03 : steady db d3) by exact (steady_trans _ _ _ H02 H3).
    rewrite outcome_bind.
    destruct (entries_loop_run tid (eliminated ++ absent)%list d3) as [Ho4 H4].
    { intros addr. rewrite (steady_entries_of tid addr db d3 H03). apply Hone. }
    rewrite Ho4.
    erewrite bind_quiet by reflexivity.
    erewrite bind_quiet by reflexivity.
    erewrite bind_quiet by reflexivity.
    reflexivity.
Qed.

Lemma resolve_round_result_witness :
  outcome (GameEngine.resolve_round 2000 round_1 busy_db)
  = Returned
      (if Dict.len (revealed_bids (commits_of_round 1 busy_db)) <=? 5
       then GameEngine.Final 747
              (GameEngine.determine_final_ranking
                 (GameEngine.compute_distances
                    (revealed_bids (commits_of_round 1 busy_db)) 747 CLASSIC) CLASSIC)
              (non_revealers (commits_of_round 1 busy_db))
       else GameEngine.Elimination 747
              (fst (GameEngine.eliminate
                      (GameEngine.compute_distances
                         (revealed_bids (commits_of_round 1 busy_db)) 747 CLASSIC) CLASSIC))
              (snd (GameEngine.eliminate
                      (GameEngine.compute_distances
                         (revealed_bids (commits_of_round 1 busy_db)) 747 CLASSIC) CLASSIC)
               ++ non_revealers (commits_of_round 1 busy_db))%list
              (non_revealers (commits_of_round 1 busy_db))).
Proof.
  apply (resolve_round_result 2000 round_1 busy_db
           (sample_tournament 1 REVEAL 1 (Some 1000)) 747).
  - reflexivity.
  - vm_compute. discriminate.
  - vm_compute. reflexivity.
  - intros addr. apply nodup_entrant_one.
    vm_compute. repeat constructor; cbn; intuition discriminate.
Defined.

(** The round of the witness: six reveals, so three survive and the two
    who were silent are eliminated with the other three. *)
Example resolve_round_of_busy_db :
  outcome (GameEngine.resolve_round 2000 round_1 busy_db)
  = Returned (GameEngine.Elimination 747 ["0xa5"; "0xa2"; "0xa7"]
                                     ["0xa3"; "0xa6"; "0xa1"; "0xa4"; "0xa8"]
                                     ["0xa4"; "0xa8"]).
Proof. vm_compute. reflexivity. Qed.

(** ** Joining a tournament *)

Lemma bind_attr {A B} (tid : Z) (attr : Tournament.t -> A) (k : A -> M B) (db : DB)
      (t : Tournament.t) :
  find_tournament tid db = Some t ->
  bind (tournament_attr tid attr) k db = k (attr t) db.
Proof.
  intros Ht. apply bind_quiet. rewrite tournament_attr_run, Ht. reflexivity.
Qed.

Lemma start_tournament_run (config : Config) (started now tid : Z) (db : DB) :
  GameEngine.start_tournament config started now tid db
  = match find_tournament tid db with
    | Some t =>
        mkRun (Returned (first_round config now tid (Tournament.player_count t) db))
              (mkDB (agents db)
                    (update_where (fun t => Tournament.id t =? tid)
                                  (started_row config started now) (tournaments db))
                    (tournament_entries db)
                    (rounds db ++ [first_round config now tid (Tournament.player_count t) db])
                    (round_commits db))
              []
    | None => mkRun (Raised AttributeError) db []
    end.
Proof.
  unfold GameEngine.start_tournament.
  erewrite bind_quiet by reflexivity.
  destruct (find_tournament tid db) as [t|] eqn:Ht; [|reflexivity].
  erewrite bind_quiet by reflexivity. cbv zeta.
  erewrite bind_quiet by reflexivity.
  erewrite bind_quiet by reflexivity.
  erewrite bind_quiet by reflexivity.
  erewrite bind_attr.
  2:{ unfold find_tournament in *. cbn [tournaments with_tournaments].
      rewrite !find_update_where by reflexivity. rewrite Ht. reflexivity. }
  erewrite bind_quiet by reflexivity.
  erewrite bind_quiet by reflexivity.
  erewrite bind_quiet by reflexivity.
  unfold ret, first_round, started_row, with_tournaments, with_rounds.
  cbn [agents tournaments tournament_entries rounds round_commits Round.reveal_deadline].
  rewrite !update_where_fuse by reflexivity. reflexivity.
Qed.

Lemma existsb_filter {A} (p : A -> bool) (l : list A) :
  existsb p l = match filter p l with [] => false | _ => true end.
Proof.
  induction l as [|x tl IH]; [reflexivity|].
  cbn. destruct (p x); [reflexivity | exact IH].
Qed.

Lemma entered_entries_of (tid : Z) (addr : string) (db : DB) :
  entered tid addr (tournament_entries db)
  = match entries_of tid addr db with [] => false | _ => true end.
Proof. apply existsb_filter. Qed.

Lemma with_round_commits_twice (v v' : list RoundCommit.t) (db : DB) :
  with_round_commits v (with_round_commits v' db) = with_round_commits v db.
Proof. reflexivity. Qed.

(** The loop of [join_tournament] over the pending commits. *)
Lemma move_loop_run (tid rid : Z) (cs : list RoundCommit.t) :
  forall db,
    (forall addr, (List.length (entries_of tid addr db) <= 1)%nat) ->
    for_each cs (fun c =>
      check <- GameEngine.entry_of tid (RoundCommit.agent_address c) ;;
      when (is_some check)
           (assign_commit (RoundCommit.id c) (RoundCommit.with_round_id rid))) db
    = mkRun (Returned tt)
            (with_round_commits
               (update_where
                  (fun x => existsb (fun c => (RoundCommit.id x =? RoundCommit.id c)
                                              && entered tid (RoundCommit.agent_address c)
                                                         (tournament_entries db)) cs)
                  (RoundCommit.with_round_id rid) (round_commits db)) db)
            [].
Proof.
  induction cs as [|c tl IH]; intros db Hone.
  - cbn. unfold ret, with_round_commits, update_where. rewrite map_id. now destruct db.
  - cbn [for_each].
    set (body := fun c : RoundCommit.t => _).
    assert (Hbody : body c db
                    = mkRun (Returned tt)
                            (if entered tid (RoundCommit.agent_address c) (tournament_entries db)
                             then with_round_commits
                                    (update_where (fun x => RoundCommit.id x =? RoundCommit.id c)
                                                  (RoundCommit.with_round_id rid)
                                                  (round_commits db)) db
                             else db) []).
    { subst body. cbv beta.
      rewrite (bind_scalar _ _ _ _ (entry_of_run tid (RoundCommit.agent_address c) db)).
      rewrite entered_entries_of.
      specialize (Hone (RoundCommit.agent_address c)).
      destruct (entries_of tid (RoundCommit.agent_address c) db) as [|e [|e' es]];
        [reflexivity | reflexivity | cbn in Hone; lia]. }
    rewrite (bind_quiet _ _ _ _ _ Hbody).
    set (db1 := if entered _ _ _ then _ else _).
    assert (He : tournament_entries db1 = tournament_entries db)
      by (subst db1; now destruct (entered _ _ _)).
    rewrite IH by (intros addr; unfold entries_of; rewrite He; apply Hone).
    rewrite He. f_equal.
    assert (Hc : round_commits db1
                 = update_where
                     (fun x => (RoundCommit.id x =? RoundCommit.id c)
                               && entered tid (RoundCommit.agent_address c)
                                          (tournament_entries db))
                     (RoundCommit.with_round_id rid) (round_commits db)).
    { subst db1. destruct (entered _ _ _); cbn.
      - unfold update_where. apply map_ext. intros x. now rewrite andb_true_r.
      - unfold update_where. rewrite <- (map_id (round_commits db)) at 1.
        apply map_ext. intros x. now rewrite andb_false_r. }
    rewrite Hc.
    replace (with_round_commits _ db1) with
      (with_round_commits
         (update_where
            (fun x => existsb (fun c0 => (RoundCommit.id x =? RoundCommit.id c0)
                                         && entered tid (RoundCommit.agent_address c0)
                                                    (tournament_entries db)) tl)
            (RoundCommit.with_round_id rid)
            (update_where
               (fun x => (RoundCommit.id x =? RoundCommit.id c)
                         && entered tid (RoundCommit.agent_address c) (tournament_entries db))
               (RoundCommit.with_round_id rid) (round_commits db))) db)
      by (subst db1; now destruct (entered _ _ _)).
    f_equal. unfold update_where. rewrite map_map. apply map_ext. intros x.
    cbn [existsb].
    destruct ((RoundCommit.id x =? RoundCommit.id c)
              && entered tid (RoundCommit.agent_address c) (tournament_entries db));
      cbn [orb]; [|reflexivity].
    cbn [RoundCommit.id RoundCommit.with_round_id].
    now destruct (existsb _ tl).
Qed.

Lemma nodup_key_inj {A} (key : A -> Z) (l : list A) (x y : A) :
  NoDup (map key l) -> In x l -> In y l -> key x = key y -> x = y.
Proof.
  induction l as [|a tl IH]; intros Hnd Hx Hy Hk; [contradiction|].
  cbn [map] in Hnd. inversion Hnd as [|? ? Hnotin Hnd']; subst.
  destruct Hx as [<-|Hx], Hy as [<-|Hy]; [reflexivity | | |now apply IH].
  - exfalso. apply Hnotin. rewrite Hk. now apply in_map.
  - exfalso. apply Hnotin. rewrite <- Hk. now apply in_map.
Qed.

(** With unique keys, the rows a loop over a selection updates by key are
    the selected rows. *)
Lemma existsb_selected (p q : RoundCommit.t -> bool) (l : list RoundCommit.t)
      (x : RoundCommit.t) :
  NoDup (map RoundCommit.id l) -> In x l ->
  existsb (fun c => (RoundCommit.id x =? RoundCommit.id c) && q c) (filter p l)
  = p x && q x.
Proof.
  intros Hnd Hx. apply eq_true_iff_eq. rewrite existsb_exists, andb_true_iff. split.
  - intros [c [Hc Hq]]. apply filter_In in Hc. destruct Hc as [Hc Hp].
    apply andb_true_iff in Hq. destruct Hq as [Hid Hq]. apply Z.eqb_eq in Hid.
    assert (x = c) by (eapply nodup_key_inj; eassumption). subst c. now split.
  - intros [Hp Hq]. exists x. split; [apply filter_In; now split|].
    now rewrite Z.eqb_refl, Hq.
Qed.

Section JoinFacts.
Variable config : Config.
Variable chain : Chain.

(** What [join_tournament] does once its checks have passed. *)
Lemma join_run (clock : nat -> Z) (tid : Z) (req : Main.CommitRequest) (agent : Agent.t)
      (db : DB) (t : Tournament.t) :
  let entries := (tournament_entries db ++ [new_entry clock tid agent db])%list in
  let commits := (round_commits db ++ [entry_commit clock req agent db])%list in
  let players := Tournament.player_count t + 1 in
  Main.CommitRequest_valid req = true ->
  find_tournament tid db = Some t ->
  Tournament.state t = OPEN ->
  Tournament.player_count t < MAX_PLAYERS config ->
  joined_by tid agent db = [] ->
  paid chain t agent = true ->
  (MAX_PLAYERS config <= players ->
   forall addr, (List.length (entries_of tid addr (with_tournament_entries entries db)) <= 1)%nat) ->
  Main.join_tournament config chain clock tid req agent db
  = if MAX_PLAYERS config <=? players
    then mkRun (Returned (players, true))
               (mkDB (played_once_more agent (agents db))
                     (update_where
                        (fun t => Tournament.id t =? tid)
                        (fun t => started_row config (clock 2%nat) (clock 3%nat)
                                    (Tournament.with_player_count
                                       (Tournament.player_count t + 1) t))
                        (tournaments db))
                     entries
                     (rounds db ++ [first_round config (clock 3%nat) tid players db])
                     (update_where
                        (fun x => existsb
                                    (fun c => (RoundCommit.id x =? RoundCommit.id c)
                                              && entered tid (RoundCommit.agent_address c)
                                                         entries)
                                    (filter (fun c => RoundCommit.round_id c =? 0) commits))
                        (RoundCommit.with_round_id (next_id Round.id (rounds db)))
                        commits))
               []
    else mkRun (Returned (players, false)) (joined_db clock tid req agent db) [].
Proof.
  intros entries commits players Hvalid Ht Hopen Hroom Hnew Hpaid Hone.
  unfold Main.join_tournament.
  rewrite Hvalid. cbn [negb when].
  erewrite bind_quiet by reflexivity. erewrite bind_quiet by reflexivity.
  rewrite Ht. cbv zeta. rewrite Hopen. cbn [TournamentState_eqb negb when].
  erewrite bind_quiet by reflexivity.
  destruct (Z.leb_spec (MAX_PLAYERS config) (Tournament.player_count t)); [lia|].
  cbn [when]. erewrite bind_quiet by reflexivity.
  unfold select_entries. erewrite bind_quiet by reflexivity.
  fold (joined_by tid agent db). rewrite Hnew.
  erewrite bind_quiet by reflexivity. cbn [is_some when].
  erewrite bind_quiet by reflexivity.
  erewrite bind_quiet.
  2:{ unfold paid in Hpaid. destruct (Tournament.chain_id t) as [cid|]; [|reflexivity].
      destruct (verify_player_joined chain cid (Agent.wallet_address agent)) as [[|]|];
        first [reflexivity | discriminate]. }
  erewrite bind_quiet by reflexivity.
  erewrite bind_quiet by reflexivity.
  erewrite bind_quiet by reflexivity.
  set (db1 := mkDB (agents db)
                   (update_where
                      (fun t => Tournament.id t =? tid)
                      (fun t => Tournament.with_player_count
                                  (Tournament.player_count t + 1) t)
                      (tournaments db))
                   entries (rounds db) commits).
  match goal with |- ?k ?d = _ => change d with db1 end.
  assert (Ht1 : find_tournament tid db1
                = Some (Tournament.with_player_count (Tournament.player_count t + 1) t)).
  { unfold find_tournament in *. subst db1. cbn [tournaments].
    rewrite find_update_where by reflexivity. now rewrite Ht. }
  rewrite (bind_attr _ _ _ _ _ Ht1).
  cbn [Tournament.player_count Tournament.with_player_count]. fold players.
  destruct (Z.leb_spec (MAX_PLAYERS config) players) as [Hfull|Hnot].
  - rewrite (bind_returned _ _ _ true
               (mkDB (agents db)
                     (update_where
                        (fun t => Tournament.id t =? tid)
                        (fun t => started_row config (clock 2%nat) (clock 3%nat)
                                    (Tournament.with_player_count
                                       (Tournament.player_count t + 1) t))
                        (tournaments db))
                     entries
                     (rounds db ++ [first_round config (clock 3%nat) tid players db])
                     (update_where
                        (fun x => existsb
                                    (fun c => (RoundCommit.id x =? RoundCommit.id c)
                                              && entered tid (RoundCommit.agent_address c)
                                                         entries)
                                    (filter (fun c => RoundCommit.round_id c =? 0) commits))
                        (RoundCommit.with_round_id (next_id Round.id (rounds db)))
                        commits)) []).
    + erewrite bind_quiet by reflexivity.
      erewrite bind_attr.
      2:{ unfold find_tournament in *. unfold with_agents. cbn [tournaments].
          rewrite find_update_where by reflexivity. rewrite Ht. reflexivity. }
      reflexivity.
    + pose proof (start_tournament_run config (clock 2%nat) (clock 3%nat) tid db1)
        as Hstart.
      rewrite Ht1 in Hstart.
      rewrite (bind_quiet _ _ _ _ _ Hstart). clear Hstart.
      unfold select_commits. erewrite bind_quiet by reflexivity.
      cbn [round_commits Round.id first_round rounds
           Tournament.player_count Tournament.with_player_count].
      erewrite bind_quiet by (apply move_loop_run; exact (Hone Hfull)).
      unfold ret, with_round_commits, first_round.
      cbn [agents tournaments tournament_entries rounds round_commits
           Tournament.player_count Tournament.with_player_count].
      subst db1. cbn [agents tournaments tournament_entries rounds round_commits].
      rewrite update_where_fuse by reflexivity. reflexivity.
  - erewrite bind_quiet by reflexivity.
    erewrite bind_quiet by reflexivity.
    erewrite bind_attr.
    2:{ unfold find_tournament in *. unfold with_agents. cbn [tournaments].
        subst db1. cbn [tournaments].
        rewrite find_update_where by reflexivity. rewrite Ht. reflexivity. }
    reflexivity.
Qed.

Lemma joined_by_app (tid : Z) (agent : Agent.t) (db : DB) (e : TournamentEntry.t) :
  joined_by tid agent (with_tournament_entries (tournament_entries db ++ [e]) db)
  = (joined_by tid agent db
     ++ (if (TournamentEntry.tournament_id e =? tid)
            && (TournamentEntry.agent_id e =? Agent.id agent) then [e] else []))%list.
Proof.
  unfold joined_by. cbn [tournament_entries with_tournament_entries].
  rewrite filter_app. reflexivity.
Qed.

Lemma entries_of_app (tid : Z) (addr : string) (db : DB) (e : TournamentEntry.t) :
  entries_of tid addr (with_tournament_entries (tournament_entries db ++ [e]) db)
  = (entries_of tid addr db
     ++ (if (TournamentEntry.tournament_id e =? tid)
            && String.eqb (TournamentEntry.agent_address e) addr then [e] else []))%list.
Proof.
  unfold entries_of. cbn [tournament_entries with_tournament_entries].
  rewrite filter_app. reflexivity.
Qed.

Lemma nodup_next_id {A} (key : A -> Z) (rows : list A) (x : A) :
  key x = next_id key rows ->
  NoDup (map key rows) -> NoDup (map key (rows ++ [x])).
Proof.
  intros Hx Hnd. rewrite map_app. cbn [map].
  apply NoDup_app; [exact Hnd | repeat constructor; intros [] |].
  intros k Hin [<-|[]]. apply in_map_iff in Hin. destruct Hin as [y [Hy Hin]].
  pose proof (next_id_above key rows y Hin). lia.
Qed.
End JoinFacts.

(** X23. Joining an open tournament that stays open.  When the request is
    well formed, the tournament is OPEN with room for more than one further
    player, the agent has no entry in it and the on-chain check lets the
    agent in, [join_tournament] answers (player_count + 1, not started);
    it adds one entry for the agent, adds the commitment as a pending one
    (round 0), adds one to the tournament's player count and to the agent's
    tournaments played, and changes nothing else.  Any further well-formed
    join of the same agent to this tournament is answered 409 and changes
    nothing. *)
Theorem join_tournament_enters :
  forall (config : Config) (chain : Chain) (clock : nat -> Z) (tid : Z)
         (req : Main.CommitRequest) (agent : Agent.t) (db : DB) (t : Tournament.t),
    Main.CommitRequest_valid req = true ->
    find_tournament tid db = Some t ->
    Tournament.state t = OPEN ->
    Tournament.player_count t + 1 < MAX_PLAYERS config ->
    joined_by tid agent db = [] ->
    paid chain t agent = true ->
    outcome (Main.join_tournament config chain clock tid req agent db)
    = Returned (Tournament.player_count t + 1, false)
    /\ final (Main.join_tournament config chain clock tid req agent db)
       = joined_db clock tid req agent db
    /\ forall (clock' : nat -> Z) (req' : Main.CommitRequest),
         Main.CommitRequest_valid req' = true ->
         Main.join_tournament config chain clock' tid req' agent
                              (joined_db clock tid req agent db)
         = mkRun (Raised (HTTPException 409)) (joined_db clock tid req agent db) [].
Proof.
  intros config chain clock tid req agent db t Hvalid Ht Hopen Hroom Hnew Hpaid.
  assert (Hrun : Main.join_tournament config chain clock tid req agent db
                 = mkRun (Returned (Tournament.player_count t + 1, false))
                         (joined_db clock tid req agent db) []).
  { rewrite (join_run config chain clock tid req agent db t Hvalid Ht Hopen)
      by first [lia | assumption | intros; lia].
    destruct (Z.leb_spec (MAX_PLAYERS config) (Tournament.player_count t + 1));
      [lia | reflexivity]. }
  rewrite Hrun. cbn [outcome final].
  split; [reflexivity|]. split; [reflexivity|].
  - intros clock' req' Hvalid'.
    set (db' := joined_db clock tid req agent db).
    assert (Ht' : find_tournament tid db'
                  = Some (Tournament.with_player_count (Tournament.player_count t + 1) t)).
    { unfold find_tournament in *. subst db'. unfold joined_db. cbn [tournaments].
      rewrite find_update_where by reflexivity. now rewrite Ht. }
    unfold Main.join_tournament.
    rewrite Hvalid'. cbn [negb when].
    erewrite bind_quiet by reflexivity. erewrite bind_quiet by reflexivity.
    rewrite Ht'. cbv zeta.
    cbn [Tournament.state Tournament.with_player_count Tournament.player_count].
    rewrite Hopen. cbn [TournamentState_eqb negb when].
    erewrite bind_quiet by reflexivity.
    destruct (Z.leb_spec (MAX_PLAYERS config) (Tournament.player_count t + 1)); [lia|].
    cbn [when]. erewrite bind_quiet by reflexivity.
    unfold select_entries. erewrite bind_quiet by reflexivity.
    fold (joined_by tid agent db').
    replace (joined_by tid agent db') with [new_entry clock tid agent db].
    + reflexivity.
    + symmetry.
      change (joined_by tid agent db')
        with (joined_by tid agent
                (with_tournament_entries
                   (tournament_entries db ++ [new_entry clock tid agent db]) db)).
      rewrite joined_by_app, Hnew.
      cbn [new_entry TournamentEntry.tournament_id TournamentEntry.agent_id].
      now rewrite !Z.eqb_refl.
Qed.

Lemma join_tournament_enters_witness :
  outcome (Main.join_tournament default_config sample_chain join_clock 1 bob_request bob
                                (lobby_db 8))
  = Returned (8 + 1, false)
  /\ final (Main.join_tournament default_config sample_chain join_clock 1 bob_request bob
                                 (lobby_db 8))
     = joined_db join_clock 1 bob_request bob (lobby_db 8)
  /\ forall (clock' : nat -> Z) (req' : Main.CommitRequest),
       Main.CommitRequest_valid req' = true ->
       Main.join_tournament default_config sample_chain clock' 1 req' bob
                            (joined_db join_clock 1 bob_request bob (lobby_db 8))
       = mkRun (Raised (HTTPException 409))
               (joined_db join_clock 1 bob_request bob (lobby_db 8)) [].
Proof.
  apply (join_tournament_enters
           default_config sample_chain join_clock 1 bob_request bob (lobby_db 8)
           (Tournament.mk 1 None 0 OPEN CLASSIC 1000 8 0 None None 0 None None None None)).
  - vm_compute. reflexivity.
  - reflexivity.
  - reflexivity.
  - vm_compute. reflexivity.
  - reflexivity.
  - reflexivity.
Defined.

(** X24. The join that fills the tournament starts it.  When the request is
    well formed, the tournament is OPEN with one place left, the agent has
    no entry in it, the on-chain check lets the agent in, commitment ids
    are unique and no address has an entry in the tournament twice (the
    joiner's address none yet), [join_tournament] answers
    (MAX_PLAYERS, started).  Besides what every join
    does, the tournament goes straight to REVEAL with current round 1 and
    the reveal deadline as its phase deadline; a first round is added, with
    all players, that reveal deadline and no commit deadline; and every
    pending commitment (round 0) of an address that has an entry in this
    tournament, the joiner's included, is moved to that round, whichever
    tournament it was sent for, while every other commitment is left as
    it was. *)
Theorem join_fills_and_starts :
  forall (config : Config) (chain : Chain) (clock : nat -> Z) (tid : Z)
         (req : Main.CommitRequest) (agent : Agent.t) (db : DB) (t : Tournament.t),
    Main.CommitRequest_valid req = true ->
    find_tournament tid db = Some t ->
    Tournament.state t = OPEN ->
    Tournament.player_count t + 1 = MAX_PLAYERS config ->
    joined_by tid agent db = [] ->
    paid chain t agent = true ->
    NoDup (map RoundCommit.id (round_commits db)) ->
    (forall addr, (List.length (entries_of tid addr db) <= 1)%nat) ->
    entries_of tid (Agent.wallet_address agent) db = [] ->
    outcome (Main.join_tournament config chain clock tid req agent db)
    = Returned (MAX_PLAYERS config, true)
    /\ final (Main.join_tournament config chain clock tid req agent db)
       = filled_db config clock tid req agent (MAX_PLAYERS config) db.
Proof.
  intros config chain clock tid req agent db t Hvalid Ht Hopen Hfull Hnew Hpaid
         Hids Hone Hfresh.
  rewrite (join_run config chain clock tid req agent db t Hvalid Ht Hopen);
    try assumption; try lia.
  - destruct (Z.leb_spec (MAX_PLAYERS config) (Tournament.player_count t + 1)); [|lia].
    rewrite Hfull. cbn [outcome final]. split; [reflexivity|].
    unfold filled_db. cbv zeta. f_equal.
    unfold update_where. apply map_ext_in. intros x Hx.
    rewrite (existsb_selected
               (fun c => RoundCommit.round_id c =? 0)
               (fun c => entered tid (RoundCommit.agent_address c)
                                 (tournament_entries db ++ [new_entry clock tid agent db]))).
    + reflexivity.
    + apply nodup_next_id; [reflexivity | exact Hids].
    + exact Hx.
  - intros _ addr. rewrite entries_of_app.
    cbn [new_entry TournamentEntry.tournament_id TournamentEntry.agent_address].
    rewrite Z.eqb_refl. cbn [andb].
    destruct (String.eqb_spec (Agent.wallet_address agent) addr) as [<-|_].
    + rewrite Hfresh. cbn. lia.
    + rewrite app_nil_r. apply Hone.
Qed.

Lemma join_fills_and_starts_witness :
  outcome (Main.join_tournament default_config sample_chain join_clock 1 bob_request bob
                                (lobby_db 24))
  = Returned (MAX_PLAYERS default_config, true)
  /\ final (Main.join_tournament default_config sample_chain join_clock 1 bob_request bob
                                 (lobby_db 24))
     = filled_db default_config join_clock 1 bob_request bob
                 (MAX_PLAYERS default_config) (lobby_db 24).
Proof.
  apply (join_fills_and_starts
           default_config sample_chain join_clock 1 bob_request bob (lobby_db 24)
           (Tournament.mk 1 None 0 OPEN CLASSIC 1000 24 0 None None 0 None None None None)).
  - vm_compute. reflexivity.
  - reflexivity.
  - reflexivity.
  - reflexivity.
  - reflexivity.
  - reflexivity.
  - vm_compute. repeat constructor; cbn; intuition discriminate.
  - intros addr. apply nodup_entrant_one.
    vm_compute. repeat constructor; cbn; intuition discriminate.
  - reflexivity.
Defined.

(** The commitments after the join of the witness: those of "0xa1" and of
    bob are in round 1, that of "0xee", who has no entry, is still
    pending. *)
Example join_fills_lobby :
  map (fun c => (RoundCommit.agent_address c, RoundCommit.round_id c))
      (round_commits
         (final (Main.join_tournament default_config sample_chain join_clock 1
                                      bob_request bob (lobby_db 24))))
  = [("0xa1", 1); ("0xee", 0); ("0xb0b", 1)].
Proof. vm_compute. reflexivity. Qed.


(** ** Finishing a tournament *)

Lemma filter_map_keep {A} (p : A -> bool) (g : A -> A) (l : list A) :
  (forall x, p (g x) = p x) -> filter p (map g l) = map g (filter p l).
Proof.
  intros Hp. induction l as [|x tl IH]; [reflexivity|].
  cbn. rewrite Hp. destruct (p x); cbn; now rewrite IH.
Qed.

Lemma find_none_all {A} (p : A -> bool) (l : list A) :
  (forall x, In x l -> p x = false) -> find p l = None.
Proof.
  induction l as [|x tl IH]; intros H; [reflexivity|].
  cbn. rewrite (H x (or_introl eq_refl)). apply IH. intros y Hy. apply H. now right.
Qed.

Lemma with_entries_same (db : DB) : with_tournament_entries (tournament_entries db) db = db.
Proof. now destruct db. Qed.

(** One query and assignment of the loops over a ranking: with unique
    entry ids and at most one entry of the address, the assignment by id
    changes the entry of the address and no other. *)
Lemma rank_step (tid : Z) (addr : string) (f : TournamentEntry.t -> TournamentEntry.t)
      (db : DB) :
  NoDup (map TournamentEntry.id (tournament_entries db)) ->
  (List.length (entries_of tid addr db) <= 1)%nat ->
  bind (GameEngine.entry_of tid addr)
       (fun entry => match entry with
                     | Some e => assign_entry (TournamentEntry.id e) f
                     | None => ret tt
                     end) db
  = mkRun (Returned tt)
          (with_tournament_entries
             (map (fun e => if (TournamentEntry.tournament_id e =? tid)
                               && String.eqb (TournamentEntry.agent_address e) addr
                            then f e else e)
                  (tournament_entries db)) db)
          [].
Proof.
  intros Hids Hone.
  rewrite (bind_scalar _ _ _ _ (entry_of_run tid addr db)).
  destruct (entries_of tid addr db) as [|e0 [|e1 es]] eqn:He; [| |cbn in Hone; lia].
  - unfold ret. f_equal. rewrite <- (with_entries_same db) at 1. f_equal.
    rewrite <- (map_id (tournament_entries db)) at 1.
    apply map_ext_in. intros x Hx.
    now rewrite (filter_nil_none _ _ He x Hx).
  - unfold assign_entry, modify. f_equal. f_equal.
    unfold update_where. apply map_ext_in. intros x Hx.
    destruct (filter_one _ _ _ He) as [Hin Hmatch].
    destruct (Z.eqb_spec (TournamentEntry.id x) (TournamentEntry.id e0)) as [E|E].
    + assert (x = e0) by (eapply nodup_key_inj; eassumption). subst x.
      now rewrite Hmatch.
    + destruct ((TournamentEntry.tournament_id x =? tid)
                && String.eqb (TournamentEntry.agent_address x) addr) eqn:Hm; [|reflexivity].
      exfalso. apply E.
      assert (Hx' : In x (entries_of tid addr db))
        by (apply filter_In; now split).
      rewrite He in Hx'. destruct Hx' as [<-|[]]. reflexivity.
Qed.

(** The loop of [finish_tournament] over the first five of the ranking. *)
Lemma rank_loop (tid : Z) (places : list (Z * string)) :
  NoDup (map snd places) ->
  forall db,
    NoDup (map TournamentEntry.id (tournament_entries db)) ->
    (forall addr, (List.length (entries_of tid addr db) <= 1)%nat) ->
    for_each places (fun '(i, addr) =>
      entry <- GameEngine.entry_of tid addr ;;
      match entry with
      | Some e => assign_entry (TournamentEntry.id e)
                               (TournamentEntry.with_final_rank (Some (i + 1)))
      | None => ret tt
      end) db
    = mkRun (Returned tt)
            (with_tournament_entries (map (rank_by tid places) (tournament_entries db)) db)
            [].
Proof.
  induction places as [|[i addr] tl IH]; intros Hnd db Hids Hone.
  - cbn [for_each]. unfold ret. f_equal. rewrite <- (with_entries_same db) at 1. f_equal.
    rewrite <- (map_id (tournament_entries db)) at 1.
    apply map_ext. intros e. unfold rank_by. cbn [find].
    now destruct (TournamentEntry.tournament_id e =? tid).
  - cbn [map snd] in Hnd. inversion Hnd as [|? ? Hnotin Hnd']; subst.
    cbn [for_each].
    rewrite (bind_quiet _ _ _ _ _ (rank_step tid addr _ db Hids (Hone addr))).
    rewrite IH; [| exact Hnd' | |].
    + cbn [tournament_entries with_tournament_entries]. f_equal.
      unfold with_tournament_entries. cbn [agents tournaments rounds round_commits].
      f_equal. rewrite map_map. apply map_ext. intros e.
      unfold rank_by. cbn [find snd fst].
      destruct (TournamentEntry.tournament_id e =? tid) eqn:Et; cbn [andb].
      * destruct (String.eqb_spec (TournamentEntry.agent_address e) addr) as [Ea|Ea].
        -- rewrite (proj2 (String.eqb_eq addr (TournamentEntry.agent_address e)))
             by congruence.
           cbn [TournamentEntry.tournament_id TournamentEntry.with_final_rank
                TournamentEntry.agent_address].
           rewrite Et.
           replace (find _ tl) with (@None (Z * string)); [reflexivity|].
           symmetry. apply find_none_all. intros p Hp.
           apply String.eqb_neq. intros E. apply Hnotin.
           rewrite <- Ea, <- E. now apply in_map.
        -- rewrite Et.
           replace (String.eqb addr (TournamentEntry.agent_address e)) with false
             by (symmetry; apply String.eqb_neq; congruence).
           reflexivity.
      * now rewrite Et.
    + cbn [tournament_entries with_tournament_entries]. rewrite map_map.
      erewrite map_ext; [exact Hids|]. intros e. cbv beta.
      now destruct (_ && _).
    + intros addr'. unfold entries_of in *.
      cbn [tournament_entries with_tournament_entries].
      rewrite filter_map_keep; [rewrite length_map; apply Hone|].
      intros e.
      destruct ((TournamentEntry.tournament_id e =? tid)
                && String.eqb (TournamentEntry.agent_address e) addr); reflexivity.
Qed.

Lemma enumerate_snd {A} (l : list A) : map snd (GameEngine.enumerate l) = l.
Proof.
  unfold GameEngine.enumerate.
  assert (H : forall (ns : list Z), List.length ns = List.length l ->
                                    map snd (combine ns l) = l).
  { induction l as [|x tl IH]; intros [|n ns] Hlen; cbn in *;
      try reflexivity; try discriminate.
    f_equal. apply IH. lia. }
  apply H. now rewrite length_map, length_seq.
Qed.

Lemma rank_by_keeps (tid : Z) (places : list (Z * string)) (e : TournamentEntry.t) :
  TournamentEntry.id (rank_by tid places e) = TournamentEntry.id e
  /\ TournamentEntry.tournament_id (rank_by tid places e) = TournamentEntry.tournament_id e
  /\ TournamentEntry.agent_id (rank_by tid places e) = TournamentEntry.agent_id e
  /\ TournamentEntry.agent_address (rank_by tid places e) = TournamentEntry.agent_address e.
Proof.
  unfold rank_by. destruct (TournamentEntry.tournament_id e =? tid); [|tauto].
  destruct (find _ places); cbn; tauto.
Qed.

Lemma update_where_none {A} (p : A -> bool) (f : A -> A) (l : list A) :
  find p l = None -> update_where p f l = l.
Proof.
  intros H. unfold update_where. rewrite <- (map_id l) at 2.
  apply map_ext_in. intros x Hx. now rewrite (find_none _ _ H x Hx).
Qed.

(** What [finish_tournament] does when its queries find at most one entry. *)
Lemma finish_tournament_run :
  forall (now tid : Z) (ranking : list string) (db : DB) (t : Tournament.t),
    find_tournament tid db = Some t ->
    NoDup (slice_to 5 ranking) ->
    NoDup (map TournamentEntry.id (tournament_entries db)) ->
    (forall addr, (List.length (entries_of tid addr db) <= 1)%nat) ->
    GameEngine.finish_tournament now tid ranking db
    = mkRun (Returned tt) (finished_db now tid ranking db) [].
Proof.
  intros now tid ranking db t Ht Hnd Hids Hone.
  unfold GameEngine.finish_tournament. cbv zeta.
  erewrite bind_quiet by reflexivity. rewrite Ht.
  erewrite bind_quiet by reflexivity.
  do 4 (erewrite bind_quiet by reflexivity).
  erewrite bind_quiet.
  2:{ apply rank_loop; [now rewrite enumerate_snd | exact Hids | exact Hone]. }
  unfold with_tournaments, with_tournament_entries.
  cbn [agents tournaments tournament_entries rounds round_commits].
  rewrite !update_where_fuse by reflexivity.
  fold (to_finished now ranking).
  set (places := GameEngine.enumerate (slice_to 5 ranking)).
  unfold finished_db, winner_credited, ranked. fold places.
  destruct ranking as [|winner rest]; [reflexivity|].
  match goal with
  | |- bind _ _ ?d = _ =>
      rewrite (bind_scalar _ _ _ _ (entry_of_run tid winner d));
      replace (entries_of tid winner d)
        with (map (rank_by tid places) (entries_of tid winner db))
  end.
  2:{ unfold entries_of. cbn [tournament_entries].
      symmetry. apply filter_map_keep. intros e.
      destruct (rank_by_keeps tid places e) as [_ [H1 [_ H2]]]. now rewrite H1, H2. }
  pose proof (Hone winner) as Hw.
  destruct (entries_of tid winner db) as [|e0 [|e1 es]];
    [reflexivity | clear Hw | cbn in Hw; lia].
  cbn [map].
  destruct (rank_by_keeps tid places e0) as [_ [_ [Hagent _]]]. rewrite Hagent.
  unfold get_agent_by_id. erewrite bind_quiet by reflexivity.
  cbn [agents].
  destruct (find (fun a => Agent.id a =? TournamentEntry.agent_id e0) (agents db))
    as [a|] eqn:Ha.
  - apply find_some in Ha. destruct Ha as [_ Ha]. apply Z.eqb_eq in Ha.
    rewrite Ha. reflexivity.
  - rewrite (update_where_none _ _ _ Ha). reflexivity.
Qed.

Lemma find_enumerate_from (l : list string) (a : string) :
  NoDup l ->
  forall (i s : nat),
    nth_error l i = Some a ->
    find (fun p : Z * string => String.eqb (snd p) a)
         (combine (map Z.of_nat (seq s (List.length l))) l)
    = Some (Z.of_nat (s + i), a).
Proof.
  induction l as [|x tl IH]; intros Hnd i s Hi; [destruct i; discriminate|].
  inversion Hnd as [|? ? Hnotin Hnd']; subst.
  cbn [List.length seq map combine find snd].
  destruct i as [|i]; cbn [nth_error] in Hi.
  - injection Hi as ->. rewrite String.eqb_refl. now rewrite Nat.add_0_r.
  - destruct (String.eqb_spec x a) as [->|_].
    + exfalso. apply Hnotin. eapply nth_error_In. exact Hi.
    + rewrite (IH Hnd' i (S s) Hi). do 2 f_equal. lia.
Qed.

Lemma nth_error_slice_to {A} (n : Z) (l : list A) (i : nat) :
  Z.of_nat i < n -> nth_error (slice_to n l) i = nth_error l i.
Proof.
  intros Hi. unfold slice_to.
  assert (H : (i < Z.to_nat n)%nat) by lia. clear Hi. revert l i H.
  induction (Z.to_nat n) as [|m IH]; intros l i H; [lia|].
  destruct l as [|x tl]; [reflexivity|].
  destruct i as [|i]; [reflexivity|]. cbn. apply IH. lia.
Qed.


(** X25. What [finish_tournament] records.  When the tournament exists,
    the first five of the ranking are distinct addresses, entry ids are
    unique and no address has two entries in the tournament,
    [finish_tournament] returns and logs nothing; it makes the tournament
    FINISHED at [now] with the first of the ranking as winner and the next
    four as finalists; each entry of the tournament whose address is among
    the first five gets its place (from 1) as final rank, and no other
    entry changes; the agent of the winner's entry has one tournament won
    more; rounds and commitments are as before.  In particular the entry
    of the address at place [i] (from 0, below 5) of the ranking has final
    rank [i + 1] afterwards. *)
Theorem finish_tournament_ranks :
  forall (now tid : Z) (ranking : list string) (db : DB) (t : Tournament.t),
    find_tournament tid db = Some t ->
    NoDup (slice_to 5 ranking) ->
    NoDup (map TournamentEntry.id (tournament_entries db)) ->
    (forall addr, (List.length (entries_of tid addr db) <= 1)%nat) ->
    GameEngine.finish_tournament now tid ranking db
    = mkRun (Returned tt) (finished_db now tid ranking db) []
    /\ forall (i : nat) (addr : string) (e : TournamentEntry.t),
         nth_error ranking i = Some addr ->
         (i < 5)%nat ->
         In e (tournament_entries db) ->
         TournamentEntry.tournament_id e = tid ->
         TournamentEntry.agent_address e = addr ->
         In (TournamentEntry.with_final_rank (Some (Z.of_nat i + 1)) e)
            (tournament_entries (finished_db now tid ranking db)).
Proof.
  intros now tid ranking db t Ht Hnd Hids Hone.
  split; [now apply (finish_tournament_run now tid ranking db t)|].
  intros i addr e Hi Hlt He Htid Haddr.
  unfold finished_db. cbn [tournament_entries].
  apply in_map_iff. exists e. split; [|exact He].
  unfold ranked, rank_by. rewrite Htid, Z.eqb_refl, Haddr.
  unfold GameEngine.enumerate.
  rewrite (find_enumerate_from (slice_to 5 ranking) addr Hnd i 0).
  - reflexivity.
  - rewrite nth_error_slice_to by lia. exact Hi.
Qed.

Lemma finish_tournament_ranks_witness :
  GameEngine.finish_tournament 2000 1 ["0xa5"; "0xa2"; "0xa7"] busy_db
  = mkRun (Returned tt) (finished_db 2000 1 ["0xa5"; "0xa2"; "0xa7"] busy_db) []
  /\ forall (i : nat) (addr : string) (e : TournamentEntry.t),
       nth_error ["0xa5"; "0xa2"; "0xa7"] i = Some addr ->
       (i < 5)%nat ->
       In e (tournament_entries busy_db) ->
       TournamentEntry.tournament_id e = 1 ->
       TournamentEntry.agent_address e = addr ->
       In (TournamentEntry.with_final_rank (Some (Z.of_nat i + 1)) e)
          (tournament_entries (finished_db 2000 1 ["0xa5"; "0xa2"; "0xa7"] busy_db)).
Proof.
  apply (finish_tournament_ranks 2000 1 ["0xa5"; "0xa2"; "0xa7"] busy_db
           (sample_tournament 1 REVEAL 1 (Some 1000))).
  - reflexivity.
  - vm_compute. repeat constructor; cbn; intuition discriminate.
  - vm_compute. repeat constructor; cbn; intuition lia.
  - intros addr. apply nodup_entrant_one.
    vm_compute. repeat constructor; cbn; intuition discriminate.
Defined.

(** The ranks of the witness: the three ranked addresses have ranks 1 to 3,
    the other entries none. *)
Example finish_ranks_of_busy_db :
  map (fun e => (TournamentEntry.agent_address e, TournamentEntry.final_rank e))
      (filter (fun e => TournamentEntry.tournament_id e =? 1)
              (tournament_entries
                 (final (GameEngine.finish_tournament 2000 1 ["0xa5"; "0xa2"; "0xa7"]
                                                      busy_db))))
  = [("0xa1", None); ("0xa2", Some 2); ("0xa3", None); ("0xa4", None);
     ("0xa5", Some 1); ("0xa6", None); ("0xa7", Some 3); ("0xa8", None)].
Proof. vm_compute. reflexivity. Qed.

(** ** The player count *)

Lemma upholds_refl (config : Config) (db : DB) : upholds config db db.
Proof. intros H. exact H. Qed.

Lemma upholds_trans (config : Config) (a b c : DB) :
  upholds config a b -> upholds config b c -> upholds config a c.
Proof. unfold upholds. auto. Qed.

Lemma forall2_map_eq {A K} (key : A -> K) (R : A -> A -> Prop) (l l' : list A) :
  (forall x y, R x y -> key y = key x) -> Forall2 R l l' -> map key l' = map key l.
Proof.
  intros Hk. induction 1 as [|x y tl tl' Hxy _ IH]; [reflexivity|].
  cbn. now rewrite (Hk _ _ Hxy), IH.
Qed.

Lemma forall2_in_left {A} (R : A -> A -> Prop) (l l' : list A) (x : A) :
  Forall2 R l l' -> In x l -> exists y, In y l' /\ R x y.
Proof.
  induction 1 as [|a b tl tl' Hab _ IH]; intros Hin; [contradiction|].
  destruct Hin as [<-|Hin].
  - exists b. split; [now left | exact Hab].
  - destruct (IH Hin) as [y [Hy Hr]]. exists y. split; [now right | exact Hr].
Qed.

Lemma entries_in_length (tid : Z) (db db' : DB) :
  map TournamentEntry.tournament_id (tournament_entries db')
  = map TournamentEntry.tournament_id (tournament_entries db) ->
  List.length (entries_in tid db') = List.length (entries_in tid db).
Proof.
  intros H. unfold entries_in.
  exact (filter_by_key TournamentEntry.tournament_id (fun k => k =? tid) _ _ H).
Qed.

(** Rows that keep their seats, and entries of the same tournaments, keep
    the invariant. *)
Lemma seats_kept (config : Config) (db db' : DB) :
  Forall2 seat_kept (tournaments db) (tournaments db') ->
  map TournamentEntry.tournament_id (tournament_entries db')
  = map TournamentEntry.tournament_id (tournament_entries db) ->
  upholds config db db'.
Proof.
  intros Hrows Hents [Hids [Href Hinv]]. split; [|split].
  - unfold unique_ids in *.
    rewrite (forall2_map_eq Tournament.id seat_kept _ _ (fun x y H => proj1 H) Hrows).
    exact Hids.
  - intros e' He'.
    apply (in_map TournamentEntry.tournament_id) in He'. rewrite Hents in He'.
    apply in_map_iff in He'. destruct He' as [e [Etid He]].
    destruct (Href e He) as [t [Ht Hid]].
    destruct (forall2_in_left _ _ _ _ Hrows Ht) as [t' [Ht' [Hid' _]]].
    exists t'. split; [exact Ht' | congruence].
  - apply Forall_forall. intros t' Ht'.
    destruct (forall2_in_right _ _ _ _ Hrows Ht') as [t [Ht [Hid [Hcount Hstate]]]].
    rewrite Forall_forall in Hinv. destruct (Hinv t Ht) as [H1 [H2 H3]].
    unfold seat_inv. rewrite Hid, Hcount, (entries_in_length _ _ _ Hents).
    split; [exact H1|]. split; [exact H2|]. intros Ho. apply H3, Hstate, Ho.
Qed.

Lemma seat_kept_refl (t : Tournament.t) : seat_kept t t.
Proof. unfold seat_kept. tauto. Qed.

Lemma upholds_same (config : Config) (db db' : DB) :
  tournaments db' = tournaments db ->
  map TournamentEntry.tournament_id (tournament_entries db')
  = map TournamentEntry.tournament_id (tournament_entries db) ->
  upholds config db db'.
Proof.
  intros Ht He. apply seats_kept; [|exact He].
  rewrite Ht. apply forall2_refl, seat_kept_refl.
Qed.

Lemma upholds_assign_tournament (config : Config) (tid : Z)
      (f : Tournament.t -> Tournament.t) :
  (forall t, seat_kept t (f t)) -> preserves (upholds config) (assign_tournament tid f).
Proof.
  intros Hf db. apply seats_kept; cbn; [|reflexivity].
  apply forall2_update_where; [apply seat_kept_refl | exact Hf].
Qed.

Lemma upholds_assign_entry (config : Config) (eid : Z)
      (f : TournamentEntry.t -> TournamentEntry.t) :
  (forall e, TournamentEntry.tournament_id (f e) = TournamentEntry.tournament_id e) ->
  preserves (upholds config) (assign_entry eid f).
Proof.
  intros Hf db. apply upholds_same; cbn; [reflexivity|].
  now apply update_where_ids.
Qed.

(** A created tournament has no entry yet. *)
Lemma upholds_add_tournament (config : Config) (mk : Z -> Tournament.t) :
  0 < MAX_PLAYERS config ->
  (forall id, Tournament.id (mk id) = id /\ Tournament.player_count (mk id) = 0) ->
  preserves (upholds config) (add_tournament mk).
Proof.
  intros Hmax Hmk db [Hids [Href Hinv]].
  cbn [final add_tournament].
  set (row := mk (next_id Tournament.id (tournaments db))).
  assert (Hrow : Tournament.id row = next_id Tournament.id (tournaments db))
    by apply Hmk.
  assert (Hnone : entries_in (Tournament.id row) db = []).
  { unfold entries_in.
    destruct (filter _ (tournament_entries db)) as [|e es] eqn:Hf; [reflexivity|].
    exfalso.
    destruct (filter_In (fun e => TournamentEntry.tournament_id e =? Tournament.id row)
                        e (tournament_entries db)) as [Hin _].
    destruct Hin as [He Htid]; [rewrite Hf; now left|].
    apply Z.eqb_eq in Htid.
    destruct (Href e He) as [t [Ht Hid]].
    pose proof (next_id_above Tournament.id (tournaments db) t Ht). lia. }
  split; [|split].
  - unfold unique_ids in *. cbn [tournaments with_tournaments].
    apply nodup_next_id; assumption.
  - cbn [tournaments tournament_entries with_tournaments]. intros e He.
    destruct (Href e He) as [t [Ht Hid]]. exists t. split; [|exact Hid].
    apply in_or_app. now left.
  - cbn [tournaments with_tournaments]. apply Forall_app. split.
    + eapply Forall_impl; [|exact Hinv]. intros t Ht. exact Ht.
    + constructor; [|constructor]. unfold seat_inv.
      change (entries_in (Tournament.id row)
                (with_tournaments (tournaments db ++ [row]) db))
        with (entries_in (Tournament.id row) db).
      rewrite Hnone. subst row. rewrite (proj2 (Hmk _)). cbn. lia.
Qed.

Ltac upholds_leaf :=
  lazymatch goal with
  | |- preserves _ (assign_tournament _ _) =>
      apply upholds_assign_tournament; intros ?; unfold seat_kept; cbn;
      intuition (discriminate || congruence)
  | |- preserves _ (assign_entry _ _) =>
      apply upholds_assign_entry; intros ?; reflexivity
  | |- preserves _ (assign_round _ _) => intros ?; now apply upholds_same
  | |- preserves _ (add_round _) => intros ?; now apply upholds_same
  | |- preserves _ (assign_commit _ _) => intros ?; now apply upholds_same
  | |- preserves _ (add_commit _) => intros ?; now apply upholds_same
  | |- preserves _ (assign_agent _ _) => intros ?; now apply upholds_same
  end.

Ltac upholds_auto config :=
  unfold_queries;
  repeat first [preserves_step (upholds_refl config) (upholds_trans config) | upholds_leaf].

Lemma entries_in_count (tid : Z) (db : DB) :
  List.length (entries_in tid db)
  = List.length (filter (fun k => k =? tid)
                        (map fst (map entrant (tournament_entries db)))).
Proof.
  unfold entries_in. induction (tournament_entries db) as [|e tl IH]; [reflexivity|].
  cbn [map filter entrant fst].
  destruct (TournamentEntry.tournament_id e =? tid); cbn [List.length]; now rewrite IH.
Qed.

Lemma join_row_keeps (config : Config) (clock : nat -> Z) (players : Z) (t : Tournament.t) :
  Tournament.id (join_row config clock players t) = Tournament.id t
  /\ Tournament.player_count (join_row config clock players t)
     = Tournament.player_count t + 1
  /\ (Tournament.state (join_row config clock players t) = OPEN ->
      players < MAX_PLAYERS config).
Proof.
  unfold join_row. destruct (Z.leb_spec (MAX_PLAYERS config) players); cbn.
  - repeat split. discriminate.
  - repeat split. intros _. assumption.
Qed.

Lemma bind_bind_quiet {A B C} (m : M A) (k1 : A -> M B) (k2 : B -> M C) (db : DB) a db' :
  m db = mkRun (Returned a) db' [] ->
  bind (bind m k1) k2 db = bind (k1 a) k2 db'.
Proof.
  intros H. unfold bind at 1 3. rewrite (bind_quiet _ _ _ _ _ H). reflexivity.
Qed.

Lemma steady_assign_agent (aid : Z) (f : Agent.t -> Agent.t) :
  preserves steady (assign_agent aid f).
Proof. intros db. now split. Qed.

Ltac steady_leaf :=
  lazymatch goal with
  | |- preserves _ (assign_commit _ _) => apply steady_assign_commit
  | |- preserves _ (assign_agent _ _) => apply steady_assign_agent
  end.

Ltac steady_auto :=
  unfold_queries;
  repeat first [preserves_step steady_refl steady_trans | steady_leaf].

Section SeatsFacts.

Variable config : Config.
Variable chain : Chain.
Hypothesis some_place : 0 < MAX_PLAYERS config.

Lemma submit_commit_upholds now committed_at tid req agent :
  preserves (upholds config) (Main.submit_commit now committed_at tid req agent).
Proof. unfold Main.submit_commit. upholds_auto config. Qed.

Lemma submit_reveal_upholds now revealed_at tid req agent :
  preserves (upholds config) (Main.submit_reveal now revealed_at tid req agent).
Proof. unfold Main.submit_reveal. upholds_auto config. Qed.

Lemma ensure_open_tournaments_upholds now :
  preserves (upholds config) (Main.ensure_open_tournaments chain now).
Proof.
  unfold Main.ensure_open_tournaments.
  unfold_queries.
  repeat first [preserves_step (upholds_refl config) (upholds_trans config)
               | upholds_leaf
               | apply upholds_add_tournament; [exact some_place | intros ?; now split]].
Qed.

Lemma process_phase_transitions_upholds now clock :
  preserves (upholds config) (Main.process_phase_transitions config chain now clock).
Proof.
  unfold Main.process_phase_transitions, Main.phase_transition, Main.advance_phase,
    GameEngine.open_reveal_phase, GameEngine.resolve_round, GameEngine.collect_reveals,
    GameEngine.finish_tournament, GameEngine.start_new_round.
  upholds_auto config.
Qed.

Lemma cancel_expired_tournaments_upholds now :
  preserves (upholds config) (Main.cancel_expired_tournaments config chain now).
Proof. unfold Main.cancel_expired_tournaments. upholds_auto config. Qed.

Lemma tournament_manager_upholds t_open now clock t_cancel :
  preserves (upholds config)
            (Main.tournament_manager config chain t_open now clock t_cancel).
Proof.
  intros db. unfold Main.tournament_manager.
  assert (H : preserves (upholds config)
                (Main.ensure_open_tournaments chain t_open ;;
                 Main.process_phase_transitions config chain now clock ;;
                 Main.cancel_expired_tournaments config chain t_cancel)%session).
  { apply preserves_bind; [exact (upholds_trans config) | |intros _].
    - apply ensure_open_tournaments_upholds.
    - apply preserves_bind;
        [exact (upholds_trans config) | apply process_phase_transitions_upholds
        | intros _].
      apply cancel_expired_tournaments_upholds. }
  specialize (H db).
  match type of H with
  | upholds config db (final ?r) => destruct r as [[u|e] db' lg]
  end; cbn [outcome final] in *; [exact H | apply upholds_refl].
Qed.

(** The tournaments and the entries after a join that returned. *)
Lemma join_tables clock tid req agent db :
  let r := Main.join_tournament config chain clock tid req agent db in
  match outcome r with
  | Raised _ => True
  | Returned _ =>
      exists t,
        find_tournament tid db = Some t
        /\ Tournament.state t = OPEN
        /\ Tournament.player_count t < MAX_PLAYERS config
        /\ tournaments (final r)
           = update_where (fun t => Tournament.id t =? tid)
                          (join_row config clock (Tournament.player_count t + 1))
                          (tournaments db)
        /\ map entrant (tournament_entries (final r))
           = (map entrant (tournament_entries db)
              ++ [(tid, Agent.wallet_address agent)])%list
  end.
Proof.
  cbv zeta. unfold Main.join_tournament.
  destruct (Main.CommitRequest_valid req); cbn [negb when];
    [|rewrite outcome_bind; exact I].
  erewrite bind_quiet by reflexivity. erewrite bind_quiet by reflexivity.
  destruct (find_tournament tid db) as [t|] eqn:Ht; [|exact I].
  cbv zeta.
  destruct (Tournament.state t) eqn:Hopen; cbn [TournamentState_eqb negb when];
    try (rewrite outcome_bind; exact I).
  erewrite bind_quiet by reflexivity.
  destruct (Z.leb_spec (MAX_PLAYERS config) (Tournament.player_count t)) as [|Hroom];
    cbn [when]; [rewrite outcome_bind; exact I|].
  erewrite bind_quiet by reflexivity.
  unfold select_entries. erewrite bind_quiet by reflexivity.
  destruct (filter _ (tournament_entries db)) as [|e0 [|e1 es]];
    [|erewrite bind_quiet by reflexivity; rewrite outcome_bind; exact I
     |rewrite outcome_bind; exact I].
  erewrite bind_quiet by reflexivity. cbn [is_some when].
  erewrite bind_quiet by reflexivity.
  match goal with
  | |- match outcome (bind ?check _ _) with _ => _ end =>
      assert (Hcheck : check db = mkRun (Returned tt) db []
                       \/ check db = mkRun (Raised (HTTPException 402)) db [])
  end.
  { destruct (Tournament.chain_id t) as [cid|]; [|now left].
    destruct (verify_player_joined chain cid (Agent.wallet_address agent)) as [[|]|];
      [now left | now right | now left]. }
  destruct Hcheck as [Hcheck|Hcheck];
    [|rewrite outcome_bind, Hcheck; exact I].
  rewrite (bind_quiet _ _ _ _ _ Hcheck). clear Hcheck.
  erewrite bind_quiet by reflexivity.
  erewrite bind_quiet by reflexivity.
  erewrite bind_quiet by reflexivity.
  set (db1 := mkDB (agents db)
                   (update_where
                      (fun t => Tournament.id t =? tid)
                      (fun t => Tournament.with_player_count
                                  (Tournament.player_count t + 1) t)
                      (tournaments db))
                   (tournament_entries db ++ [new_entry clock tid agent db])
                   (rounds db)
                   (round_commits db ++ [entry_commit clock req agent db])).
  match goal with |- match outcome (?k ?d) with _ => _ end => change d with db1 end.
  assert (Ht1 : find_tournament tid db1
                = Some (Tournament.with_player_count (Tournament.player_count t + 1) t)).
  { unfold find_tournament in *. subst db1. cbn [tournaments].
    rewrite find_update_where by reflexivity. now rewrite Ht. }
  rewrite (bind_attr _ _ _ _ _ Ht1).
  cbn [Tournament.player_count Tournament.with_player_count].
  assert (Hents : map entrant (tournament_entries db1)
                  = (map entrant (tournament_entries db)
                     ++ [(tid, Agent.wallet_address agent)])%list).
  { subst db1. cbn [tournament_entries]. now rewrite map_app. }
  unfold join_row.
  destruct (Z.leb_spec (MAX_PLAYERS config) (Tournament.player_count t + 1)) as [Hfull|Hnot].
  - pose proof (start_tournament_run config (clock 2%nat) (clock 3%nat) tid db1)
      as Hstart.
    rewrite Ht1 in Hstart.
    rewrite (bind_bind_quiet _ _ _ _ _ _ Hstart). clear Hstart.
    match goal with
    | |- match outcome (?m ?d) with _ => _ end =>
        assert (Hs : preserves steady m) by steady_auto;
        specialize (Hs d); destruct (m d) as [[ans|e] db3 lg];
        cbn [outcome final] in *; [|exact I]
    end.
    destruct Hs as [Hst Hse]. cbn [tournaments tournament_entries] in Hst, Hse.
    exists t. repeat split; try assumption.
    + rewrite Hst. subst db1. cbn [tournaments].
      rewrite update_where_fuse by reflexivity.
      replace (MAX_PLAYERS config <=? Tournament.player_count t + 1) with true
        by (symmetry; apply Z.leb_le; lia).
      reflexivity.
    + now rewrite Hse.
  - match goal with
    | |- match outcome (?m ?d) with _ => _ end =>
        assert (Hs : preserves steady m) by steady_auto;
        specialize (Hs d); destruct (m d) as [[ans|e] db3 lg];
        cbn [outcome final] in *; [|exact I]
    end.
    destruct Hs as [Hst Hse].
    exists t. repeat split; try assumption.
    + rewrite Hst. subst db1. cbn [tournaments].
      replace (MAX_PLAYERS config <=? Tournament.player_count t + 1) with false
        by (symmetry; apply Z.leb_gt; lia).
      reflexivity.
    + now rewrite Hse.
Qed.

Lemma join_tournament_upholds clock tid req agent :
  preserves (upholds config)
            (Main.get_db (Main.join_tournament config chain clock tid req agent)).
Proof.
  intros db. unfold Main.get_db.
  pose proof (join_tables clock tid req agent db) as H. cbv zeta in H.
  destruct (Main.join_tournament config chain clock tid req agent db)
    as [[answer|e] db' lg]; cbn [outcome final] in *; [|apply upholds_refl].
  destruct H as [t [Ht [Hopen [Hroom [Hrows Hents]]]]].
  intros [Hids [Href Hinv]].
  set (row := join_row config clock (Tournament.player_count t + 1)) in *.
  assert (Hrow : forall x, Tournament.id (row x) = Tournament.id x)
    by (intros x; apply join_row_keeps).
  assert (Hin : In t (tournaments db) /\ Tournament.id t = tid).
  { apply find_some in Ht. destruct Ht as [Hin E]. apply Z.eqb_eq in E. now split. }
  destruct Hin as [Hin Hid].
  assert (Hlen : forall k, List.length (entries_in k db')
                           = (List.length (entries_in k db)
                              + (if (tid =? k)%Z then 1 else 0))%nat).
  { intros k. rewrite !entries_in_count, Hents, !map_app, filter_app, length_app.
    cbn [map fst filter]. now destruct (tid =? k). }
  split; [|split].
  - unfold unique_ids in *. rewrite Hrows, update_where_ids by exact Hrow. exact Hids.
  - intros e' He'.
    assert (Hk : In (TournamentEntry.tournament_id e')
                    (map fst (map entrant (tournament_entries db')))).
    { rewrite map_map. apply in_map_iff. now exists e'. }
    rewrite Hents, map_app in Hk. apply in_app_or in Hk.
    assert (Hex : exists x, In x (tournaments db)
                            /\ Tournament.id x = TournamentEntry.tournament_id e').
    { destruct Hk as [Hk|[Hk|[]]].
      - rewrite map_map in Hk. apply in_map_iff in Hk. destruct Hk as [e0 [E He0]].
        destruct (Href e0 He0) as [x [Hx Hxid]]. exists x. split; [exact Hx|].
        cbn in E. congruence.
      - exists t. split; [exact Hin|]. cbn in Hk. congruence. }
    destruct Hex as [x [Hx Hxid]].
    exists (if Tournament.id x =? tid then row x else x). split.
    + rewrite Hrows. unfold update_where. apply in_map_iff. now exists x.
    + destruct (Tournament.id x =? tid); [now rewrite Hrow | exact Hxid].
  - apply Forall_forall. intros x' Hx'.
    rewrite Hrows in Hx'. unfold update_where in Hx'. apply in_map_iff in Hx'.
    destruct Hx' as [x [Ex Hx]].
    rewrite Forall_forall in Hinv. destruct (Hinv x Hx) as [H1 [H2 H3]].
    destruct (Z.eqb_spec (Tournament.id x) tid) as [E|E].
    + assert (x = t) by (apply (same_id_same_row db); congruence). subst x x'.
      destruct (join_row_keeps config clock (Tournament.player_count t + 1) t)
        as [K1 [K2 K3]]. fold row in K1, K2, K3.
      unfold seat_inv. rewrite K1, K2, Hlen.
      rewrite (proj2 (Z.eqb_eq tid (Tournament.id t))) by congruence.
      split; [lia|]. split; [lia | exact K3].
    + subst x'. unfold seat_inv. rewrite Hlen.
      replace (tid =? Tournament.id x) with false
        by (symmetry; apply Z.eqb_neq; congruence).
      rewrite Nat.add_0_r. tauto.
Qed.

End SeatsFacts.

(** The empty session has the right player counts. *)
Lemma empty_db_seats_ok (config : Config) : seats_ok config empty_db.
Proof.
  split; [constructor|]. split; [intros e []|constructor].
Qed.

(** X26. The player count is the number of entries and never exceeds
    MAX_PLAYERS.  When [MAX_PLAYERS] is positive, every state-changing call
    (join, commit, reveal, the three passes of the manager, a whole round
    of the manager) keeps true that tournament ids are unique, every entry
    belongs to a tournament of the session, and every tournament's
    [player_count] is the number of its entries, is at most [MAX_PLAYERS],
    and is below [MAX_PLAYERS] while the tournament is OPEN.  The empty
    session has these properties, so they hold in every session the calls
    reach from it. *)
Theorem player_count_invariant :
  forall (config : Config) (chain : Chain) (db db' : DB),
    0 < MAX_PLAYERS config ->
    seats_ok config db ->
    step config chain db db' ->
    seats_ok config db'.
Proof.
  intros config chain db db' Hmax Hok Hstep. revert Hok.
  change (upholds config db db').
  destruct Hstep.
  - apply join_tournament_upholds.
  - apply get_db_final; [exact (upholds_refl config) | apply submit_commit_upholds].
  - apply get_db_final; [exact (upholds_refl config) | apply submit_reveal_upholds].
  - now apply ensure_open_tournaments_upholds.
  - apply process_phase_transitions_upholds.
  - apply cancel_expired_tournaments_upholds.
  - now apply tournament_manager_upholds.
Qed.

Lemma player_count_invariant_witness :
  seats_ok default_config
           (final (Main.get_db (Main.join_tournament default_config sample_chain join_clock
                                                     1 bob_request bob) (lobby_db 1))).
Proof.
  apply (player_count_invariant default_config sample_chain (lobby_db 1)).
  - reflexivity.
  - split; [vm_compute; repeat constructor; cbn; intuition discriminate|].
    split.
    + intros e [<-|[]]. eexists. split; [left; reflexivity | reflexivity].
    + repeat constructor; cbn; try lia.
  - apply step_join.
Defined.

(** ** Eliminated participants *)

Lemma same_people_refl (db : DB) : same_people db db.
Proof. now split. Qed.

Lemma same_people_trans (a b c : DB) :
  same_people a b -> same_people b c -> same_people a c.
Proof. intros [H1 H2] [H3 H4]. split; congruence. Qed.

Lemma same_people_steady (db db' : DB) : same_people db db' -> steady db db'.
Proof. intros [H1 H2]. split; [exact H1 | now rewrite H2]. Qed.

Lemma people_loop_run {A} (xs : list A) (body : A -> M unit) (db : DB) :
  (forall x d, outcome (body x d) = Returned tt /\ same_people d (final (body x d))) ->
  outcome (for_each xs body db) = Returned tt
  /\ same_people db (final (for_each xs body db)).
Proof.
  intros Hbody.
  destruct (for_each_inv (fun _ => True) same_people xs body
                         same_people_refl same_people_trans
                         (fun x d _ => conj (proj1 (Hbody x d))
                                            (conj (proj2 (Hbody x d)) I)) db I)
    as [Ho [Hs _]].
  now split.
Qed.

(** The loop of [resolve_round] over the addresses that are out. *)
Lemma knock_loop (tid : Z) (addrs : list string) :
  forall db,
    NoDup (map TournamentEntry.id (tournament_entries db)) ->
    (forall addr, (List.length (entries_of tid addr db) <= 1)%nat) ->
    for_each addrs (fun addr =>
      entry <- GameEngine.entry_of tid addr ;;
      match entry with
      | Some e => assign_entry (TournamentEntry.id e) (TournamentEntry.with_is_alive false)
      | None => ret tt
      end) db
    = mkRun (Returned tt)
            (with_tournament_entries
               (map (knocked_out tid addrs) (tournament_entries db)) db)
            [].
Proof.
  induction addrs as [|addr tl IH]; intros db Hids Hone.
  - cbn [for_each]. unfold ret. f_equal. rewrite <- (with_entries_same db) at 1. f_equal.
    rewrite <- (map_id (tournament_entries db)) at 1.
    apply map_ext. intros e. unfold knocked_out, str_in. cbn [existsb].
    now rewrite andb_false_r.
  - cbn [for_each].
    rewrite (bind_quiet _ _ _ _ _ (rank_step tid addr _ db Hids (Hone addr))).
    rewrite IH.
    + cbn [tournament_entries with_tournament_entries]. f_equal.
      unfold with_tournament_entries. cbn [agents tournaments rounds round_commits].
      f_equal. rewrite map_map. apply map_ext. intros e.
      unfold knocked_out, str_in. cbn [existsb].
      destruct (TournamentEntry.tournament_id e =? tid) eqn:Et; cbn [andb].
      * destruct (String.eqb (TournamentEntry.agent_address e) addr) eqn:Ea; cbn [orb].
        -- cbn [TournamentEntry.tournament_id TournamentEntry.with_is_alive
                TournamentEntry.agent_address].
           rewrite Et. cbn [andb].
           now destruct (existsb _ tl).
        -- now rewrite Et.
      * now rewrite Et.
    + cbn [tournament_entries with_tournament_entries]. rewrite map_map.
      erewrite map_ext; [exact Hids|]. intros e. cbv beta.
      destruct ((TournamentEntry.tournament_id e =? tid)
                && String.eqb (TournamentEntry.agent_address e) addr); reflexivity.
    + intros addr'. unfold entries_of in *.
      cbn [tournament_entries with_tournament_entries].
      rewrite filter_map_keep; [rewrite length_map; apply Hone|].
      intros e.
      destruct ((TournamentEntry.tournament_id e =? tid)
                && String.eqb (TournamentEntry.agent_address e) addr); reflexivity.
Qed.

Lemma no_salts_no_bids (commits : list RoundCommit.t) :
  revealed_salts commits = [] -> revealed_bids commits = [].
Proof.
  unfold revealed_salts, revealed_bids.
  destruct (reveals commits) as [|c tl] eqn:E; [reflexivity|].
  assert (Hc : has_reveal c = true).
  { assert (Hin : In c (reveals commits)) by (rewrite E; now left).
    apply filter_In in Hin. tauto. }
  unfold has_reveal in Hc. cbn [flat_map].
  destruct (RoundCommit.revealed c), (RoundCommit.bid c), (RoundCommit.salt c);
    try discriminate Hc. discriminate.
Qed.

(** Entries that are kept keep the dead dead. *)
Lemma alive_entries_kept (tid : Z) (addr : string) (db db' : DB) :
  Forall2 entry_kept (tournament_entries db) (tournament_entries db') ->
  alive_entries tid addr db = [] -> alive_entries tid addr db' = [].
Proof.
  unfold alive_entries. intros H.
  induction H as [|e e' tl tl' Hk _ IH]; [reflexivity|].
  cbn [filter]. destruct Hk as [_ [Ht [_ [Ha [_ [_ Hdead]]]]]].
  rewrite Ht, Ha.
  destruct ((TournamentEntry.tournament_id e =? tid)
            && String.eqb (TournamentEntry.agent_address e) addr); cbn [andb].
  - destruct (TournamentEntry.is_alive e) eqn:Hal; [discriminate|].
    rewrite (Hdead eq_refl). exact IH.
  - exact IH.
Qed.

Lemma knocked_out_dead (tid : Z) (out : list string) (addr : string)
      (entries : list TournamentEntry.t) :
  In addr out ->
  filter (fun e => (TournamentEntry.tournament_id e =? tid)
                   && String.eqb (TournamentEntry.agent_address e) addr
                   && TournamentEntry.is_alive e)
         (map (knocked_out tid out) entries) = [].
Proof.
  intros Hin. induction entries as [|e tl IH]; [reflexivity|].
  cbn [map filter]. rewrite IH.
  unfold knocked_out.
  destruct (TournamentEntry.tournament_id e =? tid) eqn:Et; cbn [andb].
  - destruct (str_in (TournamentEntry.agent_address e) out) eqn:Hs.
    + cbn. now rewrite Et, andb_false_r.
    + rewrite Et. cbn [andb].
      destruct (String.eqb_spec (TournamentEntry.agent_address e) addr) as [E|E];
        [|reflexivity].
      exfalso. unfold str_in in Hs.
      assert (Ht : existsb (String.eqb (TournamentEntry.agent_address e)) out = true).
      { apply existsb_exists. exists addr. split; [exact Hin|]. now apply String.eqb_eq. }
      congruence.
  - now rewrite Et.
Qed.

Lemma same_people_find (tid : Z) (db db' : DB) :
  same_people db db' -> find_tournament tid db' = find_tournament tid db.
Proof. intros [H _]. unfold find_tournament. now rewrite H. Qed.

(** A round with more than five reveals: the answer, the tournament row and
    the entries. *)
Lemma resolve_round_elimination (now : Z) (round_obj : Round.t) (db : DB) (t : Tournament.t)
      (secret : Z) :
  let tid := Round.tournament_id round_obj in
  let commits := commits_of_round (Round.id round_obj) db in
  let bids := revealed_bids commits in
  let distances := GameEngine.compute_distances bids secret (Tournament.variant t) in
  let survivors := fst (GameEngine.eliminate distances (Tournament.variant t)) in
  let out := (snd (GameEngine.eliminate distances (Tournament.variant t))
              ++ non_revealers commits)%list in
  let run := GameEngine.resolve_round now round_obj db in
  find_tournament tid db = Some t ->
  GameEngine.compute_secret (revealed_salts commits) = Some secret ->
  5 < Dict.len bids ->
  NoDup (map TournamentEntry.id (tournament_entries db)) ->
  (forall addr, (List.length (entries_of tid addr db) <= 1)%nat) ->
  outcome run = Returned (GameEngine.Elimination secret survivors out (non_revealers commits))
  /\ tournaments (final run)
     = update_where (fun t => Tournament.id t =? tid) (Tournament.with_state RESOLVING)
                    (tournaments db)
  /\ tournament_entries (final run) = map (knocked_out tid out) (tournament_entries db).
Proof.
  intros tid commits bids distances survivors out run Ht Hsecret Hmany Hids Hone.
  unfold run, GameEngine.resolve_round. cbv zeta. fold tid.
  erewrite bind_quiet by reflexivity.
  unfold select_commits. erewrite bind_quiet by reflexivity.
  fold (commits_of_round (Round.id round_obj) db). fold commits.
  unfold GameEngine.collect_reveals.
  erewrite bind_quiet by apply collect_reveals_run.
  cbn [app]. fold (revealed_bids commits). fold bids.
  destruct (revealed_salts commits) as [|salt salts] eqn:Hsalts.
  { exfalso. subst bids. rewrite (no_salts_no_bids _ Hsalts) in Hmany.
    cbn in Hmany. lia. }
  rewrite Hsecret.
  erewrite bind_quiet by reflexivity.
  erewrite bind_quiet by reflexivity.
  rewrite Ht. erewrite bind_quiet by reflexivity.
  set (d1 := with_rounds _ _).
  assert (H1 : same_people db d1) by (subst d1; now split).
  erewrite bind_quiet
    by (rewrite tournament_attr_run, (same_people_find tid db d1 H1), Ht; reflexivity).
  fold distances.
  rewrite outcome_bind, final_bind.
  match goal with
  | |- context [for_each commits ?body d1] =>
      destruct (people_loop_run commits body d1) as [Ho2 H2];
        [intros c d; destruct (Dict.get distances (RoundCommit.agent_address c));
         (split; [reflexivity | now split])
        |];
        rewrite Ho2; set (d2 := final (for_each commits body d1)) in *
  end.
  assert (H02 : same_people db d2) by exact (same_people_trans _ _ _ H1 H2).
  destruct (Z.leb_spec (Dict.len bids) 5) as [|_]; [lia|].
  erewrite bind_quiet
    by (rewrite tournament_attr_run, (same_people_find tid db d2 H02), Ht; reflexivity).
  subst out survivors.
  destruct (GameEngine.eliminate distances (Tournament.variant t))
    as [survivors eliminated].
  cbn [fst snd]. rewrite outcome_bind, final_bind.
  match goal with
  | |- context [for_each commits ?body d2] =>
      destruct (people_loop_run commits body d2) as [Ho3 H3];
        [intros c d; destruct (str_in (RoundCommit.agent_address c) eliminated);
         (split; [reflexivity | now split])
        |];
        rewrite Ho3; set (d3 := final (for_each commits body d2)) in *
  end.
  assert (H03 : same_people db d3) by exact (same_people_trans _ _ _ H02 H3).
  destruct H03 as [Ht3 He3].
  erewrite bind_quiet.
  2:{ apply knock_loop.
      - now rewrite He3.
      - intros addr. unfold entries_of. rewrite He3. apply Hone. }
  erewrite bind_quiet by reflexivity.
  erewrite bind_quiet by reflexivity.
  erewrite bind_quiet by reflexivity.
  cbn [outcome final ret tournaments tournament_entries with_tournament_entries
       with_tournaments with_rounds].
  rewrite Ht3, He3. repeat split.
Qed.

(** X27. Who is eliminated is out.  When a round with more than five
    revealed addresses is resolved (the tournament exists, the salts are
    hexadecimal, entry ids are unique and no address has two entries in the
    tournament), the entries of the tournament whose address is eliminated
    or did not reveal are no longer alive, and every other entry is as it
    was.  From then on, in every session the scheduler makes of this one,
    such an address has no live entry in the tournament and no commitment
    of an agent with this wallet is accepted for it. *)
Theorem eliminated_is_out :
  forall (now : Z) (round_obj : Round.t) (db : DB) (t : Tournament.t) (secret : Z),
    let tid := Round.tournament_id round_obj in
    let commits := commits_of_round (Round.id round_obj) db in
    let bids := revealed_bids commits in
    let distances := GameEngine.compute_distances bids secret (Tournament.variant t) in
    let out := (snd (GameEngine.eliminate distances (Tournament.variant t))
                ++ non_revealers commits)%list in
    let db1 := final (GameEngine.resolve_round now round_obj db) in
    find_tournament tid db = Some t ->
    GameEngine.compute_secret (revealed_salts commits) = Some secret ->
    5 < Dict.len bids ->
    NoDup (map TournamentEntry.id (tournament_entries db)) ->
    (forall addr, (List.length (entries_of tid addr db) <= 1)%nat) ->
    tournament_entries db1 = map (knocked_out tid out) (tournament_entries db)
    /\ forall (addr : string) (db2 : DB),
         In addr out ->
         records_kept db1 db2 ->
         alive_entries tid addr db2 = []
         /\ forall (now' committed_at : Z) (req : Main.CommitRequest) (agent : Agent.t)
                   (round_number : Z),
              Agent.wallet_address agent = addr ->
              outcome (Main.submit_commit now' committed_at tid req agent db2)
              <> Returned round_number.
Proof.
  intros now round_obj db t secret tid commits bids distances out db1
         Ht Hsecret Hmany Hids Hone.
  destruct (resolve_round_elimination now round_obj db t secret Ht Hsecret Hmany Hids Hone)
    as [_ [_ Hentries]].
  fold tid commits bids distances out db1 in Hentries.
  split; [exact Hentries|].
  intros addr db2 Hin [_ Hkept].
  assert (Hdead : alive_entries tid addr db2 = []).
  { apply (alive_entries_kept tid addr db1 db2 Hkept).
    unfold alive_entries. rewrite Hentries. now apply knocked_out_dead. }
  split; [exact Hdead|].
  intros now' committed_at req agent round_number Hwallet.
  rewrite submit_commit_run.
  destruct (negb (Main.CommitRequest_valid req)); [discriminate|].
  destruct (find_tournament tid db2) as [t2|]; [|discriminate].
  destruct (negb (TournamentState_eqb (Tournament.state t2) COMMIT)); [discriminate|].
  rewrite Hwallet, Hdead. discriminate.
Qed.

Lemma eliminated_is_out_witness :
  tournament_entries (final (GameEngine.resolve_round 2000 round_1 busy_db))
  = map (knocked_out 1
           (snd (GameEngine.eliminate
                   (GameEngine.compute_distances
                      (revealed_bids (commits_of_round 1 busy_db)) 747 CLASSIC) CLASSIC)
            ++ non_revealers (commits_of_round 1 busy_db)))
        (tournament_entries busy_db)
  /\ forall (addr : string) (db2 : DB),
       In addr (snd (GameEngine.eliminate
                       (GameEngine.compute_distances
                          (revealed_bids (commits_of_round 1 busy_db)) 747 CLASSIC) CLASSIC)
                ++ non_revealers (commits_of_round 1 busy_db)) ->
       records_kept (final (GameEngine.resolve_round 2000 round_1 busy_db)) db2 ->
       alive_entries 1 addr db2 = []
       /\ forall (now' committed_at : Z) (req : Main.CommitRequest) (agent : Agent.t)
                 (round_number : Z),
            Agent.wallet_address agent = addr ->
            outcome (Main.submit_commit now' committed_at 1 req agent db2)
            <> Returned round_number.
Proof.
  apply (eliminated_is_out 2000 round_1 busy_db
           (sample_tournament 1 REVEAL 1 (Some 1000)) 747).
  - reflexivity.
  - vm_compute. reflexivity.
  - vm_compute. reflexivity.
  - vm_compute. repeat constructor; cbn; intuition lia.
  - intros addr. apply nodup_entrant_one.
    vm_compute. repeat constructor; cbn; intuition discriminate.
Defined.

(** The entries of tournament 1 after the round of the witness: the three
    survivors are alive, the five others are not. *)
Example entries_after_round_of_busy_db :
  map (fun e => (TournamentEntry.agent_address e, TournamentEntry.is_alive e))
      (filter (fun e => TournamentEntry.tournament_id e =? 1)
              (tournament_entries (final (GameEngine.resolve_round 2000 round_1 busy_db))))
  = [("0xa1", false); ("0xa2", true); ("0xa3", false); ("0xa4", false);
     ("0xa5", true); ("0xa6", false); ("0xa7", true); ("0xa8", false)].
Proof. vm_compute. reflexivity. Qed.

(** ** The last round *)

Lemma nodup_firstn {A} (n : nat) (l : list A) : NoDup l -> NoDup (firstn n l).
Proof.
  revert l. induction n as [|n IH]; intros l Hnd; [constructor|].
  destruct l as [|x tl]; [constructor|].
  inversion Hnd as [|? ? Hnotin Hnd']; subst. cbn. constructor; [|now apply IH].
  intros Hin. apply Hnotin. eapply in_firstn. exact Hin.
Qed.

Lemma dict_set_keys {V} (d : Dict.t V) (k : string) (v : V) :
  Dict.keys (Dict.set d k v)
  = if existsb (String.eqb k) (Dict.keys d) then Dict.keys d
    else (Dict.keys d ++ [k])%list.
Proof.
  induction d as [|[k' v'] tl IH]; [reflexivity|].
  cbn [Dict.set Dict.keys map fst existsb] in *.
  rewrite (String.eqb_sym k k').
  destruct (String.eqb k' k); cbn [orb map fst]; [reflexivity|].
  fold (Dict.keys tl) in *. fold (Dict.keys (Dict.set tl k v)). rewrite IH.
  now destruct (existsb (String.eqb k) (Dict.keys tl)).
Qed.

Lemma dict_set_nodup {V} (d : Dict.t V) (k : string) (v : V) :
  NoDup (Dict.keys d) -> NoDup (Dict.keys (Dict.set d k v)).
Proof.
  intros Hnd. rewrite dict_set_keys.
  destruct (existsb (String.eqb k) (Dict.keys d)) eqn:E; [exact Hnd|].
  apply NoDup_app; [exact Hnd | repeat constructor; intros [] |].
  intros x Hx [Ex|[]]. subst x.
  assert (existsb (String.eqb k) (Dict.keys d) = true)
    by (apply existsb_exists; exists k; split; [exact Hx | apply String.eqb_refl]).
  congruence.
Qed.

Lemma revealed_bids_nodup (commits : list RoundCommit.t) :
  NoDup (Dict.keys (revealed_bids commits)).
Proof.
  unfold revealed_bids.
  assert (H : forall (cs : list RoundCommit.t) (d : Dict.t Z),
             NoDup (Dict.keys d) ->
             NoDup (Dict.keys
                      (fold_left (fun bids c =>
                                    match RoundCommit.bid c with
                                    | Some bid => Dict.set bids (RoundCommit.agent_address c) bid
                                    | None => bids
                                    end) cs d))).
  { induction cs as [|c tl IH]; intros d Hd; [exact Hd|].
    cbn [fold_left]. apply IH. destruct (RoundCommit.bid c); [|exact Hd].
    now apply dict_set_nodup. }
  apply H. constructor.
Qed.

(** The final ranking lists the revealed addresses, each once. *)
Lemma final_ranking_perm (bids : Dict.t Z) (secret : Z) (variant : GameVariant) :
  NoDup (Dict.keys bids) ->
  Permutation (GameEngine.determine_final_ranking
                 (GameEngine.compute_distances bids secret variant) variant)
              (Dict.keys bids).
Proof.
  intros Hnd. rewrite determine_final_ranking_unfold.
  eapply Permutation_trans.
  - apply Permutation_map. apply sorted_players_perm.
  - rewrite compute_distances_map by exact Hnd.
    unfold Dict.keys. rewrite map_map. cbn [fst]. apply Permutation_refl.
Qed.

(** A round with at most five reveals: the answer, and the tables it
    leaves alone. *)
Lemma resolve_round_final (now : Z) (round_obj : Round.t) (db : DB) (t : Tournament.t)
      (secret : Z) :
  let tid := Round.tournament_id round_obj in
  let commits := commits_of_round (Round.id round_obj) db in
  let bids := revealed_bids commits in
  let distances := GameEngine.compute_distances bids secret (Tournament.variant t) in
  find_tournament tid db = Some t ->
  revealed_salts commits <> [] ->
  GameEngine.compute_secret (revealed_salts commits) = Some secret ->
  Dict.len bids <= 5 ->
  outcome (GameEngine.resolve_round now round_obj db)
  = Returned (GameEngine.Final secret
                (GameEngine.determine_final_ranking distances (Tournament.variant t))
                (non_revealers commits))
  /\ same_people db (final (GameEngine.resolve_round now round_obj db)).
Proof.
  intros tid commits bids distances Ht Hsome Hsecret Hfew.
  unfold GameEngine.resolve_round. cbv zeta. fold tid.
  erewrite bind_quiet by reflexivity.
  unfold select_commits. erewrite bind_quiet by reflexivity.
  fold (commits_of_round (Round.id round_obj) db). fold commits.
  unfold GameEngine.collect_reveals.
  erewrite bind_quiet by apply collect_reveals_run.
  cbn [app]. fold (revealed_bids commits). fold bids.
  destruct (revealed_salts commits) as [|salt salts] eqn:Hsalts; [contradiction|].
  rewrite Hsecret.
  erewrite bind_quiet by reflexivity.
  erewrite bind_quiet by reflexivity.
  rewrite Ht. erewrite bind_quiet by reflexivity.
  set (d1 := with_rounds _ _).
  assert (H1 : same_people db d1) by (subst d1; now split).
  erewrite bind_quiet
    by (rewrite tournament_attr_run, (same_people_find tid db d1 H1), Ht; reflexivity).
  fold distances.
  rewrite outcome_bind, final_bind.
  match goal with
  | |- context [for_each commits ?body d1] =>
      destruct (people_loop_run commits body d1) as [Ho2 H2];
        [intros c d; destruct (Dict.get distances (RoundCommit.agent_address c));
         (split; [reflexivity | now split])
        |];
        rewrite Ho2; set (d2 := final (for_each commits body d1)) in *
  end.
  assert (H02 : same_people db d2) by exact (same_people_trans _ _ _ H1 H2).
  destruct (Z.leb_spec (Dict.len bids) 5) as [_|]; [|lia].
  erewrite bind_quiet
    by (rewrite tournament_attr_run, (same_people_find tid db d2 H02), Ht; reflexivity).
  erewrite bind_quiet by reflexivity.
  erewrite bind_quiet by reflexivity.
  split; [reflexivity|].
  destruct H02 as [Ha Hb]. split; cbn; assumption.
Qed.

Lemma revealed_bids_some (commits : list RoundCommit.t) :
  revealed_salts commits <> [] -> revealed_bids commits <> [].
Proof.
  unfold revealed_salts, revealed_bids.
  destruct (reveals commits) as [|c tl] eqn:E; [intros H; now contradiction H|].
  intros _.
  assert (Hc : has_reveal c = true).
  { assert (Hin : In c (reveals commits)) by (rewrite E; now left).
    apply filter_In in Hin. tauto. }
  unfold has_reveal in Hc. cbn [fold_left].
  destruct (RoundCommit.bid c) as [bid|];
    [|destruct (RoundCommit.revealed c); discriminate].
  cbn [Dict.set].
  assert (H : forall (cs : list RoundCommit.t) (d : Dict.t Z),
             d <> [] ->
             fold_left (fun bids c =>
                          match RoundCommit.bid c with
                          | Some bid => Dict.set bids (RoundCommit.agent_address c) bid
                          | None => bids
                          end) cs d <> []).
  { induction cs as [|x xs IH]; intros d Hd; [exact Hd|].
    cbn [fold_left]. apply IH. destruct (RoundCommit.bid x); [|exact Hd].
    destruct d as [|[k v] d']; [contradiction|].
    cbn [Dict.set]. destruct (String.eqb k (RoundCommit.agent_address x)); discriminate. }
  apply H. discriminate.
Qed.

(** X28. The tick ends the tournament after its last round.  When
    tournament ids are unique, [t] is the only tournament due at [now], it
    is in the reveal phase of a round with at most five revealed
    addresses (somebody revealed, the salts are hexadecimal), entry ids
    are unique and no address has two entries in the tournament, the
    tick returns; the tournament is then FINISHED, with the head of the
    final ranking of the revealed bids as winner and the next four as
    finalists, and with the hash of the on-chain resolution if that went
    through; the entries of the first five of the ranking have their
    places as final ranks and no other entry changes.  The ranking is
    not empty and lists exactly the addresses that revealed, each once. *)
Theorem tick_finishes_last_round :
  forall (config : Config) (chain : Chain) (now : Z) (clock : Z -> nat -> Z) (db : DB)
         (t : Tournament.t) (r : Round.t) (secret : Z),
    let tid := Tournament.id t in
    let commits := commits_of_round (Round.id r) db in
    let bids := revealed_bids commits in
    let distances := GameEngine.compute_distances bids secret (Tournament.variant t) in
    let ranking := GameEngine.determine_final_ranking distances (Tournament.variant t) in
    let run := Main.process_phase_transitions config chain now clock db in
    unique_ids db ->
    filter (Main.due now) (tournaments db) = [t] ->
    Tournament.state t = REVEAL ->
    rounds_numbered tid (Tournament.current_round t) db = [r] ->
    revealed_salts commits <> [] ->
    GameEngine.compute_secret (revealed_salts commits) = Some secret ->
    Dict.len bids <= 5 ->
    NoDup (map TournamentEntry.id (tournament_entries db)) ->
    (forall addr, (List.length (entries_of tid addr db) <= 1)%nat) ->
    outcome run = Returned tt
    /\ find_tournament tid (final run)
       = Some (crowned chain (clock tid 1%nat) ranking t)
    /\ tournament_entries (final run)
       = map (ranked tid ranking) (tournament_entries db)
    /\ ranking <> []
    /\ Permutation ranking (Dict.keys bids).
Proof.
  intros config chain now clock db t r secret tid commits bids distances ranking run
         Hids Hdue Hstate Hround Hsome Hsecret Hfew Heids Hone.
  assert (Hperm : Permutation ranking (Dict.keys bids))
    by (apply final_ranking_perm, revealed_bids_nodup).
  assert (Hne : ranking <> []).
  { intros E. rewrite E in Hperm. apply Permutation_nil in Hperm.
    apply (revealed_bids_some commits Hsome).
    fold bids. unfold Dict.keys in Hperm. now destruct bids. }
  assert (Hin : In t (tournaments db)).
  { assert (H : In t (filter (Main.due now) (tournaments db)))
      by (rewrite Hdue; now left).
    apply filter_In in H. tauto. }
  pose proof (find_unique db t Hids Hin) as Ht. fold tid in Ht.
  assert (Hr : Round.tournament_id r = tid).
  { assert (H : In r (rounds_numbered tid (Tournament.current_round t) db))
      by (rewrite Hround; now left).
    apply filter_In in H. destruct H as [_ H].
    apply andb_true_iff in H. destruct H as [H _]. now apply Z.eqb_eq. }
  assert (Hres := resolve_round_final (clock tid 0%nat) r db t secret).
  cbv zeta in Hres. rewrite Hr in Hres.
  specialize (Hres Ht Hsome Hsecret Hfew). fold commits bids distances ranking in Hres.
  destruct Hres as [Hout Hpeople].
  set (db1 := final (GameEngine.resolve_round (clock tid 0%nat) r db)) in *.
  assert (Ht1 : find_tournament tid db1 = Some t)
    by (rewrite (same_people_find tid db db1 Hpeople); exact Ht).
  destruct Hpeople as [_ He1].
  pose proof (finish_tournament_run (clock tid 1%nat) tid ranking db1 t Ht1) as Hfin.
  assert (Hfin' : GameEngine.finish_tournament (clock tid 1%nat) tid ranking db1
                  = mkRun (Returned tt) (finished_db (clock tid 1%nat) tid ranking db1) []).
  { apply Hfin.
    - apply nodup_firstn. eapply Permutation_NoDup.
      + apply Permutation_sym. exact Hperm.
      + apply revealed_bids_nodup.
    - now rewrite He1.
    - intros addr. unfold entries_of. rewrite He1. apply Hone. }
  clear Hfin.
  set (db2 := finished_db (clock tid 1%nat) tid ranking db1) in *.
  assert (Ht2 : find_tournament tid db2
                = Some (to_finished (clock tid 1%nat) ranking t)).
  { unfold find_tournament in *. subst db2. unfold finished_db. cbn [tournaments].
    rewrite find_update_where by reflexivity. now rewrite Ht1. }
  assert (Hadv : let a := Main.advance_phase config chain (clock tid) tid r db in
                 outcome a = Returned tt
                 /\ find_tournament tid (final a)
                    = Some (crowned chain (clock tid 1%nat) ranking t)
                 /\ tournament_entries (final a) = tournament_entries db2).
  { cbv zeta. unfold Main.advance_phase.
    rewrite (bind_attr _ _ _ _ _ Ht), Hstate.
    rewrite outcome_bind, final_bind, Hout. fold db1.
    rewrite (bind_attr _ _ _ _ _ Ht1).
    rewrite outcome_bind, final_bind. cbn [logger outcome final].
    rewrite (bind_quiet _ _ _ _ _ Hfin').
    unfold try_except.
    rewrite (bind_attr _ _ _ _ _ Ht2).
    cbn [Tournament.chain_id to_finished Tournament.with_finalist_addresses
         Tournament.with_winner_address Tournament.with_finished_at
         Tournament.with_state].
    unfold crowned.
    destruct ranking as [|winner rest] eqn:Hranking; [contradiction|].
    erewrite bind_quiet by reflexivity.
    destruct (resolve_tournament chain (Tournament.chain_id t) winner
                                 (slice_to 4 (slice_from 1 (winner :: rest))))
      as [tx_hash|].
    - cbn [outcome final assign_tournament modify].
      split; [reflexivity|]. split; [|reflexivity].
      unfold find_tournament in *. cbn [tournaments with_tournaments].
      rewrite find_update_where by reflexivity. now rewrite Ht2.
    - cbn [outcome final raise logger]. split; [reflexivity|]. split; [exact Ht2|reflexivity]. }
  cbv zeta in Hadv. destruct Hadv as [Ho [Hf He]].
  unfold run. rewrite tick_run, Hdue. cbn [for_each].
  rewrite outcome_bind, final_bind.
  unfold tick_iteration. fold tid.
  unfold try_except.
  rewrite (phase_transition_run config chain (clock tid) tid db t Ht), Hround.
  cbv zeta. rewrite !Ho. cbn [outcome final ret]. rewrite ?Ho. cbn [outcome final ret].
  split; [reflexivity|]. split; [exact Hf|]. split; [|split; assumption].
  rewrite He. subst db2. unfold finished_db. cbn [tournament_entries].
  now rewrite He1.
Qed.

Lemma tick_finishes_last_round_witness :
  outcome (Main.process_phase_transitions default_config sample_chain 2000
                                          (ticking_clock 2000) last_round_db)
  = Returned tt
  /\ find_tournament 1 (final (Main.process_phase_transitions
                                 default_config sample_chain 2000 (ticking_clock 2000)
                                 last_round_db))
     = Some (crowned sample_chain 2001
               (GameEngine.determine_final_ranking
                  (GameEngine.compute_distances
                     (revealed_bids (commits_of_round 1 last_round_db)) 296 CLASSIC)
                  CLASSIC)
               (sample_tournament 1 REVEAL 1 (Some 1000)))
  /\ tournament_entries (final (Main.process_phase_transitions
                                  default_config sample_chain 2000 (ticking_clock 2000)
                                  last_round_db))
     = map (ranked 1 (GameEngine.determine_final_ranking
                        (GameEngine.compute_distances
                           (revealed_bids (commits_of_round 1 last_round_db)) 296 CLASSIC)
                        CLASSIC))
           (tournament_entries last_round_db)
  /\ GameEngine.determine_final_ranking
       (GameEngine.compute_distances
          (revealed_bids (commits_of_round 1 last_round_db)) 296 CLASSIC) CLASSIC
     <> []
  /\ Permutation
       (GameEngine.determine_final_ranking
          (GameEngine.compute_distances
             (revealed_bids (commits_of_round 1 last_round_db)) 296 CLASSIC) CLASSIC)
       (Dict.keys (revealed_bids (commits_of_round 1 last_round_db))).
Proof.
  apply (tick_finishes_last_round
           default_config sample_chain 2000 (ticking_clock 2000) last_round_db
           (sample_tournament 1 REVEAL 1 (Some 1000)) round_1 296).
  - vm_compute. repeat constructor; cbn; intuition discriminate.
  - reflexivity.
  - reflexivity.
  - reflexivity.
  - vm_compute. discriminate.
  - vm_compute. reflexivity.
  - vm_compute. discriminate.
  - vm_compute. repeat constructor; cbn; intuition lia.
  - intros addr. apply nodup_entrant_one.
    vm_compute. repeat constructor; cbn; intuition discriminate.
Defined.

(** The tournament of the witness after the tick: "0xa1", whose bid 400 is
    closest to the secret 296, has won; "0xa3" and "0xa2" follow. *)
Example last_round_of_last_round_db :
  option_map (fun t => (Tournament.state t, Tournament.winner_address t,
                        Tournament.finalist_addresses t))
             (find_tournament 1 (final (Main.process_phase_transitions
                                          default_config sample_chain 2000
                                          (ticking_clock 2000) last_round_db)))
  = Some (FINISHED, Some "0xa1", Some ["0xa3"; "0xa2"]).
Proof. vm_compute. reflexivity. Qed.

(** ** The tick at the end of a reveal phase *)

(** X29. A round that eliminates is followed by the next one.  When
    tournament ids are unique and the only tournament due at the tick is in
    the reveal phase of a round with more than five revealed addresses
    (hexadecimal salts, unique entry ids, no address with two entries in the
    tournament), the tick returns; the tournament is then in the COMMIT
    phase of the next round, with the commit deadline [COMMIT_DURATION]
    after the tick's reading of the clock as phase deadline; a round with
    the next number has been added for the survivors that [eliminate] gives,
    with that commit deadline and no reveal deadline; the entries of the
    eliminated and of those who did not reveal are no longer alive, and no
    other entry has changed. *)
Theorem tick_starts_next_round :
  forall (config : Config) (chain : Chain) (now : Z) (clock : Z -> nat -> Z) (db : DB)
         (t : Tournament.t) (r : Round.t) (secret : Z),
    let tid := Tournament.id t in
    let commits := commits_of_round (Round.id r) db in
    let bids := revealed_bids commits in
    let distances := GameEngine.compute_distances bids secret (Tournament.variant t) in
    let survivors := fst (GameEngine.eliminate distances (Tournament.variant t)) in
    let out := (snd (GameEngine.eliminate distances (Tournament.variant t))
                ++ non_revealers commits)%list in
    let deadline := clock tid 1%nat + timedelta (COMMIT_DURATION config) in
    let run := Main.process_phase_transitions config chain now clock db in
    unique_ids db ->
    filter (Main.due now) (tournaments db) = [t] ->
    Tournament.state t = REVEAL ->
    rounds_numbered tid (Tournament.current_round t) db = [r] ->
    GameEngine.compute_secret (revealed_salts commits) = Some secret ->
    5 < Dict.len bids ->
    NoDup (map TournamentEntry.id (tournament_entries db)) ->
    (forall addr, (List.length (entries_of tid addr db) <= 1)%nat) ->
    outcome run = Returned tt
    /\ find_tournament tid (final run) = Some (to_commit deadline t)
    /\ (exists id,
          In (Round.mk id tid (Tournament.current_round t + 1) None
                       (Z.of_nat (List.length survivors)) 0 (Some deadline) None None)
             (rounds (final run)))
    /\ tournament_entries (final run) = map (knocked_out tid out) (tournament_entries db).
Proof.
  intros config chain now clock db t r secret tid commits bids distances survivors out
         deadline run Hids Hdue Hstate Hround Hsecret Hmany Heids Hone.
  assert (Hin : In t (tournaments db)).
  { assert (H : In t (filter (Main.due now) (tournaments db)))
      by (rewrite Hdue; now left).
    apply filter_In in H. tauto. }
  pose proof (find_unique db t Hids Hin) as Ht. fold tid in Ht.
  assert (Hr : Round.tournament_id r = tid).
  { assert (H : In r (rounds_numbered tid (Tournament.current_round t) db))
      by (rewrite Hround; now left).
    apply filter_In in H. destruct H as [_ H].
    apply andb_true_iff in H. destruct H as [H _]. now apply Z.eqb_eq. }
  assert (Hres := resolve_round_elimination (clock tid 0%nat) r db t secret).
  cbv zeta in Hres. rewrite Hr in Hres.
  specialize (Hres Ht Hsecret Hmany Heids Hone).
  fold commits bids distances survivors out in Hres.
  destruct Hres as [Hout [Hrows Hents]].
  set (db1 := final (GameEngine.resolve_round (clock tid 0%nat) r db)) in *.
  assert (Ht1 : find_tournament tid db1 = Some (Tournament.with_state RESOLVING t)).
  { unfold find_tournament in *. rewrite Hrows.
    rewrite find_update_where by reflexivity. now rewrite Ht. }
  assert (Hadv : let a := Main.advance_phase config chain (clock tid) tid r db in
                 outcome a = Returned tt
                 /\ find_tournament tid (final a) = Some (to_commit deadline t)
                 /\ (exists id,
                       In (Round.mk id tid (Tournament.current_round t + 1) None
                                    (Z.of_nat (List.length survivors)) 0 (Some deadline)
                                    None None)
                          (rounds (final a)))
                 /\ tournament_entries (final a) = tournament_entries db1).
  { cbv zeta. unfold Main.advance_phase.
    rewrite (bind_attr _ _ _ _ _ Ht), Hstate.
    rewrite outcome_bind, final_bind, Hout. fold db1.
    rewrite (bind_attr _ _ _ _ _ Ht1).
    rewrite outcome_bind, final_bind. cbn [logger outcome final].
    cbv zeta.
    rewrite (bind_quiet _ _ _ _ _
               (start_new_round_run config (clock tid 1%nat) tid
                                    (Z.of_nat (List.length survivors)) db1 _ Ht1)).
    cbn [outcome final ret rounds tournament_entries].
    split; [reflexivity|]. split; [|split; [|reflexivity]].
    - unfold find_tournament in *. cbn [tournaments].
      rewrite find_update_where by reflexivity. rewrite Ht1. reflexivity.
    - eexists. apply in_or_app. right. left. reflexivity. }
  cbv zeta in Hadv. destruct Hadv as [Ho [Hf [Hnew He]]].
  unfold run. rewrite tick_run, Hdue. cbn [for_each].
  rewrite outcome_bind, final_bind.
  unfold tick_iteration. fold tid.
  unfold try_except.
  rewrite (phase_transition_run config chain (clock tid) tid db t Ht), Hround.
  cbv zeta. rewrite !Ho. cbn [outcome final ret]. rewrite ?Ho. cbn [outcome final ret].
  split; [reflexivity|]. split; [exact Hf|]. split; [exact Hnew|].
  now rewrite He.
Qed.

Lemma tick_starts_next_round_witness :
  outcome (Main.process_phase_transitions default_config sample_chain 2000
                                          (ticking_clock 2000) crowded_db)
  = Returned tt
  /\ find_tournament 1 (final (Main.process_phase_transitions
                                 default_config sample_chain 2000 (ticking_clock 2000)
                                 crowded_db))
     = Some (to_commit (2001 + timedelta (COMMIT_DURATION default_config))
                       (sample_tournament 1 REVEAL 1 (Some 1000)))
  /\ (exists id,
        In (Round.mk id 1 (1 + 1) None
                     (Z.of_nat
                        (List.length
                           (fst (GameEngine.eliminate
                                   (GameEngine.compute_distances
                                      (revealed_bids (commits_of_round 1 crowded_db))
                                      747 CLASSIC) CLASSIC))))
                     0 (Some (2001 + timedelta (COMMIT_DURATION default_config)))
                     None None)
           (rounds (final (Main.process_phase_transitions
                             default_config sample_chain 2000 (ticking_clock 2000)
                             crowded_db))))
  /\ tournament_entries (final (Main.process_phase_transitions
                                  default_config sample_chain 2000 (ticking_clock 2000)
                                  crowded_db))
     = map (knocked_out 1
              (snd (GameEngine.eliminate
                      (GameEngine.compute_distances
                         (revealed_bids (commits_of_round 1 crowded_db)) 747 CLASSIC)
                      CLASSIC)
               ++ non_revealers (commits_of_round 1 crowded_db)))
           (tournament_entries crowded_db).
Proof.
  apply (tick_starts_next_round
           default_config sample_chain 2000 (ticking_clock 2000) crowded_db
           (sample_tournament 1 REVEAL 1 (Some 1000)) round_1 747).
  - vm_compute. repeat constructor; cbn; intuition discriminate.
  - reflexivity.
  - reflexivity.
  - reflexivity.
  - vm_compute. reflexivity.
  - vm_compute. reflexivity.
  - vm_compute. repeat constructor; cbn; intuition lia.
  - intros addr. apply nodup_entrant_one.
    vm_compute. repeat constructor; cbn; intuition discriminate.
Defined.

(** The tournament of the witness after the tick: in the commit phase of
    round 2, which three survivors start. *)
Example next_round_of_crowded_db :
  option_map (fun t => (Tournament.state t, Tournament.current_round t,
                        Tournament.phase_deadline t))
             (find_tournament 1 (final (Main.process_phase_transitions
                                          default_config sample_chain 2000
                                          (ticking_clock 2000) crowded_db)))
  = Some (COMMIT, 2, Some 300002001)
  /\ map (fun r => (Round.round_number r, Round.players_start r))
         (rounds (final (Main.process_phase_transitions
                           default_config sample_chain 2000 (ticking_clock 2000)
                           crowded_db)))
     = [(1, 8); (2, 3)].
Proof. vm_compute. split; reflexivity. Qed.

(** A round nobody revealed in: the answer, and the tables it leaves
    alone. *)
Lemma resolve_round_silent (now : Z) (round_obj : Round.t) (db : DB) :
  let commits := commits_of_round (Round.id round_obj) db in
  revealed_salts commits = [] ->
  outcome (GameEngine.resolve_round now round_obj db)
  = Returned (GameEngine.NoReveals [] (non_revealers commits))
  /\ same_people db (final (GameEngine.resolve_round now round_obj db)).
Proof.
  intros commits Hsalts.
  unfold GameEngine.resolve_round. cbv zeta.
  erewrite bind_quiet by reflexivity.
  unfold select_commits. erewrite bind_quiet by reflexivity.
  fold (commits_of_round (Round.id round_obj) db). fold commits.
  unfold GameEngine.collect_reveals.
  erewrite bind_quiet by apply collect_reveals_run.
  cbn [app]. rewrite Hsalts.
  erewrite bind_quiet by reflexivity.
  erewrite bind_quiet by reflexivity.
  erewrite bind_quiet by reflexivity.
  split; [reflexivity | now split].
Qed.

(** [finish_tournament] with the empty ranking. *)
Lemma finish_tournament_nobody (now tid : Z) (db : DB) (t : Tournament.t) :
  find_tournament tid db = Some t ->
  GameEngine.finish_tournament now tid [] db
  = mkRun (Returned tt)
          (with_tournaments
             (update_where (fun t => Tournament.id t =? tid) (to_finished now [])
                           (tournaments db)) db)
          [].
Proof.
  intros Ht. unfold GameEngine.finish_tournament. cbv zeta.
  erewrite bind_quiet by reflexivity. rewrite Ht.
  erewrite bind_quiet by reflexivity.
  do 4 (erewrite bind_quiet by reflexivity).
  cbn [slice_to firstn GameEngine.enumerate List.length seq map combine for_each].
  erewrite bind_quiet by reflexivity.
  unfold ret, with_tournaments.
  cbn [agents tournaments tournament_entries rounds round_commits].
  rewrite !update_where_fuse by reflexivity. reflexivity.
Qed.

(** X30. A round nobody revealed in ends the tournament without a winner.
    When tournament ids are unique and the only tournament due at the tick
    is in the reveal phase of a round in which no commitment counts as a
    reveal, the tick returns; the tournament is then FINISHED with no
    winner and an empty list of finalists, and every entry is exactly as it
    was: nobody is ranked, and nobody's entry stops being alive. *)
Theorem tick_ends_silent_round :
  forall (config : Config) (chain : Chain) (now : Z) (clock : Z -> nat -> Z) (db : DB)
         (t : Tournament.t) (r : Round.t),
    let tid := Tournament.id t in
    let run := Main.process_phase_transitions config chain now clock db in
    unique_ids db ->
    filter (Main.due now) (tournaments db) = [t] ->
    Tournament.state t = REVEAL ->
    rounds_numbered tid (Tournament.current_round t) db = [r] ->
    revealed_salts (commits_of_round (Round.id r) db) = [] ->
    outcome run = Returned tt
    /\ find_tournament tid (final run) = Some (to_finished (clock tid 1%nat) [] t)
    /\ Tournament.winner_address (to_finished (clock tid 1%nat) [] t) = None
    /\ Tournament.finalist_addresses (to_finished (clock tid 1%nat) [] t) = Some []
    /\ tournament_entries (final run) = tournament_entries db.
Proof.
  intros config chain now clock db t r tid run Hids Hdue Hstate Hround Hsalts.
  assert (Hin : In t (tournaments db)).
  { assert (H : In t (filter (Main.due now) (tournaments db)))
      by (rewrite Hdue; now left).
    apply filter_In in H. tauto. }
  pose proof (find_unique db t Hids Hin) as Ht. fold tid in Ht.
  destruct (resolve_round_silent (clock tid 0%nat) r db Hsalts) as [Hout Hpeople].
  set (db1 := final (GameEngine.resolve_round (clock tid 0%nat) r db)) in *.
  assert (Ht1 : find_tournament tid db1 = Some t)
    by (rewrite (same_people_find tid db db1 Hpeople); exact Ht).
  destruct Hpeople as [_ He1].
  assert (Hadv : let a := Main.advance_phase config chain (clock tid) tid r db in
                 outcome a = Returned tt
                 /\ find_tournament tid (final a) = Some (to_finished (clock tid 1%nat) [] t)
                 /\ tournament_entries (final a) = tournament_entries db1).
  { cbv zeta. unfold Main.advance_phase.
    rewrite (bind_attr _ _ _ _ _ Ht), Hstate.
    rewrite outcome_bind, final_bind, Hout. fold db1.
    rewrite (bind_attr _ _ _ _ _ Ht1).
    rewrite outcome_bind, final_bind. cbn [logger outcome final].
    rewrite (finish_tournament_nobody _ _ _ _ Ht1). cbn [outcome final].
    split; [reflexivity|]. split; [|reflexivity].
    unfold find_tournament in *. cbn [tournaments with_tournaments].
    rewrite find_update_where by reflexivity. now rewrite Ht1. }
  cbv zeta in Hadv. destruct Hadv as [Ho [Hf He]].
  unfold run. rewrite tick_run, Hdue. cbn [for_each].
  rewrite outcome_bind, final_bind.
  unfold tick_iteration. fold tid.
  unfold try_except.
  rewrite (phase_transition_run config chain (clock tid) tid db t Ht), Hround.
  cbv zeta. rewrite !Ho. cbn [outcome final ret]. rewrite ?Ho. cbn [outcome final ret].
  split; [reflexivity|]. split; [exact Hf|].
  split; [reflexivity|]. split; [reflexivity|].
  now rewrite He.
Qed.

Lemma tick_ends_silent_round_witness :
  outcome (Main.process_phase_transitions default_config sample_chain 2000
                                          (ticking_clock 2000) silent_db)
  = Returned tt
  /\ find_tournament 1 (final (Main.process_phase_transitions
                                 default_config sample_chain 2000 (ticking_clock 2000)
                                 silent_db))
     = Some (to_finished 2001 [] (sample_tournament 1 REVEAL 1 (Some 1000)))
  /\ Tournament.winner_address
       (to_finished 2001 [] (sample_tournament 1 REVEAL 1 (Some 1000))) = None
  /\ Tournament.finalist_addresses
       (to_finished 2001 [] (sample_tournament 1 REVEAL 1 (Some 1000))) = Some []
  /\ tournament_entries (final (Main.process_phase_transitions
                                  default_config sample_chain 2000 (ticking_clock 2000)
                                  silent_db))
     = tournament_entries silent_db.
Proof.
  apply (tick_ends_silent_round
           default_config sample_chain 2000 (ticking_clock 2000) silent_db
           (sample_tournament 1 REVEAL 1 (Some 1000)) round_1).
  - vm_compute. repeat constructor; cbn; intuition discriminate.
  - reflexivity.
  - reflexivity.
  - reflexivity.
  - reflexivity.
Defined.
